(* ===== verification/_CoqProject ===== *)
-Q . S2P
Prelude.v
Float64.v
FloatFacts.v
Core.v
Quantity.v
Policy.v
Usage.v
Store.v
StoreFacts.v
StoreQueries.v
Json.v
Provision.v
Manifests.v
Network.v
Nodes.v
Kube.v
KubeRay.v
KubeRayFacts.v
Kueue.v
DaskClient.v
Router.v
Reconcile.v
PoolReconcile.v
Sample.v
ReconcileFacts.v
ReaperFacts.v
Converge.v
Auth.v
Oidc.v
LocalAuth.v
Registry.v
Views.v
Api.v
AuthLayer.v
AdminApi.v
AccountApi.v
AuditApi.v
Metering.v
ApiFacts.v
ApiLaws.v
AdminFacts.v
Admission.v
Concurrent.v
Sql.v
SqliteStore.v
SqliteFacts.v
SqliteRefine.v
SqliteReads.v
SqliteProps.v
PostgresStore.v
PostgresSchedule.v
PostgresReads.v
PostgresProps.v
Schema.v
SchemaFacts.v
Http.v
ObsApi.v
ObsFacts.v
JobHistory.v
Gateway.v
GatewayFacts.v
Serve.v
Proxy.v
UsageApi.v
UsageFacts.v
MetricsFacts.v
ServiceApi.v
Routes.v
RoutesFacts.v
Flows.v
Base64.v
Cli.v
CliFacts.v
Startup.v
