(* ===== verification/Prelude.v ===== *)
(** * Mobula: a verification development of the control plane

    Mobula is a control plane for Ray and Dask clusters on Kubernetes. Its API takes
    desired state into a store; a reconcile loop brings the clusters to it through a
    provisioner; a second loop does the same for capacity pools through Kueue; a
    third samples usage. This library models the decision-making code of its crates
    (src/crates/...) as executable definitions and proves what makes it correct.

    ** How the parts fit

    [Serve] puts the server together. A request passes [AuthLayer.require_auth], which turns a bearer into an
    [Identity] through [Oidc] (provider tokens) or [LocalAuth] (tokens of local
    users). One for a cluster's host then goes to [Gateway], which sends it on with
    the cluster's credentials in place of the caller's; any other is matched by the
    table of [Routes], which reads its arguments and calls a handler of [Api], [AdminApi], [AccountApi], [AuditApi], [UsageApi], [ObsApi] or
    [ServiceApi]. [Proxy] is the same exchange as a process of its own, in front of
    one upstream; [Cli] and [Flows] are the client's side of the login.
    Handlers authorize against [Auth], decide with [Policy] and write the [Store],
    every decision leaving a row in its hash-chained audit trail. [Reconcile] reads
    the store and calls a [Provision.Provisioner]; the implementations are the demo
    backend ([Provision.Demo]), [KubeRay] and [DaskClient] over an API server
    ([Kube]), and [Router] over two of them. [PoolReconcile] and [Metering] do the
    same over [Kueue.PoolProvisioner]. Stateful code is state passing in the monad
    [ST W E A] below: a function from a world to a result and a world, so a failed
    handler keeps what it had written. Worlds carry the store, the clock as a
    stream of readings, and the backend; Rust integers are [Z] at their width, f64
    is IEEE 754 over the Standard Library's SpecFloat, BTreeMaps are [gmap]s
    iterated in key order.

    ** Files and sources (under src/crates/)

    - Prelude: results, the monad, machine integers, stable sorting, strings.
    - Float64, FloatFacts: doubles, their parser, rounding facts; std's f64.
    - Core: mobula-core cluster.rs, pool.rs, job.rs, audit.rs, auth.rs.
    - Quantity, Policy, Usage: mobula-policy (quantities; demand, prices, quotas,
      budgets, GPU isolation; the usage integral).
    - Store; StoreFacts, StoreQueries: mobula-controller store.rs, the in-memory
      store operation by operation, then its invariants and its queries.
    - Sql: tables and the forms of statement, over a SQL engine as a class.
      SqliteStore: mobula-controller store_sqlite.rs over it. SqliteFacts,
      SqliteRefine, SqliteReads, SqliteProps: failing statements, the
      representation of an in-memory store by a database, what every query then
      reads, and the refinement theorem. The boolean columns are a class
      ([BoolColumn]), so the tables serve both databases.
    - PostgresStore: store_postgres.rs, each operation as a program of statements,
      advisory locks and transactions. PostgresSchedule: how the programs of many
      connections interleave at READ COMMITTED. PostgresReads, PostgresProps: what
      queries then read, and that every schedule is serial.
    - Schema: the schemas of both stores, SQLite's column migrations and [init], on
      catalogs of untyped tables. SchemaFacts: what booting an older database gives.
    - Json: serde_json values. Provision: mobula-provision lib.rs, demo.rs.
    - Manifests, Network, Nodes: kuberay.rs and dask.rs, as manifests and drift
      fingerprints, network policies and services, and node, event and log views.
    - Kube, KubeRay, KubeRayFacts, DaskClient, Kueue: an API server as a class with
      laws and an in-memory instance, then kuberay_client.rs, dask_client.rs,
      kueue.rs and kueue_client.rs over it. Router: router.rs.
    - Reconcile, ReconcileFacts, ReaperFacts, Converge: mobula-controller
      reconcile.rs; Sample: shared concrete values. PoolReconcile, Metering:
      pool_reconcile.rs, metering.rs.
    - Auth, Oidc, LocalAuth: mobula-auth lib.rs (roles and claims; the JWKS
      validator) and local.rs. Registry: mobula-core registry.rs.
    - Views, Api, AuthLayer, AdminApi, AccountApi, AuditApi: mobula-api clusters.rs,
      usage.rs, auth_layer.rs, settings.rs, pools.rs, access.rs, local_auth.rs,
      audit.rs. ApiFacts, Admission, ApiLaws, AdminFacts: their theorems.
    - Concurrent: create requests in flight, as threads over the store and the
      per-project admission locks.
    - Http: header maps, body streams and the header filters of mobula-api
      gateway.rs, which mobula-proxy repeats. Gateway, GatewayFacts: gateway.rs.
      ObsApi, ObsFacts: cluster_obs.rs. JobHistory: job_history.rs and the jobs
      route. UsageApi, UsageFacts, MetricsFacts: the report and metrics routes of
      usage.rs. ServiceApi: services.rs, registry.rs. Serve: the layers of lib.rs.
      Routes: the route table of lib.rs, the extractors of its handlers and the
      call each route makes. RoutesFacts: what a call may change and for whom.
    - Proxy: mobula-proxy lib.rs. Flows: mobula-auth flows.rs. Base64, Cli,
      CliFacts: mobula-cli main.rs. Startup: its serve command and [serve] of lib.rs,
      as the sequence of steps up to listening.

    ** What the theorems show

    - Store: any sequence of operations keeps it well formed; generations only grow;
      editing the audit trail is detected; queries and pages are complete. The
      SQLite store refines the in-memory one whatever statements fail. Booting
      brings a database of any earlier schema up to date and chains its audit
      trail, in several attempts if need be. Every interleaving of Postgres
      connections answers as the in-memory store does, one call after the other,
      and cannot deadlock on the advisory locks.
    - Reconcile: which provider calls a pass makes and under which outbox row; one
      pass converges on the demo backend and later ones are quiet; a quarantined or
      stale control plane never actuates; reapers touch exactly what they may.
    - Kubernetes: an apply is observed with its generation and fingerprint; drift is
      exact for Ray; calls stay on their cluster; an administrator's network posture
      is left alone; the installed policies isolate tenants; the router sends each
      cluster to its engine's backend.
    - Pools and usage: the calls of a pass, that an applied pool settles, and that
      resource_hours is the integral of the sampled level.
    - API: admission is exactly authorisation, GPU isolation, quota and budget, also
      under any interleaving of creates; deletion, suspension, policy edits and
      allocations branch by branch; no row is stored that its route refuses.
    - Identity: who gets through the gate and as whom; what a provider token must
      be; how often the provider is asked; login and token life cycle; who sees
      which project; the registry routes safely; the CSV export cannot be forged.
    - Routes: the table is unambiguous; through the whole server, each part of the
      store changes only for a caller with the role or the ownership it takes, and
      without a token all but the public paths are refused.
    - Traffic: through the whole stack a request reaches a cluster only for a
      caller who may, and carries the cluster's token and none of the caller's
      credentials; the proxy is no bypass; requests in flight and what they buffer
      are bounded and websocket bridges always close; the observability routes
      show and ask only the caller's own clusters; a job refresh advances each job
      by its own cluster's answer.
    - Reports: the usage report agrees with admission; the metrics page reads back.
    - Client: the device login ends and is paced; a stored token is handed out
      exactly while it is valid; what a command writes and asks; the bootstrap
      administrator can log in. A start of the server opens one database, starts
      its loops in order, and binds only what passes the fail-closed checks.

    ** Bounds and fuel

    Fuel is used where the source loops on data: [split_ws] and [trim] run on the
    length of their input plus one, [StoreQueries]' page walk on the number of rows
    plus one, the audit backfill on the number of unchained rows plus one,
    [Concurrent] runs a thread alone for eight steps, the number of its
    states, and the device login polls on the seconds of the code's lifetime plus
    two; each is shown to be enough where it is used. Generations and counters
    are u64: theorems that need them not to wrap say so; SQLite columns are i64, so
    the refinement asks for numbers below 2^63. Theorems on sums of usage
    and on the token bucket are over exact rationals, because doubles do not
    associate.

    ** Parameters

    SHA-256 and serde_json's texts ([AuditCodec], [Serde], [PoolSerde],
    [ObservationSerde], [StoreJson]), the order in which a SQL engine returns rows
    ([SqlEngine]) and which of its statements fail, the collation and [hashtext] of
    a Postgres database ([Collation], [CollationLaws]), bcrypt and the random generator, the JWT library and the
    identity provider's answers, HTTP header and method parsing ([Http],
    [HeaderValues], [HeaderNames]), the texts of paths and bodies ([PathText],
    [FromRequest]), what clusters and upstreams answer ([Network],
    [WsClient]) and the provider of a login ([Web]), JSON and number texts
    ([JsonText], [F64Text], [CredText]), paths ([Paths]), the Kubernetes API
    server. Interfaces with several implementations are classes too
    ([Provisioner], [PoolProvisioner], [ServiceProvisioner], [ObsBackend]). Each
    parameter is a class; the laws a theorem needs are stated as a class of
    hypotheses (for instance [KubeLaws], [JwtLaws], [BcryptLaws], [HttpLaws]), and
    each has a concrete instance on which the theorem is run.

    ** Not modelled

    Of the stores, the connection pools. A COMMIT that reports failure counts as
    undone. A
    Postgres statement is one atomic step: the row locks it waits for inside the
    server are not steps of the model. The serial order of Postgres calls is not
    claimed for the calls that delete what others read before they write, nor for
    the count of failed logins; [PostgresProps.PgRuns] has the schedules that break
    it. Of mobula-api lib.rs, the OpenAPI document and its pages, the timeout and
    concurrency layers, and binding. Of gateway.rs, the southbound
    client and its CA bundle. Of mobula-cli main.rs, argument parsing and the
    log set-up. Timers, logging, tracing and the TLS provider: I/O. Texts of
    numbers ([format_quantity]) and of error messages are left as the values they
    print. *)

From stdpp Require Export base list gmap strings sorting.
From Stdlib Require Export ZArith Lia.

#[global] Open Scope Z_scope.

(** ** Rust's [Result] *)

(** [result E A] is Rust's [Result<A, E>]. *)
Inductive result (E A : Type) : Type :=
| Ok (a : A)
| Err (e : E).
Arguments Ok {E A} a.
Arguments Err {E A} e.

#[export] Instance result_ret {E} : MRet (result E) := fun _ a => Ok a.
#[export] Instance result_bind {E} : MBind (result E) := fun _ _ f m =>
  match m with Ok a => f a | Err e => Err e end.

(** [Result::map_err]. *)
Definition map_err {E F A} (f : E -> F) (m : result E A) : result F A :=
  match m with Ok a => Ok a | Err e => Err (f e) end.

Definition is_ok {E A} (m : result E A) : bool :=
  match m with Ok _ => true | Err _ => false end.

(** [Option::ok_or_else]. *)
Definition ok_or {E A} (e : E) (o : option A) : result E A :=
  match o with Some a => Ok a | None => Err e end.

Lemma result_bind_Ok {E A B} (f : A -> result E B) (m : result E A) b :
  (m ≫= f) = Ok b <-> exists a, m = Ok a /\ f a = Ok b.
Proof. destruct m; cbn; naive_solver. Qed.

(** ** The state-and-error monad of the store-backed code

    A handler that fails part of the way keeps the writes it has already made,
    so the final state comes with the error too. *)
Definition ST (W E A : Type) : Type := W -> result E A * W.

#[export] Instance ST_ret {W E} : MRet (ST W E) := fun _ a w => (Ok a, w).
#[export] Instance ST_bind {W E} : MBind (ST W E) := fun _ _ f m w =>
  match m w with
  | (Ok a, w') => f a w'
  | (Err e, w') => (Err e, w')
  end.

Definition st_err {W E A} (e : E) : ST W E A := fun w => (Err e, w).
Definition st_get {W E A} (f : W -> A) : ST W E A := fun w => (Ok (f w), w).
Definition st_put {W E} (f : W -> W) : ST W E unit := fun w => (Ok tt, f w).

Lemma ST_bind_Ok {W E A B} (f : A -> ST W E B) (m : ST W E A) w b w' :
  (m ≫= f) w = (Ok b, w') <->
  exists a w1, m w = (Ok a, w1) /\ f a w1 = (Ok b, w').
Proof.
  unfold mbind, ST_bind. destruct (m w) as [[a|e] w1]; split.
  - intros H. by exists a, w1.
  - intros (? & ? & H1 & H2). by simplify_eq.
  - intros H. by simplify_eq.
  - intros (? & ? & H1 & H2). by simplify_eq.
Qed.

Lemma ST_bind_eq {W E A B} (m : ST W E A) (f : A -> ST W E B) w :
  (m ≫= f) w = match m w with (Ok a, w') => f a w' | (Err e, w') => (Err e, w') end.
Proof. done. Qed.

Lemma ST_bind_Err {W E A B} (f : A -> ST W E B) (m : ST W E A) w e w' :
  (m ≫= f) w = (Err e, w') <->
  m w = (Err e, w') \/ exists a w1, m w = (Ok a, w1) /\ f a w1 = (Err e, w').
Proof.
  unfold mbind, ST_bind. destruct (m w) as [[a|e0] w1]; naive_solver.
Qed.

Lemma ST_bind_assoc {W E A B C} (m : ST W E A) (f : A -> ST W E B) (g : B -> ST W E C) w :
  ((m ≫= f) ≫= g) w = (m ≫= fun a => f a ≫= g) w.
Proof. unfold mbind, ST_bind. by destruct (m w) as [[a|e] w1]. Qed.

Lemma ST_bind_ext {W E A B} (m : ST W E A) (f g : A -> ST W E B) w :
  (forall a w', f a w' = g a w') -> (m ≫= f) w = (m ≫= g) w.
Proof. intros Hfg. unfold mbind, ST_bind. destruct (m w) as [[a|e] w1]; auto. Qed.

(** A [for] loop whose body may stop with an error. *)
Fixpoint st_iter {W E A} (f : A -> ST W E unit) (l : list A) : ST W E unit :=
  match l with
  | [] => mret tt
  | x :: l' => f x ≫= fun _ => st_iter f l'
  end.

(** ** Machine integers

    [u32] and [u64] values are integers in range; [+] on them wraps, as it does
    in a release build, and the saturating operations are the ones the source
    names. *)
Definition u32_max : Z := 2 ^ 32 - 1.
Definition u64_max : Z := 2 ^ 64 - 1.
Definition is_u32 (x : Z) : Prop := 0 <= x <= u32_max.
Definition is_u64 (x : Z) : Prop := 0 <= x <= u64_max.

Definition u32_add (a b : Z) : Z := (a + b) mod 2 ^ 32.
Definition u64_add (a b : Z) : Z := (a + b) mod 2 ^ 64.
Definition u64_mul (a b : Z) : Z := (a * b) mod 2 ^ 64.
Definition u64_sat_add (a b : Z) : Z := Z.min (a + b) u64_max.
Definition u64_sat_mul (a b : Z) : Z := Z.min (a * b) u64_max.
Definition u32_sat_add (a b : Z) : Z := Z.min (a + b) u32_max.
(** [saturating_sub] clamps at zero for every unsigned width. *)
Definition sat_sub (a b : Z) : Z := Z.max (a - b) 0.

Lemma u64_add_small a b : 0 <= a -> 0 <= b -> a + b <= u64_max -> u64_add a b = a + b.
Proof. unfold u64_add, u64_max. intros. apply Z.mod_small. lia. Qed.

Lemma u32_add_small a b : 0 <= a -> 0 <= b -> a + b <= u32_max -> u32_add a b = a + b.
Proof. unfold u32_add, u32_max. intros. apply Z.mod_small. lia. Qed.

Lemma u64_add_range a b : is_u64 (u64_add a b).
Proof.
  unfold is_u64, u64_add, u64_max.
  pose proof (Z.mod_pos_bound (a + b) (2 ^ 64) ltac:(lia)). lia.
Qed.

Lemma u32_add_range a b : is_u32 (u32_add a b).
Proof.
  unfold is_u32, u32_add, u32_max.
  pose proof (Z.mod_pos_bound (a + b) (2 ^ 32) ltac:(lia)). lia.
Qed.

Lemma sat_sub_le_iff a b c : 0 < c -> c <= sat_sub a b <-> b + c <= a.
Proof. unfold sat_sub. lia. Qed.

(** ** Stable sorting

    [slice::sort_by_key] and [slice::sort_by] are stable; insertion from the
    right keeps equal keys in their original order. *)
Section stable_sort.
Context {A : Type} (leb : A -> A -> bool).

Fixpoint insert_stable (x : A) (l : list A) : list A :=
  match l with
  | [] => [x]
  | y :: l' => if leb x y then x :: y :: l' else y :: insert_stable x l'
  end.

Fixpoint sort_stable (l : list A) : list A :=
  match l with
  | [] => []
  | x :: l' => insert_stable x (sort_stable l')
  end.

Lemma insert_stable_perm x l : insert_stable x l ≡ₚ x :: l.
Proof.
  induction l as [|y l IH]; cbn; [done|].
  destruct (leb x y); [done|]. rewrite IH. apply Permutation_swap.
Qed.

Lemma sort_stable_perm l : sort_stable l ≡ₚ l.
Proof. induction l as [|x l IH]; cbn; [done|]. by rewrite insert_stable_perm, IH. Qed.

Lemma elem_of_sort_stable x l : x ∈ sort_stable l <-> x ∈ l.
Proof. by rewrite sort_stable_perm. Qed.

Lemma insert_stable_hd x l : Forall (fun y => leb x y = true) l -> insert_stable x l = x :: l.
Proof. destruct 1 as [|y l Hy Hl]; cbn; [done|by rewrite Hy]. Qed.

(** A list that is already in order is left alone. *)
Lemma sort_stable_sorted l :
  StronglySorted (fun x y => leb x y = true) l -> sort_stable l = l.
Proof.
  induction 1 as [|x l Hl IH HF]; cbn; [done|].
  rewrite IH. by apply insert_stable_hd.
Qed.

Context (leb_total : forall x y, leb x y = true \/ leb y x = true).
Context (leb_trans : forall x y z, leb x y = true -> leb y z = true -> leb x z = true).

Lemma insert_stable_strongly x l :
  StronglySorted (fun x y => leb x y = true) l ->
  StronglySorted (fun x y => leb x y = true) (insert_stable x l).
Proof.
  induction 1 as [|y l Hl IH HF]; cbn; [by repeat constructor|].
  destruct (leb x y) eqn:E.
  - constructor; [by constructor|]. constructor; [done|].
    eapply Forall_impl; [exact HF|]. cbn. eauto.
  - constructor; [done|]. rewrite insert_stable_perm. constructor; [|done].
    destruct (leb_total x y); congruence.
Qed.

Lemma sort_stable_strongly l : StronglySorted (fun x y => leb x y = true) (sort_stable l).
Proof. induction l; cbn; [constructor|]. by apply insert_stable_strongly. Qed.
End stable_sort.

(** Sorting by an integer key ([sort_by_key] on [u64] keys). *)
Definition key_leb {A} (key : A -> Z) (x y : A) : bool := Z.leb (key x) (key y).
Definition sort_by_key {A} (key : A -> Z) : list A -> list A := sort_stable (key_leb key).

Lemma key_leb_total {A} (key : A -> Z) x y : key_leb key x y = true \/ key_leb key y x = true.
Proof. unfold key_leb. rewrite !Z.leb_le. lia. Qed.

Lemma key_leb_trans {A} (key : A -> Z) x y z :
  key_leb key x y = true -> key_leb key y z = true -> key_leb key x z = true.
Proof. unfold key_leb. rewrite !Z.leb_le. lia. Qed.

Lemma sort_by_key_strongly {A} (key : A -> Z) l :
  StronglySorted (fun x y => key x <= key y) (sort_by_key key l).
Proof.
  pose proof (sort_stable_strongly (key_leb key) (key_leb_total key) (key_leb_trans key) l) as H.
  unfold sort_by_key. induction H as [|x l' ? IH HF]; constructor; [done|].
  eapply Forall_impl; [exact HF|]. cbn. intros y. apply Z.leb_le.
Qed.

(** ** Strings as byte strings

    A Rust [str] is its UTF-8 bytes, one [ascii] each, so [str::len] is
    [String.length] and comparison is lexicographic on bytes. *)
Definition str_leb (a b : string) : bool := String.leb a b.
(** Rust's [str::contains] on a literal. *)
Definition str_contains (sub s : string) : bool :=
  match String.index 0 sub s with Some _ => true | None => false end.
Definition is_empty (s : string) : bool := match s with EmptyString => true | _ => false end.

(** Hash-map values. Rust leaves the iteration order open; the model fixes the
    order of [map_to_list], and no theorem depends on it. *)
Definition map_values {K} `{Countable K} {V} (m : gmap K V) : list V := (map_to_list m).*2.

Lemma elem_of_map_values {K} `{Countable K} {V} (m : gmap K V) v :
  v ∈ map_values m <-> exists k, m !! k = Some v.
Proof.
  unfold map_values. rewrite list_elem_of_fmap. split.
  - intros ([k v'] & -> & Hin%elem_of_map_to_list). by exists k.
  - intros [k Hk]. exists (k, v). split; [done|]. by apply elem_of_map_to_list.
Qed.

(** [Option::is_none_or] and [Option::is_some_and]. *)
Definition is_none_or {A} (o : option A) (p : A -> bool) : bool :=
  match o with None => true | Some a => p a end.
Definition is_some_and {A} (o : option A) (p : A -> bool) : bool :=
  match o with None => false | Some a => p a end.

Lemma is_none_or_true {A} (o : option A) p :
  is_none_or o p = true <-> forall a, o = Some a -> p a = true.
Proof. destruct o; cbn; naive_solver. Qed.

Lemma is_some_and_true {A} (o : option A) p :
  is_some_and o p = true <-> exists a, o = Some a /\ p a = true.
Proof. destruct o; cbn; naive_solver. Qed.

Lemma forallb_Forall {A} (p : A -> bool) l : forallb p l = true <-> Forall (fun x => p x = true) l.
Proof.
  induction l as [|x l IH]; cbn; [by split|]. by rewrite andb_true_iff, IH, Forall_cons.
Qed.

Lemma existsb_elem_of {A} (p : A -> bool) l : existsb p l = true <-> exists x, x ∈ l /\ p x = true.
Proof. rewrite existsb_exists. by setoid_rewrite list_elem_of_In. Qed.

(** ** Automation *)

Create HintDb mobula.
Create Rewrite HintDb mobula_bool.
#[export] Hint Resolve u64_add_range sort_stable_perm insert_stable_perm : mobula.
#[export] Hint Rewrite andb_true_iff orb_true_iff negb_true_iff andb_false_iff orb_false_iff
  negb_false_iff Z.leb_le Z.ltb_lt Z.eqb_eq Z.leb_gt Z.ltb_ge Z.eqb_neq
  bool_decide_eq_true bool_decide_eq_false : mobula_bool.

(** Turn boolean tests of the code into propositions, everywhere. *)
Ltac bool_to_prop := autorewrite with mobula_bool in *.

(** Case split on the tests that block the goal, closing absurd branches. *)
Ltac split_matches :=
  repeat (case_match; simplify_eq/=; try done).
