(* ===== verification/Float64.v ===== *)
(** * IEEE-754 binary64 and decimal parsing

    Rust's [f64] is binary64. The model uses the executable specification of
    binary floating point in the standard library ([SpecFloat]) at precision 53
    and maximal exponent 1024, with the rounding (nearest, ties to even) that
    Rust's operators have. [parse_f64] is [str::parse::<f64>]: the grammar its
    documentation gives, then a correctly rounded conversion.

    [Numeric] abstracts the arithmetic of the accounting code, so that one
    definition runs on [f64] and is reasoned about on exact rationals. *)

From Stdlib Require Export SpecFloat Ascii.
From Stdlib Require Import QArith Qcanon.
From S2P Require Import Prelude.
#[local] Open Scope Z_scope.

(** ** Operations *)

Abbreviation f64 := spec_float.

#[export] Instance f64_eq_dec : EqDecision f64.
Proof. solve_decision. Defined.

Definition f64_add : f64 -> f64 -> f64 := SFadd 53 1024.
Definition f64_sub : f64 -> f64 -> f64 := SFsub 53 1024.
Definition f64_mul : f64 -> f64 -> f64 := SFmul 53 1024.
Definition f64_div : f64 -> f64 -> f64 := SFdiv 53 1024.
(** The IEEE comparisons: false as soon as an operand is NaN. *)
Definition f64_leb : f64 -> f64 -> bool := SFleb.
Definition f64_ltb : f64 -> f64 -> bool := SFltb.
Definition f64_eqb : f64 -> f64 -> bool := SFeqb.
Definition f64_geb (x y : f64) : bool := SFleb y x.
Definition f64_gtb (x y : f64) : bool := SFltb y x.

(** [n as f64] for an integer [n]. *)
Definition f64_of_Z (z : Z) : f64 := binary_normalize 53 1024 z 0 false.
Definition f64_zero : f64 := S754_zero false.
Definition f64_one : f64 := f64_of_Z 1.

Definition f64_is_nan (x : f64) : bool := match x with S754_nan => true | _ => false end.
Definition f64_is_finite (x : f64) : bool :=
  match x with S754_zero _ | S754_finite _ _ _ => true | _ => false end.

(** [f64::min]: the other operand when one is NaN. *)
Definition f64_min (x y : f64) : f64 :=
  if f64_is_nan x then y else if f64_is_nan y then x
  else if f64_leb x y then x else y.

(** [f64::trunc] and [f64::fract]. *)
Definition f64_trunc (x : f64) : f64 :=
  match x with
  | S754_finite s m e =>
      if Z.leb 0 e then x
      else match Z.shiftr (Zpos m) (- e) with
           | Zpos q => binary_normalize 53 1024 (cond_Zopp s (Zpos q)) 0 s
           | _ => S754_zero s
           end
  | _ => x
  end.
Definition f64_fract (x : f64) : f64 := f64_sub x (f64_trunc x).

(** ** Facts on comparison and finiteness *)

Lemma f64_leb_nan_l y : f64_leb S754_nan y = false.
Proof. by destruct y. Qed.

Lemma f64_leb_nan_r x : f64_leb x S754_nan = false.
Proof. by destruct x as [[]|[]| |[] ? ?]. Qed.

Lemma f64_leb_refl x : f64_is_nan x = false -> f64_leb x x = true.
Proof.
  destruct x as [s|s| |s m e]; cbn; try done; [by destruct s|].
  unfold f64_leb, SFleb, SFcompare. intros _. rewrite Z.compare_refl.
  destruct s; by rewrite Pos.compare_refl.
Qed.

(** A position on the extended real line: what a comparison looks at. *)
Definition f64_key (x : f64) : option (Z * Z * Z) :=
  match x with
  | S754_nan => None
  | S754_zero _ => Some (0, 0, 0)
  | S754_infinity s => Some (if s then -2 else 2, 0, 0)
  | S754_finite false m e => Some (1, e, Zpos m)
  | S754_finite true m e => Some (-1, - e, Zneg m)
  end.

(** Lexicographic comparison of positions. *)
Definition key_compare (k1 k2 : Z * Z * Z) : comparison :=
  let '(a, b, c) := k1 in
  let '(a', b', c') := k2 in
  match Z.compare a a' with
  | Eq => match Z.compare b b' with Eq => Z.compare c c' | r => r end
  | r => r
  end.

Lemma SFcompare_key x y :
  SFcompare x y =
  match f64_key x, f64_key y with
  | Some k1, Some k2 => Some (key_compare k1 k2)
  | _, _ => None
  end.
Proof.
  destruct x as [s|s| |s m e], y as [s'|s'| |s' m' e'];
    try destruct s; try destruct s'; cbn; try done.
  rewrite Z.compare_opp.
  destruct (Z.compare_spec e e'), (Z.compare_spec e' e); try lia; done.
Qed.

Definition key_le (k1 k2 : Z * Z * Z) : Prop :=
  let '(a, b, c) := k1 in
  let '(a', b', c') := k2 in
  a < a' \/ (a = a' /\ (b < b' \/ (b = b' /\ c <= c'))).

Lemma key_compare_le k1 k2 : key_compare k1 k2 <> Gt <-> key_le k1 k2.
Proof.
  destruct k1 as [[a b] c], k2 as [[a' b'] c']. cbn.
  destruct (Z.compare_spec a a'), (Z.compare_spec b b'), (Z.compare_spec c c');
    split; intros H'; try done; try lia; exfalso; lia.
Qed.

Lemma f64_leb_key x y :
  f64_leb x y = true <->
  exists k1 k2, f64_key x = Some k1 /\ f64_key y = Some k2 /\ key_le k1 k2.
Proof.
  unfold f64_leb, SFleb. rewrite SFcompare_key.
  destruct (f64_key x) as [k1|], (f64_key y) as [k2|]; try naive_solver.
  split.
  - intros H. exists k1, k2. rewrite <- key_compare_le. by destruct (key_compare k1 k2).
  - intros (? & ? & ? & ? & Hle). simplify_eq. apply key_compare_le in Hle.
    by destruct (key_compare _ _).
Qed.

Lemma f64_key_total x : f64_is_nan x = false -> is_Some (f64_key x).
Proof. destruct x as [s|s| |[] m e]; cbn; eauto; done. Qed.

Lemma f64_leb_trans x y z : f64_leb x y = true -> f64_leb y z = true -> f64_leb x z = true.
Proof.
  rewrite !f64_leb_key.
  intros (k1 & k2 & H1 & H2 & H12) (k2' & k3 & H2' & H3 & H23).
  exists k1, k3. rewrite H2 in H2'. simplify_eq. split_and!; [done..|].
  destruct k1 as [[? ?] ?], k2' as [[? ?] ?], k3 as [[? ?] ?]. cbn in *. lia.
Qed.

Lemma f64_leb_total x y :
  f64_is_nan x = false -> f64_is_nan y = false -> f64_leb x y = true \/ f64_leb y x = true.
Proof.
  intros [k1 E1]%f64_key_total [k2 E2]%f64_key_total. rewrite !f64_leb_key.
  destruct k1 as [[a b] c], k2 as [[a' b'] c'].
  assert (key_le (a, b, c) (a', b', c') \/ key_le (a', b', c') (a, b, c)) as [H|H]
    by (cbn; lia).
  - left. eauto.
  - right. eauto.
Qed.

Lemma f64_ltb_leb x y : f64_ltb x y = true -> f64_leb x y = true.
Proof. unfold f64_ltb, f64_leb, SFltb, SFleb. by destruct (SFcompare x y) as [[]|]. Qed.

(** A strict comparison excludes the reverse one. *)
Lemma f64_ltb_not_geb x y : f64_ltb x y = true -> f64_geb x y = false.
Proof.
  unfold f64_ltb, f64_geb, SFltb, SFleb. rewrite !SFcompare_key.
  destruct (f64_key x) as [[[a b] c]|], (f64_key y) as [[[a' b'] c']|]; try done. cbn.
  destruct (Z.compare_spec a a'), (Z.compare_spec a' a); try done; try lia;
  destruct (Z.compare_spec b b'), (Z.compare_spec b' b); try done; try lia;
  destruct (Z.compare_spec c c'), (Z.compare_spec c' c); try done; try lia.
Qed.

(** Finite and at least [0.0] (negative zero included): what a quantity is. *)
Definition f64_nonneg (x : f64) : Prop :=
  match x with S754_zero _ => True | S754_finite s _ _ => s = false | _ => False end.

Lemma f64_nonneg_spec x : f64_is_finite x && f64_geb x f64_zero = true <-> f64_nonneg x.
Proof. destruct x as [[]|[]| |[] m e]; cbn; naive_solver. Qed.

Lemma f64_nonneg_not_nan x : f64_nonneg x -> f64_is_nan x = false.
Proof. by destruct x. Qed.

(** ** Whitespace *)

Abbreviation byte_is c n := (Ascii.eqb c (ascii_of_nat n)).

Definition byte_in (lo hi : N) (c : ascii) : bool :=
  N.leb lo (N_of_ascii c) && N.leb (N_of_ascii c) hi.

(** The UTF-8 encodings of the characters with the [White_Space] property: how
    many bytes of the list one of them takes, or [None]. *)
Definition ws_width (l : list ascii) : option nat :=
  match l with
  | a :: b :: c :: _ =>
      if byte_in 9 13 a || byte_is a 32 then Some 1%nat
      else if byte_is a 194 && (byte_is b 133 || byte_is b 160) then Some 2%nat
      else if (byte_is a 225 && byte_is b 154 && byte_is c 128)
           || (byte_is a 226 && byte_is b 128
                && (byte_in 128 138 c || byte_is c 168 || byte_is c 169 || byte_is c 175))
           || (byte_is a 226 && byte_is b 129 && byte_is c 159)
           || (byte_is a 227 && byte_is b 128 && byte_is c 128) then Some 3%nat
      else None
  | a :: b :: _ =>
      if byte_in 9 13 a || byte_is a 32 then Some 1%nat
      else if byte_is a 194 && (byte_is b 133 || byte_is b 160) then Some 2%nat
      else None
  | [a] => if byte_in 9 13 a || byte_is a 32 then Some 1%nat else None
  | [] => None
  end.

(** The same test at the end of a reversed byte list. *)
Definition ws_width_rev (l : list ascii) : option nat :=
  match l with
  | a :: _ =>
      if byte_in 9 13 a || byte_is a 32 then Some 1%nat
      else match ws_width (rev (firstn 2 l)) with
           | Some 2%nat => Some 2%nat
           | _ => match ws_width (rev (firstn 3 l)) with
                  | Some 3%nat => Some 3%nat
                  | _ => None
                  end
           end
  | [] => None
  end.

Fixpoint strip_ws (width : list ascii -> option nat) (fuel : nat) (l : list ascii) : list ascii :=
  match fuel with
  | O => l
  | S n => match width l with
           | Some w => strip_ws width n (skipn w l)
           | None => l
           end
  end.

Definition bytes_of (s : string) : list ascii := String.list_ascii_of_string s.
Definition str_of (l : list ascii) : string := String.string_of_list_ascii l.

(** [str::trim]. One character is at least one byte, so the length is enough
    fuel. *)
Definition trim_bytes (l : list ascii) : list ascii :=
  let l1 := strip_ws ws_width (length l) l in
  rev (strip_ws ws_width_rev (length l1) (rev l1)).
Definition trim (s : string) : string := str_of (trim_bytes (bytes_of s)).

(** [str::strip_prefix] and [str::strip_suffix]. *)
Fixpoint strip_prefix_bytes (p l : list ascii) : option (list ascii) :=
  match p, l with
  | [], _ => Some l
  | a :: p', b :: l' => if Ascii.eqb a b then strip_prefix_bytes p' l' else None
  | _ :: _, [] => None
  end.
Definition strip_prefix (p s : string) : option string :=
  str_of <$> strip_prefix_bytes (bytes_of p) (bytes_of s).
Definition strip_suffix (p s : string) : option string :=
  (fun l => str_of (rev l)) <$> strip_prefix_bytes (rev (bytes_of p)) (rev (bytes_of s)).
Definition starts_with (p s : string) : bool :=
  match strip_prefix p s with Some _ => true | None => false end.

(** ** Parsing a decimal float *)

Definition digit_val (c : ascii) : option N :=
  if byte_in 48 57 c then Some (N_of_ascii c - 48)%N else None.

Fixpoint take_digits (acc : N) (k : nat) (l : list ascii) : N * nat * list ascii :=
  match l with
  | c :: l' => match digit_val c with
               | Some d => take_digits (acc * 10 + d)%N (S k) l'
               | None => (acc, k, l)
               end
  | [] => (acc, k, [])
  end.

Definition take_sign (l : list ascii) : bool * list ascii :=
  match l with
  | c :: l' => if byte_is c 45 then (true, l') else if byte_is c 43 then (false, l') else (false, l)
  | [] => (false, [])
  end.

(** The optional exponent: [None] when it is malformed or something follows. *)
Definition parse_exp (l : list ascii) : option Z :=
  match l with
  | [] => Some 0
  | c :: l' =>
      if byte_is c 101 || byte_is c 69 then
        let '(neg, l1) := take_sign l' in
        let '(e, k, l2) := take_digits 0 0 l1 in
        match k, l2 with
        | S _, [] => Some (if neg then - Z.of_N e else Z.of_N e)
        | _, _ => None
        end
      else None
  end.

(** Mantissa digits and decimal exponent of an unsigned number. *)
Definition parse_number (l : list ascii) : option (N * Z) :=
  let '(m1, k1, l1) := take_digits 0 0 l in
  match l1 with
  | c :: l2 =>
      if byte_is c 46 then
        let '(m2, k2, l3) := take_digits m1 0 l2 in
        match (k1 + k2)%nat with
        | O => None
        | S _ => (fun e => (m2, e - Z.of_nat k2)) <$> parse_exp l3
        end
      else match k1 with O => None | S _ => (fun e => (m1, e)) <$> parse_exp l1 end
  | [] => match k1 with O => None | S _ => Some (m1, 0) end
  end.

(** The correctly rounded value of [(-1)^neg * m * 10^e]. *)
Definition dec_to_f64 (neg : bool) (m : N) (e : Z) : f64 :=
  match m with
  | N0 => S754_zero neg
  | Npos p =>
      if Z.leb 0 e then
        binary_normalize 53 1024 (cond_Zopp neg (Zpos p * 10 ^ e)) 0 neg
      else
        f64_div (S754_finite neg p 0) (S754_finite false (Z.to_pos (10 ^ (- e))) 0)
  end.

Definition ascii_lower (c : ascii) : ascii :=
  if byte_in 65 90 c then ascii_of_N (N_of_ascii c + 32) else c.
Definition ascii_upper (c : ascii) : ascii :=
  if byte_in 97 122 c then ascii_of_N (N_of_ascii c - 32) else c.
(** [to_ascii_lowercase] and [to_ascii_uppercase]. *)
Definition to_ascii_lowercase (s : string) : string := str_of (ascii_lower <$> bytes_of s).
Definition to_ascii_uppercase (s : string) : string := str_of (ascii_upper <$> bytes_of s).

Definition parse_inf_nan (neg : bool) (l : list ascii) : option f64 :=
  let w := str_of (ascii_lower <$> l) in
  if String.eqb w "inf" || String.eqb w "infinity" then Some (S754_infinity neg)
  else if String.eqb w "nan" then Some S754_nan
  else None.

Definition parse_f64 (s : string) : option f64 :=
  match bytes_of s with
  | [] => None
  | l => let '(neg, l1) := take_sign l in
         match l1 with
         | [] => None
         | _ => match parse_number l1 with
                | Some (m, e) => Some (dec_to_f64 neg m e)
                | None => parse_inf_nan neg l1
                end
         end
  end.

(** ** Arithmetic of the accounting code *)

(** The operations the accounting code uses on its numbers. *)
Class Numeric (A : Type) := {
  n_zero : A;
  n_add : A -> A -> A;
  n_sub : A -> A -> A;
  n_mul : A -> A -> A;
  n_div : A -> A -> A;
  n_of_Z : Z -> A;
  n_leb : A -> A -> bool;
  n_min : A -> A -> A;
}.

#[export] Instance f64_numeric : Numeric f64 := {|
  n_zero := f64_zero; n_add := f64_add; n_sub := f64_sub; n_mul := f64_mul; n_div := f64_div;
  n_of_Z := f64_of_Z; n_leb := f64_leb; n_min := f64_min |}.

(** Exact rationals, for statements about the accounting free of rounding. *)
#[export] Instance Qc_numeric : Numeric Qc := {|
  n_zero := 0%Qc; n_add := Qcplus; n_sub := Qcminus; n_mul := Qcmult; n_div := Qcdiv;
  n_of_Z := fun z => Q2Qc (inject_Z z);
  n_leb := fun x y => if Qclt_le_dec y x then false else true;
  n_min := fun x y => if Qclt_le_dec y x then y else x |}.

(** ** Examples *)

Example parse_f64_half : parse_f64 "0.5" = Some (f64_div f64_one (f64_of_Z 2)).
Proof. by vm_compute. Qed.
Example parse_f64_tenth : parse_f64 "1e-1" = Some (f64_div f64_one (f64_of_Z 10)).
Proof. by vm_compute. Qed.
Example parse_f64_huge : parse_f64 "-1e400" = Some (S754_infinity true).
Proof. by vm_compute. Qed.
Example parse_f64_bad : parse_f64 "banana" = None /\ parse_f64 "." = None /\ parse_f64 "1e" = None.
Proof. by vm_compute. Qed.
Example trim_ex : trim "  2Gi " = "2Gi"%string.
Proof. by vm_compute. Qed.
