(* ===== verification/FloatFacts.v ===== *)
(** * Facts about binary64 arithmetic

    Signs, NaN-freedom and finiteness of the operations the accounting code uses:
    sums and products of accepted quantities stay non-negative and never become
    NaN, and a replica count converts to a finite float. *)

From S2P Require Import Prelude Float64.
#[local] Open Scope Z_scope.

(** Not NaN and not negative: what a sum of accepted quantities can be (it may
    overflow to infinity). *)
Definition f64_pos (x : f64) : Prop :=
  match x with
  | S754_zero _ | S754_infinity false | S754_finite false _ _ => True
  | _ => False
  end.

Lemma f64_nonneg_pos x : f64_nonneg x -> f64_pos x.
Proof. by destruct x as [| | |[] ? ?]. Qed.

Lemma shr_1_nonneg r : 0 <= shr_m r -> 0 <= shr_m (shr_1 r).
Proof. destruct r as [m r s]. cbn. by destruct m as [|[]|[]]. Qed.

Lemma iter_pos_shr_nonneg p r : 0 <= shr_m r -> 0 <= shr_m (iter_pos shr_1 p r).
Proof. revert r. induction p; intros r H; cbn; auto using shr_1_nonneg. Qed.

Lemma shr_fexp_nonneg prec emax m e l : 0 <= m -> 0 <= shr_m (fst (shr_fexp prec emax m e l)).
Proof.
  intros H. unfold shr_fexp, shr.
  destruct (fexp prec emax (Zdigits2 m + e) - e)%Z; cbn.
  - by destruct l as [|[]].
  - apply iter_pos_shr_nonneg. by destruct l as [|[]].
  - by destruct l as [|[]].
Qed.

Lemma round_nearest_even_nonneg m l : 0 <= m -> 0 <= round_nearest_even m l.
Proof. intros. unfold round_nearest_even. destruct l as [|[]]; try destruct (Z.even m); lia. Qed.

Lemma binary_round_aux_pos m e l : 0 <= m -> f64_pos (binary_round_aux 53 1024 false m e l).
Proof.
  intros Hm. unfold binary_round_aux.
  destruct (shr_fexp 53 1024 m e l) as [r1 e1] eqn:E1.
  pose proof (shr_fexp_nonneg 53 1024 m e l Hm) as H1. rewrite E1 in H1; cbn in H1.
  pose proof (shr_fexp_nonneg 53 1024
    (round_nearest_even (shr_m r1) (loc_of_shr_record r1)) e1 loc_Exact
    (round_nearest_even_nonneg _ _ H1)) as H2.
  destruct (shr_fexp 53 1024 (round_nearest_even _ _) e1 loc_Exact) as [r2 e2]. cbn in H2.
  destruct (shr_m r2); [done| |lia]. by destruct (Z.leb e2 _).
Qed.

Lemma binary_round_pos m e : f64_pos (binary_round 53 1024 false m e).
Proof. unfold binary_round. destruct (shl_align m e _). by apply binary_round_aux_pos. Qed.

Lemma f64_add_pos x y : f64_pos x -> f64_pos y -> f64_pos (f64_add x y).
Proof.
  destruct x as [[]|[]| |[] mx ex], y as [[]|[]| |[] my ey]; cbn; try done; intros _ _;
  unfold f64_add, SFadd, binary_normalize.
  case_match; [done|apply binary_round_pos|].
  exfalso. cbn in *. lia.
Qed.

Lemma f64_mul_pos x y : f64_nonneg x -> f64_nonneg y -> f64_pos (f64_mul x y).
Proof.
  destruct x as [| | |sx mx ex], y as [| | |sy my ey]; cbn; try done; intros; subst.
  by apply binary_round_aux_pos.
Qed.

(** ** Integers that fit the mantissa convert exactly *)

Lemma digits2_iter_xO m d :
  Zpos (digits2_pos (Pos.iter xO m d)) = Zpos (digits2_pos m) + Zpos d.
Proof.
  induction d as [|d IH] using Pos.peano_ind; [cbn; lia|].
  rewrite Pos.iter_succ. cbn [digits2_pos]. lia.
Qed.

Lemma digits2_bound m n : Zpos m < 2 ^ n -> 0 <= n -> Zpos (digits2_pos m) <= n.
Proof.
  revert n. induction m as [m IH|m IH|]; intros n H Hn; cbn [digits2_pos].
  - assert (0 < n) by (destruct (Z.eq_dec n 0); [subst; cbn in H; lia|lia]).
    replace n with (Z.succ (n - 1)) in H by lia. rewrite Z.pow_succ_r in H by lia.
    specialize (IH (n - 1) ltac:(lia) ltac:(lia)). lia.
  - assert (0 < n) by (destruct (Z.eq_dec n 0); [subst; cbn in H; lia|lia]).
    replace n with (Z.succ (n - 1)) in H by lia. rewrite Z.pow_succ_r in H by lia.
    specialize (IH (n - 1) ltac:(lia) ltac:(lia)). lia.
  - destruct (Z.eq_dec n 0); [subst; cbn in H; lia|lia].
Qed.

Lemma shr_fexp_exact m e :
  fexp 53 1024 (Zpos (digits2_pos m) + e) <= e ->
  shr_fexp 53 1024 (Zpos m) e loc_Exact = (shr_record_of_loc (Zpos m) loc_Exact, e).
Proof.
  intros H. unfold shr_fexp, shr. cbn [Zdigits2].
  destruct (fexp 53 1024 (Zpos (digits2_pos m) + e) - e) eqn:E; [done| |done].
  exfalso. lia.
Qed.

Lemma binary_round_aux_exact m e :
  fexp 53 1024 (Zpos (digits2_pos m) + e) <= e -> e <= 971 ->
  binary_round_aux 53 1024 false (Zpos m) e loc_Exact = S754_finite false m e.
Proof.
  intros H He. unfold binary_round_aux. rewrite (shr_fexp_exact _ _ H).
  cbn [shr_record_of_loc shr_m loc_of_shr_record round_nearest_even].
  rewrite (shr_fexp_exact _ _ H). cbn [shr_record_of_loc shr_m].
  by rewrite (proj2 (Z.leb_le e (1024 - 53))) by lia.
Qed.

(** A non-negative integer below [2^53] converts to a finite float. *)
Lemma f64_of_Z_nonneg z : 0 <= z < 2 ^ 53 -> f64_nonneg (f64_of_Z z).
Proof.
  intros [H1 H2]. unfold f64_of_Z, binary_normalize. destruct z as [|m|m]; [done| |lia].
  pose proof (digits2_bound m 53 H2 ltac:(lia)) as Hd. unfold binary_round.
  rewrite Z.add_0_r.
  replace (fexp 53 1024 (Zpos (digits2_pos m))) with (Zpos (digits2_pos m) - 53)
    by (unfold fexp, emin; lia).
  unfold shl_align. rewrite Z.sub_0_r.
  destruct (Zpos (digits2_pos m) - 53) as [|p|p] eqn:E; [|lia|].
  - rewrite binary_round_aux_exact; [done| |lia]. unfold fexp, emin. lia.
  - rewrite binary_round_aux_exact; [done| |lia].
    rewrite digits2_iter_xO. unfold fexp, emin. lia.
Qed.
