(* ===== verification/Core.v ===== *)
(** * Domain model (crates/mobula-core)

    Cluster specs and their lifecycle states ([cluster.rs]), resource pools and
    their shape validation ([pool.rs]), job records ([job.rs]), audit events and
    their filter ([audit.rs]) and local-auth records ([auth.rs]). *)

From S2P Require Import Prelude Float64.
#[local] Open Scope Z_scope.

(** ** Clusters (cluster.rs) *)

Abbreviation ClusterId := string (only parsing).

Inductive Engine := Ray | Dask.
#[export] Instance Engine_eq_dec : EqDecision Engine.
Proof. solve_decision. Defined.

Record WorkerGroup := {
  wg_name : string;
  wg_cpu : string;
  wg_memory : string;
  wg_gpu : option string;
  wg_min_replicas : Z;
  wg_max_replicas : Z;
  wg_replicas : Z;
}.
#[export] Instance WorkerGroup_eq_dec : EqDecision WorkerGroup.
Proof. solve_decision. Defined.

Record ClusterSpec := {
  cs_name : string;
  cs_project : string;
  cs_engine : Engine;
  cs_ray_version : string;
  cs_image : string;
  cs_head_cpu : string;
  cs_head_memory : string;
  cs_worker_groups : list WorkerGroup;
  cs_ttl_seconds : option Z;
  cs_idle_timeout_secs : option Z;
  cs_owner : option string;
}.
#[export] Instance ClusterSpec_eq_dec : EqDecision ClusterSpec.
Proof. solve_decision. Defined.

(** [body.spec.owner = o]. *)
Definition with_owner (s : ClusterSpec) (o : option string) : ClusterSpec := {|
  cs_name := cs_name s; cs_project := cs_project s; cs_engine := cs_engine s;
  cs_ray_version := cs_ray_version s; cs_image := cs_image s;
  cs_head_cpu := cs_head_cpu s; cs_head_memory := cs_head_memory s;
  cs_worker_groups := cs_worker_groups s; cs_ttl_seconds := cs_ttl_seconds s;
  cs_idle_timeout_secs := cs_idle_timeout_secs s; cs_owner := o |}.

(** [impl Display for Engine]. *)
Definition engine_str (e : Engine) : string :=
  match e with Ray => "ray" | Dask => "dask" end.

Inductive ClusterState :=
| Pending | Provisioning | Running | Degraded | Updating
| Suspending | Suspended | Terminating | Terminated.
#[export] Instance ClusterState_eq_dec : EqDecision ClusterState.
Proof. solve_decision. Defined.

Inductive DriftCondition := SpecDrift | DriftDegraded.
#[export] Instance DriftCondition_eq_dec : EqDecision DriftCondition.
Proof. solve_decision. Defined.

Record TransitionError := { te_from : ClusterState; te_to : ClusterState }.

Definition can_transition (from to : ClusterState) : bool :=
  match from, to with
  | Pending, Provisioning
  | Pending, Terminating
  | Provisioning, Running
  | Provisioning, Degraded
  | Provisioning, Terminating
  | Running, Degraded
  | Running, Updating
  | Running, Suspending
  | Running, Terminating
  | Degraded, Running
  | Degraded, Terminating
  | Updating, Running
  | Updating, Degraded
  | Suspending, Suspended
  | Suspended, Provisioning
  | Suspended, Terminating
  | Terminating, Terminated => true
  | _, _ => false
  end.

Definition transition (from to : ClusterState) : result TransitionError ClusterState :=
  if can_transition from to then Ok to else Err {| te_from := from; te_to := to |}.

Definition is_terminal (s : ClusterState) : bool := bool_decide (s = Terminated).

(** A run of [transition] calls: each one from the state the last one gave. *)
Fixpoint transitions (s : ClusterState) (path : list ClusterState)
  : result TransitionError ClusterState :=
  match path with
  | [] => Ok s
  | to :: path' => transition s to ≫= fun s' => transitions s' path'
  end.

(** The step relation of user-issued commands. *)
Inductive lifecycle_step : ClusterState -> ClusterState -> Prop :=
| lifecycle_step_intro s s' : transition s s' = Ok s' -> lifecycle_step s s'.

(** ** Resource pools (pool.rs) *)

Inductive GpuSharing := WholeGpu | Mig | TimeSlice.
#[export] Instance GpuSharing_eq_dec : EqDecision GpuSharing.
Proof. solve_decision. Defined.

Record TaintSpec := { t_key : string; t_value : string; t_effect : string }.
#[export] Instance TaintSpec_eq_dec : EqDecision TaintSpec.
Proof. solve_decision. Defined.

(** A [BTreeMap<String, String>]: the key-value pairs in key order. *)
Record FlavorSpec := {
  f_name : string;
  f_resources : list (string * string);
  f_node_labels : list (string * string);
  f_taints : list TaintSpec;
}.
#[export] Instance FlavorSpec_eq_dec : EqDecision FlavorSpec.
Proof. solve_decision. Defined.

Record PoolSpec := {
  p_name : string;
  p_flavors : list FlavorSpec;
  p_cohort : string;
  p_fair_sharing_weight : f64;
  p_elastic : bool;
  p_gpu_sharing : option GpuSharing;
}.

Record AllocationSpec := {
  a_pool : string;
  a_project : string;
  a_namespace : string;
  a_nominal : list (string * string);
  a_borrowing_limit : list (string * string);
  a_lending_limit : list (string * string);
}.
#[export] Instance AllocationSpec_eq_dec : EqDecision AllocationSpec.
Proof. solve_decision. Defined.

Inductive TaintSpecError := EmptyKey | EmptyValue | EmptyEffect.
Inductive FlavorSpecError :=
| FlavorInvalidName (name : string)
| EmptyResourceKey
| FlavorTaint (key : string) (source : TaintSpecError).
Inductive PoolSpecError :=
| PoolInvalidName (name : string)
| InvalidCohort (name : string)
| NoFlavors
| DuplicateFlavor (name : string)
| InvalidFairSharingWeight
| PoolFlavor (flavor : string) (source : FlavorSpecError).
Inductive AllocationSpecError := AllocInvalidName (field name : string).

Definition is_ascii_lowercase (c : ascii) : bool := byte_in 97 122 c.
Definition is_ascii_digit (c : ascii) : bool := byte_in 48 57 c.
Definition is_ascii_alphanumeric (c : ascii) : bool :=
  byte_in 97 122 c || byte_in 65 90 c || byte_in 48 57 c.

Definition is_k8s_name (s : string) : bool :=
  let bs := bytes_of s in
  negb (is_empty s)
  && Nat.leb (String.length s) 253
  && forallb (fun b => is_ascii_lowercase b || is_ascii_digit b
                       || byte_is b 45 || byte_is b 46) bs
  && is_some_and (head bs) is_ascii_alphanumeric
  && is_some_and (last bs) is_ascii_alphanumeric.

Definition taint_validate (t : TaintSpec) : result TaintSpecError unit :=
  if is_empty (t_key t) then Err EmptyKey
  else if is_empty (t_value t) then Err EmptyValue
  else if is_empty (t_effect t) then Err EmptyEffect
  else Ok tt.

Fixpoint taints_validate (ts : list TaintSpec) : result FlavorSpecError unit :=
  match ts with
  | [] => Ok tt
  | t :: ts' =>
      map_err (FlavorTaint (t_key t)) (taint_validate t) ≫= fun _ => taints_validate ts'
  end.

Definition flavor_validate (f : FlavorSpec) : result FlavorSpecError unit :=
  if negb (is_k8s_name (f_name f)) then Err (FlavorInvalidName (f_name f))
  else if existsb is_empty (f_resources f).*1 then Err EmptyResourceKey
  else taints_validate (f_taints f).

(** The loop over [self.flavors.iter().enumerate()]; [seen] is
    [self.flavors[..i]]. *)
Fixpoint flavors_validate (seen fs : list FlavorSpec) : result PoolSpecError unit :=
  match fs with
  | [] => Ok tt
  | f :: fs' =>
      map_err (PoolFlavor (f_name f)) (flavor_validate f) ≫= fun _ =>
      if existsb (fun o => String.eqb (f_name o) (f_name f)) seen
      then Err (DuplicateFlavor (f_name f))
      else flavors_validate (seen ++ [f]) fs'
  end.

Definition pool_validate (p : PoolSpec) : result PoolSpecError unit :=
  if negb (is_k8s_name (p_name p)) then Err (PoolInvalidName (p_name p))
  else if negb (is_k8s_name (p_cohort p)) then Err (InvalidCohort (p_cohort p))
  else match p_flavors p with
       | [] => Err NoFlavors
       | fs =>
           if negb (f64_is_finite (p_fair_sharing_weight p))
              || f64_ltb (p_fair_sharing_weight p) f64_zero
           then Err InvalidFairSharingWeight
           else flavors_validate [] fs
       end.

Fixpoint alloc_names_validate (fields : list (string * string))
  : result AllocationSpecError unit :=
  match fields with
  | [] => Ok tt
  | (field, name) :: fields' =>
      if negb (is_k8s_name name) then Err (AllocInvalidName field name)
      else alloc_names_validate fields'
  end.

Definition allocation_validate (a : AllocationSpec) : result AllocationSpecError unit :=
  alloc_names_validate
    [("pool"%string, a_pool a); ("project"%string, a_project a);
     ("namespace"%string, a_namespace a)].

(** ** Jobs (job.rs) *)

Record JobRecord := {
  j_id : string;
  j_cluster : string;
  j_submitter : string;
  j_status : string;
  j_duration_secs : option Z;
  j_submitted_at : Z;
}.

(** ** Audit events (audit.rs) *)

Inductive AuditDecision := Allow | Deny.
#[export] Instance AuditDecision_eq_dec : EqDecision AuditDecision.
Proof. solve_decision. Defined.

Definition audit_decision_str (d : AuditDecision) : string :=
  match d with Allow => "allow" | Deny => "deny" end.
Definition audit_decision_parse (s : string) : option AuditDecision :=
  if String.eqb s "allow" then Some Allow
  else if String.eqb s "deny" then Some Deny
  else None.

Record AuditRequired := { ar_action : string; ar_target : string }.
#[export] Instance AuditRequired_eq_dec : EqDecision AuditRequired.
Proof. solve_decision. Defined.

Record AuditEvent := {
  ae_ts : Z;
  ae_subject : option string;
  ae_decision : AuditDecision;
  ae_reason : option string;
  ae_action : option string;
  ae_cluster : option string;
  ae_method : option string;
  ae_path : option string;
  ae_status : option Z;
  ae_latency_ms : option Z;
  ae_required : option AuditRequired;
  ae_granted_roles : list string;
}.
#[export] Instance AuditEvent_eq_dec : EqDecision AuditEvent.
Proof. solve_decision. Defined.

Record AuditFilter := {
  af_limit : option Z;
  af_cursor : option Z;
  af_from : option Z;
  af_to : option Z;
  af_subject : option string;
  af_cluster : option string;
  af_method : option string;
  af_path_prefix : option string;
  af_min_status : option Z;
  af_decision : option AuditDecision;
  af_reason : option string;
}.

Definition DEFAULT_LIMIT : Z := 100.
Definition MAX_LIMIT : Z := 1000.

Definition clamp (x lo hi : Z) : Z :=
  if Z.ltb x lo then lo else if Z.ltb hi x then hi else x.

Definition effective_limit (f : AuditFilter) : Z :=
  clamp (default DEFAULT_LIMIT (af_limit f)) 1 MAX_LIMIT.

Definition opt_eqb (o : option string) (s : string) : bool :=
  is_some_and o (String.eqb s).

Definition matches (f : AuditFilter) (e : AuditEvent) : bool :=
  is_none_or (af_from f) (fun from => Z.leb from (ae_ts e))
  && is_none_or (af_to f) (fun to => Z.leb (ae_ts e) to)
  && is_none_or (af_subject f) (opt_eqb (ae_subject e))
  && is_none_or (af_cluster f) (opt_eqb (ae_cluster e))
  && is_none_or (af_method f) (opt_eqb (ae_method e))
  && is_none_or (af_path_prefix f) (fun p => is_some_and (ae_path e) (starts_with p))
  && is_none_or (af_min_status f) (fun m => is_some_and (ae_status e) (Z.leb m))
  && is_none_or (af_decision f) (fun d => bool_decide (ae_decision e = d))
  && is_none_or (af_reason f) (opt_eqb (ae_reason e)).

(** ** Local users and tokens (auth.rs) *)

Inductive LocalRole := LViewer | LDeveloper | LOperator | LAdmin | LAuditor.
#[export] Instance LocalRole_eq_dec : EqDecision LocalRole.
Proof. solve_decision. Defined.

Definition local_role_str (r : LocalRole) : string :=
  match r with
  | LViewer => "viewer" | LDeveloper => "developer" | LOperator => "operator"
  | LAdmin => "admin" | LAuditor => "auditor"
  end.
Definition local_role_parse (s : string) : option LocalRole :=
  if String.eqb s "viewer" then Some LViewer
  else if String.eqb s "developer" then Some LDeveloper
  else if String.eqb s "operator" then Some LOperator
  else if String.eqb s "admin" then Some LAdmin
  else if String.eqb s "auditor" then Some LAuditor
  else None.

Record LocalUserRecord := {
  lu_username : string;
  lu_email : option string;
  lu_password_hash : string;
  lu_role : LocalRole;
  lu_disabled : bool;
  lu_created_at : Z;
  lu_failed_logins : Z;
  lu_locked_until : option Z;
}.

Record LocalUserView := {
  lv_username : string;
  lv_email : option string;
  lv_role : LocalRole;
  lv_disabled : bool;
  lv_created_at : Z;
}.

Definition user_view (u : LocalUserRecord) : LocalUserView := {|
  lv_username := lu_username u; lv_email := lu_email u; lv_role := lu_role u;
  lv_disabled := lu_disabled u; lv_created_at := lu_created_at u |}.

Record ApiTokenRecord := {
  at_prefix : string;
  at_token_hash : string;
  at_username : string;
  at_label : string;
  at_created_at : Z;
  at_expires_at : Z;
  at_revoked : bool;
  at_last_used_at : option Z;
}.

Record ApiTokenView := {
  av_prefix : string;
  av_username : string;
  av_label : string;
  av_created_at : Z;
  av_expires_at : Z;
  av_revoked : bool;
  av_last_used_at : option Z;
}.

Definition token_view (t : ApiTokenRecord) : ApiTokenView := {|
  av_prefix := at_prefix t; av_username := at_username t; av_label := at_label t;
  av_created_at := at_created_at t; av_expires_at := at_expires_at t;
  av_revoked := at_revoked t; av_last_used_at := at_last_used_at t |}.

(** ** Lifecycle theorems *)

Lemma transition_ok s t s' : transition s t = Ok s' <-> can_transition s t = true /\ s' = t.
Proof. unfold transition. destruct (can_transition s t); naive_solver. Qed.

Lemma lifecycle_step_iff s t : lifecycle_step s t <-> can_transition s t = true.
Proof.
  split.
  - intros [a b H]. by apply transition_ok in H as [? _].
  - intros H. constructor. by apply transition_ok.
Qed.

#[export] Hint Constructors lifecycle_step : mobula.
#[export] Hint Resolve rtc_refl rtc_once : mobula.

(** The next command on a shortest way to teardown. *)
Definition toward_teardown (s : ClusterState) : list ClusterState :=
  match s with
  | Terminated => []
  | Terminating => [Terminated]
  | Suspending => [Suspended; Terminating; Terminated]
  | Updating => [Running; Terminating; Terminated]
  | _ => [Terminating; Terminated]
  end.

Lemma transitions_rtc path s s' :
  transitions s path = Ok s' -> rtc lifecycle_step s s'.
Proof.
  revert s. induction path as [|t path IH]; intros s; cbn; [intros; simplify_eq; constructor|].
  unfold transition. destruct (can_transition s t) eqn:E; cbn; [|done].
  intros H. eapply rtc_l; [|by apply IH]. by apply lifecycle_step_iff.
Qed.

Lemma toward_teardown_reaches s : transitions s (toward_teardown s) = Ok Terminated.
Proof. by destruct s. Qed.

(** From every state legal commands lead to [Terminated], and once there every
    command is refused with the offending pair. *)
Theorem lifecycle_teardown s :
  rtc lifecycle_step s Terminated /\
  forall t, transition Terminated t = Err {| te_from := Terminated; te_to := t |}.
Proof.
  split; [eapply transitions_rtc, toward_teardown_reaches|]. by intros [].
Qed.

(** Compute released by a suspension comes back only through provisioning: a run
    of accepted commands that starts suspended and ends running has
    [Provisioning] on it. *)
Theorem resume_reprovisions path s :
  s = Suspending \/ s = Suspended ->
  transitions s path = Ok Running -> Provisioning ∈ path.
Proof.
  revert s. induction path as [|t path IH]; intros s Hs; cbn.
  - intros [= ->]. naive_solver.
  - intros H. apply result_bind_Ok in H as (s' & Ht & H).
    apply transition_ok in Ht as [Ht ->].
    destruct Hs as [->| ->], t; cbn in Ht; try done; [right; eauto|left|].
    destruct path as [|[] path]; cbn in H; try done.
    by destruct path as [|[] path].
Qed.

Lemma resume_reprovisions_witness :
  transitions Suspended [Provisioning; Running] = Ok Running /\
  Provisioning ∈ [Provisioning; Running].
Proof.
  split; [reflexivity|].
  apply (resume_reprovisions [Provisioning; Running] Suspended); [by right|reflexivity].
Defined.

(** ** Validation theorems *)

(** The shape a Kubernetes name has. *)
Definition k8s_char (c : ascii) : Prop :=
  is_ascii_lowercase c = true \/ is_ascii_digit c = true
  \/ c = ascii_of_nat 45 \/ c = ascii_of_nat 46.

Lemma is_k8s_name_spec s :
  is_k8s_name s = true <->
  (0 < String.length s <= 253)%nat /\
  Forall k8s_char (bytes_of s) /\
  (exists c, head (bytes_of s) = Some c /\ is_ascii_alphanumeric c = true) /\
  (exists c, last (bytes_of s) = Some c /\ is_ascii_alphanumeric c = true).
Proof.
  unfold is_k8s_name. rewrite !andb_true_iff, !is_some_and_true, Nat.leb_le, forallb_forall.
  rewrite Forall_forall.
  assert (forall c, is_ascii_lowercase c || is_ascii_digit c || byte_is c 45 || byte_is c 46 = true
                    <-> k8s_char c) as Hc.
  { intros c. unfold k8s_char. rewrite !orb_true_iff, !Ascii.eqb_eq. tauto. }
  setoid_rewrite Hc. setoid_rewrite list_elem_of_In.
  assert (negb (is_empty s) = true <-> (0 < String.length s)%nat) as ->.
  { destruct s; cbn; [split; [done|lia]|split; [lia|done]]. }
  tauto.
Qed.

(** What a valid taint, flavor and pool are, stated without the order of the
    checks. *)
Definition taint_ok (t : TaintSpec) : Prop :=
  t_key t <> ""%string /\ t_value t <> ""%string /\ t_effect t <> ""%string.
Definition flavor_ok (f : FlavorSpec) : Prop :=
  is_k8s_name (f_name f) = true /\
  Forall (fun k => k <> ""%string) (f_resources f).*1 /\
  Forall taint_ok (f_taints f).
Definition pool_ok (p : PoolSpec) : Prop :=
  is_k8s_name (p_name p) = true /\ is_k8s_name (p_cohort p) = true /\
  p_flavors p <> [] /\ f64_nonneg (p_fair_sharing_weight p) /\
  Forall flavor_ok (p_flavors p) /\ NoDup (f_name <$> p_flavors p).

Lemma is_empty_true s : is_empty s = true <-> s = ""%string.
Proof. by destruct s. Qed.
Lemma is_empty_false s : is_empty s = false <-> s <> ""%string.
Proof. by destruct s. Qed.

Lemma taint_validate_ok t : taint_validate t = Ok tt <-> taint_ok t.
Proof.
  unfold taint_validate, taint_ok. rewrite <- !is_empty_false.
  destruct (is_empty (t_key t)), (is_empty (t_value t)), (is_empty (t_effect t)); naive_solver.
Qed.

Lemma taints_validate_ok ts : taints_validate ts = Ok tt <-> Forall taint_ok ts.
Proof.
  induction ts as [|t ts IH]; cbn; [by split|].
  rewrite Forall_cons, <- IH, <- taint_validate_ok.
  destruct (taint_validate t) as [[]|]; cbn; naive_solver.
Qed.

Lemma existsb_false_Forall {A} (p : A -> bool) l :
  existsb p l = false <-> Forall (fun x => p x = false) l.
Proof. induction l; cbn; [by split|]. rewrite orb_false_iff, Forall_cons. naive_solver. Qed.

Lemma flavor_validate_ok f : flavor_validate f = Ok tt <-> flavor_ok f.
Proof.
  unfold flavor_validate, flavor_ok. rewrite <- taints_validate_ok.
  assert (existsb is_empty (f_resources f).*1 = false <->
          Forall (fun k => k <> ""%string) (f_resources f).*1) as E.
  { rewrite existsb_false_Forall. apply Forall_iff. intros. apply is_empty_false. }
  destruct (is_k8s_name (f_name f)); cbn; [|naive_solver].
  destruct (existsb is_empty (f_resources f).*1); naive_solver.
Qed.

Lemma flavors_validate_ok seen fs :
  flavors_validate seen fs = Ok tt <->
  Forall flavor_ok fs /\ NoDup (f_name <$> fs) /\
  (forall f, f ∈ fs -> f_name f ∉ f_name <$> seen).
Proof.
  revert seen. induction fs as [|f fs IH]; intros seen; cbn.
  { split; [|done]. intros _. split_and!; [constructor..|]. intros f Hf. by apply not_elem_of_nil in Hf. }
  rewrite Forall_cons, NoDup_cons, <- flavor_validate_ok.
  destruct (flavor_validate f) as [[]|]; cbn; [|naive_solver].
  destruct (existsb _ seen) eqn:E.
  - split; [done|]. intros (_ & _ & Hs). exfalso. apply (Hs f); [left|].
    apply existsb_exists in E as (o & Ho & Heq%String.eqb_eq).
    apply list_elem_of_fmap. exists o. by rewrite list_elem_of_In.
  - rewrite IH. assert (f_name f ∉ f_name <$> seen) as Hf.
    { intros (o & Heq & Ho%list_elem_of_In)%list_elem_of_fmap.
      rewrite existsb_false_Forall in E. rewrite Forall_forall in E.
      specialize (E o ltac:(by apply list_elem_of_In)). by apply String.eqb_neq in E. }
    setoid_rewrite fmap_app. setoid_rewrite not_elem_of_app. cbn.
    setoid_rewrite list_elem_of_singleton. setoid_rewrite elem_of_cons.
    rewrite list_elem_of_fmap. split.
    + intros (HF & HND & Hs). split_and!; try done.
      * intros (g & Heq & Hg). by apply (Hs g Hg).
      * intros g [->|Hg]; [done|]. by apply Hs.
    + intros ([_ HF] & [Hnot HND] & Hs). split_and!; try done.
      intros g Hg. split; [by apply Hs; right|]. intros Heq. apply Hnot. eauto.
Qed.

(** [PoolSpec::validate] accepts exactly the well-shaped pools: Kubernetes names
    for pool and cohort, at least one flavor, a finite non-negative weight, valid
    flavors with pairwise distinct names. *)
Theorem pool_validate_spec p : pool_validate p = Ok tt <-> pool_ok p.
Proof.
  unfold pool_validate, pool_ok.
  destruct (is_k8s_name (p_name p)); cbn [negb]; [|naive_solver].
  destruct (is_k8s_name (p_cohort p)); cbn [negb]; [|naive_solver].
  destruct (p_flavors p) as [|f fs] eqn:Hf; [naive_solver|].
  assert (negb (f64_is_finite (p_fair_sharing_weight p))
          || f64_ltb (p_fair_sharing_weight p) f64_zero = false <->
          f64_nonneg (p_fair_sharing_weight p)) as Hw.
  { destruct (p_fair_sharing_weight p) as [[]|[]| |[] ? ?]; cbn; naive_solver. }
  destruct (negb (f64_is_finite _) || _) eqn:E; [naive_solver|].
  rewrite flavors_validate_ok. split.
  - intros (? & ? & ?). split_and!; by try apply Hw.
  - intros (_ & _ & _ & _ & ? & ?). split_and!; [done..|]. cbn. intros. by apply not_elem_of_nil.
Qed.

(** An allocation is accepted exactly when its three names are valid. *)
Lemma allocation_validate_ok a :
  allocation_validate a = Ok tt <->
  is_k8s_name (a_pool a) = true /\ is_k8s_name (a_project a) = true /\
  is_k8s_name (a_namespace a) = true.
Proof.
  unfold allocation_validate; cbn.
  destruct (is_k8s_name (a_pool a)), (is_k8s_name (a_project a)), (is_k8s_name (a_namespace a));
    naive_solver.
Qed.

(** ** Audit filter and wire names *)

Lemma effective_limit_bounds f : 1 <= effective_limit f <= MAX_LIMIT.
Proof.
  unfold effective_limit, clamp, MAX_LIMIT.
  destruct (Z.ltb_spec (default DEFAULT_LIMIT (af_limit f)) 1); [lia|].
  destruct (Z.ltb_spec 1000 (default DEFAULT_LIMIT (af_limit f))); lia.
Qed.

(** Storage names read back as what was written, for decisions and roles, and
    nothing else parses. *)
Theorem wire_names_round_trip :
  (forall d s, audit_decision_parse s = Some d <-> s = audit_decision_str d) /\
  (forall r s, local_role_parse s = Some r <-> s = local_role_str r).
Proof.
  split.
  - intros d s. unfold audit_decision_parse, audit_decision_str.
    repeat case_match; destruct d; rewrite ?String.eqb_eq, ?String.eqb_neq in *; naive_solver.
  - intros r s. unfold local_role_parse, local_role_str.
    repeat case_match; destruct r; rewrite ?String.eqb_eq, ?String.eqb_neq in *; naive_solver.
Qed.
