(* ===== verification/Quantity.v ===== *)
(** * Kubernetes quantities (crates/mobula-policy/src/quantity.rs)

    CPU, memory, GPU and general quantities, each parsed from text to a finite
    non-negative [f64]. An error carries what the message names and the text or
    value it quotes; the wording is not modelled. *)

From S2P Require Import Prelude Float64.
#[local] Open Scope Z_scope.
#[local] Open Scope string_scope.

Inductive QuantityError :=
| Unparseable (what text : string)
| OutOfRange (what : string) (v : f64).

Definition finite_nonneg (v : f64) (what : string) : result QuantityError f64 :=
  if f64_is_finite v && f64_geb v f64_zero then Ok v else Err (OutOfRange what v).

(** [1024.0 * 1024.0 * 1024.0] and the other literals. *)
Definition GIB : f64 := f64_mul (f64_mul (f64_of_Z 1024) (f64_of_Z 1024)) (f64_of_Z 1024).

(** The [if let Some(n) = s.strip_suffix(..)] chains: the first suffix of the
    table that fits, with its multiplier, else the text itself with [1.0]. *)
Fixpoint strip_unit (table : list (string * f64)) (s : string) : string * f64 :=
  match table with
  | [] => (s, f64_one)
  | (suf, mult) :: table' =>
      match strip_suffix suf s with
      | Some n => (n, mult)
      | None => strip_unit table' s
      end
  end.

Definition cpu_cores (s0 : string) : result QuantityError f64 :=
  let s := trim s0 in
  v ← match strip_suffix "m" s with
      | Some milli =>
          ok_or (Unparseable "cpu" s) ((fun m => f64_div m (f64_of_Z 1000)) <$> parse_f64 milli)
      | None => ok_or (Unparseable "cpu" s) (parse_f64 s)
      end;
  finite_nonneg v "cpu".

Definition mem_units : list (string * f64) :=
  [ ("Ki", f64_of_Z 1024);
    ("Mi", f64_mul (f64_of_Z 1024) (f64_of_Z 1024));
    ("Gi", GIB);
    ("Ti", f64_mul GIB (f64_of_Z 1024));
    ("K", f64_of_Z 1000);
    ("M", f64_of_Z 1000000);
    ("G", f64_of_Z 1000000000);
    ("T", f64_of_Z 1000000000000) ].

Definition mem_gib (s0 : string) : result QuantityError f64 :=
  let s := trim s0 in
  let '(num, bytes_per) := strip_unit mem_units s in
  v ← ok_or (Unparseable "memory" s)
        ((fun v => f64_div (f64_mul v bytes_per) GIB) <$> parse_f64 (trim num));
  finite_nonneg v "memory".

Definition gpu_count (s : option string) : result QuantityError f64 :=
  match s with
  | None | Some "" => Ok f64_zero
  | Some v =>
      n ← ok_or (Unparseable "gpu" v) (parse_f64 (trim v));
      finite_nonneg n "gpu"
  end.

(** [KI.powi(n)] is exact; [1e-9], [1e-6] and [1e-3] are the decimal literals. *)
Definition quantity_units : list (string * f64) :=
  [ ("Ki", f64_of_Z 1024);
    ("Mi", f64_of_Z (1024 ^ 2));
    ("Gi", f64_of_Z (1024 ^ 3));
    ("Ti", f64_of_Z (1024 ^ 4));
    ("Pi", f64_of_Z (1024 ^ 5));
    ("Ei", f64_of_Z (1024 ^ 6));
    ("n", dec_to_f64 false 1 (-9));
    ("u", dec_to_f64 false 1 (-6));
    ("m", dec_to_f64 false 1 (-3));
    ("k", f64_of_Z (10 ^ 3));
    ("M", f64_of_Z (10 ^ 6));
    ("G", f64_of_Z (10 ^ 9));
    ("T", f64_of_Z (10 ^ 12));
    ("P", f64_of_Z (10 ^ 15));
    ("E", f64_of_Z (10 ^ 18)) ].

Definition parse_quantity (s0 : string) : result QuantityError f64 :=
  let s := trim s0 in
  let '(num, mult) := strip_unit quantity_units s in
  v ← ok_or (Unparseable "quantity" s) ((fun v => f64_mul v mult) <$> parse_f64 (trim num));
  finite_nonneg v "quantity".

(** ** Theorems *)

Lemma finite_nonneg_ok v what w : finite_nonneg v what = Ok w <-> w = v /\ f64_nonneg v.
Proof.
  unfold finite_nonneg. rewrite <- f64_nonneg_spec.
  destruct (f64_is_finite v && f64_geb v f64_zero); naive_solver.
Qed.

Lemma cpu_cores_nonneg s v : cpu_cores s = Ok v -> f64_nonneg v.
Proof. intros H. apply result_bind_Ok in H as (? & _ & H). by apply finite_nonneg_ok in H as [-> ?]. Qed.
Lemma mem_gib_nonneg s v : mem_gib s = Ok v -> f64_nonneg v.
Proof.
  unfold mem_gib. destruct (strip_unit _ _). intros H.
  apply result_bind_Ok in H as (? & _ & H). by apply finite_nonneg_ok in H as [-> ?].
Qed.
Lemma gpu_count_nonneg o v : gpu_count o = Ok v -> f64_nonneg v.
Proof.
  destruct o as [[|c o]|]; cbn; [by intros; simplify_eq| |by intros; simplify_eq]. intros H.
  apply result_bind_Ok in H as (? & _ & H). by apply finite_nonneg_ok in H as [-> ?].
Qed.
Lemma parse_quantity_nonneg s v : parse_quantity s = Ok v -> f64_nonneg v.
Proof.
  unfold parse_quantity. destruct (strip_unit _ _). intros H.
  apply result_bind_Ok in H as (? & _ & H). by apply finite_nonneg_ok in H as [-> ?].
Qed.
#[export] Hint Resolve cpu_cores_nonneg mem_gib_nonneg gpu_count_nonneg parse_quantity_nonneg : mobula.

(** Whatever the text, an accepted CPU, memory, GPU or general quantity is
    finite and non-negative: no demand can lower a project's usage, and none is
    NaN or infinite. *)
Theorem quantities_nonneg s o v :
  cpu_cores s = Ok v \/ mem_gib s = Ok v \/ gpu_count o = Ok v \/ parse_quantity s = Ok v ->
  f64_nonneg v.
Proof. naive_solver eauto with mobula. Qed.

Lemma quantities_nonneg_witness :
  cpu_cores "500m" = Ok (f64_div f64_one (f64_of_Z 2)) /\
  f64_nonneg (f64_div f64_one (f64_of_Z 2)).
Proof.
  split; [by vm_compute|].
  apply (quantities_nonneg "500m" None). left. by vm_compute.
Defined.

(** The suffix tables on the inputs the unit tests list. *)
Example quantity_table :
  mem_gib "2Gi" = Ok (f64_of_Z 2) /\ mem_gib "512Mi" = Ok (f64_div f64_one (f64_of_Z 2)) /\
  mem_gib "1Ti" = Ok (f64_of_Z 1024) /\ mem_gib "1073741824" = Ok f64_one /\
  is_ok (mem_gib "-1Gi") = false /\ is_ok (mem_gib "NaN") = false /\
  is_ok (cpu_cores "inf") = false /\ is_ok (cpu_cores "2xm") = false /\
  parse_quantity "500m" = Ok (f64_div f64_one (f64_of_Z 2)) /\
  parse_quantity "2k" = Ok (f64_of_Z 2000) /\ parse_quantity "1e3" = Ok (f64_of_Z 1000) /\
  is_ok (parse_quantity "") = false /\ is_ok (parse_quantity "banana") = false.
Proof. by vm_compute. Qed.
