(* ===== verification/Policy.v ===== *)
(** * Governance policy (crates/mobula-policy/src/lib.rs, gpu.rs)

    Multi-resource demand, price estimation, quota and budget admission, and the
    tenant-isolation rule for shared GPUs. A [BTreeMap<String, f64>] is a finite
    map together with its iteration order, by key. *)

From S2P Require Import Prelude Float64 FloatFacts Core Quantity.
#[local] Open Scope Z_scope.

(** ** Resource maps *)

Abbreviation ResourceMap := (gmap string f64).

Definition entry_leb {K} (leb : K -> K -> bool) {V} (x y : K * V) : bool := leb (fst x) (fst y).

(** Iteration of a [BTreeMap] with [String] keys. *)
Definition btree_iter {V} (m : gmap string V) : list (string * V) :=
  sort_stable (entry_leb str_leb) (map_to_list m).

Definition CPU : string := "cpu".
Definition MEMORY : string := "memory".
Definition GPU : string := "nvidia.com/gpu".

(** [*m.entry(k).or_insert(0.0) += v]. *)
Definition entry_add (m : ResourceMap) (kv : string * f64) : ResourceMap :=
  <[fst kv := f64_add (default f64_zero (m !! fst kv)) (snd kv)]> m.

Definition rm_add (a b : ResourceMap) : ResourceMap := foldl entry_add a (btree_iter b).

Definition rm_scale (m : ResourceMap) (n : f64) : ResourceMap := (fun v => f64_mul v n) <$> m.

Definition rm_get (m : ResourceMap) (k : string) : f64 := default f64_zero (m !! k).

Definition fits_within (m limit : ResourceMap) : bool :=
  forallb (fun kv => f64_leb (snd kv) (rm_get limit (fst kv))) (btree_iter m).

Inductive PolicyError :=
| Quantity (e : QuantityError)
| MinAboveMax (group : string) (min max : Z).

Definition worker_unit (g : WorkerGroup) : result PolicyError ResourceMap :=
  cpu ← map_err Quantity (cpu_cores (wg_cpu g));
  mem ← map_err Quantity (mem_gib (wg_memory g));
  gpu ← map_err Quantity (gpu_count (wg_gpu g));
  let m : ResourceMap := <[MEMORY := mem]> (<[CPU := cpu]> ∅) in
  mret (if f64_gtb gpu f64_zero then <[GPU := gpu]> m else m).

Definition head_unit (spec : ClusterSpec) : result PolicyError ResourceMap :=
  cpu ← map_err Quantity (cpu_cores (cs_head_cpu spec));
  mem ← map_err Quantity (mem_gib (cs_head_memory spec));
  mret (<[MEMORY := mem]> (<[CPU := cpu]> ∅)).

(** The loop over the worker groups, from the demand so far. *)
Fixpoint groups_demand (gs : list WorkerGroup) (mn mx : ResourceMap)
  : result PolicyError (ResourceMap * ResourceMap) :=
  match gs with
  | [] => Ok (mn, mx)
  | g :: gs' =>
      if Z.gtb (wg_min_replicas g) (wg_max_replicas g)
      then Err (MinAboveMax (wg_name g) (wg_min_replicas g) (wg_max_replicas g))
      else
        unit ← worker_unit g;
        groups_demand gs'
          (rm_add mn (rm_scale unit (f64_of_Z (wg_min_replicas g))))
          (rm_add mx (rm_scale unit (f64_of_Z (wg_max_replicas g))))
  end.

Definition cluster_demand (spec : ClusterSpec)
  : result PolicyError (ResourceMap * ResourceMap) :=
  head ← head_unit spec;
  groups_demand (cs_worker_groups spec) head head.

(** ** Prices *)

Abbreviation PriceSheet := (gmap string f64).

(** [Iterator::sum] on [f64] starts from negative zero. *)
Definition f64_sum (l : list f64) : f64 := foldl f64_add (S754_zero true) l.

Definition price (sheet : PriceSheet) (v : ResourceMap) : f64 :=
  f64_sum ((fun kv => f64_mul (snd kv) (rm_get sheet (fst kv))) <$> btree_iter v).

Record CostEstimate := { min_hourly : f64; max_hourly : f64 }.

Definition estimate (sheet : PriceSheet) (spec : ClusterSpec) : result PolicyError CostEstimate :=
  d ← cluster_demand spec;
  mret {| min_hourly := price sheet (fst d); max_hourly := price sheet (snd d) |}.

(** ** Quota and budget admission *)

Record QuotaExceeded := {
  qe_project : string;
  qe_requested : ResourceMap;
  qe_in_use : ResourceMap;
  qe_limit : ResourceMap;
}.

(** [mobula_policy::admit]. *)
Definition admit_quota (project : string) (limit in_use requested : ResourceMap)
  : result QuotaExceeded unit :=
  if fits_within (rm_add in_use requested) limit then Ok tt
  else Err {| qe_project := project; qe_requested := requested;
              qe_in_use := in_use; qe_limit := limit |}.

Record Budget := { b_window_secs : Z; b_limits : ResourceMap }.

Record BudgetExceeded := {
  be_project : string;
  be_consumed : ResourceMap;
  be_limit : ResourceMap;
  be_window_secs : Z;
}.

Definition admit_budget (project : string) (b : Budget) (consumed : ResourceMap)
  : result BudgetExceeded unit :=
  if existsb (fun kv => f64_geb (rm_get consumed (fst kv)) (snd kv)) (btree_iter (b_limits b))
  then Err {| be_project := project; be_consumed := consumed; be_limit := b_limits b;
              be_window_secs := b_window_secs b |}
  else Ok tt.

(** ** GPU sharing (gpu.rs) *)

Definition effective_gpu_sharing (pool : PoolSpec) (platform_default : GpuSharing) : GpuSharing :=
  default platform_default (p_gpu_sharing pool).

Inductive GpuSharingViolation :=
| CrossTenantTimeSlice (pool : string) (tenants : Z)
| CrossTenantFractionalGpu (pool group requested : string) (tenants : Z)
| GpuQuantity (e : QuantityError).

Definition check_pool_gpu_isolation (pool : PoolSpec) (platform_default : GpuSharing) (tenants : Z)
  : result GpuSharingViolation unit :=
  if Z.gtb tenants 1 && bool_decide (effective_gpu_sharing pool platform_default = TimeSlice)
  then Err (CrossTenantTimeSlice (p_name pool) tenants)
  else Ok tt.

Fixpoint check_groups_gpu (pool : PoolSpec) (tenants : Z) (gs : list WorkerGroup)
  : result GpuSharingViolation unit :=
  match gs with
  | [] => Ok tt
  | g :: gs' =>
      match wg_gpu g with
      | None => check_groups_gpu pool tenants gs'
      | Some raw =>
          n ← map_err GpuQuantity (gpu_count (Some raw));
          if negb (f64_eqb (f64_fract n) f64_zero)
          then Err (CrossTenantFractionalGpu (p_name pool) (wg_name g) raw tenants)
          else check_groups_gpu pool tenants gs'
      end
  end.

Definition check_cluster_gpu_isolation (pool : PoolSpec) (platform_default : GpuSharing)
    (tenants : Z) (spec : ClusterSpec) : result GpuSharingViolation unit :=
  check_pool_gpu_isolation pool platform_default tenants ≫= fun _ =>
  if Z.leb tenants 1 then Ok tt
  else check_groups_gpu pool tenants (cs_worker_groups spec).

(** ** Iteration and addition *)

Lemma elem_of_btree_iter {V} (m : gmap string V) k v :
  (k, v) ∈ btree_iter m <-> m !! k = Some v.
Proof. unfold btree_iter. by rewrite elem_of_sort_stable, elem_of_map_to_list. Qed.

Lemma NoDup_btree_iter {V} (m : gmap string V) : NoDup (btree_iter m).*1.
Proof. unfold btree_iter. rewrite sort_stable_perm. apply NoDup_fst_map_to_list. Qed.

Lemma forallb_btree_iter {V} (m : gmap string V) p :
  forallb p (btree_iter m) = true <-> forall k v, m !! k = Some v -> p (k, v) = true.
Proof.
  rewrite forallb_forall. setoid_rewrite <- list_elem_of_In. split.
  - intros H k v Hk. by apply H, elem_of_btree_iter.
  - intros H [k v] Hk. by apply H, elem_of_btree_iter.
Qed.

Lemma existsb_btree_iter {V} (m : gmap string V) p :
  existsb p (btree_iter m) = true <-> exists k v, m !! k = Some v /\ p (k, v) = true.
Proof.
  rewrite existsb_exists. setoid_rewrite <- list_elem_of_In. split.
  - intros ([k v] & Hin%elem_of_btree_iter & Hp). eauto.
  - intros (k & v & Hk & Hp). exists (k, v). by rewrite elem_of_btree_iter.
Qed.

Lemma foldl_entry_add_lookup l (m : ResourceMap) k :
  NoDup l.*1 ->
  foldl entry_add m l !! k =
  match list_to_map (M:=gmap string f64) l !! k with
  | Some v => Some (f64_add (rm_get m k) v)
  | None => m !! k
  end.
Proof.
  revert m. induction l as [|[k' v'] l IH]; intros m; cbn.
  { intros _. by rewrite lookup_empty. }
  intros [Hnot HND]%NoDup_cons. rewrite (IH _ HND). unfold entry_add; cbn.
  destruct (decide (k' = k)) as [->|Hne].
  - rewrite lookup_insert_eq, (not_elem_of_list_to_map_1 _ _ Hnot). by rewrite lookup_insert_eq.
  - rewrite !lookup_insert_ne by done. unfold rm_get.
    by rewrite lookup_insert_ne by done.
Qed.

(** [ResourceMap + ResourceMap] is the union of the keys, shared keys summed. *)
Lemma rm_add_lookup a b k :
  rm_add a b !! k =
  match b !! k with Some v => Some (f64_add (rm_get a k) v) | None => a !! k end.
Proof.
  unfold rm_add. rewrite foldl_entry_add_lookup by apply NoDup_btree_iter.
  replace (list_to_map (btree_iter b) : ResourceMap) with b; [done|].
  apply map_eq. intros i. apply option_eq. intros v.
  rewrite <- elem_of_list_to_map by apply NoDup_btree_iter. by rewrite elem_of_btree_iter.
Qed.

Lemma rm_add_dom a b : dom (rm_add a b) = dom a ∪ dom b.
Proof.
  apply set_eq. intros k. rewrite elem_of_union, !elem_of_dom, rm_add_lookup.
  destruct (b !! k); [split; eauto|]. split; [eauto|]. intros [?|[? ?]]; done.
Qed.

Lemma fits_within_spec m limit :
  fits_within m limit = true <->
  forall k v, m !! k = Some v -> f64_leb v (rm_get limit k) = true.
Proof. unfold fits_within. by rewrite forallb_btree_iter. Qed.

(** ** Quota admission *)

(** Admission holds exactly when, on every resource, usage plus request is at
    most the limit (an unlisted resource has limit zero); a refusal carries the
    three maps it compared. *)
Theorem admit_quota_spec project limit in_use requested :
  (admit_quota project limit in_use requested = Ok tt <->
   forall k v, rm_add in_use requested !! k = Some v -> f64_leb v (rm_get limit k) = true) /\
  (forall e, admit_quota project limit in_use requested = Err e ->
   e = {| qe_project := project; qe_requested := requested;
          qe_in_use := in_use; qe_limit := limit |}).
Proof.
  unfold admit_quota. rewrite <- fits_within_spec.
  destruct (fits_within _ _); naive_solver.
Qed.

(** A total that is NaN is never admitted, and neither is a positive request for
    a resource that neither the limit nor the current usage lists. *)
Theorem admit_quota_fails_closed project limit in_use requested k v :
  (rm_add in_use requested !! k = Some S754_nan \/
   (requested !! k = Some v /\ f64_gtb v f64_zero = true /\
    in_use !! k = None /\ limit !! k = None)) ->
  is_ok (admit_quota project limit in_use requested) = false.
Proof.
  intros H. unfold admit_quota. destruct (fits_within _ _) eqn:E; [|done].
  rewrite fits_within_spec in E. exfalso. destruct H as [H|(Hr & Hv & Hu & Hl)].
  - specialize (E _ _ H). by rewrite f64_leb_nan_l in E.
  - specialize (E k (f64_add f64_zero v)). rewrite rm_add_lookup, Hr in E.
    unfold rm_get in E. rewrite Hu, Hl in E. specialize (E eq_refl). cbn in E.
    destruct v as [[]|[]| |[] m e]; done.
Qed.

Lemma admit_quota_fails_closed_witness :
  is_ok (admit_quota "p" {["cpu"%string := f64_of_Z 8]} ∅ {["example.com/license"%string := f64_one]})
  = false.
Proof.
  apply (admit_quota_fails_closed _ _ _ _ "example.com/license" f64_one).
  right. split_and!; by vm_compute.
Defined.

(** ** Budget admission *)

Lemma admit_budget_ok project b consumed :
  admit_budget project b consumed = Ok tt <->
  forall k cap, b_limits b !! k = Some cap -> f64_geb (rm_get consumed k) cap = false.
Proof.
  unfold admit_budget. destruct (existsb _ _) eqn:E; split; try done.
  - intros H. apply existsb_btree_iter in E as (k & cap & Hk & Hge).
    cbn [fst snd] in Hge. by rewrite (H _ _ Hk) in Hge.
  - intros _ k cap Hk. apply not_true_iff_false. intros Hge.
    apply not_true_iff_false in E. apply E, existsb_btree_iter. eauto.
Qed.

(** A budget admits exactly when no listed resource has reached its cap;
    resources it does not list are unconstrained. *)
Theorem admit_budget_spec project b consumed :
  (admit_budget project b consumed = Ok tt <->
   forall k cap, b_limits b !! k = Some cap -> f64_geb (rm_get consumed k) cap = false) /\
  (forall e, admit_budget project b consumed = Err e ->
   e = {| be_project := project; be_consumed := consumed; be_limit := b_limits b;
          be_window_secs := b_window_secs b |}).
Proof.
  split; [apply admit_budget_ok|]. unfold admit_budget. destruct (existsb _ _); naive_solver.
Qed.

(** ** GPU tenant isolation *)

Lemma check_groups_gpu_ok pool tenants gs :
  check_groups_gpu pool tenants gs = Ok tt <->
  Forall (fun g => forall raw, wg_gpu g = Some raw ->
    exists n, gpu_count (Some raw) = Ok n /\ f64_eqb (f64_fract n) f64_zero = true) gs.
Proof.
  induction gs as [|g gs IH]; cbn [check_groups_gpu]; [split; constructor|]. rewrite Forall_cons.
  destruct (wg_gpu g) as [raw|].
  - destruct (gpu_count (Some raw)) as [n|e] eqn:En; cbn [map_err mbind result_bind].
    + destruct (f64_eqb (f64_fract n) f64_zero) eqn:Ef; cbn [negb]; rewrite ?IH; [naive_solver|].
      split; [done|]. intros [H _]. destruct (H raw eq_refl) as (n' & ? & ?). congruence.
    + split; [done|]. intros [H _]. destruct (H raw eq_refl) as (n' & ? & ?). congruence.
  - rewrite IH. naive_solver.
Qed.

(** A cluster enters a pool exactly when the pool has at most one tenant, or is
    not time-sliced and every GPU request of the cluster parses to a whole
    number of devices. *)
Theorem gpu_isolation_spec pool platform_default tenants spec :
  check_cluster_gpu_isolation pool platform_default tenants spec = Ok tt <->
  tenants <= 1 \/
  (effective_gpu_sharing pool platform_default <> TimeSlice /\
   Forall (fun g => forall raw, wg_gpu g = Some raw ->
     exists n, gpu_count (Some raw) = Ok n /\ f64_eqb (f64_fract n) f64_zero = true)
     (cs_worker_groups spec)).
Proof.
  unfold check_cluster_gpu_isolation, check_pool_gpu_isolation.
  rewrite <- check_groups_gpu_ok with (pool := pool) (tenants := tenants).
  rewrite Z.gtb_ltb. destruct (Z.ltb_spec 1 tenants), (Z.leb_spec tenants 1); try lia; cbn.
  - case_bool_decide; cbn; naive_solver lia.
  - naive_solver.
Qed.

(** ** Demand *)


Definition rm_pos (m : ResourceMap) : Prop := map_Forall (fun _ v => f64_pos v) m.
Definition rm_nonneg (m : ResourceMap) : Prop := map_Forall (fun _ v => f64_nonneg v) m.

Lemma rm_add_pos a b : rm_pos a -> rm_pos b -> rm_pos (rm_add a b).
Proof.
  intros Ha Hb k v. rewrite rm_add_lookup. destruct (b !! k) as [w|] eqn:E.
  - intros [= <-]. apply f64_add_pos; [|by eapply Hb].
    unfold rm_get. destruct (a !! k) eqn:E'; cbn; [by eapply Ha|done].
  - apply Ha.
Qed.

Lemma rm_scale_pos m n : rm_nonneg m -> f64_nonneg n -> rm_pos (rm_scale m n).
Proof.
  intros Hm Hn k v. unfold rm_scale. rewrite lookup_fmap_Some.
  intros (w & <- & Hw). apply f64_mul_pos; [by eapply Hm|done].
Qed.

Lemma rm_scale_dom m n : dom (rm_scale m n) = dom m.
Proof. apply dom_fmap_L. Qed.

(** The keys of one worker group's unit, and of several groups. *)
Definition wants_gpu (g : WorkerGroup) : bool :=
  match gpu_count (wg_gpu g) with Ok n => f64_gtb n f64_zero | Err _ => false end.
Definition unit_keys (g : WorkerGroup) : gset string :=
  {[CPU; MEMORY]} ∪ (if wants_gpu g then {[GPU]} else ∅).
Fixpoint groups_keys (gs : list WorkerGroup) : gset string :=
  match gs with [] => ∅ | g :: gs' => unit_keys g ∪ groups_keys gs' end.

Lemma groups_keys_spec gs :
  {[CPU; MEMORY]} ∪ groups_keys gs =
  {[CPU; MEMORY]} ∪ (if existsb wants_gpu gs then {[GPU]} else ∅).
Proof.
  induction gs as [|g gs IH]; cbn [groups_keys existsb]; [done|]. unfold unit_keys.
  revert IH. generalize ({[CPU; MEMORY]} : gset string) ({[GPU]} : gset string).
  intros C G IH. apply set_eq. intros x.
  assert (x ∈ C ∪ groups_keys gs <-> x ∈ C ∪ (if existsb wants_gpu gs then G else ∅)) as Hx
    by (by rewrite IH).
  rewrite !elem_of_union in *.
  destruct (wants_gpu g), (existsb wants_gpu gs); cbn in *; rewrite ?elem_of_empty in *; tauto.
Qed.

Lemma worker_unit_ok g u :
  worker_unit g = Ok u ->
  rm_nonneg u /\ dom u = unit_keys g.
Proof.
  unfold worker_unit, unit_keys, wants_gpu. intros H.
  apply result_bind_Ok in H as (cpu & Hc & H). apply result_bind_Ok in H as (mem & Hm & H).
  apply result_bind_Ok in H as (gpu & Hg & H).
  destruct (cpu_cores (wg_cpu g)) as [?|] eqn:Ec; cbn in Hc; simplify_eq.
  destruct (mem_gib (wg_memory g)) as [?|] eqn:Em; cbn in Hm; simplify_eq.
  destruct (gpu_count (wg_gpu g)) as [?|] eqn:Eg; cbn in Hg; simplify_eq.
  apply cpu_cores_nonneg in Ec. apply mem_gib_nonneg in Em. apply gpu_count_nonneg in Eg.
  unfold mret, result_ret in H. simplify_eq. unfold rm_nonneg. split.
  - destruct (f64_gtb gpu f64_zero);
      repeat (apply map_Forall_insert_2; [done|]); apply map_Forall_empty.
  - destruct (f64_gtb gpu f64_zero); rewrite !dom_insert_L, dom_empty_L; set_solver.
Qed.

Lemma head_unit_ok spec u :
  head_unit spec = Ok u -> rm_pos u /\ dom u = {[CPU; MEMORY]}.
Proof.
  unfold head_unit. intros H.
  apply result_bind_Ok in H as (cpu & Hc & H). apply result_bind_Ok in H as (mem & Hm & H).
  destruct (cpu_cores _) as [?|] eqn:Ec; cbn in Hc; simplify_eq.
  destruct (mem_gib _) as [?|] eqn:Em; cbn in Hm; simplify_eq.
  apply cpu_cores_nonneg in Ec. apply mem_gib_nonneg in Em.
  unfold mret, result_ret in H. simplify_eq. unfold rm_pos. split.
  - repeat (apply map_Forall_insert_2; [by apply f64_nonneg_pos|]). apply map_Forall_empty.
  - rewrite !dom_insert_L, dom_empty_L. set_solver.
Qed.

(** Replica bounds are [u32]. *)
Definition group_wf (g : WorkerGroup) : Prop :=
  is_u32 (wg_min_replicas g) /\ is_u32 (wg_max_replicas g).

Lemma replicas_nonneg n : is_u32 n -> f64_nonneg (f64_of_Z n).
Proof. unfold is_u32, u32_max. intros. apply f64_of_Z_nonneg. lia. Qed.

Lemma groups_demand_ok gs mn mx mn' mx' :
  Forall group_wf gs -> rm_pos mn -> rm_pos mx ->
  groups_demand gs mn mx = Ok (mn', mx') ->
  rm_pos mn' /\ rm_pos mx' /\
  Forall (fun g => wg_min_replicas g <= wg_max_replicas g) gs /\
  dom mn' = dom mn ∪ groups_keys gs /\ dom mx' = dom mx ∪ groups_keys gs.
Proof.
  revert mn mx. induction gs as [|g gs IH]; intros mn mx Hwf Hmn Hmx; cbn [groups_demand].
  { intros [= <- <-]. cbn. rewrite !(right_id_L ∅ (∪)). split_and!; [done|done|constructor|done|done]. }
  apply Forall_cons in Hwf as [[Hw1 Hw2] Hwf].
  rewrite Z.gtb_ltb. destruct (Z.ltb_spec (wg_max_replicas g) (wg_min_replicas g)); [done|].
  intros H'. apply result_bind_Ok in H' as (u & Hu & H').
  apply worker_unit_ok in Hu as [Hnn Hdom].
  apply IH in H' as (H1 & H2 & H3 & H4 & H5); [|done|..].
  - rewrite H4, H5, !rm_add_dom, !rm_scale_dom, Hdom. cbn [groups_keys].
    rewrite !(assoc_L (∪)). split_and!; [done|done|by constructor|done|done].
  - apply rm_add_pos; [done|]. apply rm_scale_pos; [done|by apply replicas_nonneg].
  - apply rm_add_pos; [done|]. apply rm_scale_pos; [done|by apply replicas_nonneg].
Qed.

(** A computed demand lists [cpu] and [memory], and [nvidia.com/gpu] exactly when
    some worker group asks for devices; no entry is negative or NaN, at either
    size; and no group has its minimum above its maximum. *)
Theorem cluster_demand_spec spec mn mx :
  Forall group_wf (cs_worker_groups spec) ->
  cluster_demand spec = Ok (mn, mx) ->
  rm_pos mn /\ rm_pos mx /\
  dom mn = {[CPU; MEMORY]} ∪ (if existsb wants_gpu (cs_worker_groups spec) then {[GPU]} else ∅) /\
  dom mx = dom mn /\
  Forall (fun g => wg_min_replicas g <= wg_max_replicas g) (cs_worker_groups spec).
Proof.
  intros Hwf H. unfold cluster_demand in H. apply result_bind_Ok in H as (h & Hh & H).
  apply head_unit_ok in Hh as [Hp Hd].
  apply groups_demand_ok in H as (H1 & H2 & H3 & H4 & H5); [|done..].
  rewrite H4, H5, Hd, groups_keys_spec. by split_and!.
Qed.

Definition demo_spec : ClusterSpec := {|
  cs_name := "c"; cs_project := "p"; cs_engine := Ray; cs_ray_version := "2.57.0";
  cs_image := "img"; cs_head_cpu := "1"; cs_head_memory := "2Gi";
  cs_worker_groups := [ {| wg_name := "w"; wg_cpu := "2"; wg_memory := "4Gi"; wg_gpu := Some "1"%string;
    wg_min_replicas := 1; wg_max_replicas := 3; wg_replicas := 1 |} ];
  cs_ttl_seconds := None; cs_idle_timeout_secs := None; cs_owner := None |}.

Definition demo_demand : ResourceMap * ResourceMap :=
  match cluster_demand demo_spec with Ok d => d | Err _ => (∅, ∅) end.

Lemma demo_demand_ok : cluster_demand demo_spec = Ok (fst demo_demand, snd demo_demand).
Proof. vm_compute. reflexivity. Qed.

Lemma demo_groups_wf : Forall group_wf (cs_worker_groups demo_spec).
Proof. repeat constructor; cbn; unfold u32_max; lia. Qed.

Lemma cluster_demand_spec_witness :
  rm_pos (fst demo_demand) /\ rm_pos (snd demo_demand) /\
  dom (fst demo_demand) =
    {[CPU; MEMORY]} ∪ (if existsb wants_gpu (cs_worker_groups demo_spec) then {[GPU]} else ∅) /\
  dom (snd demo_demand) = dom (fst demo_demand) /\
  Forall (fun g => wg_min_replicas g <= wg_max_replicas g) (cs_worker_groups demo_spec).
Proof. exact (cluster_demand_spec demo_spec _ _ demo_groups_wf demo_demand_ok). Defined.
