(* ===== verification/Usage.v ===== *)
(** * Usage aggregation (crates/mobula-policy/src/usage.rs)

    Integration of a usage timeseries into resource-hours, per-resource roll-up
    across pools, and its price. The integration is stated over [Numeric]: on
    [f64] it is the running code, on exact rationals it is shown to be the
    integral of the step function the samples describe. *)

From Stdlib Require Import QArith Qcanon.
From S2P Require Import Prelude Float64 Policy.
#[local] Open Scope Z_scope.

Section integrate.
Context {A : Type} `{Numeric A}.

(** The loop over the sorted samples: level, cursor and accumulated seconds. *)
Fixpoint rh_loop (from to : Z) (pts : list (Z * A)) (level : A) (cursor : Z) (seconds : A)
  : A * Z * A :=
  match pts with
  | [] => (level, cursor, seconds)
  | (t, q) :: pts' =>
      if Z.leb t from then rh_loop from to pts' q cursor seconds
      else if Z.leb to t then (level, cursor, seconds)
      else rh_loop from to pts' q t (n_add seconds (n_mul level (n_of_Z (t - cursor))))
  end.

Definition resource_hours (samples : list (Z * A)) (from to : Z) : A :=
  if Z.leb to from then n_zero
  else
    let pts := sort_by_key fst samples in
    let '(level, cursor, seconds) := rh_loop from to pts n_zero from n_zero in
    n_div (n_add seconds (n_mul level (n_of_Z (to - cursor)))) (n_of_Z 3600).
End integrate.

(** Iteration of a [BTreeMap<(String, String), _>]. *)
Definition pair_leb (x y : string * string) : bool :=
  if String.eqb (fst x) (fst y) then str_leb (snd x) (snd y) else str_leb (fst x) (fst y).
Definition btree_iter2 {V} (m : gmap (string * string) V) : list ((string * string) * V) :=
  sort_stable (entry_leb pair_leb) (map_to_list m).

Definition windowed_resource_hours (by_pool_resource : gmap (string * string) (list (Z * f64)))
    (from to : Z) : ResourceMap :=
  foldl (fun out kv => entry_add out (snd (fst kv), resource_hours (snd kv) from to))
    ∅ (btree_iter2 by_pool_resource).

Definition cost (hours : ResourceMap) (sheet : PriceSheet) : f64 :=
  f64_sum ((fun kv => f64_mul (snd kv) (rm_get sheet (fst kv))) <$> btree_iter hours).

(** ** Exact integration *)

#[local] Open Scope Qc_scope.

(** The level at second [s]: the quantity of the last sample at or before it,
    starting from [level]. *)
Fixpoint level_from (level : Qc) (pts : list (Z * Qc)) (s : Z) : Qc :=
  match pts with
  | [] => level
  | (t, q) :: pts' => level_from (if Z.leb t s then q else level) pts' s
  end.

(** The step function of a set of samples. *)
Definition level_at (samples : list (Z * Qc)) (s : Z) : Qc :=
  level_from 0 (sort_by_key fst samples) s.

(** The sum of [f] over the [n] seconds from [s]. *)
Fixpoint sum_seconds (f : Z -> Qc) (s : Z) (n : nat) : Qc :=
  match n with
  | O => 0
  | S n' => f s + sum_seconds f (s + 1)%Z n'
  end.

Definition integral (f : Z -> Qc) (from to : Z) : Qc := sum_seconds f from (Z.to_nat (to - from)).

Lemma Qc_of_Z_add a b :
  Q2Qc (inject_Z (a + b)) = Q2Qc (inject_Z a) + Q2Qc (inject_Z b).
Proof.
  apply Qc_is_canon. cbn. rewrite !Qred_correct. by rewrite inject_Z_plus.
Qed.

Lemma sum_seconds_app f s n m :
  sum_seconds f s (n + m) = sum_seconds f s n + sum_seconds f (s + Z.of_nat n)%Z m.
Proof.
  revert s. induction n as [|n IH]; intros s.
  - change (Z.of_nat 0) with 0%Z. rewrite Z.add_0_r. cbn. ring.
  - cbn. rewrite IH. rewrite <- Qcplus_assoc. do 3 f_equal. lia.
Qed.

Lemma integral_split f a b c :
  (a <= b <= c)%Z -> integral f a c = integral f a b + integral f b c.
Proof.
  intros Hle. unfold integral.
  replace (Z.to_nat (c - a)) with (Z.to_nat (b - a) + Z.to_nat (c - b))%nat by lia.
  rewrite sum_seconds_app. do 2 f_equal. lia.
Qed.

Lemma sum_seconds_ext f g s n :
  (forall x, (s <= x < s + Z.of_nat n)%Z -> f x = g x) -> sum_seconds f s n = sum_seconds g s n.
Proof.
  revert s. induction n as [|n IH]; intros s Hfg; cbn; [done|].
  rewrite (Hfg s) by lia. f_equal. apply IH. intros x Hx. apply Hfg. lia.
Qed.

Lemma integral_ext f g a b :
  (forall x, (a <= x < b)%Z -> f x = g x) -> integral f a b = integral g a b.
Proof. intros Hfg. apply sum_seconds_ext. intros x Hx. apply Hfg. lia. Qed.

Lemma integral_const c a b : (a <= b)%Z -> integral (fun _ => c) a b = c * Q2Qc (inject_Z (b - a)).
Proof.
  intros Hle. unfold integral. replace (b - a)%Z with (Z.of_nat (Z.to_nat (b - a))) at 2 by lia.
  generalize (Z.to_nat (b - a)). intros n. generalize a. clear Hle.
  induction n as [|n IH]; intros s.
  - cbn [sum_seconds]. change (Q2Qc (inject_Z (Z.of_nat 0))) with 0. ring.
  - cbn [sum_seconds]. rewrite IH.
    replace (Z.of_nat (S n)) with (1 + Z.of_nat n)%Z by lia.
    rewrite Qc_of_Z_add. change (Q2Qc (inject_Z 1)) with 1. ring.
Qed.

(** Samples later than the second do not change the level. *)
Lemma level_from_later level pts s :
  Forall (fun p => s < fst p)%Z pts -> level_from level pts s = level.
Proof.
  revert level. induction pts as [|[t q] pts IH]; intros level; cbn; [done|].
  intros [Ht Hf]%Forall_cons. cbn in Ht. destruct (Z.leb_spec t s); [lia|]. by apply IH.
Qed.

Lemma rh_loop_integral from to pts level cursor seconds l' c' s' :
  (from <= cursor < to)%Z ->
  StronglySorted (fun x y => fst x <= fst y)%Z pts ->
  Forall (fun p => fst p <= from \/ cursor <= fst p)%Z pts ->
  (Exists (fun p => fst p <= from)%Z pts -> cursor = from) ->
  rh_loop from to pts level cursor seconds = (l', c', s') ->
  s' + l' * Q2Qc (inject_Z (to - c')) =
  seconds + integral (level_from level pts) cursor to.
Proof.
  revert level cursor seconds.
  induction pts as [|[t q] pts IH]; intros level cursor seconds Hc Hsort Hfa Hex; cbn [rh_loop].
  { intros [= <- <- <-]. cbn [level_from]. change (fun s : Z => level) with (fun _ : Z => level).
    by rewrite integral_const by lia. }
  apply StronglySorted_inv in Hsort as [Hsort Hlt].
  apply Forall_cons in Hfa as [Ht Hfa]. cbn in Ht, Hlt.
  destruct (Z.leb_spec t from) as [Hle|Hgt].
  - intros Hloop. apply IH in Hloop as ->; [|done..|].
    + f_equal. apply integral_ext. intros x Hx. cbn. by destruct (Z.leb_spec t x); [|lia].
    + intros He. apply Hex. by right.
  - assert (Forall (fun p => t <= fst p)%Z pts) as Hlt' by done.
    destruct (Z.leb_spec to t) as [Hto|Hto].
    + intros [= <- <- <-]. f_equal.
      rewrite <- integral_const by lia. apply integral_ext. intros x Hx.
      symmetry. apply level_from_later. constructor; [cbn; lia|].
      eapply Forall_impl; [exact Hlt'|]. cbn. lia.
    + intros Hloop. apply IH in Hloop as ->; [|lia|done| |].
      * rewrite (integral_split _ cursor t to) by lia.
        rewrite <- (integral_ext (fun _ => level) (level_from level ((t, q) :: pts)) cursor t).
        2:{ intros x Hx. symmetry. apply level_from_later. constructor; [cbn; lia|].
            eapply Forall_impl; [exact Hlt'|]. cbn. lia. }
        rewrite integral_const by lia.
        rewrite (integral_ext (level_from level ((t, q) :: pts)) (level_from q pts) t to).
        2:{ intros x Hx. cbn. by destruct (Z.leb_spec t x); [|lia]. }
        cbn [n_add n_mul n_of_Z Qc_numeric]. ring.
      * eapply Forall_impl; [exact Hlt'|]. cbn. lia.
      * intros He. exfalso. apply Exists_exists in He as (p & Hp & Hpf).
        rewrite Forall_forall in Hlt'. specialize (Hlt' p Hp). lia.
Qed.

Lemma resource_hours_integral (samples : list (Z * Qc)) from to :
  resource_hours samples from to = integral (level_at samples) from to / Q2Qc (inject_Z 3600).
Proof.
  unfold resource_hours. destruct (Z.leb_spec to from) as [Hle|Hlt].
  { unfold integral. rewrite Z2Nat.nonpos by lia. cbn [sum_seconds n_zero Qc_numeric].
    unfold Qcdiv. by rewrite Qcmult_0_l. }
  destruct (rh_loop from to (sort_by_key fst samples) n_zero from n_zero) as [[l c] s] eqn:E.
  apply rh_loop_integral in E; [|lia|apply sort_by_key_strongly| |done].
  - cbn [n_add n_mul n_of_Z n_div n_zero Qc_numeric] in *. rewrite E, Qcplus_0_l. done.
  - apply Forall_forall. intros p _. lia.
Qed.

(** C37. In exact arithmetic [resource_hours] is the integral of the step function
    over the window, in hours: the sum over its seconds of the level then,
    divided by 3600. Samples may come in any order. *)
Theorem resource_hours_exact (samples : list (Z * Qc)) from to :
  resource_hours samples from to = integral (level_at samples) from to / Q2Qc (inject_Z 3600).
Proof. apply resource_hours_integral. Qed.

(** Splitting a window at any point splits the hours: nothing is lost or counted
    twice at the seam. *)
Theorem resource_hours_additive (samples : list (Z * Qc)) a b c :
  (a <= b <= c)%Z ->
  resource_hours samples a c =
  Qcplus (resource_hours samples a b) (resource_hours samples b c).
Proof.
  intros Hle. rewrite !resource_hours_integral, (integral_split _ a b c Hle). unfold Qcdiv. ring.
Qed.

Lemma resource_hours_additive_witness :
  (0 <= 1800 <= 3600)%Z /\
  resource_hours [(1800%Z, Q2Qc 8); (0%Z, Q2Qc 4)] 0 3600 =
  Qcplus (resource_hours [(1800%Z, Q2Qc 8); (0%Z, Q2Qc 4)] 0 1800)
         (resource_hours [(1800%Z, Q2Qc 8); (0%Z, Q2Qc 4)] 1800 3600).
Proof. split; [lia|]. apply (resource_hours_additive _ 0 1800 3600). lia. Defined.
