(* ===== verification/Store.v ===== *)
(** * Desired-state store (crates/mobula-controller/src/store.rs)

    The records the [Store] trait exchanges, the pure helpers every backend
    shares, the audit hash chain, and [InMemoryStore] with every operation of the
    trait. A mutex-protected map is a finite map; each method holds its lock for
    the whole body, so it is one atomic step. [now_unix] is an argument of the
    operations that read the clock. *)

From stdpp Require Import pretty.
From S2P Require Import Prelude Float64 Core Policy.
#[local] Open Scope Z_scope.

Inductive StoreError := Backend (msg : string).

Inductive DesiredState := DRunning | DSuspended | DTerminated.
#[export] Instance DesiredState_eq_dec : EqDecision DesiredState.
Proof. solve_decision. Defined.

Record StoredCluster := {
  c_id : ClusterId;
  c_spec : ClusterSpec;
  c_generation : Z;
  c_desired : DesiredState;
  c_observed_state : option ClusterState;
  c_observed_generation : Z;
  c_condition : option DriftCondition;
  c_failure_count : Z;
  c_next_attempt_at : Z;
  c_created_at : Z;
  c_terminated_at : option Z;
}.
#[export] Instance StoredCluster_eq_dec : EqDecision StoredCluster.
Proof. solve_decision. Defined.

Record StoredPool := {
  sp_name : string;
  sp_spec : PoolSpec;
  sp_generation : Z;
  sp_observed_json : option string;
  sp_observed_at : option Z;
  sp_created_at : Z;
}.

Inductive UsageSource := KueueLedger | ObservedSpec.
#[export] Instance UsageSource_eq_dec : EqDecision UsageSource.
Proof. solve_decision. Defined.

Definition usage_source_str (s : UsageSource) : string :=
  match s with KueueLedger => "kueue_ledger" | ObservedSpec => "observed_spec" end.
(** The message quotes the text with [{:?}]; the model keeps the text. *)
Definition usage_source_parse (s : string) : result StoreError UsageSource :=
  if String.eqb s "kueue_ledger" then Ok KueueLedger
  else if String.eqb s "observed_spec" then Ok ObservedSpec
  else Err (Backend ("bad usage source " +:+ s)).

Record UsageSample := {
  us_ts : Z;
  us_project : string;
  us_pool : string;
  us_resource : string;
  us_quantity : f64;
  us_source : UsageSource;
}.

Record StoredBudget := { sb_window_secs : Z; sb_limits : gmap string f64 }.

Record StoredPolicy := {
  po_prices : option (gmap string f64);
  po_quotas : gmap string (gmap string f64);
  po_budgets : gmap string StoredBudget;
  po_from_file_seed : bool;
}.

Record RoleAssignment := {
  ra_principal : string;
  ra_role : string;
  ra_scope : string;
  ra_created_at : Z;
}.

Inductive IntentStatus := IPending | IApplied.
#[export] Instance IntentStatus_eq_dec : EqDecision IntentStatus.
Proof. solve_decision. Defined.

Record IntentRecord := {
  i_key : string;
  i_params_fingerprint : string;
  i_status : IntentStatus;
  i_response_json : option string;
  i_created_at : Z;
  i_completed_at : option Z;
}.

Inductive IntentOutcome := Proceed (replay : bool) | ParamMismatch.

(** ** Shared pure helpers *)

(** Decimal rendering of a [u64] ([Display]). *)
Definition u64_str (z : Z) : string := pretty (Z.to_N z).

(** [StoredCluster::intent_key]. *)
Definition intent_key (c : StoredCluster) : string :=
  c_id c +:+ "/" +:+ u64_str (c_generation c).

Definition group_changed (xy : WorkerGroup * WorkerGroup) : bool :=
  let '(x, y) := xy in
  negb (String.eqb (wg_name x) (wg_name y))
  || negb (String.eqb (wg_cpu x) (wg_cpu y))
  || negb (String.eqb (wg_memory x) (wg_memory y))
  || negb (bool_decide (wg_gpu x = wg_gpu y))
  || negb (Z.eqb (wg_min_replicas x) (wg_min_replicas y))
  || negb (Z.eqb (wg_max_replicas x) (wg_max_replicas y))
  || negb (Z.eqb (wg_replicas x) (wg_replicas y)).

Definition spec_changed (a b : ClusterSpec) : bool :=
  negb (String.eqb (cs_name a) (cs_name b))
  || negb (String.eqb (cs_project a) (cs_project b))
  || negb (String.eqb (cs_ray_version a) (cs_ray_version b))
  || negb (String.eqb (cs_image a) (cs_image b))
  || negb (String.eqb (cs_head_cpu a) (cs_head_cpu b))
  || negb (String.eqb (cs_head_memory a) (cs_head_memory b))
  || negb (bool_decide (cs_ttl_seconds a = cs_ttl_seconds b))
  || negb (bool_decide (cs_idle_timeout_secs a = cs_idle_timeout_secs b))
  || negb (Nat.eqb (length (cs_worker_groups a)) (length (cs_worker_groups b)))
  || existsb group_changed (zip (cs_worker_groups a) (cs_worker_groups b)).

(** The derived [PartialEq] of [PoolSpec]: the weight compares as a float. *)
Definition pool_spec_eqb (a b : PoolSpec) : bool :=
  bool_decide (p_name a = p_name b)
  && bool_decide (p_flavors a = p_flavors b)
  && bool_decide (p_cohort a = p_cohort b)
  && f64_eqb (p_fair_sharing_weight a) (p_fair_sharing_weight b)
  && Bool.eqb (p_elastic a) (p_elastic b)
  && bool_decide (p_gpu_sharing a = p_gpu_sharing b).
Definition pool_spec_changed (a b : PoolSpec) : bool := negb (pool_spec_eqb a b).

Definition LOGIN_LOCKOUT_THRESHOLD : Z := 5.
Definition LOCKOUT_SECS : Z := 300.

Definition next_login_failure_state (failed_logins now : Z) : Z * option Z :=
  let failed := u32_add failed_logins 1 in
  if Z.leb LOGIN_LOCKOUT_THRESHOLD failed then (0, Some (u64_add now LOCKOUT_SECS))
  else (failed, None).

(** ** The audit hash chain *)

Definition AUDIT_GENESIS_HASH : string :=
  "0000000000000000000000000000000000000000000000000000000000000000".

Definition ChainedAuditRow : Type := Z * AuditEvent * string.

Record AuditChainWindow := { aw_head : string; aw_rows : list ChainedAuditRow }.

(** The third-party pieces of the chain: SHA-256 in lowercase hex (crate
    [sha2]) and the JSON text of an event (crate [serde_json]). *)
Class AuditCodec := {
  sha256_hex : string -> string;
  audit_json : AuditEvent -> string;
}.

Record AuditChainVerification := { av_events_checked : Z; av_first_broken_seq : option Z }.

Definition chain_ok (v : AuditChainVerification) : bool :=
  match av_first_broken_seq v with None => true | Some _ => false end.

Section chain.
Context `{AuditCodec}.

Definition audit_chain_hash (prev_hash : string) (event : AuditEvent) : string :=
  sha256_hex (prev_hash +:+ audit_json event).

Fixpoint verify_loop (prev : string) (checked : Z) (rows : list ChainedAuditRow)
  : AuditChainVerification :=
  match rows with
  | [] => {| av_events_checked := checked; av_first_broken_seq := None |}
  | (seq, event, stored) :: rows' =>
      if negb (String.eqb (audit_chain_hash prev event) stored)
      then {| av_events_checked := checked; av_first_broken_seq := Some seq |}
      else verify_loop stored (u64_add checked 1) rows'
  end.

Definition verify_audit_chain (head : string) (rows : list ChainedAuditRow)
  : AuditChainVerification := verify_loop head 0 rows.
End chain.

(** ** The in-memory store *)

Record InMemoryStore := {
  m_clusters : gmap string StoredCluster;
  m_intents : gmap string IntentRecord;
  m_quarantined : bool;
  m_jobs : gmap string JobRecord;
  m_pools : gmap string StoredPool;
  m_allocations : gmap (string * string) AllocationSpec;
  m_usage : list UsageSample;
  m_policy : option StoredPolicy;
  m_audit : list ChainedAuditRow;
  m_audit_seq : Z;
  m_local_users : gmap string LocalUserRecord;
  m_api_tokens : gmap string ApiTokenRecord;
  m_assignments : gmap (string * string * string) RoleAssignment;
}.

Definition empty_store : InMemoryStore := {|
  m_clusters := ∅;
  m_intents := ∅;
  m_quarantined := false;
  m_jobs := ∅;
  m_pools := ∅;
  m_allocations := ∅;
  m_usage := [];
  m_policy := None;
  m_audit := [];
  m_audit_seq := 0;
  m_local_users := ∅;
  m_api_tokens := ∅;
  m_assignments := ∅ |}.

(** One field written, the others kept. *)
Definition set_clusters (v : gmap string StoredCluster) (s : InMemoryStore) : InMemoryStore := {|
  m_clusters := v; m_intents := m_intents s; m_quarantined := m_quarantined s; m_jobs :=
  m_jobs s; m_pools := m_pools s; m_allocations := m_allocations s; m_usage := m_usage s;
  m_policy := m_policy s; m_audit := m_audit s; m_audit_seq := m_audit_seq s; m_local_users
  := m_local_users s; m_api_tokens := m_api_tokens s; m_assignments := m_assignments s |}.
Definition set_intents (v : gmap string IntentRecord) (s : InMemoryStore) : InMemoryStore := {|
  m_clusters := m_clusters s; m_intents := v; m_quarantined := m_quarantined s; m_jobs :=
  m_jobs s; m_pools := m_pools s; m_allocations := m_allocations s; m_usage := m_usage s;
  m_policy := m_policy s; m_audit := m_audit s; m_audit_seq := m_audit_seq s; m_local_users
  := m_local_users s; m_api_tokens := m_api_tokens s; m_assignments := m_assignments s |}.
Definition set_quarantined (v : bool) (s : InMemoryStore) : InMemoryStore := {|
  m_clusters := m_clusters s; m_intents := m_intents s; m_quarantined := v; m_jobs := m_jobs
  s; m_pools := m_pools s; m_allocations := m_allocations s; m_usage := m_usage s; m_policy
  := m_policy s; m_audit := m_audit s; m_audit_seq := m_audit_seq s; m_local_users :=
  m_local_users s; m_api_tokens := m_api_tokens s; m_assignments := m_assignments s |}.
Definition set_jobs (v : gmap string JobRecord) (s : InMemoryStore) : InMemoryStore := {|
  m_clusters := m_clusters s; m_intents := m_intents s; m_quarantined := m_quarantined s;
  m_jobs := v; m_pools := m_pools s; m_allocations := m_allocations s; m_usage := m_usage s;
  m_policy := m_policy s; m_audit := m_audit s; m_audit_seq := m_audit_seq s; m_local_users
  := m_local_users s; m_api_tokens := m_api_tokens s; m_assignments := m_assignments s |}.
Definition set_pools (v : gmap string StoredPool) (s : InMemoryStore) : InMemoryStore := {|
  m_clusters := m_clusters s; m_intents := m_intents s; m_quarantined := m_quarantined s;
  m_jobs := m_jobs s; m_pools := v; m_allocations := m_allocations s; m_usage := m_usage s;
  m_policy := m_policy s; m_audit := m_audit s; m_audit_seq := m_audit_seq s; m_local_users
  := m_local_users s; m_api_tokens := m_api_tokens s; m_assignments := m_assignments s |}.
Definition set_allocations (v : gmap (string * string) AllocationSpec) (s : InMemoryStore) : InMemoryStore := {|
  m_clusters := m_clusters s; m_intents := m_intents s; m_quarantined := m_quarantined s;
  m_jobs := m_jobs s; m_pools := m_pools s; m_allocations := v; m_usage := m_usage s;
  m_policy := m_policy s; m_audit := m_audit s; m_audit_seq := m_audit_seq s; m_local_users
  := m_local_users s; m_api_tokens := m_api_tokens s; m_assignments := m_assignments s |}.
Definition set_usage (v : list UsageSample) (s : InMemoryStore) : InMemoryStore := {|
  m_clusters := m_clusters s; m_intents := m_intents s; m_quarantined := m_quarantined s;
  m_jobs := m_jobs s; m_pools := m_pools s; m_allocations := m_allocations s; m_usage := v;
  m_policy := m_policy s; m_audit := m_audit s; m_audit_seq := m_audit_seq s; m_local_users
  := m_local_users s; m_api_tokens := m_api_tokens s; m_assignments := m_assignments s |}.
Definition set_policy (v : option StoredPolicy) (s : InMemoryStore) : InMemoryStore := {|
  m_clusters := m_clusters s; m_intents := m_intents s; m_quarantined := m_quarantined s;
  m_jobs := m_jobs s; m_pools := m_pools s; m_allocations := m_allocations s; m_usage :=
  m_usage s; m_policy := v; m_audit := m_audit s; m_audit_seq := m_audit_seq s;
  m_local_users := m_local_users s; m_api_tokens := m_api_tokens s; m_assignments :=
  m_assignments s |}.
Definition set_audit (v : list ChainedAuditRow) (s : InMemoryStore) : InMemoryStore := {|
  m_clusters := m_clusters s; m_intents := m_intents s; m_quarantined := m_quarantined s;
  m_jobs := m_jobs s; m_pools := m_pools s; m_allocations := m_allocations s; m_usage :=
  m_usage s; m_policy := m_policy s; m_audit := v; m_audit_seq := m_audit_seq s;
  m_local_users := m_local_users s; m_api_tokens := m_api_tokens s; m_assignments :=
  m_assignments s |}.
Definition set_audit_seq (v : Z) (s : InMemoryStore) : InMemoryStore := {|
  m_clusters := m_clusters s; m_intents := m_intents s; m_quarantined := m_quarantined s;
  m_jobs := m_jobs s; m_pools := m_pools s; m_allocations := m_allocations s; m_usage :=
  m_usage s; m_policy := m_policy s; m_audit := m_audit s; m_audit_seq := v; m_local_users
  := m_local_users s; m_api_tokens := m_api_tokens s; m_assignments := m_assignments s |}.
Definition set_local_users (v : gmap string LocalUserRecord) (s : InMemoryStore) : InMemoryStore := {|
  m_clusters := m_clusters s; m_intents := m_intents s; m_quarantined := m_quarantined s;
  m_jobs := m_jobs s; m_pools := m_pools s; m_allocations := m_allocations s; m_usage :=
  m_usage s; m_policy := m_policy s; m_audit := m_audit s; m_audit_seq := m_audit_seq s;
  m_local_users := v; m_api_tokens := m_api_tokens s; m_assignments := m_assignments s |}.
Definition set_api_tokens (v : gmap string ApiTokenRecord) (s : InMemoryStore) : InMemoryStore := {|
  m_clusters := m_clusters s; m_intents := m_intents s; m_quarantined := m_quarantined s;
  m_jobs := m_jobs s; m_pools := m_pools s; m_allocations := m_allocations s; m_usage :=
  m_usage s; m_policy := m_policy s; m_audit := m_audit s; m_audit_seq := m_audit_seq s;
  m_local_users := m_local_users s; m_api_tokens := v; m_assignments := m_assignments s |}.
Definition set_assignments (v : gmap (string * string * string) RoleAssignment) (s : InMemoryStore) : InMemoryStore := {|
  m_clusters := m_clusters s; m_intents := m_intents s; m_quarantined := m_quarantined s;
  m_jobs := m_jobs s; m_pools := m_pools s; m_allocations := m_allocations s; m_usage :=
  m_usage s; m_policy := m_policy s; m_audit := m_audit s; m_audit_seq := m_audit_seq s;
  m_local_users := m_local_users s; m_api_tokens := m_api_tokens s; m_assignments := v |}.

(** A store method: the result and the store after it. *)
Abbreviation M := (ST InMemoryStore StoreError).

Definition upd_clusters (f : gmap string StoredCluster -> gmap string StoredCluster) : M unit :=
  st_put (fun s => set_clusters (f (m_clusters s)) s).

(** *** Clusters *)

Definition upsert_generation (existing : option StoredCluster) (spec : ClusterSpec) : Z :=
  match existing with
  | Some c => if spec_changed (c_spec c) spec then u64_add (c_generation c) 1 else c_generation c
  | None => 1
  end.

Definition upsert_record (now : Z) (id : ClusterId) (spec : ClusterSpec)
    (observed : option StoredCluster) : StoredCluster := {|
  c_id := id;
  c_spec := spec;
  c_generation := upsert_generation observed spec;
  c_desired := default DRunning (c_desired <$> observed);
  c_observed_state := observed ≫= c_observed_state;
  c_observed_generation := default 0 (c_observed_generation <$> observed);
  c_condition := observed ≫= c_condition;
  c_failure_count := default 0 (c_failure_count <$> observed);
  c_next_attempt_at := default 0 (c_next_attempt_at <$> observed);
  c_created_at := default now (c_created_at <$> observed);
  c_terminated_at := observed ≫= c_terminated_at |}.

Definition upsert_desired (now : Z) (id : ClusterId) (spec : ClusterSpec) : M Z :=
  map ← st_get m_clusters;
  let record := upsert_record now id spec (map !! id) in
  upd_clusters (insert id record) ≫= fun _ => mret (c_generation record).

Definition get (id : ClusterId) : M (option StoredCluster) :=
  st_get (fun s => m_clusters s !! id).

Definition list_clusters : M (list StoredCluster) := st_get (fun s => map_values (m_clusters s)).

Definition with_desired (now : Z) (desired : DesiredState) (c : StoredCluster) : StoredCluster := {|
  c_id := c_id c; c_spec := c_spec c; c_generation := c_generation c;
  c_desired := desired;
  c_observed_state := c_observed_state c; c_observed_generation := c_observed_generation c;
  c_condition := c_condition c; c_failure_count := c_failure_count c;
  c_next_attempt_at := c_next_attempt_at c; c_created_at := c_created_at c;
  c_terminated_at := match desired with
                     | DTerminated => Some (default now (c_terminated_at c))
                     | _ => None
                     end |}.

Definition set_desired (now : Z) (id : ClusterId) (desired : DesiredState) : M unit :=
  map ← st_get m_clusters;
  match map !! id with
  | None => st_err (Backend ("no such cluster " +:+ id))
  | Some c => upd_clusters (insert id (with_desired now desired c))
  end.

Definition remove_cluster (id : ClusterId) : M bool :=
  map ← st_get m_clusters;
  upd_clusters (delete id) ≫= fun _ => mret (bool_decide (is_Some (map !! id))).

Definition with_observation (observed : option ClusterState) (gen : Z) (c : StoredCluster)
  : StoredCluster := {|
  c_id := c_id c; c_spec := c_spec c; c_generation := c_generation c; c_desired := c_desired c;
  c_observed_state := observed;
  c_observed_generation := Z.max (c_observed_generation c) gen;
  c_condition := c_condition c; c_failure_count := c_failure_count c;
  c_next_attempt_at := c_next_attempt_at c; c_created_at := c_created_at c;
  c_terminated_at := c_terminated_at c |}.

Definition record_observation (id : ClusterId) (observed : option ClusterState) (gen : Z) : M unit :=
  upd_clusters (alter (with_observation observed gen) id).

Definition with_condition (cond : option DriftCondition) (c : StoredCluster) : StoredCluster := {|
  c_id := c_id c; c_spec := c_spec c; c_generation := c_generation c; c_desired := c_desired c;
  c_observed_state := c_observed_state c; c_observed_generation := c_observed_generation c;
  c_condition := cond;
  c_failure_count := c_failure_count c; c_next_attempt_at := c_next_attempt_at c;
  c_created_at := c_created_at c; c_terminated_at := c_terminated_at c |}.

Definition set_condition (id : ClusterId) (cond : option DriftCondition) : M unit :=
  upd_clusters (alter (with_condition cond) id).

Definition is_quarantined : M bool := st_get m_quarantined.
Definition set_quarantine (q : bool) : M unit := st_put (set_quarantined q).

Definition with_attempt (failure_count next_attempt_at : Z) (c : StoredCluster) : StoredCluster := {|
  c_id := c_id c; c_spec := c_spec c; c_generation := c_generation c; c_desired := c_desired c;
  c_observed_state := c_observed_state c; c_observed_generation := c_observed_generation c;
  c_condition := c_condition c;
  c_failure_count := failure_count; c_next_attempt_at := next_attempt_at;
  c_created_at := c_created_at c; c_terminated_at := c_terminated_at c |}.

Definition record_attempt (id : ClusterId) (failure_count next_attempt_at : Z) : M unit :=
  upd_clusters (alter (with_attempt failure_count next_attempt_at) id).

(** *** Outbox *)

Definition begin_intent (now : Z) (key fingerprint : string) : M IntentOutcome :=
  map ← st_get m_intents;
  match map !! key with
  | Some existing =>
      mret (if String.eqb (i_params_fingerprint existing) fingerprint
            then Proceed true else ParamMismatch)
  | None =>
      st_put (fun s => set_intents (<[key := {|
        i_key := key; i_params_fingerprint := fingerprint; i_status := IPending;
        i_response_json := None; i_created_at := now; i_completed_at := None |}]>
        (m_intents s)) s) ≫= fun _ => mret (Proceed false)
  end.

Definition applied (now : Z) (response_json : string) (r : IntentRecord) : IntentRecord := {|
  i_key := i_key r; i_params_fingerprint := i_params_fingerprint r; i_status := IApplied;
  i_response_json := Some response_json; i_created_at := i_created_at r;
  i_completed_at := Some now |}.

Definition complete_intent (now : Z) (key response_json : string) : M unit :=
  st_put (fun s => set_intents (alter (applied now response_json) key (m_intents s)) s).

Definition get_intent (key : string) : M (option IntentRecord) :=
  st_get (fun s => m_intents s !! key).

(** Rows the reaper drops: applied, and completed before the cutoff. *)
Definition reapable (applied_before : Z) (r : IntentRecord) : bool :=
  bool_decide (i_status r = IApplied)
  && is_some_and (i_completed_at r) (fun c => Z.ltb c applied_before).

Definition reap_intents (applied_before : Z) : M Z :=
  map ← st_get m_intents;
  let kept := filter (fun kr => reapable applied_before (snd kr) = false) map in
  st_put (set_intents kept) ≫= fun _ => mret (Z.of_nat (size map - size kept)).

(** *** Jobs *)

Definition record_job (job : JobRecord) : M unit :=
  st_put (fun s => set_jobs (<[j_id job := job]> (m_jobs s)) s).

Definition list_jobs : M (list JobRecord) :=
  st_get (fun s => sort_by_key (fun r => - j_submitted_at r) (map_values (m_jobs s))).

(** *** Pools and allocations *)

Definition upsert_pool_generation (existing : option StoredPool) (spec : PoolSpec) : Z :=
  match existing with
  | Some p => if pool_spec_changed (sp_spec p) spec then u64_add (sp_generation p) 1
              else sp_generation p
  | None => 1
  end.

Definition upsert_pool (now : Z) (name : string) (spec : PoolSpec) : M Z :=
  map ← st_get m_pools;
  let existing := map !! name in
  let generation := upsert_pool_generation existing spec in
  st_put (set_pools (<[name := {|
    sp_name := name; sp_spec := spec; sp_generation := generation;
    sp_observed_json := existing ≫= sp_observed_json;
    sp_observed_at := existing ≫= sp_observed_at;
    sp_created_at := default now (sp_created_at <$> existing) |}]> map))
  ≫= fun _ => mret generation.

Definition get_pool (name : string) : M (option StoredPool) :=
  st_get (fun s => m_pools s !! name).
Definition list_pools : M (list StoredPool) := st_get (fun s => map_values (m_pools s)).

Definition delete_pool (name : string) : M unit :=
  map ← st_get m_pools;
  match map !! name with
  | None => st_err (Backend ("no such pool " +:+ name))
  | Some _ => st_put (set_pools (delete name map))
  end.

Definition with_pool_observation (now : Z) (json : string) (p : StoredPool) : StoredPool := {|
  sp_name := sp_name p; sp_spec := sp_spec p; sp_generation := sp_generation p;
  sp_observed_json := Some json; sp_observed_at := Some now; sp_created_at := sp_created_at p |}.

Definition record_pool_observation (now : Z) (name observed_json : string) : M unit :=
  st_put (fun s => set_pools (alter (with_pool_observation now observed_json) name (m_pools s)) s).

Definition upsert_allocation (alloc : AllocationSpec) : M unit :=
  st_put (fun s => set_allocations
    (<[(a_pool alloc, a_project alloc) := alloc]> (m_allocations s)) s).

Definition list_allocations (pool : string) : M (list AllocationSpec) :=
  st_get (fun s => filter (fun a => a_pool a = pool) (map_values (m_allocations s))).

Definition delete_allocation (pool project : string) : M unit :=
  map ← st_get m_allocations;
  match map !! (pool, project) with
  | None => st_err (Backend ("no such allocation " +:+ pool +:+ "/" +:+ project))
  | Some _ => st_put (set_allocations (delete (pool, project) map))
  end.

(** [kuberay::QueueAssignment]. *)
Record QueueAssignment := { qa_queue_name : string; qa_elastic : bool }.

(** [queue_assignment_for_project]: the first allocation of the project, over the
    pools in the order they are listed. *)
Fixpoint first_queue (project : string) (pools : list StoredPool) : M (option QueueAssignment) :=
  match pools with
  | [] => mret None
  | pool :: pools' =>
      allocs ← list_allocations (sp_name pool);
      match find (fun a => String.eqb (a_project a) project) allocs with
      | Some a => mret (Some {| qa_queue_name := a_project a;
                                qa_elastic := p_elastic (sp_spec pool) |})
      | None => first_queue project pools'
      end
  end.

Definition queue_assignment_for_project (project : string) : M (option QueueAssignment) :=
  list_pools ≫= first_queue project.

(** *** Usage samples and policy *)

Definition record_usage_samples (samples : list UsageSample) : M unit :=
  st_put (fun s => set_usage (m_usage s ++ samples) s).

Definition sample_selected (project pool : option string) (from to : Z) (s : UsageSample) : bool :=
  Z.leb from (us_ts s) && Z.leb (us_ts s) to
  && is_none_or project (fun p => String.eqb (us_project s) p)
  && is_none_or pool (fun p => String.eqb (us_pool s) p).

Definition usage_samples (project pool : option string) (from to : Z) : M (list UsageSample) :=
  st_get (fun s => sort_by_key us_ts
    (filter (fun x => sample_selected project pool from to x = true) (m_usage s))).

Definition get_policy : M (option StoredPolicy) := st_get m_policy.
Definition set_policy_row (p : StoredPolicy) : M unit := st_put (set_policy (Some p)).
Definition seed_policy (p : StoredPolicy) : M bool :=
  slot ← st_get m_policy;
  match slot with
  | Some _ => mret false
  | None => st_put (set_policy (Some p)) ≫= fun _ => mret true
  end.

(** *** Audit trail *)

Definition row_seq (r : ChainedAuditRow) : Z := fst (fst r).
Definition row_event (r : ChainedAuditRow) : AuditEvent := snd (fst r).
Definition row_hash (r : ChainedAuditRow) : string := snd r.

Definition record_audit `{AuditCodec} (event : AuditEvent) : M Z :=
  rows ← st_get m_audit;
  old ← st_get m_audit_seq;
  let seq := u64_add old 1 in
  let prev := default AUDIT_GENESIS_HASH (row_hash <$> last rows) in
  st_put (fun s => set_audit_seq seq
    (set_audit (rows ++ [(seq, event, audit_chain_hash prev event)]) s)) ≫= fun _ => mret seq.

Definition audit_chain (from_seq : option Z) (limit : Z) : M AuditChainWindow :=
  rows ← st_get m_audit;
  let from := default 1 from_seq in
  mret {|
    aw_head := default AUDIT_GENESIS_HASH
      (row_hash <$> find (fun r => Z.ltb (row_seq r) from) (reverse rows));
    aw_rows := take (Z.to_nat limit) (filter (fun r => from <= row_seq r) rows) |}.

Definition list_audit (f : AuditFilter) : M (list (Z * AuditEvent) * option Z) :=
  audit ← st_get m_audit;
  let limit := Z.to_nat (effective_limit f) in
  let rows := reverse ((fun r => (row_seq r, row_event r)) <$>
    filter (fun r => is_none_or (af_cursor f) (fun c => Z.ltb (row_seq r) c)
                     && matches f (row_event r) = true) audit) in
  if Nat.ltb limit (length rows)
  then mret (take limit rows, fst <$> last (take limit rows))
  else mret (rows, None).

(** *** Local users *)

Definition create_local_user (now : Z) (username : string) (email : option string)
    (password_hash : string) (role : LocalRole) : M unit :=
  map ← st_get m_local_users;
  match map !! username with
  | Some _ => st_err (Backend ("local user " +:+ username +:+ " already exists"))
  | None => st_put (set_local_users (<[username := {|
      lu_username := username; lu_email := email; lu_password_hash := password_hash;
      lu_role := role; lu_disabled := false; lu_created_at := now;
      lu_failed_logins := 0; lu_locked_until := None |}]> map))
  end.

Definition get_local_user (username : string) : M (option LocalUserRecord) :=
  st_get (fun s => m_local_users s !! username).

Definition list_local_users : M (list LocalUserRecord) :=
  st_get (fun s => sort_stable (fun a b => str_leb (lu_username a) (lu_username b))
                     (map_values (m_local_users s))).

(** Change one user in place, or fail naming it. *)
Definition modify_user (username : string) (f : LocalUserRecord -> LocalUserRecord) : M unit :=
  map ← st_get m_local_users;
  match map !! username with
  | None => st_err (Backend ("no such local user " +:+ username))
  | Some u => st_put (set_local_users (<[username := f u]> map))
  end.

Definition set_local_user_password (username hash : string) : M unit :=
  modify_user username (fun u => {|
    lu_username := lu_username u; lu_email := lu_email u; lu_password_hash := hash;
    lu_role := lu_role u; lu_disabled := lu_disabled u; lu_created_at := lu_created_at u;
    lu_failed_logins := lu_failed_logins u; lu_locked_until := lu_locked_until u |}).

Definition set_local_user_role (username : string) (role : LocalRole) : M unit :=
  modify_user username (fun u => {|
    lu_username := lu_username u; lu_email := lu_email u;
    lu_password_hash := lu_password_hash u; lu_role := role; lu_disabled := lu_disabled u;
    lu_created_at := lu_created_at u; lu_failed_logins := lu_failed_logins u;
    lu_locked_until := lu_locked_until u |}).

Definition set_local_user_disabled (username : string) (disabled : bool) : M unit :=
  modify_user username (fun u => {|
    lu_username := lu_username u; lu_email := lu_email u;
    lu_password_hash := lu_password_hash u; lu_role := lu_role u; lu_disabled := disabled;
    lu_created_at := lu_created_at u; lu_failed_logins := lu_failed_logins u;
    lu_locked_until := lu_locked_until u |}).

Definition with_lockout (failed_logins : Z) (locked_until : option Z) (u : LocalUserRecord)
  : LocalUserRecord := {|
  lu_username := lu_username u; lu_email := lu_email u;
  lu_password_hash := lu_password_hash u; lu_role := lu_role u; lu_disabled := lu_disabled u;
  lu_created_at := lu_created_at u; lu_failed_logins := failed_logins;
  lu_locked_until := locked_until |}.

Definition set_login_lockout (username : string) (failed_logins : Z) (locked_until : option Z)
  : M unit := modify_user username (with_lockout failed_logins locked_until).

Definition record_login_failure (now : Z) (username : string) : M unit :=
  user ← get_local_user username;
  match user with
  | None => st_err (Backend ("no such local user " +:+ username))
  | Some u =>
      let '(failed, locked) := next_login_failure_state (lu_failed_logins u) now in
      set_login_lockout username failed locked
  end.

Definition record_login_success (username : string) : M unit :=
  set_login_lockout username 0 None.

(** *** API tokens *)

Definition create_api_token (record : ApiTokenRecord) : M unit :=
  map ← st_get m_api_tokens;
  match map !! at_prefix record with
  | Some _ => st_err (Backend ("api token prefix " +:+ at_prefix record +:+ " already exists"))
  | None => st_put (set_api_tokens (<[at_prefix record := record]> map))
  end.

Definition get_api_token_by_prefix (prefix : string) : M (option ApiTokenRecord) :=
  st_get (fun s => m_api_tokens s !! prefix).

Definition list_api_tokens (username : string) : M (list ApiTokenRecord) :=
  st_get (fun s => sort_by_key (fun t => - at_created_at t)
    (filter (fun t => at_username t = username) (map_values (m_api_tokens s)))).

Definition revoked_token (t : ApiTokenRecord) : ApiTokenRecord := {|
  at_prefix := at_prefix t; at_token_hash := at_token_hash t; at_username := at_username t;
  at_label := at_label t; at_created_at := at_created_at t; at_expires_at := at_expires_at t;
  at_revoked := true; at_last_used_at := at_last_used_at t |}.

Definition revoke_api_token (prefix username : string) : M unit :=
  map ← st_get m_api_tokens;
  match map !! prefix with
  | Some t =>
      if String.eqb (at_username t) username
      then st_put (set_api_tokens (<[prefix := revoked_token t]> map))
      else st_err (Backend ("no such api token " +:+ prefix))
  | None => st_err (Backend ("no such api token " +:+ prefix))
  end.

Definition touched_token (now : Z) (t : ApiTokenRecord) : ApiTokenRecord := {|
  at_prefix := at_prefix t; at_token_hash := at_token_hash t; at_username := at_username t;
  at_label := at_label t; at_created_at := at_created_at t; at_expires_at := at_expires_at t;
  at_revoked := at_revoked t; at_last_used_at := Some now |}.

Definition touch_api_token (prefix : string) (now : Z) : M unit :=
  st_put (fun s => set_api_tokens (alter (touched_token now) prefix (m_api_tokens s)) s).

(** *** Role assignments *)

Definition upsert_role_assignment (now : Z) (principal role scope : string) : M unit :=
  map ← st_get m_assignments;
  let key := (principal, role, scope) in
  st_put (set_assignments (<[key := {|
    ra_principal := principal; ra_role := role; ra_scope := scope;
    ra_created_at := default now (ra_created_at <$> map !! key) |}]> map)).

(** [principal.cmp .then scope.cmp .then role.cmp]. *)
Definition assignment_leb (a b : RoleAssignment) : bool :=
  if String.eqb (ra_principal a) (ra_principal b) then
    if String.eqb (ra_scope a) (ra_scope b) then str_leb (ra_role a) (ra_role b)
    else str_leb (ra_scope a) (ra_scope b)
  else str_leb (ra_principal a) (ra_principal b).

Definition list_role_assignments (principal : option string) : M (list RoleAssignment) :=
  st_get (fun s => sort_stable assignment_leb
    (filter (fun a => is_none_or principal (fun p => String.eqb (ra_principal a) p) = true)
      (map_values (m_assignments s)))).

Definition delete_role_assignment (principal role scope : string) : M unit :=
  map ← st_get m_assignments;
  match map !! (principal, role, scope) with
  | None => st_err (Backend ("no such assignment " +:+ principal +:+ "/" +:+ role
                             +:+ "/" +:+ scope))
  | Some _ => st_put (set_assignments (delete (principal, role, scope) map))
  end.
