(* ===== verification/StoreFacts.v ===== *)
(** * Theorems about the store

    A well-formedness invariant of [InMemoryStore] that every sequence of
    operations keeps, the generation fence, the outbox, audit pagination and
    tamper evidence, the login lockout, and queue resolution. *)

From stdpp Require Import pretty.
From S2P Require Import Prelude Float64 Core Policy Store.
#[local] Open Scope Z_scope.

(** What is no digit is not in a printed number. *)
Lemma digits_avoid (c : ascii) (n : N) :
  (forall d, pretty_N_char d <> c) -> c ∉ String.list_ascii_of_string (pretty n).
Proof.
  intros Hc. assert (forall n s, c ∉ String.list_ascii_of_string s ->
    c ∉ String.list_ascii_of_string (pretty_N_go n s)) as Hgo.
  { intros k. induction k as [k IH] using (well_founded_induction N.lt_wf_0). intros s Hs.
    destruct (decide (k = 0%N)) as [->|Hk]; [done|].
    rewrite pretty_N_go_step by lia. apply IH; [by apply N.div_lt; lia|]. cbn.
    apply not_elem_of_cons. split; [by intros ->; eapply Hc|done]. }
  unfold pretty, pretty_N. case_decide.
  - apply not_elem_of_cons. split; [intros ->; by apply (Hc 0%N)|apply not_elem_of_nil].
  - apply Hgo, not_elem_of_nil.
Qed.


(** Run the monad: expose what an operation returns and writes. *)
Ltac run_store :=
  unfold mbind, ST_bind, mret, ST_ret, st_get, st_put, st_err, upd_clusters in *;
  cbv beta iota zeta in *; cbn [fst snd] in *.

(** ** Operations as data, and traces *)

(** Every call that can change the store. *)
Inductive store_op :=
| OpUpsertDesired (now : Z) (id : ClusterId) (spec : ClusterSpec)
| OpSetDesired (now : Z) (id : ClusterId) (d : DesiredState)
| OpRemoveCluster (id : ClusterId)
| OpRecordObservation (id : ClusterId) (o : option ClusterState) (gen : Z)
| OpSetCondition (id : ClusterId) (c : option DriftCondition)
| OpSetQuarantine (q : bool)
| OpRecordAttempt (id : ClusterId) (failures next : Z)
| OpBeginIntent (now : Z) (key fp : string)
| OpCompleteIntent (now : Z) (key resp : string)
| OpReapIntents (before : Z)
| OpRecordJob (job : JobRecord)
| OpUpsertPool (now : Z) (name : string) (spec : PoolSpec)
| OpDeletePool (name : string)
| OpRecordPoolObservation (now : Z) (name json : string)
| OpUpsertAllocation (a : AllocationSpec)
| OpDeleteAllocation (pool project : string)
| OpRecordUsage (samples : list UsageSample)
| OpSetPolicy (p : StoredPolicy)
| OpSeedPolicy (p : StoredPolicy)
| OpRecordAudit (e : AuditEvent)
| OpCreateUser (now : Z) (u : string) (email : option string) (hash : string) (r : LocalRole)
| OpSetPassword (u hash : string)
| OpSetRole (u : string) (r : LocalRole)
| OpSetDisabled (u : string) (d : bool)
| OpLoginFailure (now : Z) (u : string)
| OpLoginSuccess (u : string)
| OpCreateToken (t : ApiTokenRecord)
| OpRevokeToken (pfx u : string)
| OpTouchToken (pfx : string) (now : Z)
| OpUpsertAssignment (now : Z) (p r sc : string)
| OpDeleteAssignment (p r sc : string).

Section traces.
Context `{AuditCodec}.

Definition exec (op : store_op) (s : InMemoryStore) : InMemoryStore :=
  match op with
  | OpUpsertDesired now id spec => snd (upsert_desired now id spec s)
  | OpSetDesired now id d => snd (set_desired now id d s)
  | OpRemoveCluster id => snd (remove_cluster id s)
  | OpRecordObservation id o g => snd (record_observation id o g s)
  | OpSetCondition id c => snd (set_condition id c s)
  | OpSetQuarantine q => snd (set_quarantine q s)
  | OpRecordAttempt id f n => snd (record_attempt id f n s)
  | OpBeginIntent now k fp => snd (begin_intent now k fp s)
  | OpCompleteIntent now k r => snd (complete_intent now k r s)
  | OpReapIntents b => snd (reap_intents b s)
  | OpRecordJob j => snd (record_job j s)
  | OpUpsertPool now n sp => snd (upsert_pool now n sp s)
  | OpDeletePool n => snd (delete_pool n s)
  | OpRecordPoolObservation now n j => snd (record_pool_observation now n j s)
  | OpUpsertAllocation a => snd (upsert_allocation a s)
  | OpDeleteAllocation p q => snd (delete_allocation p q s)
  | OpRecordUsage l => snd (record_usage_samples l s)
  | OpSetPolicy p => snd (set_policy_row p s)
  | OpSeedPolicy p => snd (seed_policy p s)
  | OpRecordAudit e => snd (record_audit e s)
  | OpCreateUser now u em h r => snd (create_local_user now u em h r s)
  | OpSetPassword u h => snd (set_local_user_password u h s)
  | OpSetRole u r => snd (set_local_user_role u r s)
  | OpSetDisabled u d => snd (set_local_user_disabled u d s)
  | OpLoginFailure now u => snd (record_login_failure now u s)
  | OpLoginSuccess u => snd (record_login_success u s)
  | OpCreateToken t => snd (create_api_token t s)
  | OpRevokeToken p u => snd (revoke_api_token p u s)
  | OpTouchToken p now => snd (touch_api_token p now s)
  | OpUpsertAssignment now p r sc => snd (upsert_role_assignment now p r sc s)
  | OpDeleteAssignment p r sc => snd (delete_role_assignment p r sc s)
  end.

Definition run_ops (ops : list store_op) (s : InMemoryStore) : InMemoryStore :=
  foldl (fun s op => exec op s) s ops.
End traces.

(** ** Well-formedness *)

Definition cluster_wf (id : ClusterId) (c : StoredCluster) : Prop :=
  c_id c = id /\ is_u64 (c_generation c) /\
  (c_desired c = DTerminated <-> is_Some (c_terminated_at c)).
Definition intent_wf (key : string) (r : IntentRecord) : Prop :=
  i_key r = key /\
  (i_status r = IApplied <-> is_Some (i_completed_at r)) /\
  (i_status r = IApplied <-> is_Some (i_response_json r)).
Definition user_wf (name : string) (u : LocalUserRecord) : Prop :=
  lu_username u = name /\ 0 <= lu_failed_logins u < LOGIN_LOCKOUT_THRESHOLD.

(** Row [n] of the trail chains from row [n - 1], the first from genesis. *)
Fixpoint chained `{AuditCodec} (prev : string) (rows : list ChainedAuditRow) : Prop :=
  match rows with
  | [] => True
  | (_, e, h) :: rows' => h = audit_chain_hash prev e /\ chained h rows'
  end.

Definition audit_wf `{AuditCodec} (s : InMemoryStore) : Prop :=
  chained AUDIT_GENESIS_HASH (m_audit s) /\
  m_audit_seq s = Z.of_nat (length (m_audit s)) mod 2 ^ 64 /\
  forall i r, m_audit s !! i = Some r -> row_seq r = Z.of_nat (S i) mod 2 ^ 64.

Record store_wf `{AuditCodec} (s : InMemoryStore) : Prop := {
  wf_clusters : map_Forall cluster_wf (m_clusters s);
  wf_intents : map_Forall intent_wf (m_intents s);
  wf_jobs : map_Forall (fun k j => j_id j = k) (m_jobs s);
  wf_pools : map_Forall (fun k p => sp_name p = k /\ is_u64 (sp_generation p)) (m_pools s);
  wf_allocations : map_Forall (fun k a => (a_pool a, a_project a) = k) (m_allocations s);
  wf_users : map_Forall user_wf (m_local_users s);
  wf_tokens : map_Forall (fun k t => at_prefix t = k) (m_api_tokens s);
  wf_assignments :
    map_Forall (fun k a => (ra_principal a, ra_role a, ra_scope a) = k) (m_assignments s);
  wf_audit : audit_wf s;
}.

Lemma map_Forall_alter_id {K} `{Countable K} {A} (P : K -> A -> Prop) f k (m : gmap K A) :
  (forall a, P k a -> P k (f a)) -> map_Forall P m -> map_Forall P (alter f k m).
Proof.
  intros Hf Hm i x. rewrite lookup_alter. case_decide as E; subst.
  - intros (y & Hy & ->)%fmap_Some. by apply Hf, Hm.
  - apply Hm.
Qed.

Section wf.
Context `{AuditCodec}.

Lemma empty_store_wf : store_wf empty_store.
Proof. split; try apply map_Forall_empty. split_and!; done. Qed.

Lemma chained_app prev rows seq e :
  chained prev rows ->
  chained prev (rows ++ [(seq, e, audit_chain_hash (default prev (row_hash <$> last rows)) e)]).
Proof.
  revert prev. induction rows as [|[[q ev] h] rows IH]; intros prev; cbn [chained app]; [by cbn|].
  intros [-> Hc]. split; [done|]. specialize (IH _ Hc).
  rewrite last_cons. by destruct (last rows).
Qed.

Lemma record_audit_wf s e : audit_wf s -> audit_wf (snd (record_audit e s)).
Proof.
  intros (Hc & Hn & Hr). unfold record_audit. run_store. split_and!; cbn.
  - by apply chained_app.
  - rewrite Hn, length_app, Nat2Z.inj_add. unfold u64_add. cbn.
    by rewrite Zplus_mod_idemp_l.
  - intros i r [Hi|[Hi Hl]]%lookup_app_Some; [by apply Hr|].
    apply list_lookup_singleton_Some in Hl as [Hi' <-]. cbn.
    rewrite Hn. unfold u64_add. rewrite Zplus_mod_idemp_l. f_equal. lia.
Qed.

Lemma next_login_failure_range n now :
  0 <= n < LOGIN_LOCKOUT_THRESHOLD ->
  0 <= fst (next_login_failure_state n now) < LOGIN_LOCKOUT_THRESHOLD.
Proof.
  unfold next_login_failure_state, LOGIN_LOCKOUT_THRESHOLD. intros Hn.
  rewrite u32_add_small by (unfold u32_max; lia).
  destruct (Z.leb_spec 5 (n + 1)); cbn; lia.
Qed.

Lemma upsert_record_wf now id spec old :
  (forall c, old = Some c -> cluster_wf id c) -> cluster_wf id (upsert_record now id spec old).
Proof.
  intros Hold. destruct old as [c|].
  - destruct (Hold c eq_refl) as (? & ? & ?). split_and!; cbn; [done| |done].
    case_match; [apply u64_add_range|done].
  - split_and!; cbn; [done| |].
    + unfold is_u64, u64_max. lia.
    + split; [done|]. by intros [].
Qed.

(** A change to one user that keeps its name and counter range. *)
Lemma modify_user_wf s name f :
  (forall u, user_wf name u -> user_wf name (f u)) ->
  store_wf s -> store_wf (snd (modify_user name f s)).
Proof.
  intros Hf Hs. unfold modify_user. run_store.
  destruct (m_local_users s !! name) as [u|] eqn:E; [|done].
  destruct Hs. split; try done. cbn. apply map_Forall_insert_2; [|done]. by apply Hf, wf_users0.
Qed.

(** Writing one table keeps the others. *)
Lemma wf_set_clusters s m : map_Forall cluster_wf m -> store_wf s -> store_wf (set_clusters m s).
Proof. intros Hm []. by split. Qed.
Lemma wf_set_intents s m : map_Forall intent_wf m -> store_wf s -> store_wf (set_intents m s).
Proof. intros Hm []. by split. Qed.
Lemma wf_set_pools s m :
  map_Forall (fun k p => sp_name p = k /\ is_u64 (sp_generation p)) m -> store_wf s ->
  store_wf (set_pools m s).
Proof. intros Hm []. by split. Qed.
Lemma wf_set_allocations s m :
  map_Forall (fun k a => (a_pool a, a_project a) = k) m -> store_wf s -> store_wf (set_allocations m s).
Proof. intros Hm []. by split. Qed.
Lemma wf_set_users s m : map_Forall user_wf m -> store_wf s -> store_wf (set_local_users m s).
Proof. intros Hm []. by split. Qed.
Lemma wf_set_tokens s m :
  map_Forall (fun k t => at_prefix t = k) m -> store_wf s -> store_wf (set_api_tokens m s).
Proof. intros Hm []. by split. Qed.
Lemma wf_set_assignments s m :
  map_Forall (fun k a => (ra_principal a, ra_role a, ra_scope a) = k) m -> store_wf s ->
  store_wf (set_assignments m s).
Proof. intros Hm []. by split. Qed.

(** Rewriting a cluster row in place, its identity kept. *)
Lemma wf_alter_cluster s id f :
  (forall c, cluster_wf id c -> cluster_wf id (f c)) ->
  store_wf s -> store_wf (set_clusters (alter f id (m_clusters s)) s).
Proof. intros Hf Hs. apply wf_set_clusters; [|done]. by apply map_Forall_alter_id, wf_clusters. Qed.

Lemma set_desired_wf now id d s : store_wf s -> store_wf (snd (set_desired now id d s)).
Proof.
  intros Hs. unfold set_desired; run_store. destruct (m_clusters s !! id) as [c|] eqn:E; [|done].
  apply wf_set_clusters; [|done]. apply map_Forall_insert_2; [|by apply wf_clusters].
  destruct (wf_clusters _ Hs _ _ E) as (? & ? & ?). split_and!; [done..|]. cbn.
  destruct d; split; try done; eauto; by intros [].
Qed.

Lemma begin_intent_wf now key fp s : store_wf s -> store_wf (snd (begin_intent now key fp s)).
Proof.
  intros Hs. unfold begin_intent; run_store. destruct (m_intents s !! key) eqn:E; [done|].
  apply wf_set_intents; [|done]. apply map_Forall_insert_2; [|by apply wf_intents].
  split_and!; [done|..]; split; cbn; try done; by intros [].
Qed.

Lemma upsert_pool_wf now name spec s : store_wf s -> store_wf (snd (upsert_pool now name spec s)).
Proof.
  intros Hs. unfold upsert_pool; run_store. apply wf_set_pools; [|done].
  apply map_Forall_insert_2; [|by apply wf_pools]. cbn. split; [done|].
  destruct (m_pools s !! name) as [p|] eqn:E; cbn.
  - destruct (wf_pools _ Hs _ _ E). case_match; [apply u64_add_range|done].
  - unfold is_u64, u64_max. lia.
Qed.

Lemma create_user_wf now u e h r s : store_wf s -> store_wf (snd (create_local_user now u e h r s)).
Proof.
  intros Hs. unfold create_local_user; run_store. destruct (m_local_users s !! u) eqn:E; [done|].
  apply wf_set_users; [|done]. apply map_Forall_insert_2; [|by apply wf_users].
  split; [done|]. cbn. unfold LOGIN_LOCKOUT_THRESHOLD. lia.
Qed.

Lemma login_failure_wf now u s : store_wf s -> store_wf (snd (record_login_failure now u s)).
Proof.
  intros Hs. unfold record_login_failure, get_local_user; run_store.
  destruct (m_local_users s !! u) as [r|] eqn:E; cbn; [|exact Hs].
  pose proof (wf_users _ Hs _ _ E) as [_ Hr].
  pose proof (next_login_failure_range _ now Hr) as Hr'.
  destruct (next_login_failure_state _ _) as [f l]. cbn in Hr'.
  apply (modify_user_wf s u); [|done]. intros u0 [? _]. by split.
Qed.

(** The operations that guard a write with a lookup. *)
Lemma guarded_ops_wf s :
  store_wf s ->
  (forall name, store_wf (snd (delete_pool name s))) /\
  (forall pool project, store_wf (snd (delete_allocation pool project s))) /\
  (forall p, store_wf (snd (seed_policy p s))) /\
  (forall t, store_wf (snd (create_api_token t s))) /\
  (forall pfx u, store_wf (snd (revoke_api_token pfx u s))) /\
  (forall p r sc, store_wf (snd (delete_role_assignment p r sc s))).
Proof.
  intros Hs. unfold delete_pool, delete_allocation, seed_policy, create_api_token, revoke_api_token,
    delete_role_assignment. run_store. split_and!; intros; repeat case_match; try done; cbn.
  - by apply wf_set_pools; [apply map_Forall_delete, wf_pools|].
  - by apply wf_set_allocations; [apply map_Forall_delete, wf_allocations|].
  - destruct Hs; by split.
  - by apply wf_set_tokens; [apply map_Forall_insert_2; [|apply wf_tokens]|].
  - apply wf_set_tokens; [apply map_Forall_insert_2; [|by apply wf_tokens]|done].
    match goal with Hl : m_api_tokens s !! _ = Some _ |- _ => exact (wf_tokens _ Hs _ _ Hl) end.
  - by apply wf_set_assignments; [apply map_Forall_delete, wf_assignments|].
Qed.

Lemma exec_wf op s : store_wf s -> store_wf (exec op s).
Proof.
  intros Hs. pose proof (guarded_ops_wf s Hs) as (? & ? & ? & ? & ? & ?).
  destruct op; cbn [exec]; eauto using set_desired_wf, begin_intent_wf, upsert_pool_wf,
    create_user_wf, login_failure_wf.
  all: try (unfold set_local_user_password, set_local_user_role, set_local_user_disabled,
    record_login_success, set_login_lockout; apply modify_user_wf; [|done]; intros ? [? ?]; by split).
  all: try (by apply wf_alter_cluster).
  all: try (destruct Hs; by split).
  - apply wf_set_clusters; [|done]. apply map_Forall_insert_2; [|by apply wf_clusters].
    apply upsert_record_wf. intros c Hc. by apply (wf_clusters s Hs).
  - by apply wf_set_clusters; [apply map_Forall_delete, wf_clusters|].
  - apply wf_set_intents; [|done]. apply map_Forall_alter_id; [|by apply wf_intents].
    intros ? (? & _ & _). split_and!; [done|..]; cbn; split; eauto.
  - apply wf_set_intents; [|done]. intros k r [Hk _]%map_lookup_filter_Some. by apply (wf_intents s Hs).
  - destruct Hs; split; try done. by apply map_Forall_insert_2.
  - apply wf_set_pools; [|done]. apply map_Forall_alter_id; [|by apply wf_pools]. by intros ?.
  - by apply wf_set_allocations; [apply map_Forall_insert_2; [|apply wf_allocations]|].
  - destruct Hs. split; [done..|]. by apply record_audit_wf.
  - apply wf_set_tokens; [|done]. apply map_Forall_alter_id; [|by apply wf_tokens]. by intros ?.
  - by apply wf_set_assignments; [apply map_Forall_insert_2; [|apply wf_assignments]|].
Qed.

Lemma run_ops_wf ops s : store_wf s -> store_wf (run_ops ops s).
Proof. revert s. induction ops as [|op ops IH]; intros s Hs; cbn; [done|]. by apply IH, exec_wf. Qed.
End wf.

(** ** Reachable stores *)

(** C16. Whatever the sequence of operations, the store stays well formed: every row
    sits under its own key, a cluster has a termination stamp exactly when it is
    desired terminated, an intent has a completion time and a response exactly
    when it is applied, a user's failure counter is below the lockout threshold,
    and the audit rows form a hash chain from genesis with consecutive numbers. *)
Theorem store_reachable_wf `{AuditCodec} (ops : list store_op) :
  store_wf (run_ops ops empty_store).
Proof. apply run_ops_wf, empty_store_wf. Qed.

(** ** Desired state and the generation fence *)

(** What the generation ignores: the fields [spec_changed] does not compare. *)
Definition with_engine (s : ClusterSpec) (e : Engine) : ClusterSpec := {|
  cs_name := cs_name s; cs_project := cs_project s; cs_engine := e;
  cs_ray_version := cs_ray_version s; cs_image := cs_image s;
  cs_head_cpu := cs_head_cpu s; cs_head_memory := cs_head_memory s;
  cs_worker_groups := cs_worker_groups s; cs_ttl_seconds := cs_ttl_seconds s;
  cs_idle_timeout_secs := cs_idle_timeout_secs s; cs_owner := cs_owner s |}.

Lemma group_changed_false x y : group_changed (x, y) = false <-> x = y.
Proof.
  unfold group_changed. rewrite !orb_false_iff, !negb_false_iff, !String.eqb_eq, !Z.eqb_eq,
    bool_decide_eq_true. destruct x, y; cbn. split.
  - by intros ((((((-> & ->) & ->) & ->) & ->) & ->) & ->).
  - by intros [= -> -> -> -> -> -> ->].
Qed.

Lemma groups_changed_false l k :
  length l = length k -> existsb group_changed (zip l k) = false <-> l = k.
Proof.
  revert k. induction l as [|x l IH]; intros [|y k]; cbn [length zip zip_with existsb]; try done.
  intros [= Hl]. rewrite orb_false_iff, group_changed_false, (IH _ Hl). naive_solver.
Qed.

Lemma spec_changed_false a b :
  spec_changed a b = false <-> b = with_owner (with_engine a (cs_engine b)) (cs_owner b).
Proof.
  unfold spec_changed. rewrite !orb_false_iff, !negb_false_iff, !String.eqb_eq, !bool_decide_eq_true,
    Nat.eqb_eq.
  split.
  - intros (((((((((? & ?) & ?) & ?) & ?) & ?) & ?) & ?) & Hlen) & Hg).
    apply groups_changed_false in Hg; [|done]. destruct a, b; cbn in *; by subst.
  - intros ->. cbn. rewrite groups_changed_false by done. by split_and!.
Qed.

(** An upsert stores the spec under its id and returns the row's generation: one
    for a new cluster, unchanged when nothing but engine and owner differ, one
    more (modulo [2^64]) otherwise. Desired state, observation, alarm, backoff and
    clocks of an existing row are kept, and so is every other row. *)
Theorem upsert_desired_spec now id spec s :
  exists c' s', upsert_desired now id spec s = (Ok (c_generation c'), s') /\
  m_clusters s' !! id = Some c' /\ c_spec c' = spec /\ c_id c' = id /\
  (forall j, j <> id -> m_clusters s' !! j = m_clusters s !! j) /\
  match m_clusters s !! id with
  | None => c_generation c' = 1 /\ c_desired c' = DRunning /\ c_created_at c' = now
  | Some c =>
      (c_generation c' = c_generation c <->
       spec = with_owner (with_engine (c_spec c) (cs_engine spec)) (cs_owner spec) \/
       u64_add (c_generation c) 1 = c_generation c) /\
      (c_generation c' <> c_generation c -> c_generation c' = u64_add (c_generation c) 1) /\
      c_desired c' = c_desired c /\ c_observed_generation c' = c_observed_generation c /\
      c_created_at c' = c_created_at c /\ c_terminated_at c' = c_terminated_at c
  end.
Proof.
  exists (upsert_record now id spec (m_clusters s !! id)).
  unfold upsert_desired. run_store. eexists. split; [reflexivity|]. cbn. rewrite lookup_insert_eq.
  split_and!; try done. { intros j Hj. by rewrite lookup_insert_ne. }
  destruct (m_clusters s !! id) as [c|]; cbn; [|done].
  pose proof (spec_changed_false (c_spec c) spec). destruct (spec_changed _ _); naive_solver.
Qed.

Lemma exec_cluster_step `{AuditCodec} op s id c :
  store_wf s -> m_clusters s !! id = Some c -> c_generation c < u64_max ->
  op <> OpRemoveCluster id ->
  exists c', m_clusters (exec op s) !! id = Some c' /\
    c_generation c <= c_generation c' <= c_generation c + 1 /\
    c_observed_generation c <= c_observed_generation c' /\ c_created_at c' = c_created_at c.
Proof.
  intros Hwf Hc Hmax Hop. pose proof (wf_clusters _ Hwf _ _ Hc) as (_ & [Hu _] & _).
  assert (exists c', m_clusters s !! id = Some c' /\ c_generation c <= c_generation c' <= c_generation c + 1
    /\ c_observed_generation c <= c_observed_generation c' /\ c_created_at c' = c_created_at c) as Hsame
    by (exists c; split_and!; [done|lia..|done]).
  destruct op; cbn [exec]; try exact Hsame;
  unfold upsert_desired, set_desired, remove_cluster, record_observation, set_condition,
    record_attempt, begin_intent, delete_pool, delete_allocation, seed_policy, create_local_user,
    set_local_user_password, set_local_user_role, set_local_user_disabled, record_login_failure,
    record_login_success, get_local_user, set_login_lockout, modify_user, create_api_token,
    revoke_api_token, delete_role_assignment in *; run_store.
  all: try (repeat case_match; exact Hsame).
  all: cbn; try (destruct (decide (id = id0)) as [<-|Hne];
    [|rewrite ?lookup_insert_ne, ?lookup_alter_ne, ?lookup_delete_ne by done; exact Hsame]).
  - rewrite lookup_insert_eq. eexists; split; [done|]. rewrite Hc; cbn.
    split_and!; try lia; try done; case_match; rewrite ?u64_add_small by lia; lia.
  - destruct (m_clusters s !! id0) as [c0|] eqn:E; cbn; [|exact Hsame].
    destruct (decide (id = id0)) as [<-|Hne]; [|rewrite lookup_insert_ne by done; exact Hsame].
    rewrite lookup_insert_eq. simplify_eq. eexists; split; [done|]. cbn. split_and!; [lia..|done].
  - done.
  - rewrite lookup_alter_eq, Hc. eexists; split; [done|]. cbn. split_and!; [lia..|done].
  - rewrite lookup_alter_eq, Hc. eexists; split; [done|]. cbn. split_and!; [lia..|done].
  - rewrite lookup_alter_eq, Hc. eexists; split; [done|]. cbn. split_and!; [lia..|done].
Qed.

Lemma run_ops_cluster `{AuditCodec} ops s id c :
  store_wf s -> m_clusters s !! id = Some c ->
  c_generation c + Z.of_nat (length ops) <= u64_max -> OpRemoveCluster id ∉ ops ->
  exists c', m_clusters (run_ops ops s) !! id = Some c' /\
    c_generation c <= c_generation c' /\
    c_observed_generation c <= c_observed_generation c' /\ c_created_at c' = c_created_at c.
Proof.
  revert s c. induction ops as [|op ops IH]; intros s c Hwf Hc Hlen Hnot; cbn in *.
  { exists c. by split_and!. }
  apply not_elem_of_cons in Hnot as [Hop Hnot].
  destruct (exec_cluster_step op s id c) as (c1 & Hc1 & ? & ? & Heq); [done..|lia|done|].
  destruct (IH (exec op s) c1) as (c2 & Hc2 & ? & ? & Heq2); [by apply exec_wf|done|lia|done|].
  exists c2. split_and!; [done|lia..|congruence].
Qed.

(** C19. The stale-generation fence: along any sequence of store operations that does
    not remove the cluster, its generation and its observed generation never go
    back (as long as the 64-bit counter does not run out), and its creation time
    never changes. *)
Theorem generation_fence `{AuditCodec} ops s id c :
  store_wf s -> m_clusters s !! id = Some c ->
  c_generation c + Z.of_nat (length ops) <= u64_max -> OpRemoveCluster id ∉ ops ->
  exists c', m_clusters (run_ops ops s) !! id = Some c' /\
    c_generation c <= c_generation c' /\
    c_observed_generation c <= c_observed_generation c' /\ c_created_at c' = c_created_at c.
Proof. apply run_ops_cluster. Qed.

(** ** The outbox *)

(** Opening an intent: a fresh key gets a pending row; the same fingerprint
    replays without touching the row; another fingerprint is refused without
    touching the row. *)
Theorem begin_intent_spec now key fp s :
  match m_intents s !! key with
  | None =>
      exists s', begin_intent now key fp s = (Ok (Proceed false), s') /\
      (exists r, m_intents s' !! key = Some r /\ i_params_fingerprint r = fp /\
        i_status r = IPending /\ i_completed_at r = None) /\
      (forall k, k <> key -> m_intents s' !! k = m_intents s !! k) /\
      m_clusters s' = m_clusters s
  | Some r =>
      begin_intent now key fp s =
      (Ok (if decide (i_params_fingerprint r = fp) then Proceed true else ParamMismatch), s)
  end.
Proof.
  unfold begin_intent. run_store. destruct (m_intents s !! key) as [r|] eqn:E.
  - destruct (String.eqb_spec (i_params_fingerprint r) fp); by case_decide.
  - eexists. split; [reflexivity|]. cbn. rewrite lookup_insert_eq. split_and!; [eauto| |done].
    intros k Hk. by rewrite lookup_insert_ne.
Qed.

Lemma exec_intent_step `{AuditCodec} op s k r :
  m_intents s !! k = Some r ->
  (exists r', m_intents (exec op s) !! k = Some r' /\
     i_params_fingerprint r' = i_params_fingerprint r /\
     (i_status r = IApplied -> i_status r' = IApplied)) \/
  (exists b, op = OpReapIntents b /\ reapable b r = true).
Proof.
  intros Hr.
  assert (exists r', m_intents s !! k = Some r' /\ i_params_fingerprint r' = i_params_fingerprint r
     /\ (i_status r = IApplied -> i_status r' = IApplied)) as Hsame by eauto.
  destruct op; cbn [exec]; try (left; exact Hsame);
  unfold set_desired, begin_intent, complete_intent, delete_pool, delete_allocation, seed_policy,
    create_local_user, set_local_user_password, set_local_user_role, set_local_user_disabled,
    record_login_failure, record_login_success, get_local_user, set_login_lockout, modify_user,
    create_api_token, revoke_api_token, delete_role_assignment, reap_intents in *; run_store.
  all: try (repeat case_match; left; exact Hsame).
  - destruct (m_intents s !! key) eqn:E; [left; exact Hsame|]. left. cbn.
    rewrite lookup_insert_ne by congruence. exact Hsame.
  - left. cbn. rewrite lookup_alter. case_decide; subst; rewrite ?Hr; [|eauto].
    exists (applied now resp r). by split_and!.
  - cbn. destruct (reapable before r) eqn:E; [right; eauto|]. left. exists r.
    split; [|done]. by apply map_lookup_filter_Some.
Qed.

(** A key means one actuation for as long as its row lives: no operation changes
    the fingerprint of an intent or takes an applied one back to pending, and
    only the reaper removes one, and then only an applied one past its cutoff. *)
Theorem intent_row_stable `{AuditCodec} op s k r :
  m_intents s !! k = Some r ->
  (exists r', m_intents (exec op s) !! k = Some r' /\
     i_params_fingerprint r' = i_params_fingerprint r /\
     (i_status r = IApplied -> i_status r' = IApplied)) \/
  (exists b t, op = OpReapIntents b /\ i_status r = IApplied /\
     i_completed_at r = Some t /\ t < b).
Proof.
  intros Hr. destruct (exec_intent_step op s k r Hr) as [Hl|(b & -> & Hb)]; [by left|right].
  unfold reapable in Hb. rewrite andb_true_iff, bool_decide_eq_true, is_some_and_true in Hb.
  destruct Hb as (? & t & ? & ?%Z.ltb_lt). eauto 10.
Qed.

(** ** Audit trail: tamper evidence *)

Section evidence.
Context `{AuditCodec}.

Lemma verify_loop_chained prev n rows :
  chained prev rows ->
  verify_loop prev n rows =
  {| av_events_checked := foldl (fun k _ => u64_add k 1) n rows; av_first_broken_seq := None |}.
Proof.
  revert prev n. induction rows as [|[[q e] h] rows IH]; intros prev n; cbn; [done|].
  intros [-> Hc]. rewrite String.eqb_refl. cbn. by apply IH.
Qed.

Lemma verify_loop_ok prev n rows :
  chain_ok (verify_loop prev n rows) = true <-> chained prev rows.
Proof.
  revert prev n. induction rows as [|[[q e] h] rows IH]; intros prev n; cbn; [done|].
  destruct (String.eqb_spec (audit_chain_hash prev e) h) as [<-|Hne]; cbn.
  - rewrite IH. naive_solver.
  - split; [done|]. intros [-> _]. done.
Qed.

Lemma chained_drop prev rows n :
  chained prev rows ->
  chained (default prev (row_hash <$> last (take n rows))) (drop n rows).
Proof.
  revert prev n. induction rows as [|[[q e] h] rows IH]; intros prev [|n]; cbn; try done.
  intros [-> Hc]. specialize (IH _ n Hc). rewrite last_cons. by destruct (last (take n rows)).
Qed.

Lemma chained_take prev rows n : chained prev rows -> chained prev (take n rows).
Proof.
  revert prev n. induction rows as [|[[q e] h] rows IH]; intros prev [|n]; cbn; try done.
  intros [-> Hc]. split; [done|]. by apply IH.
Qed.

(** Rows are numbered from one, so the window's filter is a suffix. *)
Lemma filter_seq_drop rows base from :
  (forall i r, rows !! i = Some r -> row_seq r = base + Z.of_nat (S i)) ->
  filter (fun r => from <= row_seq r) rows = drop (Z.to_nat (from - base - 1)) rows /\
  row_hash <$> find (fun r => Z.ltb (row_seq r) from) (reverse rows) =
  row_hash <$> last (take (Z.to_nat (from - base - 1)) rows).
Proof.
  revert base. induction rows as [|r rows IH] using rev_ind; intros base Hseq.
  { by rewrite drop_nil, take_nil. }
  assert (row_seq r = base + Z.of_nat (S (length rows))) as Hr.
  { apply Hseq. by rewrite lookup_app_r, Nat.sub_diag by lia. }
  destruct (IH base) as [IHf IHl].
  { intros i r' Hi. apply Hseq. by apply lookup_app_l_Some. }
  rewrite filter_app, reverse_app. cbn [reverse app rev_append find].
  set (k := Z.to_nat (from - base - 1)) in *.
  destruct (decide (from <= row_seq r)) as [Hle|Hgt].
  - rewrite filter_cons_True, filter_nil by done.
    assert (k <= length rows)%nat as Hk by lia.
    rewrite drop_app_le, take_app_le by done.
    split; [by rewrite IHf|].
    destruct (Z.ltb_spec (row_seq r) from); [lia|]. exact IHl.
  - rewrite filter_cons_False, filter_nil, app_nil_r by done.
    assert (length rows < k)%nat as Hk by lia. split.
    + rewrite IHf, !drop_ge; [done|rewrite length_app; cbn; lia|lia].
    + destruct (Z.ltb_spec (row_seq r) from); [|lia]. cbn.
      rewrite take_ge by (rewrite length_app; cbn; lia). by rewrite last_snoc.
Qed.
End evidence.

(** Every window of the trail verifies: for every reachable store whose trail has
    not run out of sequence numbers, whatever the start and the limit, replaying
    the window the store returns against the head it returns finds no broken
    row. *)
Theorem audit_window_verifies `{AuditCodec} ops from_seq limit :
  let s := run_ops ops empty_store in
  Z.of_nat (length (m_audit s)) <= u64_max ->
  exists w, audit_chain from_seq limit s = (Ok w, s) /\
    av_first_broken_seq (verify_audit_chain (aw_head w) (aw_rows w)) = None.
Proof.
  intros s Hlen. unfold audit_chain. run_store. eexists. split; [reflexivity|]. cbn.
  pose proof (wf_audit _ (run_ops_wf ops _ empty_store_wf)) as (Hc & _ & Hseq).
  fold s in Hc, Hseq.
  destruct (filter_seq_drop (m_audit s) 0 (default 1 from_seq)) as [-> ->].
  { intros i r Hi. rewrite (Hseq i r Hi), Z.mod_small; [lia|].
    apply lookup_lt_Some in Hi. unfold u64_max in Hlen. lia. }
  unfold verify_audit_chain.
  match goal with |- av_first_broken_seq (verify_loop ?p ?n ?rows) = None =>
    assert (chained p rows) as Hcr by (by apply chained_take, chained_drop) end.
  by rewrite (verify_loop_chained _ _ _ Hcr).
Qed.

Lemma str_app_inj_l (p a b : string) : p +:+ a = p +:+ b -> a = b.
Proof. induction p as [|c p IH]; cbn; [done|]. intros [= ?]. auto. Qed.

Lemma str_app_inj_len (a b p q : string) :
  String.length a = String.length b -> a +:+ p = b +:+ q -> a = b /\ p = q.
Proof.
  revert b. induction a as [|c a IH]; intros [|d b]; cbn; try done.
  intros [= Hl] [= -> H]. destruct (IH b Hl H) as [-> ->]. done.
Qed.

(** A SHA-256 collision. *)
Definition collision `{AuditCodec} : Prop := exists x y, x <> y /\ sha256_hex x = sha256_hex y.

Section tamper.
Context `{AuditCodec}.
Context (audit_json_inj : forall e e', audit_json e = audit_json e' -> e = e').

(** One row's payload edited, its stored hash and all other rows kept. *)
Definition edit_row (i : nat) (e' : AuditEvent) (rows : list ChainedAuditRow)
  : list ChainedAuditRow :=
  alter (fun r => (row_seq r, e', row_hash r)) i rows.

Lemma edit_detected prev n rows i seq e h e' :
  chained prev rows -> rows !! i = Some (seq, e, h) -> e' <> e ->
  av_first_broken_seq (verify_loop prev n (edit_row i e' rows)) = Some seq \/ collision.
Proof.
  revert prev n i. induction rows as [|[[q ev] hh] rows IH]; intros prev n i; [done|].
  intros [-> Hc] Hi Hne. destruct i as [|i]; cbn in Hi.
  - simplify_eq. cbn. destruct (String.eqb_spec (audit_chain_hash prev e') (audit_chain_hash prev e))
      as [Heq|]; [|by left].
    right. eexists _, _. split; [|exact Heq]. intros Heq'%str_app_inj_l. by apply audit_json_inj in Heq'.
  - cbn. rewrite String.eqb_refl. cbn. by apply IH.
Qed.

Context (sha256_len : forall x, String.length (sha256_hex x) = 64%nat).

Lemma chained_unique prev prev' rows rows' :
  String.length prev = 64%nat -> String.length prev' = 64%nat ->
  length rows = length rows' ->
  chained prev rows -> chained prev' rows' ->
  default prev (row_hash <$> last rows) = default prev' (row_hash <$> last rows') ->
  (prev = prev' /\ row_event <$> rows = row_event <$> rows' /\
   row_hash <$> rows = row_hash <$> rows') \/ collision.
Proof.
  revert prev prev' rows'. induction rows as [|[[q e] h] rows IH];
    intros prev prev' [|[[q' e'] h'] rows']; try done.
  - intros _ _ _ _ _ Heq. left. by split.
  - intros Hp Hp' [= Hl] [-> Hc] [-> Hc'] Hlast.
    destruct (IH (audit_chain_hash prev e) (audit_chain_hash prev' e') rows') as [(Hh & He & Hr)|];
      [apply sha256_len..|done|done|done| | |by right].
    { rewrite !last_cons in Hlast. by destruct (last rows), (last rows'). }
    destruct (decide (prev +:+ audit_json e = prev' +:+ audit_json e')) as [Heq|Hne].
    + apply str_app_inj_len in Heq as [-> ->%audit_json_inj]; [|congruence].
      left. split; [done|]. cbn. by rewrite He, Hr.
    + right. by exists (prev +:+ audit_json e), (prev' +:+ audit_json e').
Qed.
End tamper.


(** A concrete pair of functions with the two properties: an injective encoding
    of events, and a digest that is the text cut and padded to 64 characters. *)
Definition event_tuple (e : AuditEvent) :=
  (ae_ts e, ae_subject e, ae_decision e, ae_reason e, ae_action e, ae_cluster e, ae_method e,
   ae_path e, ae_status e, ae_latency_ms e,
   (fun r => (ar_action r, ar_target r)) <$> ae_required e, ae_granted_roles e).

Lemma event_tuple_inj e e' : event_tuple e = event_tuple e' -> e = e'.
Proof.
  unfold event_tuple. destruct e, e'; cbn. intros [= ? ? ? ? ? ? ? ? ? ? Hreq ?]. subst. f_equal.
  destruct ae_required as [[]|], ae_required0 as [[]|]; cbn in Hreq; by simplify_eq.
Qed.

#[export] Instance AuditDecision_countable : Countable AuditDecision.
Proof.
  refine (inj_countable' (fun d => match d with Allow => true | Deny => false end)
    (fun b : bool => if b then Allow else Deny) _). by intros [].
Defined.

Definition fit64 (s : string) : string :=
  str_of (take 64 (bytes_of s ++ replicate 64 (ascii_of_nat 48))).

#[local] Instance toy_codec : AuditCodec := {|
  sha256_hex := fit64;
  audit_json := fun e => pretty (Npos (encode (event_tuple e))) |}.

Lemma str_of_length l : String.length (str_of l) = length l.
Proof. induction l; cbn; [done|]. by f_equal. Qed.

Lemma toy_codec_laws :
  (forall e e', audit_json e = audit_json e' -> e = e') /\
  (forall x, String.length (sha256_hex x) = 64%nat).
Proof.
  split.
  - intros e e' Heq. cbn in Heq. apply (inj pretty) in Heq. injection Heq as Heq.
    apply (inj encode) in Heq. by apply event_tuple_inj.
  - intros x. cbn. unfold fit64. rewrite str_of_length, length_take, length_app, length_replicate. lia.
Qed.

Definition demo_event (ts : Z) : AuditEvent := {|
  ae_ts := ts; ae_subject := None; ae_decision := Allow; ae_reason := None; ae_action := None;
  ae_cluster := None; ae_method := None; ae_path := None; ae_status := None;
  ae_latency_ms := None; ae_required := None; ae_granted_roles := [] |}.

Definition demo_trail : InMemoryStore :=
  run_ops [OpRecordAudit (demo_event 1); OpRecordAudit (demo_event 2)] empty_store.


Lemma audit_window_verifies_witness :
  Z.of_nat (length (m_audit demo_trail)) <= u64_max /\
  exists w, audit_chain (Some 2) 10 demo_trail = (Ok w, demo_trail) /\
    av_first_broken_seq (verify_audit_chain (aw_head w) (aw_rows w)) = None.
Proof.
  assert (Z.of_nat (length (m_audit demo_trail)) <= u64_max) as Hl
    by (vm_compute; discriminate).
  split; [exact Hl|].
  exact (audit_window_verifies
    [OpRecordAudit (demo_event 1); OpRecordAudit (demo_event 2)] (Some 2) 10 Hl).
Defined.

(** A stored cluster, then a spec change, an observation and a removal of another. *)
Definition demo_cluster_store : InMemoryStore :=
  run_ops [OpUpsertDesired 10 "c1" demo_spec] empty_store.
Definition demo_cluster_ops : list store_op :=
  [OpUpsertDesired 20 "c1" (with_engine demo_spec Dask); OpRecordObservation "c1" (Some Running) 1;
   OpRemoveCluster "c2"].

Lemma generation_fence_witness :
  exists c', m_clusters (run_ops demo_cluster_ops demo_cluster_store) !! "c1"%string = Some c' /\
    1 <= c_generation c'.
Proof.
  destruct (generation_fence demo_cluster_ops demo_cluster_store "c1"
    (upsert_record 10 "c1" demo_spec None)) as (c' & Hc' & Hg & _).
  - apply run_ops_wf, empty_store_wf.
  - reflexivity.
  - vm_compute. discriminate.
  - unfold demo_cluster_ops. set_solver.
  - exists c'. split; [exact Hc'|exact Hg].
Defined.

Lemma intent_row_stable_witness :
  exists r', m_intents (run_ops [OpBeginIntent 5 "c1/1" "fp"; OpBeginIntent 6 "c1/1" "other"]
    empty_store) !! "c1/1"%string = Some r' /\ i_params_fingerprint r' = "fp"%string.
Proof.
  destruct (intent_row_stable (OpBeginIntent 6 "c1/1" "other")
    (run_ops [OpBeginIntent 5 "c1/1" "fp"] empty_store) "c1/1"
    {| i_key := "c1/1"; i_params_fingerprint := "fp"; i_status := IPending;
       i_response_json := None; i_created_at := 5; i_completed_at := None |} eq_refl)
    as [(r' & Hr & Hfp & _)|(b & t & Hop & _)].
  - exists r'. split; [exact Hr|exact Hfp].
  - discriminate Hop.
Defined.
