(* ===== verification/StoreQueries.v ===== *)
(** * Queries of the store: pagination, lockout, queues, reaping *)

From S2P Require Import Prelude Float64 Core Policy Store StoreFacts.
#[local] Open Scope Z_scope.

(** ** Audit pagination *)

Definition with_cursor (f : AuditFilter) (c : option Z) : AuditFilter := {|
  af_limit := af_limit f; af_cursor := c; af_from := af_from f; af_to := af_to f;
  af_subject := af_subject f; af_cluster := af_cluster f; af_method := af_method f;
  af_path_prefix := af_path_prefix f; af_min_status := af_min_status f;
  af_decision := af_decision f; af_reason := af_reason f |}.

(** All the rows a filter selects, newest first. *)
Definition all_matching (f : AuditFilter) (rows : list ChainedAuditRow) : list (Z * AuditEvent) :=
  reverse ((fun r => (row_seq r, row_event r)) <$>
    filter (fun r => is_none_or (af_cursor f) (fun c => Z.ltb (row_seq r) c)
                     && matches f (row_event r) = true) rows).

(** A client that follows [next_cursor] for at most [fuel] pages. *)
Fixpoint walk_pages (fuel : nat) (f : AuditFilter) (s : InMemoryStore) : list (Z * AuditEvent) :=
  match fuel with
  | O => []
  | S n =>
      match list_audit f s with
      | (Ok (page, next), _) =>
          page ++ match next with Some c => walk_pages n (with_cursor f (Some c)) s | None => [] end
      | (Err _, _) => []
      end
  end.

Lemma list_audit_eq f s :
  let all := all_matching f (m_audit s) in
  let k := Z.to_nat (effective_limit f) in
  list_audit f s =
  (Ok (if Nat.ltb k (length all) then (take k all, fst <$> last (take k all)) else (all, None)), s).
Proof. unfold list_audit. run_store. by destruct (Nat.ltb _ _). Qed.

Definition newest_first : list (Z * AuditEvent) -> Prop :=
  StronglySorted (fun x y => fst y < fst x).

Lemma StronglySorted_snoc {A} (R : A -> A -> Prop) l x :
  StronglySorted R l -> Forall (fun y => R y x) l -> StronglySorted R (l ++ [x]).
Proof.
  induction 1 as [|y l Hl IH HF]; cbn; [repeat constructor|].
  intros [Hy Hx]%Forall_cons. constructor; [auto|]. apply Forall_app. by split; [|constructor].
Qed.

(** Rows in increasing order give a page list in decreasing order. *)
Lemma all_matching_newest f rows :
  StronglySorted (fun x y => row_seq x < row_seq y) rows -> newest_first (all_matching f rows).
Proof.
  unfold all_matching, newest_first. set (P := fun r => _ = true).
  induction 1 as [|r rows Hs IH HF]; [constructor|].
  rewrite filter_cons. case_decide; [|done]. rewrite fmap_cons, reverse_cons.
  apply StronglySorted_snoc; [done|]. apply Forall_reverse, Forall_fmap.
  apply Forall_forall. intros x [_ Hx]%list_elem_of_filter.
  rewrite Forall_forall in HF. by apply (HF x).
Qed.

Lemma filter_all {A} (P : A -> Prop) `{!forall x, Decision (P x)} l : Forall P l -> filter P l = l.
Proof. induction 1; [done|]. rewrite filter_cons_True by done. by f_equal. Qed.

Lemma newest_first_split l k c :
  newest_first l -> fst <$> last (take k l) = Some c ->
  filter (fun x => fst x < c) l = drop k l.
Proof.
  revert k. induction l as [|x l IH]; intros [|k] Hs; cbn [take]; try done.
  apply StronglySorted_inv in Hs as [Hs HF]. rewrite last_cons. cbn [drop].
  destruct (last (take k l)) as [y|] eqn:Hy; intros [= <-].
  - assert (y ∈ l) as Hin.
    { apply last_Some_elem_of, elem_of_take in Hy as (i & Hi & _). by eapply list_elem_of_lookup_2. }
    rewrite filter_cons_False by (rewrite Forall_forall in HF; specialize (HF y Hin); cbn in *; lia).
    apply IH; [done|]. by rewrite Hy.
  - rewrite filter_cons_False by lia.
    assert (k = 0%nat \/ l = []) as [->| ->].
    { destruct k, l; cbn in Hy; auto. rewrite last_cons in Hy. by destruct (last _). }
    + by apply filter_all.
    + by rewrite drop_nil.
Qed.

Lemma filter_rev {A} (P : A -> Prop) `{!forall x, Decision (P x)} l :
  filter P (reverse l) = reverse (filter P l).
Proof.
  induction l as [|x l IH]; [done|]. rewrite reverse_cons, filter_app, IH, filter_cons.
  rewrite filter_cons, filter_nil. case_decide; [by rewrite reverse_cons|by rewrite app_nil_r].
Qed.

(** Moving the cursor back to [c] keeps the rows below it. *)
Lemma all_matching_cursor f c rows :
  is_none_or (af_cursor f) (fun c0 => Z.leb c c0) = true ->
  all_matching (with_cursor f (Some c)) rows =
  filter (fun x => fst x < c) (all_matching f rows).
Proof.
  intros Hc. unfold all_matching. rewrite filter_rev. f_equal.
  induction rows as [|r rows IH]; [done|]. rewrite !filter_cons.
  change (matches (with_cursor f (Some c))) with (matches f). cbn [with_cursor af_cursor is_none_or].
  assert (Z.ltb (row_seq r) c = true -> is_none_or (af_cursor f) (fun c0 => Z.ltb (row_seq r) c0) = true)
    as Hmono.
  { rewrite !is_none_or_true in *. intros Hlt%Z.ltb_lt c0 Hc0. specialize (Hc c0 Hc0). lia. }
  destruct (Z.ltb_spec (row_seq r) c) as [Hlt|Hge]; cbn [andb].
  - rewrite Hmono by done. cbn [andb]. case_decide; [|exact IH].
    rewrite !fmap_cons, filter_cons_True by done. by f_equal.
  - rewrite decide_False by done. case_decide; [|exact IH].
    rewrite fmap_cons, filter_cons_False by (cbn; lia). exact IH.
Qed.

Lemma all_matching_below f rows x c :
  x ∈ all_matching f rows -> af_cursor f = Some c -> fst x < c.
Proof.
  unfold all_matching. rewrite elem_of_reverse, list_elem_of_fmap.
  intros (r & -> & [Hr _]%list_elem_of_filter) Hc. rewrite Hc in Hr. cbn in *.
  apply andb_true_iff in Hr as [Hr%Z.ltb_lt _]. done.
Qed.

Lemma walk_pages_all fuel f s :
  StronglySorted (fun x y => row_seq x < row_seq y) (m_audit s) ->
  (length (all_matching f (m_audit s)) < fuel)%nat ->
  walk_pages fuel f s = all_matching f (m_audit s).
Proof.
  intros Hs. revert f. induction fuel as [|fuel IH]; intros f Hf; [lia|].
  cbn [walk_pages]. rewrite list_audit_eq. cbv zeta.
  pose proof (effective_limit_bounds f) as Hk.
  set (k := Z.to_nat (effective_limit f)) in *. set (l := all_matching f (m_audit s)) in *.
  destruct (Nat.ltb_spec k (length l)) as [Hlt|Hge]; [|by rewrite app_nil_r].
  destruct (last (take k l)) as [[c e]|] eqn:Hlast; cbn.
  2:{ apply last_None in Hlast. exfalso. apply (f_equal length) in Hlast.
      rewrite length_take in Hlast. cbn in Hlast. lia. }
  assert (all_matching (with_cursor f (Some c)) (m_audit s) = drop k l) as Hdrop.
  { rewrite all_matching_cursor.
    - apply newest_first_split; [by apply all_matching_newest|]. by rewrite Hlast.
    - apply is_none_or_true. intros c0 Hc0. apply Z.leb_le.
      apply last_Some_elem_of, elem_of_take in Hlast as (i & Hi & _).
      apply list_elem_of_lookup_2 in Hi. apply (all_matching_below f _ _ c0) in Hi; [|done].
      cbn in Hi. lia. }
  rewrite IH; rewrite Hdrop; [by rewrite take_drop|]. rewrite length_drop. lia.
Qed.

Lemma audit_rows_sorted `{AuditCodec} ops :
  let s := run_ops ops empty_store in
  Z.of_nat (length (m_audit s)) <= u64_max ->
  StronglySorted (fun x y => row_seq x < row_seq y) (m_audit s).
Proof.
  intros s Hlen. pose proof (wf_audit _ (run_ops_wf ops _ empty_store_wf)) as (_ & _ & Hseq).
  fold s in Hseq. assert (forall i r, m_audit s !! i = Some r -> row_seq r = Z.of_nat (S i)) as Hs.
  { intros i r Hi. rewrite (Hseq i r Hi), Z.mod_small; [done|].
    apply lookup_lt_Some in Hi. unfold u64_max in Hlen. lia. }
  clear Hlen Hseq. revert Hs. generalize (m_audit s). clear s. intros rows Hs.
  cut (forall base, (forall i r, rows !! i = Some r -> row_seq r = base + Z.of_nat (S i)) ->
    StronglySorted (fun x y => row_seq x < row_seq y) rows).
  { intros Hcut. apply (Hcut 0). intros i r Hi. by rewrite (Hs i r Hi). }
  clear Hs. induction rows as [|r rows IH]; intros base Hs; constructor.
  - apply (IH (base + 1)). intros i x Hi. rewrite (Hs (S i) x Hi). lia.
  - apply Forall_lookup. intros i x Hi. rewrite (Hs 0%nat r eq_refl), (Hs (S i) x Hi). lia.
Qed.

(** Following [next_cursor] from any filter enumerates exactly the matching rows
    of the trail, newest first, each once, and stops: with fuel above the number
    of matches the walk is complete. *)
Theorem audit_pagination_complete `{AuditCodec} ops f fuel :
  let s := run_ops ops empty_store in
  Z.of_nat (length (m_audit s)) <= u64_max ->
  (length (all_matching f (m_audit s)) < fuel)%nat ->
  walk_pages fuel f s = all_matching f (m_audit s) /\
  newest_first (all_matching f (m_audit s)).
Proof.
  intros s Hlen Hf. pose proof (audit_rows_sorted ops Hlen) as Hs.
  split; [by apply walk_pages_all|by apply all_matching_newest].
Qed.

Definition demo_filter : AuditFilter := {|
  af_limit := Some 1; af_cursor := None; af_from := None; af_to := None; af_subject := None;
  af_cluster := None; af_method := None; af_path_prefix := None; af_min_status := None;
  af_decision := None; af_reason := None |}.

Lemma audit_pagination_complete_witness :
  walk_pages 3 demo_filter demo_trail = [(2, demo_event 2); (1, demo_event 1)].
Proof.
  destruct (audit_pagination_complete (H := toy_codec)
    [OpRecordAudit (demo_event 1); OpRecordAudit (demo_event 2)] demo_filter 3) as [Hw _].
  - vm_compute. discriminate.
  - vm_compute. repeat constructor.
  - transitivity (all_matching demo_filter (m_audit demo_trail)); [exact Hw|reflexivity].
Defined.

(** ** Login lockout *)

(** Failed logins at the given times, one after another. *)
Fixpoint login_failures (username : string) (times : list Z) : M unit :=
  match times with
  | [] => mret tt
  | now :: times' => record_login_failure now username ≫= fun _ => login_failures username times'
  end.

Lemma record_login_failure_eq now name s u :
  m_local_users s !! name = Some u ->
  record_login_failure now name s =
  (Ok tt, set_local_users (<[name :=
    with_lockout (fst (next_login_failure_state (lu_failed_logins u) now))
                 (snd (next_login_failure_state (lu_failed_logins u) now)) u]> (m_local_users s)) s).
Proof.
  intros Hu. unfold record_login_failure, get_local_user, set_login_lockout, modify_user. run_store.
  rewrite Hu. destruct (next_login_failure_state _ _). cbn. by rewrite Hu.
Qed.

Lemma login_failures_below name times s u :
  m_local_users s !! name = Some u -> 0 <= lu_failed_logins u ->
  lu_failed_logins u + Z.of_nat (length times) < LOGIN_LOCKOUT_THRESHOLD ->
  exists s' u', login_failures name times s = (Ok tt, s') /\ m_local_users s' !! name = Some u' /\
    lu_failed_logins u' = lu_failed_logins u + Z.of_nat (length times) /\
    lu_locked_until u' = match times with [] => lu_locked_until u | _ => None end.
Proof.
  unfold LOGIN_LOCKOUT_THRESHOLD. revert s u.
  induction times as [|now times IH]; intros s u Hu H0 Hlt; cbn [login_failures length] in *.
  { exists s, u. split_and!; [done..|lia|done]. }
  unfold mbind, ST_bind. rewrite (record_login_failure_eq _ _ _ _ Hu).
  assert (next_login_failure_state (lu_failed_logins u) now = (lu_failed_logins u + 1, None)) as Hn.
  { unfold next_login_failure_state, LOGIN_LOCKOUT_THRESHOLD.
    rewrite u32_add_small by (unfold u32_max; lia). destruct (Z.leb_spec 5 (lu_failed_logins u + 1)); [lia|done]. }
  rewrite Hn. cbn [fst snd].
  edestruct (IH (set_local_users (<[name:=with_lockout (lu_failed_logins u + 1) None u]> (m_local_users s)) s))
    as (s' & u' & ? & ? & Hc & Hl).
  { cbn. by rewrite lookup_insert_eq. }
  { cbn. lia. }
  { cbn. lia. }
  exists s', u'. cbn in Hc, Hl. split_and!; [done|done|lia|]. by destruct times.
Qed.

(** Fewer than five failures in a row only count; the fifth locks the account for
    300 seconds from its own time and clears the counter. *)
Theorem login_lockout name times now s u :
  m_local_users s !! name = Some u -> lu_failed_logins u = 0 ->
  length times = 4%nat -> is_u64 (now + LOCKOUT_SECS) -> 0 <= now ->
  (exists s4 u4, login_failures name times s = (Ok tt, s4) /\ m_local_users s4 !! name = Some u4 /\
     lu_failed_logins u4 = 4 /\ lu_locked_until u4 = None) /\
  (exists s5 u5, login_failures name (times ++ [now]) s = (Ok tt, s5) /\
     m_local_users s5 !! name = Some u5 /\
     lu_failed_logins u5 = 0 /\ lu_locked_until u5 = Some (now + 300)).
Proof.
  intros Hu H0 Hlen [_ Hmax] Hnow.
  destruct (login_failures_below name times s u) as (s4 & u4 & H4 & Hu4 & Hc & Hl);
    [done|lia|unfold LOGIN_LOCKOUT_THRESHOLD; lia|].
  assert (lu_failed_logins u4 = 4) as Hc4 by lia.
  assert (lu_locked_until u4 = None) as Hl4 by (by destruct times).
  split; [by exists s4, u4|].
  assert (forall l s, login_failures name (l ++ [now]) s =
    (login_failures name l ≫= fun _ => record_login_failure now name) s) as Happ.
  { clear. intros l. induction l as [|t l IH]; intros s; cbn [app login_failures];
      unfold mbind, ST_bind in *.
    - unfold mret, ST_ret. by destruct (record_login_failure now name s) as [[[]|] ?].
    - destruct (record_login_failure t name s) as [[[]|] s1]; [apply IH|done]. }
  rewrite Happ. unfold mbind, ST_bind. rewrite H4, (record_login_failure_eq _ _ _ _ Hu4), Hc4.
  assert (next_login_failure_state 4 now = (0, Some (now + 300))) as ->.
  { unfold LOCKOUT_SECS in Hmax. unfold next_login_failure_state.
    change (Z.leb LOGIN_LOCKOUT_THRESHOLD (u32_add 4 1)) with true. cbv iota.
    unfold LOCKOUT_SECS. by rewrite u64_add_small by lia. }
  eexists _, _. split; [reflexivity|]. cbn. rewrite lookup_insert_eq. by split_and!.
Qed.

Definition demo_user : LocalUserRecord := {|
  lu_username := "alice"; lu_email := None; lu_password_hash := "h"; lu_role := LViewer;
  lu_disabled := false; lu_created_at := 0; lu_failed_logins := 0; lu_locked_until := None |}.

Lemma login_lockout_witness :
  exists s5 u5, login_failures "alice" [10; 20; 30; 40; 50]
      (set_local_users {["alice"%string := demo_user]} empty_store) = (Ok tt, s5) /\
    m_local_users s5 !! "alice"%string = Some u5 /\ lu_locked_until u5 = Some 350.
Proof.
  destruct (login_lockout "alice" [10; 20; 30; 40] 50
    (set_local_users {["alice"%string := demo_user]} empty_store) demo_user)
    as [_ (s5 & u5 & ? & ? & _ & ?)]; [reflexivity|reflexivity|reflexivity|vm_compute; split; discriminate|lia|].
  exists s5, u5. by split_and!.
Defined.

(** ** Reaping the outbox *)

(** The reaper removes exactly the applied intents completed before the cutoff,
    keeps every other row as it is, and returns how many it removed. *)
Theorem reap_intents_spec b s :
  exists n s', reap_intents b s = (Ok n, s') /\
  (forall k r, m_intents s' !! k = Some r <-> m_intents s !! k = Some r /\ reapable b r = false) /\
  n = Z.of_nat (size (filter (fun kr => reapable b (snd kr) = true) (m_intents s))) /\
  m_clusters s' = m_clusters s.
Proof.
  unfold reap_intents. run_store. eexists _, _. split; [reflexivity|]. cbn. split_and!; [|f_equal|done].
  - intros k r. by rewrite map_lookup_filter_Some.
  - set (m := m_intents s).
    rewrite <- (map_filter_union_complement (fun kr => reapable b (snd kr) = true) m) at 1.
    rewrite map_size_disj_union by apply map_disjoint_filter_complement.
    assert (filter (fun kr => ~ reapable b (snd kr) = true) m =
            filter (fun kr => reapable b (snd kr) = false) m) as ->; [|lia].
    apply map_filter_ext. intros k r _. cbn. by rewrite not_true_iff_false.
Qed.

(** ** Queue resolution *)

Lemma list_allocations_eq pool s :
  list_allocations pool s =
  (Ok (filter (fun a => a_pool a = pool) (map_values (m_allocations s))), s).
Proof. done. Qed.

Lemma first_queue_spec project pools s :
  exists o, first_queue project pools s = (Ok o, s) /\
  match o with
  | Some q => qa_queue_name q = project /\
      exists p a, p ∈ pools /\ a ∈ map_values (m_allocations s) /\ a_pool a = sp_name p /\
        a_project a = project /\ qa_elastic q = p_elastic (sp_spec p)
  | None => forall p a, p ∈ pools -> a ∈ map_values (m_allocations s) ->
      a_pool a = sp_name p -> a_project a <> project
  end.
Proof.
  induction pools as [|p pools IH]; cbn [first_queue].
  { eexists. split; [reflexivity|]. cbn. intros p a Hp. by apply not_elem_of_nil in Hp. }
  unfold mbind, ST_bind. rewrite list_allocations_eq.
  destruct (find _ _) as [a|] eqn:Hf.
  - apply find_some in Hf as [Hin%list_elem_of_In Heq%String.eqb_eq].
    apply list_elem_of_filter in Hin as [Hpool Hin].
    eexists. split; [reflexivity|]. cbn. split; [done|]. exists p, a. split_and!; try done. left.
  - destruct IH as (o & Ho & Hspec). exists o. split; [exact Ho|].
    destruct o as [q|].
    + destruct Hspec as (? & p' & a & ? & ?). split; [done|]. exists p', a. by split; [right|].
    + intros p' a [->|Hp]%elem_of_cons Ha Hpa Hproj; [|by eapply Hspec].
      pose proof (find_none _ _ Hf a ltac:(apply list_elem_of_In, list_elem_of_filter; done)) as Hn.
      cbn in Hn. by rewrite Hproj, String.eqb_refl in Hn.
Qed.

(** The queue a project's clusters go through, as a function of the store. *)
Definition queue_of (project : string) (s : InMemoryStore) : option QueueAssignment :=
  match fst (queue_assignment_for_project project s) with Ok o => o | Err _ => None end.

Lemma queue_assignment_eq project s :
  queue_assignment_for_project project s = (Ok (queue_of project s), s).
Proof.
  unfold queue_of, queue_assignment_for_project, list_pools. run_store.
  by destruct (first_queue_spec project (map_values (m_pools s)) s) as (o & -> & _).
Qed.

(** A project is queued exactly when some stored pool has an allocation for it;
    the queue carries the project's name and that pool's elastic flag, and the
    lookup changes nothing. *)
Theorem queue_assignment_spec project s :
  exists o, queue_assignment_for_project project s = (Ok o, s) /\
  match o with
  | Some q => qa_queue_name q = project /\
      exists k p a, m_pools s !! k = Some p /\ a ∈ map_values (m_allocations s) /\
        a_pool a = sp_name p /\ a_project a = project /\ qa_elastic q = p_elastic (sp_spec p)
  | None => forall k p a, m_pools s !! k = Some p -> a ∈ map_values (m_allocations s) ->
      a_pool a = sp_name p -> a_project a <> project
  end.
Proof.
  unfold queue_assignment_for_project, list_pools. run_store.
  destruct (first_queue_spec project (map_values (m_pools s)) s) as (o & Ho & Hspec).
  exists o. split; [exact Ho|]. destruct o as [q|].
  - destruct Hspec as (? & p & a & [k Hk]%elem_of_map_values & ?). split; [done|]. by exists k, p, a.
  - intros k p a Hk. apply Hspec, elem_of_map_values. by exists k.
Qed.
