(* ===== verification/Json.v ===== *)
(** * JSON values (crate [serde_json])

    [serde_json::Value] and the accessors the source uses. *)

From stdpp Require Import pretty.
From S2P Require Import Prelude Float64.
#[local] Open Scope Z_scope.

#[local] Set Warnings "-register-all".

Inductive Value :=
| JNull
| JBool (b : bool)
| JNum (n : Z)
| JFloat (f : f64)
| JStr (s : string)
| JArr (l : list Value)
| JObj (fields : list (string * Value)).

Definition json_opt_str (o : option string) : Value :=
  match o with Some s => JStr s | None => JNull end.

(** [Value::get] on an object: keys are unique. *)
Definition json_get (key : string) (v : Value) : option Value :=
  match v with
  | JObj fields => snd <$> find (fun kv => String.eqb (fst kv) key) fields
  | _ => None
  end.

Definition as_str (v : Value) : option string := match v with JStr s => Some s | _ => None end.
Definition as_array (v : Value) : option (list Value) := match v with JArr l => Some l | _ => None end.
Definition as_u64 (v : Value) : option Z :=
  match v with JNum n => if Z.leb 0 n then Some n else None | _ => None end.
Definition as_object (v : Value) : option (list (string * Value)) :=
  match v with JObj fields => Some fields | _ => None end.

(** [obj[key] = v] on an object: the key's value is replaced, or added. *)
Fixpoint set_field (key : string) (v : Value) (fields : list (string * Value))
  : list (string * Value) :=
  match fields with
  | [] => [(key, v)]
  | (k, x) :: fields' =>
      if String.eqb k key then (k, v) :: fields' else (k, x) :: set_field key v fields'
  end.
Definition json_set (key : string) (v : Value) (obj : Value) : Value :=
  match obj with JObj fields => JObj (set_field key v fields) | _ => obj end.

Lemma json_get_set_eq key v fields : json_get key (JObj (set_field key v fields)) = Some v.
Proof.
  cbn. induction fields as [|[k x] fields IH]; cbn; [by rewrite String.eqb_refl|].
  destruct (String.eqb k key) eqn:E; cbn; by rewrite E.
Qed.

Lemma json_get_set_ne key key' v fields :
  key <> key' -> json_get key (JObj (set_field key' v fields)) = json_get key (JObj fields).
Proof.
  intros Hne. cbn. induction fields as [|[k x] fields IH]; cbn.
  { destruct (String.eqb_spec key' key); [by subst|done]. }
  destruct (String.eqb_spec k key') as [->|]; cbn.
  - destruct (String.eqb_spec key' key); [by subst|done].
  - by destruct (String.eqb k key).
Qed.

(** Induction through arrays and objects. *)
Fixpoint value_ind (P : Value -> Prop) (Hnull : P JNull) (Hbool : forall b, P (JBool b))
    (Hnum : forall n, P (JNum n)) (Hfloat : forall f, P (JFloat f)) (Hstr : forall s, P (JStr s))
    (Harr : forall l, Forall P l -> P (JArr l))
    (Hobj : forall l, Forall (fun kv => P (snd kv)) l -> P (JObj l)) (v : Value) : P v :=
  let rec := value_ind P Hnull Hbool Hnum Hfloat Hstr Harr Hobj in
  match v with
  | JNull => Hnull
  | JBool b => Hbool b
  | JNum n => Hnum n
  | JFloat f => Hfloat f
  | JStr s => Hstr s
  | JArr l => Harr l ((fix go l : Forall P l :=
      match l with
      | [] => List.Forall_nil _
      | x :: l' => List.Forall_cons _ x l' (rec x) (go l')
      end) l)
  | JObj l => Hobj l ((fix go l : Forall (fun kv => P (snd kv)) l :=
      match l with
      | [] => List.Forall_nil _
      | kv :: l' => List.Forall_cons _ kv l' (rec (snd kv)) (go l')
      end) l)
  end.

Definition float_tree (f : f64) : list Z :=
  let sign (b : bool) := if b then 1 else 0 in
  match f with
  | S754_zero b => [0; sign b]
  | S754_infinity b => [1; sign b]
  | S754_nan => [2]
  | S754_finite b m e => [3; sign b; Z.pos m; e]
  end.

Lemma float_tree_inj f f' : float_tree f = float_tree f' -> f = f'.
Proof. by destruct f as [[]|[]| |[] ? ?], f' as [[]|[]| |[] ? ?]; intros [=]; subst. Qed.

(** An encoding of values as trees, one to one. *)
Fixpoint value_tree (v : Value) : gen_tree (string + Z) :=
  match v with
  | JNull => GenNode 0 []
  | JBool b => GenNode (if b then 1 else 2)%nat []
  | JNum n => GenLeaf (inr n)
  | JFloat f => GenNode 6 (map (fun z => GenLeaf (inr z)) (float_tree f))
  | JStr s => GenLeaf (inl s)
  | JArr l => GenNode 3 (map value_tree l)
  | JObj l => GenNode 4 (map (fun kv => GenNode 5 [GenLeaf (inl (fst kv)); value_tree (snd kv)]) l)
  end.

Lemma value_tree_inj v v' : value_tree v = value_tree v' -> v = v'.
Proof.
  revert v'. induction v as [|b|n|f|s|l IH|l IH] using value_ind; intros [|b'|n'|f'|s'|l'|l']; cbn;
    try solve [intros [=]; congruence | destruct b; by intros [=] | destruct b'; by intros [=]
              | destruct b, b'; by intros [=]].
  - intros [= E]. f_equal. apply float_tree_inj. revert E. generalize (float_tree f), (float_tree f').
    intros l. induction l as [|z l IH]; intros [|z' l']; cbn; intros [=]; subst; [done|]. f_equal. by apply IH.
  - intros [= E]. f_equal. revert l' E. induction IH as [|x l Hx _ IH]; intros [|x' l'] E; try done.
    injection E as E1 E2. f_equal; [by apply Hx|by apply IH].
  - intros [= E]. f_equal. revert l' E.
    induction IH as [|[k x] l Hx _ IH]; intros [|[k' x'] l'] E; try done.
    injection E as -> E1 E2. f_equal; [f_equal; by apply Hx|by apply IH].
Qed.

Definition exact_text (v : Value) : string := pretty (N.pos (encode (value_tree v))).
Lemma exact_text_inj v v' : exact_text v = exact_text v' -> v = v'.
Proof. unfold exact_text. intros E%(inj pretty). apply value_tree_inj, (inj encode). congruence. Qed.

#[export] Instance value_eq_dec : EqDecision Value.
Proof.
  intros v v'. destruct (decide (value_tree v = value_tree v')) as [E|E].
  - left. by apply value_tree_inj.
  - right. congruence.
Defined.

(** [str::parse::<u64>]: an optional plus sign and digits, within range. *)
Definition parse_u64 (s : string) : option Z :=
  let digits l := match take_digits 0 0 l with
                  | (n, S _, []) => if Z.leb (Z.of_N n) u64_max then Some (Z.of_N n) else None
                  | _ => None
                  end in
  match bytes_of s with
  | c :: l => if byte_is c 43 then digits l else digits (c :: l)
  | [] => None
  end.
