(* ===== verification/Provision.v ===== *)
(** * Provisioner abstraction (crates/mobula-provision/src/lib.rs, demo.rs)

    The owned-field fingerprints of the two engines
    (kuberay.rs and dask.rs), the [Provisioner] trait as a class over a backend
    state, the in-memory demo backend as an instance with the laws the reconcile
    engine relies on, and a wrapper that logs the actuating calls of any
    backend. *)

From S2P Require Import Prelude Float64 Core Policy Store Json.
#[local] Open Scope Z_scope.

(** ** Serialization (crate [serde_json]) *)

(** Text of a JSON value and of the two serialized structs; [serde_json]'s. *)
Class Serde := {
  json_text : Value -> string;
  spec_json : ClusterSpec -> string;
  apply_response_json : Z -> option string -> string;
}.

Module Kuberay.
Definition worker_fingerprint (g : WorkerGroup) : Value := JObj [
  ("name", JStr (wg_name g)); ("cpu", JStr (wg_cpu g)); ("memory", JStr (wg_memory g));
  ("gpu", json_opt_str (wg_gpu g)); ("min", JNum (wg_min_replicas g));
  ("max", JNum (wg_max_replicas g))].

Definition owned_spec_value (spec : ClusterSpec) : Value := JObj [
  ("ray_version", JStr (cs_ray_version spec)); ("image", JStr (cs_image spec));
  ("head_cpu", JStr (cs_head_cpu spec)); ("head_memory", JStr (cs_head_memory spec));
  ("workers", JArr (worker_fingerprint <$> cs_worker_groups spec))].

Definition owned_spec_fingerprint `{Serde} (spec : ClusterSpec) : string :=
  json_text (owned_spec_value spec).
End Kuberay.

Module Dask.
(** Only the first worker group of a Dask cluster is projected; without one, the
    defaults of [(String, String, Option<String>)]. *)
Definition owned_spec_value (spec : ClusterSpec) : Value :=
  let '(wcpu, wmem, wgpu) :=
    match cs_worker_groups spec with
    | g :: _ => (wg_cpu g, wg_memory g, wg_gpu g)
    | [] => (EmptyString, EmptyString, None)
    end in
  JObj [
    ("image", JStr (cs_image spec)); ("head_cpu", JStr (cs_head_cpu spec));
    ("head_memory", JStr (cs_head_memory spec)); ("worker_cpu", JStr wcpu);
    ("worker_memory", JStr wmem); ("worker_gpu", json_opt_str wgpu)].

Definition owned_spec_fingerprint `{Serde} (spec : ClusterSpec) : string :=
  json_text (owned_spec_value spec).
End Dask.

(** ** The [Provisioner] trait *)

Inductive ProvisionError := NotFound (id : ClusterId) | PBackend (msg : string).

Record ObservedCluster := {
  o_id : ClusterId;
  o_state : ClusterState;
  o_observed_generation : option Z;
  o_spec_fingerprint : option string;
  o_api_base_url : option string;
}.

Record ApplyResponse := { ap_generation : Z; ap_api_base_url : option string }.

(** A backend with state [P]; a call returns its outcome and the state after
    it. [observe] is state-passing too, so that a backend may change on its own
    between two calls. *)
Class Provisioner (P : Type) := {
  pv_apply : ClusterId -> ClusterSpec -> Z -> string -> option QueueAssignment ->
    ST P ProvisionError ApplyResponse;
  pv_ensure_namespace_posture : ST P ProvisionError unit;
  pv_terminate : ClusterId -> ST P ProvisionError unit;
  pv_reap_network_policies : ClusterId -> ST P ProvisionError unit;
  pv_suspend : ClusterId -> ST P ProvisionError unit;
  pv_resume : ClusterId -> ST P ProvisionError unit;
  pv_observe : ClusterId -> ST P ProvisionError ObservedCluster;
}.

(** [observe] promises not to mutate anything. *)
Class ObservePure (P : Type) `{Provisioner P} :=
  observe_pure : forall id p, snd (pv_observe id p) = p.

(** ** The demo backend *)

Module Demo.

Record DemoCluster := { d_state : ClusterState; d_generation : Z; d_fingerprint : string }.

Record DemoProvisioner := {
  d_clusters : gmap string DemoCluster;
  d_services : gmap string ClusterState;
}.

Definition new : DemoProvisioner := {| d_clusters := ∅; d_services := ∅ |}.

Definition set_demo_clusters (m : gmap string DemoCluster) (d : DemoProvisioner)
  : DemoProvisioner := {| d_clusters := m; d_services := d_services d |}.

Definition base_url (id : string) : string := "http://" +:+ id +:+ ".demo.local:8265".

Definition with_state (f : ClusterState -> ClusterState) (c : DemoCluster) : DemoCluster := {|
  d_state := f (d_state c); d_generation := d_generation c; d_fingerprint := d_fingerprint c |}.

Section ops.
Context `{Serde}.

Definition apply (id : ClusterId) (spec : ClusterSpec) (generation : Z) (_key : string)
    (_queue : option QueueAssignment) : ST DemoProvisioner ProvisionError ApplyResponse :=
  st_put (fun d => set_demo_clusters (<[id := {|
    d_state := Running; d_generation := generation;
    d_fingerprint := Kuberay.owned_spec_fingerprint spec |}]> (d_clusters d)) d) ≫= fun _ =>
  mret {| ap_generation := generation; ap_api_base_url := Some (base_url id) |}.

Definition terminate (id : ClusterId) : ST DemoProvisioner ProvisionError unit :=
  st_put (fun d => set_demo_clusters
    (alter (with_state (fun _ => Terminated)) id (d_clusters d)) d).

Definition suspended_state (s : ClusterState) : ClusterState :=
  match s with Terminated => Terminated | _ => Suspended end.

Definition suspend (id : ClusterId) : ST DemoProvisioner ProvisionError unit :=
  st_put (fun d => set_demo_clusters
    (alter (with_state suspended_state) id (d_clusters d)) d).

Definition resumed_state (s : ClusterState) : ClusterState :=
  match s with Suspended => Running | s => s end.

Definition resume (id : ClusterId) : ST DemoProvisioner ProvisionError unit :=
  st_put (fun d => set_demo_clusters
    (alter (with_state resumed_state) id (d_clusters d)) d).

Definition observed_of (id : ClusterId) (c : DemoCluster) : ObservedCluster := {|
  o_id := id; o_state := d_state c; o_observed_generation := Some (d_generation c);
  o_spec_fingerprint := Some (d_fingerprint c); o_api_base_url := Some (base_url id) |}.

Definition observe (id : ClusterId) : ST DemoProvisioner ProvisionError ObservedCluster := fun d =>
  match d_clusters d !! id with
  | Some c => (Ok (observed_of id c), d)
  | None => (Err (NotFound id), d)
  end.

Definition list_observed : ST DemoProvisioner ProvisionError (list ObservedCluster) :=
  st_get (fun d => (fun ic => observed_of (fst ic) (snd ic)) <$> map_to_list (d_clusters d)).

(** Posture and network policies: the trait's default no-ops. *)
#[export] Instance demo_provisioner : Provisioner DemoProvisioner := {|
  pv_apply := apply;
  pv_ensure_namespace_posture := mret tt;
  pv_terminate := terminate;
  pv_reap_network_policies := fun _ => mret tt;
  pv_suspend := suspend;
  pv_resume := resume;
  pv_observe := observe |}.

#[export] Instance demo_observe_pure : ObservePure DemoProvisioner.
Proof. intros id d. cbn. unfold observe. by destruct (d_clusters d !! id). Qed.
End ops.

(** [ServiceProvisioner]: the spec is ignored. *)
Record ObservedService := { os_name : string; os_state : ClusterState; os_url : option string }.
Definition service_url (name : string) : string := "http://" +:+ name +:+ ".demo.local:8000".
Definition observed_service (name : string) (s : ClusterState) : ObservedService := {|
  os_name := name; os_state := s; os_url := Some (service_url name) |}.
Definition set_demo_services (m : gmap string ClusterState) (d : DemoProvisioner)
  : DemoProvisioner := {| d_clusters := d_clusters d; d_services := m |}.
Definition deploy (name : string) : ST DemoProvisioner ProvisionError unit :=
  st_put (fun d => set_demo_services (<[name := Running]> (d_services d)) d).
Definition get_service (name : string) : ST DemoProvisioner ProvisionError (option ObservedService) :=
  st_get (fun d => observed_service name <$> d_services d !! name).
Definition delete_service (name : string) : ST DemoProvisioner ProvisionError unit :=
  st_put (fun d => set_demo_services (delete name (d_services d)) d).
Definition list_services : ST DemoProvisioner ProvisionError (list ObservedService) :=
  st_get (fun d => (fun ns => observed_service (fst ns) (snd ns)) <$> map_to_list (d_services d)).

(** The states the demo backend can be in. *)
Definition demo_wf (d : DemoProvisioner) : Prop :=
  map_Forall (fun _ c => d_state c ∈ [Running; Suspended; Terminated]) (d_clusters d).
End Demo.
#[export] Existing Instances Demo.demo_provisioner Demo.demo_observe_pure.

(** ** Logging the actuating calls *)

Inductive Call :=
| CallApply (id : ClusterId) (spec : ClusterSpec) (generation : Z) (key : string)
    (queue : option QueueAssignment)
| CallPosture
| CallTerminate (id : ClusterId)
| CallReapNetworkPolicies (id : ClusterId)
| CallSuspend (id : ClusterId)
| CallResume (id : ClusterId).

(** A backend that remembers, in order, every mutating call made to it, failed
    ones included. *)
Record Logged (P : Type) := { lg_calls : list Call; lg_inner : P }.
Arguments lg_calls {P} _.
Arguments lg_inner {P} _.
Arguments Build_Logged {P} _ _.

Definition logging {P A} (calls : list Call) (m : ST P ProvisionError A)
  : ST (Logged P) ProvisionError A := fun l =>
  let '(r, p) := m (lg_inner l) in
  (r, {| lg_calls := lg_calls l ++ calls; lg_inner := p |}).

#[export] Instance logged_provisioner {P} `{Provisioner P} : Provisioner (Logged P) := {|
  pv_apply := fun id spec gen key q => logging [CallApply id spec gen key q] (pv_apply id spec gen key q);
  pv_ensure_namespace_posture := logging [CallPosture] pv_ensure_namespace_posture;
  pv_terminate := fun id => logging [CallTerminate id] (pv_terminate id);
  pv_reap_network_policies := fun id =>
    logging [CallReapNetworkPolicies id] (pv_reap_network_policies id);
  pv_suspend := fun id => logging [CallSuspend id] (pv_suspend id);
  pv_resume := fun id => logging [CallResume id] (pv_resume id);
  pv_observe := fun id => logging [] (pv_observe id) |}.

#[export] Instance logged_observe_pure {P} `{ObservePure P} : ObservePure (Logged P).
Proof.
  intros id [calls p]. cbn. unfold logging. cbn. pose proof (observe_pure id p) as Hp.
  destruct (pv_observe id p) as [r p']. cbn in *. by rewrite app_nil_r, Hp.
Qed.
