(* ===== verification/Manifests.v ===== *)
(** * Kubernetes manifests (crates/mobula-provision/src/kuberay.rs, dask.rs)

    The custom resources the two engines' provisioners apply, the inverse
    projection that reads a fingerprint back off a live resource, the network
    policies that go with a cluster, and the reading of a resource's status.
    All of it is pure code over JSON values. *)

From S2P Require Import Prelude Float64 Core Policy Store Json Provision.
#[local] Open Scope Z_scope.
#[local] Open Scope string_scope.

Definition FIELD_MANAGER : string := "mobula".
Definition MANAGED_BY_LABEL : string := "app.kubernetes.io/managed-by".
Definition CLUSTER_ID_LABEL : string := "mobula.dev/cluster-id".
Definition OWNER_LABEL : string := "mobula.dev/owner".
Definition NOTEBOOK_NAMESPACE : string := "jupyter".
Definition GENERATION_ANNOTATION : string := "mobula.dev/generation".
Definition QUEUE_LABEL : string := "kueue.x-k8s.io/queue-name".
Definition ELASTIC_JOB_ANNOTATION : string := "kueue.x-k8s.io/elastic-job".
Definition GPU_RESOURCE : string := "nvidia.com/gpu".

(** [if let Some(x) = o { obj[key] = json!(x) }]. *)
Definition set_opt (key : string) (o : option string) (obj : Value) : Value :=
  match o with Some s => json_set key (JStr s) obj | None => obj end.

(** The [limits] and [requests] of a container. *)
Definition quantities (cpu memory : string) (gpu : option string) : Value :=
  set_opt GPU_RESOURCE gpu (JObj [("cpu", JStr cpu); ("memory", JStr memory)]).

Module Ray.
Definition API_VERSION : string := "ray.io/v1".
Definition KIND : string := "RayCluster".

Definition pod_template (cluster_id container_name image cpu memory : string) (gpu : option string)
    (generation : option Z) (owner : option string) : Value :=
  let container := JObj [("name", JStr container_name);
    ("resources", JObj [("limits", quantities cpu memory gpu); ("requests", quantities cpu memory gpu)])] in
  let container := if is_empty image then container else json_set "image" (JStr image) container in
  let pod_labels := set_opt OWNER_LABEL owner (JObj [(CLUSTER_ID_LABEL, JStr cluster_id)]) in
  let metadata := JObj [("labels", pod_labels)] in
  let metadata := match generation with
                  | Some g => json_set "annotations" (JObj [(GENERATION_ANNOTATION, JStr (u64_str g))]) metadata
                  | None => metadata
                  end in
  JObj [("metadata", metadata); ("spec", JObj [("containers", JArr [container])])].

Definition head_group_spec (id : string) (spec : ClusterSpec) (generation : option Z) : Value := JObj [
  ("rayStartParams", JObj [("dashboard-host", JStr "0.0.0.0")]);
  ("template", pod_template id "ray-head" (cs_image spec) (cs_head_cpu spec) (cs_head_memory spec)
                 None generation (cs_owner spec))].

Definition worker_group_spec (id : string) (g : WorkerGroup) (image : string) (autoscaling : bool)
    (generation : option Z) (owner : option string) : Value :=
  let ws := JObj [
    ("groupName", JStr (wg_name g)); ("minReplicas", JNum (wg_min_replicas g));
    ("maxReplicas", JNum (wg_max_replicas g)); ("rayStartParams", JObj []);
    ("template", pod_template id "ray-worker" image (wg_cpu g) (wg_memory g) (wg_gpu g) generation owner)] in
  if autoscaling then ws else json_set "replicas" (JNum (wg_replicas g)) ws.

Definition to_raycluster (id : ClusterId) (spec : ClusterSpec) (autoscaling : bool) (generation : Z)
    (queue : option QueueAssignment) : Value :=
  let autoscaling := autoscaling || is_some_and queue qa_elastic in
  let worker_specs :=
    (fun g => worker_group_spec id g (cs_image spec) autoscaling (Some generation) (cs_owner spec))
      <$> cs_worker_groups spec in
  let labels := set_opt OWNER_LABEL (cs_owner spec)
    (JObj [(MANAGED_BY_LABEL, JStr FIELD_MANAGER); (CLUSTER_ID_LABEL, JStr id)]) in
  let annotations := JObj [(GENERATION_ANNOTATION, JStr (u64_str generation))] in
  let labels := set_opt QUEUE_LABEL (qa_queue_name <$> queue) labels in
  let annotations := if is_some_and queue qa_elastic
                     then json_set ELASTIC_JOB_ANNOTATION (JStr "true") annotations else annotations in
  JObj [
    ("apiVersion", JStr API_VERSION); ("kind", JStr KIND);
    ("metadata", JObj [("name", JStr id); ("labels", labels); ("annotations", annotations)]);
    ("spec", JObj [
      ("rayVersion", JStr (cs_ray_version spec)); ("enableInTreeAutoscaling", JBool autoscaling);
      ("suspend", JBool false); ("headGroupSpec", head_group_spec id spec (Some generation));
      ("workerGroupSpecs", JArr worker_specs)])].

(** ** Reading a live resource back *)

Definition first_container (group : Value) : option Value :=
  t ← json_get "template" group; s ← json_get "spec" t; c ← json_get "containers" s;
  l ← as_array c; head l.

Definition container_requests (group : Value) : option Value :=
  c ← first_container group; r ← json_get "resources" c; json_get "requests" r.

Definition container_resources (group : Value) : option (string * string) :=
  req ← container_requests group;
  cpu ← json_get "cpu" req ≫= as_str; mem ← json_get "memory" req ≫= as_str;
  Some (cpu, mem).

Definition container_gpu (group : Value) : option string :=
  req ← container_requests group; json_get GPU_RESOURCE req ≫= as_str.

Definition container_image (group : Value) : option string :=
  c ← first_container group; json_get "image" c ≫= as_str.

Definition worker_from_cr (g : Value) : option Value :=
  r ← container_resources g;
  Some (JObj [
    ("name", JStr (default "" (json_get "groupName" g ≫= as_str)));
    ("cpu", JStr (fst r)); ("memory", JStr (snd r)); ("gpu", json_opt_str (container_gpu g));
    ("min", JNum (default 0 (json_get "minReplicas" g ≫= as_u64)));
    ("max", JNum (default 0 (json_get "maxReplicas" g ≫= as_u64)))]).

Definition value_from_cr (cr_spec : Value) : option Value :=
  head ← json_get "headGroupSpec" cr_spec;
  r ← container_resources head;
  let workers := match json_get "workerGroupSpecs" cr_spec ≫= as_array with
                 | Some groups => omap worker_from_cr groups
                 | None => []
                 end in
  Some (JObj [
    ("ray_version", JStr (default "" (json_get "rayVersion" cr_spec ≫= as_str)));
    ("image", JStr (default "" (container_image head)));
    ("head_cpu", JStr (fst r)); ("head_memory", JStr (snd r)); ("workers", JArr workers)]).

Definition fingerprint_from_cr `{Serde} (cr_spec : Value) : option string :=
  json_text <$> value_from_cr cr_spec.

Definition suspend_patch (suspend : bool) : Value :=
  JObj [("spec", JObj [("suspend", JBool suspend)])].

Definition status_to_state (status : Value) : ClusterState :=
  match json_get "state" status ≫= as_str with
  | Some s => if String.eqb s "ready" then Running
              else if String.eqb s "suspended" then Suspended
              else if String.eqb s "unhealthy" then Degraded else Provisioning
  | None => Provisioning
  end.
End Ray.

Module DaskCr.
Definition API_VERSION : string := "kubernetes.dask.org/v1".
Definition KIND : string := "DaskCluster".
Definition SCHEDULER_COMM_PORT : Z := 8786.
Definition SCHEDULER_DASHBOARD_PORT : Z := 8787.
Definition WORKER_DASHBOARD_PORT : Z := 8788.
Definition DASK_CLUSTER_NAME_LABEL : string := "dask.org/cluster-name".
Definition DASK_COMPONENT_LABEL : string := "dask.org/component".

Definition resources (cpu memory : string) (gpu : option string) : Value :=
  JObj [("limits", quantities cpu memory gpu); ("requests", quantities cpu memory gpu)].

Definition pod_metadata (cluster_id : string) (generation : option Z) (owner : option string) : Value :=
  let meta := JObj [("labels", set_opt OWNER_LABEL owner (JObj [(CLUSTER_ID_LABEL, JStr cluster_id)]))] in
  match generation with
  | Some g => json_set "annotations" (JObj [(GENERATION_ANNOTATION, JStr (u64_str g))]) meta
  | None => meta
  end.

Definition health_probe (delay period : Z) : Value := JObj [
  ("httpGet", JObj [("port", JStr "http-dashboard"); ("path", JStr "/health")]);
  ("initialDelaySeconds", JNum delay); ("periodSeconds", JNum period)].

Definition scheduler_spec (cluster_id : string) (spec : ClusterSpec) (generation : option Z)
    (owner : option string) : Value :=
  let container := JObj [
    ("name", JStr "scheduler"); ("image", JStr (cs_image spec));
    ("imagePullPolicy", JStr "IfNotPresent"); ("args", JArr [JStr "dask-scheduler"]);
    ("ports", JArr [
      JObj [("name", JStr "tcp-comm"); ("containerPort", JNum SCHEDULER_COMM_PORT); ("protocol", JStr "TCP")];
      JObj [("name", JStr "http-dashboard"); ("containerPort", JNum SCHEDULER_DASHBOARD_PORT);
            ("protocol", JStr "TCP")]]);
    ("resources", resources (cs_head_cpu spec) (cs_head_memory spec) None);
    ("readinessProbe", health_probe 5 10); ("livenessProbe", health_probe 15 20)] in
  JObj [
    ("metadata", pod_metadata cluster_id generation owner);
    ("spec", JObj [("containers", JArr [container])]);
    ("service", JObj [
      ("type", JStr "ClusterIP");
      ("selector", JObj [(DASK_CLUSTER_NAME_LABEL, JStr cluster_id); (DASK_COMPONENT_LABEL, JStr "scheduler")]);
      ("ports", JArr [
        JObj [("name", JStr "tcp-comm"); ("protocol", JStr "TCP"); ("port", JNum SCHEDULER_COMM_PORT);
              ("targetPort", JStr "tcp-comm")];
        JObj [("name", JStr "http-dashboard"); ("protocol", JStr "TCP");
              ("port", JNum SCHEDULER_DASHBOARD_PORT); ("targetPort", JStr "http-dashboard")]])])].

(** Without a worker group, the scheduler's caps. *)
Definition worker_spec (cluster_id : string) (spec : ClusterSpec) (group : option WorkerGroup)
    (replicas : Z) (generation : option Z) (owner : option string) : Value :=
  let '(cpu, memory, gpu) :=
    match group with
    | Some g => (wg_cpu g, wg_memory g, wg_gpu g)
    | None => (cs_head_cpu spec, cs_head_memory spec, None)
    end in
  let container := JObj [
    ("name", JStr "worker"); ("image", JStr (cs_image spec));
    ("imagePullPolicy", JStr "IfNotPresent");
    ("args", JArr [JStr "dask-worker"; JStr "--name"; JStr "$(DASK_WORKER_NAME)"; JStr "--dashboard";
                   JStr "--dashboard-address"; JStr (u64_str WORKER_DASHBOARD_PORT)]);
    ("resources", resources cpu memory gpu)] in
  JObj [("replicas", JNum replicas); ("metadata", pod_metadata cluster_id generation owner);
        ("spec", JObj [("containers", JArr [container])])].

Definition to_daskcluster (id : ClusterId) (spec : ClusterSpec) (generation : Z) : Value :=
  let owner := cs_owner spec in
  let worker := head (cs_worker_groups spec) in
  let replicas := default 0 (wg_replicas <$> worker) in
  JObj [
    ("apiVersion", JStr API_VERSION); ("kind", JStr KIND);
    ("metadata", JObj [
      ("name", JStr id);
      ("labels", set_opt OWNER_LABEL owner
         (JObj [(MANAGED_BY_LABEL, JStr FIELD_MANAGER); (CLUSTER_ID_LABEL, JStr id)]));
      ("annotations", JObj [(GENERATION_ANNOTATION, JStr (u64_str generation))])]);
    ("spec", JObj [
      ("scheduler", scheduler_spec id spec (Some generation) owner);
      ("worker", worker_spec id spec worker replicas (Some generation) owner)])].

(** ** Reading a live resource back *)

Definition first_container (group : Value) : option Value :=
  s ← json_get "spec" group; c ← json_get "containers" s; l ← as_array c; head l.

Definition container_requests (c : Value) : option (string * string) :=
  r ← json_get "resources" c; req ← json_get "requests" r;
  cpu ← json_get "cpu" req ≫= as_str; mem ← json_get "memory" req ≫= as_str;
  Some (cpu, mem).

Definition container_gpu (c : Value) : option string :=
  r ← json_get "resources" c; req ← json_get "requests" r; json_get GPU_RESOURCE req ≫= as_str.

Definition worker_from_cr (cr_spec : Value) : option (string * string * option string) :=
  w ← json_get "worker" cr_spec; c ← first_container w; r ← container_requests c;
  Some (fst r, snd r, container_gpu c).

Definition value_from_cr (cr_spec : Value) : option Value :=
  sched ← json_get "scheduler" cr_spec; sched_c ← first_container sched;
  r ← container_requests sched_c;
  let image := default "" (json_get "image" sched_c ≫= as_str) in
  let '(wcpu, wmem, wgpu) := default ("", "", None) (worker_from_cr cr_spec) in
  Some (JObj [
    ("image", JStr image); ("head_cpu", JStr (fst r)); ("head_memory", JStr (snd r));
    ("worker_cpu", JStr wcpu); ("worker_memory", JStr wmem); ("worker_gpu", json_opt_str wgpu)]).

Definition fingerprint_from_cr `{Serde} (cr_spec : Value) : option string :=
  json_text <$> value_from_cr cr_spec.

(** ** Status *)

Definition status_to_state (status : Value) : ClusterState :=
  match json_get "phase" status ≫= as_str with
  | Some s => if String.eqb s "Running" then Running
              else if String.eqb s "Failed" then Degraded else Provisioning
  | None => Provisioning
  end.

Definition pod_label (key : string) (pod : Value) : option string :=
  m ← json_get "metadata" pod; l ← json_get "labels" m; json_get key l ≫= as_str.

Definition pod_phase (pod : Value) : string :=
  default "Unknown" (s ← json_get "status" pod; json_get "phase" s ≫= as_str).

Definition is_str (o : option Value) (s : string) : bool := opt_eqb (o ≫= as_str) s.

Definition pod_ready (pod : Value) : bool :=
  is_some_and (s ← json_get "status" pod; json_get "conditions" s ≫= as_array)
    (fun conds => existsb (fun c => is_str (json_get "type" c) "Ready"
                                    && is_str (json_get "status" c) "True") conds).

Definition pod_running_ready (pod : Value) : bool :=
  String.eqb (pod_phase pod) "Running" && pod_ready pod.

Definition has_component (component : string) (pod : Value) : bool :=
  opt_eqb (pod_label DASK_COMPONENT_LABEL pod) component.

Definition observed_state_from_pods (pods : list Value) : option ClusterState :=
  match pods with
  | [] => None
  | _ =>
      let scheduler := List.find (has_component "scheduler") pods in
      let scheduler_ready := is_some_and scheduler pod_running_ready in
      let workers_ready :=
        length (List.filter pod_running_ready (List.filter (has_component "worker") pods)) in
      let any_failed := existsb (fun p => String.eqb (pod_phase p) "Failed") pods in
      if is_some_and scheduler (fun p => String.eqb (pod_phase p) "Failed") then Some Degraded
      else if scheduler_ready && Nat.leb 1 workers_ready then Some Running
      else if any_failed then Some Degraded
      else Some Provisioning
  end.
End DaskCr.

(** ** What a resource carries is what is read back *)

Lemma json_get_cons k v fields key :
  json_get key (JObj ((k, v) :: fields)) = if String.eqb k key then Some v else json_get key (JObj fields).
Proof. cbn. by destruct (String.eqb k key). Qed.

Lemma quantities_cpu cpu memory gpu : json_get "cpu" (quantities cpu memory gpu) = Some (JStr cpu).
Proof. by destruct gpu. Qed.
Lemma quantities_memory cpu memory gpu : json_get "memory" (quantities cpu memory gpu) = Some (JStr memory).
Proof. by destruct gpu. Qed.
Lemma quantities_gpu cpu memory gpu :
  json_get GPU_RESOURCE (quantities cpu memory gpu) ≫= as_str = gpu.
Proof. by destruct gpu. Qed.

(** A group whose pod template was built from these caps and this image reads
    back as these caps and this image. *)
Lemma template_reads_back group id name image cpu memory gpu generation owner :
  json_get "template" group = Some (Ray.pod_template id name image cpu memory gpu generation owner) ->
  Ray.container_resources group = Some (cpu, memory) /\
  Ray.container_gpu group = gpu /\ default "" (Ray.container_image group) = image.
Proof.
  intros Ht.
  assert (exists c, Ray.first_container group = Some c /\
    json_get "resources" c = Some (JObj [("limits", quantities cpu memory gpu);
      ("requests", quantities cpu memory gpu)]) /\
    default "" (json_get "image" c ≫= as_str) = image) as (c & Hc & Hres & Himg).
  { unfold Ray.first_container. rewrite Ht. unfold Ray.pod_template.
    destruct image; cbn [is_empty]; eexists; (split; [reflexivity|]); split; reflexivity. }
  unfold Ray.container_resources, Ray.container_gpu, Ray.container_image, Ray.container_requests.
  rewrite Hc. cbn [mbind option_bind]. rewrite Hres. cbn [mbind option_bind].
  rewrite !json_get_cons. cbn [String.eqb Ascii.eqb Bool.eqb]. cbn [mbind option_bind].
  rewrite quantities_cpu, quantities_memory, quantities_gpu. done.
Qed.

Lemma worker_group_fields id g image autoscaling generation owner :
  let ws := Ray.worker_group_spec id g image autoscaling generation owner in
  json_get "groupName" ws = Some (JStr (wg_name g)) /\
  json_get "minReplicas" ws = Some (JNum (wg_min_replicas g)) /\
  json_get "maxReplicas" ws = Some (JNum (wg_max_replicas g)) /\
  json_get "template" ws = Some (Ray.pod_template id "ray-worker" image (wg_cpu g) (wg_memory g)
                                   (wg_gpu g) generation owner).
Proof. by destruct autoscaling. Qed.

Lemma as_u64_u32 n : is_u32 n -> as_u64 (JNum n) = Some n.
Proof. intros [Hn _]. unfold as_u64. by rewrite (proj2 (Z.leb_le _ _)). Qed.

Lemma worker_reads_back id g image autoscaling generation owner :
  group_wf g ->
  Ray.worker_from_cr (Ray.worker_group_spec id g image autoscaling generation owner) =
  Some (Kuberay.worker_fingerprint g).
Proof.
  intros [Hmin Hmax]. unfold Ray.worker_from_cr.
  destruct (worker_group_fields id g image autoscaling generation owner) as (-> & -> & -> & Ht).
  apply template_reads_back in Ht as (-> & Hgpu & _).
  cbn [mbind option_bind fst snd as_str default]. by rewrite Hgpu, !as_u64_u32.
Qed.

(** The custom resource of a spec, as the provisioner hands it over. *)
Definition ray_cr_spec (id : ClusterId) (spec : ClusterSpec) (autoscaling : bool) (generation : Z)
    (queue : option QueueAssignment) : option Value :=
  json_get "spec" (Ray.to_raycluster id spec autoscaling generation queue).

Lemma ray_reads_back id spec autoscaling generation queue :
  Forall group_wf (cs_worker_groups spec) ->
  ray_cr_spec id spec autoscaling generation queue ≫= Ray.value_from_cr =
  Some (Kuberay.owned_spec_value spec).
Proof.
  intros Hwf. unfold ray_cr_spec, Ray.to_raycluster.
  set (auto := autoscaling || is_some_and queue qa_elastic). cbn zeta.
  rewrite !json_get_cons. cbn [String.eqb Ascii.eqb Bool.eqb]. cbn [mbind option_bind].
  unfold Ray.value_from_cr. rewrite !json_get_cons. cbn [String.eqb Ascii.eqb Bool.eqb].
  cbn [mbind option_bind].
  destruct (template_reads_back (Ray.head_group_spec id spec (Some generation)) id "ray-head"
    (cs_image spec) (cs_head_cpu spec) (cs_head_memory spec) None (Some generation) (cs_owner spec))
    as (Hres & _ & Himg); [done|].
  rewrite Hres. cbn [mbind option_bind fst snd as_array as_str default]. rewrite Himg.
  unfold Kuberay.owned_spec_value. do 6 f_equal. f_equal. f_equal.
  induction Hwf as [|g gs Hg _ IH]; [done|].
  cbn [fmap list_fmap omap list_omap]. rewrite worker_reads_back by done. by injection IH as ->.
Qed.

(** The fields of a Ray cluster the fingerprint is about. *)
Definition ray_owned (spec : ClusterSpec) :=
  (cs_ray_version spec, cs_image spec, cs_head_cpu spec, cs_head_memory spec,
   (fun g => (wg_name g, wg_cpu g, wg_memory g, wg_gpu g, wg_min_replicas g, wg_max_replicas g))
     <$> cs_worker_groups spec).

Lemma json_opt_str_inj o o' : json_opt_str o = json_opt_str o' -> o = o'.
Proof. destruct o, o'; by intros [=]; subst. Qed.

Lemma worker_fingerprints_inj (gs gs' : list WorkerGroup) :
  Kuberay.worker_fingerprint <$> gs = Kuberay.worker_fingerprint <$> gs' <->
  (fun g => (wg_name g, wg_cpu g, wg_memory g, wg_gpu g, wg_min_replicas g, wg_max_replicas g)) <$> gs =
  (fun g => (wg_name g, wg_cpu g, wg_memory g, wg_gpu g, wg_min_replicas g, wg_max_replicas g)) <$> gs'.
Proof.
  revert gs'. induction gs as [|g gs IH]; intros [|g' gs']; try done. cbn [fmap list_fmap].
  split; intros E; injection E as Hn Hc Hm Hg Hmin Hmax Hr; apply IH in Hr.
  - apply json_opt_str_inj in Hg. congruence.
  - f_equal; [unfold Kuberay.worker_fingerprint; congruence|done].
Qed.

(** C22. Drift detection on Ray clusters is exact. Whatever was applied, with or
    without autoscaling, at any generation, through any queue, reading its
    fingerprint back gives the fingerprint of the spec applied, so an unedited
    resource never alarms; and two specs share a fingerprint exactly when they
    agree on every field the control plane owns, so an edit of any of them always
    does. The hypothesis on the serializer is that distinct values have distinct
    texts. *)
Theorem ray_drift_exact `{Serde} id applied desired autoscaling generation queue :
  Forall group_wf (cs_worker_groups applied) ->
  (forall v v', json_text v = json_text v' -> v = v') ->
  exists fp,
    ray_cr_spec id applied autoscaling generation queue ≫= Ray.fingerprint_from_cr = Some fp /\
    fp = Kuberay.owned_spec_fingerprint applied /\
    (fp = Kuberay.owned_spec_fingerprint desired <-> ray_owned applied = ray_owned desired).
Proof.
  intros Hwf Hinj. exists (Kuberay.owned_spec_fingerprint applied).
  pose proof (ray_reads_back id applied autoscaling generation queue Hwf) as Hread.
  split_and!; [|done|].
  - unfold ray_cr_spec in *. destruct (json_get "spec" _) as [cr|]; [|done].
    cbn [mbind option_bind] in *. unfold Ray.fingerprint_from_cr. by rewrite Hread.
  - unfold Kuberay.owned_spec_fingerprint, ray_owned. split.
    + intros [= Hv Hi Hc Hm Hw]%Hinj. apply worker_fingerprints_inj in Hw. congruence.
    + intros [= Hv Hi Hc Hm Hw%worker_fingerprints_inj]. f_equal. unfold Kuberay.owned_spec_value.
      congruence.
Qed.

#[local] Instance exact_serde : Serde := {|
  json_text := exact_text; spec_json := fun s => cs_name s; apply_response_json := fun g _ => u64_str g |}.

Lemma ray_drift_exact_witness :
  exists fp,
    ray_cr_spec "c1" demo_spec true 7 None ≫= Ray.fingerprint_from_cr = Some fp /\
    fp = Kuberay.owned_spec_fingerprint demo_spec /\
    (fp = Kuberay.owned_spec_fingerprint demo_spec <-> ray_owned demo_spec = ray_owned demo_spec).
Proof.
  exact (ray_drift_exact "c1" demo_spec demo_spec true 7 None demo_groups_wf exact_text_inj).
Defined.

(** ** Dask *)

Definition dask_cr_spec (id : ClusterId) (spec : ClusterSpec) (generation : Z) : option Value :=
  json_get "spec" (DaskCr.to_daskcluster id spec generation).

Lemma dask_container_reads_back c cpu memory gpu :
  json_get "resources" c = Some (DaskCr.resources cpu memory gpu) ->
  DaskCr.container_requests c = Some (cpu, memory) /\ DaskCr.container_gpu c = gpu.
Proof.
  intros Hc. unfold DaskCr.container_requests, DaskCr.container_gpu. rewrite Hc.
  cbn [mbind option_bind]. unfold DaskCr.resources. rewrite !json_get_cons.
  cbn [String.eqb Ascii.eqb Bool.eqb]. cbn [mbind option_bind].
  rewrite quantities_cpu, quantities_memory. split; [done|]. apply quantities_gpu.
Qed.

(** The fields of a Dask cluster the fingerprint is about: only the first worker
    group has a counterpart in the resource. *)
Definition dask_owned (spec : ClusterSpec) :=
  (cs_image spec, cs_head_cpu spec, cs_head_memory spec,
   (fun g => (wg_cpu g, wg_memory g, wg_gpu g)) <$> head (cs_worker_groups spec)).

Lemma dask_worker_reads_back cr id spec g replicas generation owner :
  json_get "worker" cr = Some (DaskCr.worker_spec id spec (Some g) replicas generation owner) ->
  DaskCr.worker_from_cr cr = Some (wg_cpu g, wg_memory g, wg_gpu g).
Proof.
  intros Hw. unfold DaskCr.worker_from_cr. rewrite Hw. cbn [mbind option_bind].
  assert (exists c, DaskCr.first_container
      (DaskCr.worker_spec id spec (Some g) replicas generation owner) = Some c /\
      json_get "resources" c = Some (DaskCr.resources (wg_cpu g) (wg_memory g) (wg_gpu g)))
    as (c & -> & [Hr Hg]%dask_container_reads_back) by (eexists; split; reflexivity).
  cbn [mbind option_bind]. by rewrite Hr, Hg.
Qed.

Lemma dask_reads_back id spec generation g gs :
  cs_worker_groups spec = g :: gs ->
  dask_cr_spec id spec generation ≫= DaskCr.value_from_cr = Some (Dask.owned_spec_value spec).
Proof.
  intros Hg. unfold dask_cr_spec, DaskCr.to_daskcluster. rewrite Hg. cbn [head fmap option_fmap option_map default].
  rewrite !json_get_cons. cbn [String.eqb Ascii.eqb Bool.eqb]. cbn [mbind option_bind].
  unfold DaskCr.value_from_cr. rewrite json_get_cons. cbn [String.eqb Ascii.eqb Bool.eqb].
  cbn [mbind option_bind].
  assert (exists c, DaskCr.first_container (DaskCr.scheduler_spec id spec (Some generation) (cs_owner spec))
      = Some c /\ json_get "resources" c = Some (DaskCr.resources (cs_head_cpu spec) (cs_head_memory spec) None)
      /\ json_get "image" c = Some (JStr (cs_image spec))) as (c & -> & [Hr _]%dask_container_reads_back & Himg)
    by (eexists; split_and!; reflexivity).
  cbn [mbind option_bind]. rewrite Hr, Himg. cbn [mbind option_bind as_str default fst snd].
  erewrite dask_worker_reads_back; [|reflexivity].
  unfold Dask.owned_spec_value. by rewrite Hg.
Qed.

(** Drift detection on Dask clusters that have a worker group is exact, over the
    fields the single-group resource carries. *)
Theorem dask_drift_exact `{Serde} id applied desired generation :
  cs_worker_groups applied <> [] -> cs_worker_groups desired <> [] ->
  (forall v v', json_text v = json_text v' -> v = v') ->
  exists fp,
    dask_cr_spec id applied generation ≫= DaskCr.fingerprint_from_cr = Some fp /\
    fp = Dask.owned_spec_fingerprint applied /\
    (fp = Dask.owned_spec_fingerprint desired <-> dask_owned applied = dask_owned desired).
Proof.
  intros Ha Hd Hinj. exists (Dask.owned_spec_fingerprint applied).
  destruct (cs_worker_groups applied) as [|g gs] eqn:Eg; [done|].
  destruct (cs_worker_groups desired) as [|g' gs'] eqn:Eg'; [done|].
  pose proof (dask_reads_back id applied generation g gs Eg) as Hread. split_and!; [|done|].
  - destruct (dask_cr_spec id applied generation) as [cr|]; [|done].
    cbn [mbind option_bind] in *. unfold DaskCr.fingerprint_from_cr. by rewrite Hread.
  - unfold Dask.owned_spec_fingerprint, dask_owned. rewrite Eg, Eg'. cbn [head fmap option_fmap option_map]. split.
    + intros E%Hinj. unfold Dask.owned_spec_value in E. rewrite Eg, Eg' in E.
      injection E as Hi Hc Hm Hwc Hwm Hwg%json_opt_str_inj. congruence.
    + intros [= Hi Hc Hm Hwc Hwm Hwg]. f_equal. unfold Dask.owned_spec_value. rewrite Eg, Eg'. congruence.
Qed.

Lemma dask_drift_exact_witness :
  exists fp,
    dask_cr_spec "c1" demo_spec 3 ≫= DaskCr.fingerprint_from_cr = Some fp /\
    fp = Dask.owned_spec_fingerprint demo_spec /\
    (fp = Dask.owned_spec_fingerprint demo_spec <-> dask_owned demo_spec = dask_owned demo_spec).
Proof.
  apply (dask_drift_exact "c1" demo_spec demo_spec 3); [discriminate|discriminate|exact exact_text_inj].
Defined.

(** Without a worker group the manifest falls back to the scheduler's caps and the
    desired fingerprint to empty texts: an unedited resource alarms. *)
Definition without_groups (s : ClusterSpec) : ClusterSpec := {|
  cs_name := cs_name s; cs_project := cs_project s; cs_engine := cs_engine s;
  cs_ray_version := cs_ray_version s; cs_image := cs_image s;
  cs_head_cpu := cs_head_cpu s; cs_head_memory := cs_head_memory s;
  cs_worker_groups := []; cs_ttl_seconds := cs_ttl_seconds s;
  cs_idle_timeout_secs := cs_idle_timeout_secs s; cs_owner := cs_owner s |}.

Lemma dask_groupless_drifts :
  dask_cr_spec "c1" (without_groups demo_spec) 1 ≫= DaskCr.value_from_cr <>
  Some (Dask.owned_spec_value (without_groups demo_spec)).
Proof. vm_compute. congruence. Qed.

(** ** Field ownership and labels *)

Definition pod_meta (kind key : string) (group : Value) : option string :=
  t ← json_get "template" group; m ← json_get "metadata" t; k ← json_get kind m;
  json_get key k ≫= as_str.

Definition autoscaled (autoscaling : bool) (queue : option QueueAssignment) : bool :=
  autoscaling || is_some_and queue qa_elastic.

Lemma template_meta group id name image cpu memory gpu generation owner :
  json_get "template" group = Some (Ray.pod_template id name image cpu memory gpu (Some generation) owner) ->
  pod_meta "labels" CLUSTER_ID_LABEL group = Some id /\
  pod_meta "labels" OWNER_LABEL group = owner /\
  pod_meta "annotations" GENERATION_ANNOTATION group = Some (u64_str generation).
Proof. intros Ht. unfold pod_meta. rewrite Ht. by destruct owner. Qed.

(** Who owns what in the resource. Under the in-tree autoscaler, which an elastic
    queue always turns on, no worker group carries a replica count; otherwise each
    carries its own; a scale strategy is never written, and [suspend] always is,
    as false. Every pod template, the head's and each group's, carries the cluster
    id and the owner as labels and the generation as an annotation. *)
Theorem ray_field_ownership id spec autoscaling generation queue :
  exists cr head groups,
    ray_cr_spec id spec autoscaling generation queue = Some cr /\
    json_get "suspend" cr = Some (JBool false) /\
    json_get "enableInTreeAutoscaling" cr = Some (JBool (autoscaled autoscaling queue)) /\
    json_get "headGroupSpec" cr = Some head /\ json_get "workerGroupSpecs" cr = Some (JArr groups) /\
    Forall2 (fun g w => json_get "groupName" w = Some (JStr (wg_name g)) /\
        json_get "replicas" w =
          (if autoscaled autoscaling queue then None else Some (JNum (wg_replicas g))) /\
        json_get "scaleStrategy" w = None) (cs_worker_groups spec) groups /\
    Forall (fun group => pod_meta "labels" CLUSTER_ID_LABEL group = Some id /\
        pod_meta "labels" OWNER_LABEL group = cs_owner spec /\
        pod_meta "annotations" GENERATION_ANNOTATION group = Some (u64_str generation)) (head :: groups).
Proof.
  do 3 eexists. split_and!; try reflexivity.
  - fold (autoscaled autoscaling queue). induction (cs_worker_groups spec) as [|g gs IH]; [constructor|].
    cbn [fmap list_fmap]. constructor; [|done]. by destruct (autoscaled autoscaling queue).
  - constructor; [by eapply template_meta|]. fold (autoscaled autoscaling queue).
    induction (cs_worker_groups spec) as [|g gs IH]; [constructor|].
    cbn [fmap list_fmap]. constructor; [|done].
    destruct (worker_group_fields id g (cs_image spec) (autoscaled autoscaling queue) (Some generation)
      (cs_owner spec)) as (_ & _ & _ & Ht). by eapply template_meta.
Qed.
