(* ===== verification/Network.v ===== *)
(** * Network isolation (crates/mobula-provision/src/kuberay.rs, dask.rs)

    The NetworkPolicy manifests that go with the tenant clusters, the pod-security
    labels of the namespace, the check that recognises a default-deny of the
    administrator's, and the Serve service manifest. The isolation theorem reads
    the manifests the way the NetworkPolicy API documents them: what a label
    selector selects is the cluster's, a parameter with its documented laws. *)

From S2P Require Import Prelude Core Json Provision Manifests.
#[local] Open Scope Z_scope.
#[local] Open Scope string_scope.

Definition NETWORK_POLICY_API_VERSION : string := "networking.k8s.io/v1".
Definition NETWORK_POLICY_KIND : string := "NetworkPolicy".
Definition DEFAULT_DENY_POLICY_NAME : string := "mobula-default-deny".
Definition TENANT_ALLOW_POLICY_NAME : string := "mobula-tenant-allow".
Definition CLUSTER_ALLOW_POLICY_PREFIX : string := "mobula-cluster-".
Definition CONTROL_PLANE_NAMESPACE_LABEL : string := "mobula.dev/control-plane".
Definition CONTROL_PLANE_POD_LABEL : string := "mobula.dev/control-plane".
Definition NAMESPACE_NAME_LABEL : string := "kubernetes.io/metadata.name".
Definition OPERATOR_LABEL : string := "app.kubernetes.io/name".

(** [{ "matchLabels": { key: value } }]. *)
Definition match_label (key value : string) : Value :=
  JObj [("matchLabels", JObj [(key, JStr value)])].

Definition tenant_pod_selector : Value :=
  JObj [("matchExpressions", JArr [JObj [("key", JStr CLUSTER_ID_LABEL); ("operator", JStr "Exists")]])].

Definition policy_port (protocol : string) (port : Z) : Value :=
  JObj [("protocol", JStr protocol); ("port", JNum port)].

Definition both_types : Value := JArr [JStr "Ingress"; JStr "Egress"].

Definition cluster_allow_policy_name (id : string) : string := CLUSTER_ALLOW_POLICY_PREFIX +:+ id.

Definition default_deny_network_policy : Value := JObj [
  ("apiVersion", JStr NETWORK_POLICY_API_VERSION); ("kind", JStr NETWORK_POLICY_KIND);
  ("metadata", JObj [("name", JStr DEFAULT_DENY_POLICY_NAME);
                     ("labels", JObj [(MANAGED_BY_LABEL, JStr FIELD_MANAGER)])]);
  ("spec", JObj [("podSelector", tenant_pod_selector); ("policyTypes", both_types)])].

Definition control_plane_rule : Value := JObj [
  ("from", JArr [
    JObj [("podSelector", match_label CONTROL_PLANE_POD_LABEL "true")];
    JObj [("namespaceSelector", match_label CONTROL_PLANE_NAMESPACE_LABEL "true");
          ("podSelector", match_label CONTROL_PLANE_POD_LABEL "true")]]);
  ("ports", JArr [policy_port "TCP" 8265; policy_port "TCP" 10001])].

Definition operator_rule : Value := JObj [
  ("from", JArr [
    JObj [("namespaceSelector", JObj []); ("podSelector", match_label OPERATOR_LABEL "kuberay-operator")]]);
  ("ports", JArr [policy_port "TCP" 8265; policy_port "TCP" 52365; policy_port "TCP" 8000])].

Definition dns_rule : Value := JObj [
  ("to", JArr [
    JObj [("namespaceSelector", match_label NAMESPACE_NAME_LABEL "kube-system");
          ("podSelector", match_label "k8s-app" "kube-dns")]]);
  ("ports", JArr [policy_port "UDP" 53; policy_port "TCP" 53])].

Definition tenant_allow_network_policy : Value := JObj [
  ("apiVersion", JStr NETWORK_POLICY_API_VERSION); ("kind", JStr NETWORK_POLICY_KIND);
  ("metadata", JObj [("name", JStr TENANT_ALLOW_POLICY_NAME);
                     ("labels", JObj [(MANAGED_BY_LABEL, JStr FIELD_MANAGER)])]);
  ("spec", JObj [("podSelector", tenant_pod_selector); ("policyTypes", both_types);
                 ("ingress", JArr [control_plane_rule; operator_rule]);
                 ("egress", JArr [dns_rule])])].

(** The notebook rule of an owned cluster, on the engine's two client ports. *)
Definition owner_rule (owner : string) (client dashboard : Z) : Value := JObj [
  ("from", JArr [
    JObj [("namespaceSelector", match_label NAMESPACE_NAME_LABEL NOTEBOOK_NAMESPACE);
          ("podSelector", match_label OWNER_LABEL owner)]]);
  ("ports", JArr [policy_port "TCP" client; policy_port "TCP" dashboard])].

Definition allow_policy (id : string) (owner : option string) (client dashboard : Z) : Value :=
  let same_cluster := match_label CLUSTER_ID_LABEL id in
  let ingress := JObj [("from", JArr [JObj [("podSelector", same_cluster)]])] ::
    match owner with Some o => [owner_rule o client dashboard] | None => [] end in
  JObj [
    ("apiVersion", JStr NETWORK_POLICY_API_VERSION); ("kind", JStr NETWORK_POLICY_KIND);
    ("metadata", JObj [("name", JStr (cluster_allow_policy_name id));
      ("labels", JObj [(MANAGED_BY_LABEL, JStr FIELD_MANAGER); (CLUSTER_ID_LABEL, JStr id)])]);
    ("spec", JObj [("podSelector", same_cluster); ("policyTypes", both_types);
      ("ingress", JArr ingress);
      ("egress", JArr [JObj [("to", JArr [JObj [("podSelector", same_cluster)]])]])])].

Module RayNet.
Definition cluster_allow_network_policy (id : string) (owner : option string) : Value :=
  allow_policy id owner 10001 8265.
End RayNet.

Module DaskNet.
Definition cluster_allow_network_policy (id : string) (owner : option string) : Value :=
  allow_policy id owner DaskCr.SCHEDULER_COMM_PORT DaskCr.SCHEDULER_DASHBOARD_PORT.
End DaskNet.

Definition PSS_ENFORCE_LABEL : string := "pod-security.kubernetes.io/enforce".
Definition PSS_WARN_LABEL : string := "pod-security.kubernetes.io/warn".
Definition PSS_AUDIT_LABEL : string := "pod-security.kubernetes.io/audit".

Definition namespace_pss_labels : Value := JObj [
  (PSS_ENFORCE_LABEL, JStr "baseline"); (PSS_WARN_LABEL, JStr "restricted");
  (PSS_AUDIT_LABEL, JStr "restricted")].

Definition no_rules (spec : Value) (key : string) : bool :=
  match json_get key spec with
  | None => true
  | Some v => is_some_and (as_array v) (fun a => bool_decide (a = []))
  end.

Definition is_default_deny (policy : Value) : bool :=
  match json_get "spec" policy with
  | None => false
  | Some spec =>
      let selects_all := is_some_and (json_get "podSelector" spec ≫= as_object)
                           (fun m => bool_decide (m = [])) in
      let types := match json_get "policyTypes" spec ≫= as_array with
                   | Some a => omap as_str a
                   | None => []
                   end in
      let denies_both := existsb (String.eqb "Ingress") types && existsb (String.eqb "Egress") types in
      selects_all && denies_both && no_rules spec "ingress" && no_rules spec "egress"
  end.

(** ** Serve services *)

Definition SERVICE_KIND : string := "RayService".

Inductive UpgradeStrategy := Canary | InPlace.

Record ServiceSpec := {
  ss_name : string;
  ss_project : string;
  ss_ray_version : string;
  ss_image : string;
  ss_serve_config_v2 : string;
  ss_head_cpu : string;
  ss_head_memory : string;
  ss_worker_replicas : Z;
  ss_worker_cpu : string;
  ss_worker_memory : string;
  ss_upgrade : UpgradeStrategy;
}.

Definition service_worker (spec : ServiceSpec) : WorkerGroup := {|
  wg_name := "worker"; wg_cpu := ss_worker_cpu spec; wg_memory := ss_worker_memory spec;
  wg_gpu := None; wg_min_replicas := ss_worker_replicas spec;
  wg_max_replicas := ss_worker_replicas spec; wg_replicas := ss_worker_replicas spec |}.

Definition to_rayservice (name : string) (spec : ServiceSpec) : Value :=
  let upgrade := match ss_upgrade spec with Canary => "NewCluster" | InPlace => "None" end in
  JObj [
    ("apiVersion", JStr Ray.API_VERSION); ("kind", JStr SERVICE_KIND);
    ("metadata", JObj [("name", JStr name);
      ("labels", JObj [(MANAGED_BY_LABEL, JStr FIELD_MANAGER); (CLUSTER_ID_LABEL, JStr name)])]);
    ("spec", JObj [
      ("serveConfigV2", JStr (ss_serve_config_v2 spec));
      ("upgradeStrategy", JObj [("type", JStr upgrade)]);
      ("rayClusterConfig", JObj [
        ("rayVersion", JStr (ss_ray_version spec));
        ("headGroupSpec", JObj [
          ("rayStartParams", JObj [("dashboard-host", JStr "0.0.0.0")]);
          ("template", Ray.pod_template name "ray-head" (ss_image spec) (ss_head_cpu spec)
                         (ss_head_memory spec) None None None)]);
        ("workerGroupSpecs", JArr [
          Ray.worker_group_spec name (service_worker spec) (ss_image spec) false None None])])])].

Definition service_status_to_state (status : Value) : ClusterState :=
  match json_get "serviceStatus" status ≫= as_str with
  | Some s => if String.eqb s "Running" then Running
              else if String.eqb s "Restarting" || String.eqb s "UpgradingCluster" then Updating
              else Provisioning
  | None => Provisioning
  end.

(** ** Reading the policies *)

(** A pod at one end of a connection: its namespace, that namespace's labels and
    its own. *)
Record Endpoint := {
  ep_namespace : string;
  ep_namespace_labels : gmap string string;
  ep_labels : gmap string string;
}.

(** Which label sets a label selector selects; Kubernetes', with what its API
    documents of the three selectors the manifests use. *)
Class Selectors := selects : Value -> gmap string string -> bool.
Class SelectorLaws `{Selectors} := {
  selects_label key value labels :
    selects (match_label key value) labels = bool_decide (labels !! key = Some value);
  selects_exists labels :
    selects tenant_pod_selector labels = bool_decide (is_Some (labels !! CLUSTER_ID_LABEL));
  selects_everything labels : selects (JObj []) labels = true;
}.

Section reading.
Context `{Selectors}.

(** A peer block selects on everything it names; without a namespace selector it
    is about the policy's own namespace. *)
Definition peer_matches (ns : string) (peer : Endpoint) (block : Value) : bool :=
  match json_get "namespaceSelector" block with
  | Some s => selects s (ep_namespace_labels peer)
  | None => String.eqb (ep_namespace peer) ns
  end && is_none_or (json_get "podSelector" block) (fun s => selects s (ep_labels peer)).

Definition port_listed (port : Z) (p : Value) : bool :=
  bool_decide (json_get "protocol" p = Some (JStr "TCP")) && bool_decide (json_get "port" p = Some (JNum port)).

(** One ingress rule; absent peers or ports mean all of them. *)
Definition rule_admits (ns : string) (peer : Endpoint) (port : Z) (rule : Value) : bool :=
  is_none_or (json_get "from" rule ≫= as_array) (existsb (peer_matches ns peer)) &&
  is_none_or (json_get "ports" rule ≫= as_array) (existsb (port_listed port)).

Definition policy_selects (target : Endpoint) (policy : Value) : bool :=
  is_some_and (s ← json_get "spec" policy; json_get "podSelector" s) (fun s => selects s (ep_labels target)).

Definition policy_admits (ns : string) (target peer : Endpoint) (port : Z) (policy : Value) : bool :=
  policy_selects target policy &&
  is_some_and (s ← json_get "spec" policy; json_get "ingress" s ≫= as_array)
    (existsb (rule_admits ns peer port)).

(** Ingress over TCP into a pod of [ns] under the policies of [ns], all of them
    with [Ingress] among their types: open to all while none selects the pod, and
    else the union of what the selecting ones admit. *)
Definition admitted (ns : string) (policies : list Value) (target peer : Endpoint) (port : Z) : bool :=
  negb (existsb (policy_selects target) policies) || existsb (policy_admits ns target peer port) policies.
End reading.

(** ** Tenant isolation *)

Record Tenant := { tn_id : string; tn_engine : Engine; tn_owner : option string }.

Definition tenant_policy (t : Tenant) : Value :=
  match tn_engine t with
  | Ray => RayNet.cluster_allow_network_policy (tn_id t) (tn_owner t)
  | Dask => DaskNet.cluster_allow_network_policy (tn_id t) (tn_owner t)
  end.

(** What the provisioners leave in a namespace that runs these clusters. *)
Definition installed (tenants : list Tenant) : list Value :=
  default_deny_network_policy :: tenant_allow_network_policy :: (tenant_policy <$> tenants).

Definition client_ports (e : Engine) : list Z :=
  match e with Ray => [10001; 8265] | Dask => [8786; 8787] end.

Definition has_label (key value : string) (labels : gmap string string) : Prop :=
  labels !! key = Some value.

Definition owners_notebook (t : Tenant) (peer : Endpoint) (port : Z) : Prop :=
  has_label NAMESPACE_NAME_LABEL NOTEBOOK_NAMESPACE (ep_namespace_labels peer) /\
  (exists owner, tn_owner t = Some owner /\ has_label OWNER_LABEL owner (ep_labels peer)) /\
  port ∈ client_ports (tn_engine t).

Definition control_plane_pod (ns : string) (peer : Endpoint) (port : Z) : Prop :=
  has_label CONTROL_PLANE_POD_LABEL "true" (ep_labels peer) /\
  (ep_namespace peer = ns \/ has_label CONTROL_PLANE_NAMESPACE_LABEL "true" (ep_namespace_labels peer)) /\
  port ∈ [8265; 10001].

Definition operator_pod (peer : Endpoint) (port : Z) : Prop :=
  has_label OPERATOR_LABEL "kuberay-operator" (ep_labels peer) /\ port ∈ [8265; 52365; 8000].

Section isolation.
Context `{SelectorLaws}.

Lemma peer_in_namespace ns peer key value :
  peer_matches ns peer (JObj [("podSelector", match_label key value)]) = true <->
  ep_namespace peer = ns /\ has_label key value (ep_labels peer).
Proof.
  unfold peer_matches. cbn [json_get]. cbn -[selects match_label].
  rewrite selects_label, andb_true_iff, String.eqb_eq, bool_decide_eq_true. done.
Qed.

Lemma peer_of_namespaces ns peer selector key value :
  peer_matches ns peer (JObj [("namespaceSelector", selector); ("podSelector", match_label key value)]) = true <->
  selects selector (ep_namespace_labels peer) = true /\ has_label key value (ep_labels peer).
Proof.
  unfold peer_matches. cbn -[selects match_label].
  by rewrite selects_label, andb_true_iff, bool_decide_eq_true.
Qed.

Lemma port_listed_tcp port p : port_listed port (policy_port "TCP" p) = true <-> port = p.
Proof.
  unfold port_listed, policy_port. rewrite andb_true_iff, !bool_decide_eq_true.
  split; [by intros [_ [= ->]]|by intros ->].
Qed.

Lemma rule_without_ports ns peer port blocks :
  rule_admits ns peer port (JObj [("from", JArr blocks)]) = true <->
  exists b, b ∈ blocks /\ peer_matches ns peer b = true.
Proof. unfold rule_admits. cbn -[peer_matches]. by rewrite andb_true_r, existsb_elem_of. Qed.

Lemma rule_with_ports ns peer port blocks ports :
  rule_admits ns peer port (JObj [("from", JArr blocks); ("ports", JArr ports)]) = true <->
  (exists b, b ∈ blocks /\ peer_matches ns peer b = true) /\
  exists p, p ∈ ports /\ port_listed port p = true.
Proof.
  unfold rule_admits. cbn -[peer_matches port_listed]. by rewrite andb_true_iff, !existsb_elem_of.
Qed.

Lemma tcp_ports port (ps : list Z) :
  (exists p, p ∈ (policy_port "TCP" <$> ps) /\ port_listed port p = true) <-> port ∈ ps.
Proof.
  split.
  - intros (p & (q & -> & Hq)%list_elem_of_fmap & <-%port_listed_tcp). done.
  - intros Hp. exists (policy_port "TCP" port). split; [apply list_elem_of_fmap; eauto|by apply port_listed_tcp].
Qed.

Lemma control_plane_rule_admits ns peer port :
  rule_admits ns peer port control_plane_rule = true <-> control_plane_pod ns peer port.
Proof.
  unfold control_plane_rule. rewrite rule_with_ports, (tcp_ports port [8265; 10001]).
  unfold control_plane_pod. split.
  - intros [(b & Hb & Hm) Hp].
    apply elem_of_cons in Hb as [->|Hb].
    { apply peer_in_namespace in Hm as [? ?]. auto. }
    apply list_elem_of_singleton in Hb as ->. apply peer_of_namespaces in Hm as [Hns ?].
    rewrite selects_label, bool_decide_eq_true in Hns. auto.
  - intros (Hl & Hns & Hp). split; [|done]. destruct Hns as [Hns|Hns].
    + eexists. split; [left|]. by apply peer_in_namespace.
    + eexists. split; [right; left|]. apply peer_of_namespaces. split; [|done].
      by rewrite selects_label, bool_decide_eq_true.
Qed.

Lemma operator_rule_admits ns peer port :
  rule_admits ns peer port operator_rule = true <-> operator_pod peer port.
Proof.
  unfold operator_rule. rewrite rule_with_ports, (tcp_ports port [8265; 52365; 8000]).
  unfold operator_pod. split.
  - intros [(b & ->%list_elem_of_singleton & [_ Hm]%peer_of_namespaces) Hp]. done.
  - intros [Hl Hp]. split; [|done]. eexists. split; [left|]. apply peer_of_namespaces.
    by rewrite selects_everything.
Qed.

Lemma owner_rule_admits ns peer port owner client dashboard :
  rule_admits ns peer port (owner_rule owner client dashboard) = true <->
  has_label NAMESPACE_NAME_LABEL NOTEBOOK_NAMESPACE (ep_namespace_labels peer) /\
  has_label OWNER_LABEL owner (ep_labels peer) /\ port ∈ [client; dashboard].
Proof.
  unfold owner_rule. rewrite rule_with_ports, (tcp_ports port [client; dashboard]). split.
  - intros [(b & ->%list_elem_of_singleton & [Hns Hm]%peer_of_namespaces) Hp].
    by rewrite selects_label, bool_decide_eq_true in Hns.
  - intros (Hns & Hl & Hp). split; [|done]. eexists. split; [left|]. apply peer_of_namespaces.
    by rewrite selects_label, bool_decide_eq_true.
Qed.

Lemma allow_policy_admits ns target peer port id owner client dashboard :
  policy_admits ns target peer port (allow_policy id owner client dashboard) = true <->
  has_label CLUSTER_ID_LABEL id (ep_labels target) /\
  (ep_namespace peer = ns /\ has_label CLUSTER_ID_LABEL id (ep_labels peer) \/
   has_label NAMESPACE_NAME_LABEL NOTEBOOK_NAMESPACE (ep_namespace_labels peer) /\
   (exists o, owner = Some o /\ has_label OWNER_LABEL o (ep_labels peer)) /\ port ∈ [client; dashboard]).
Proof.
  unfold policy_admits, policy_selects. cbn -[rule_admits selects match_label owner_rule existsb].
  rewrite selects_label, andb_true_iff, bool_decide_eq_true, existsb_elem_of.
  apply and_iff_compat_l. split.
  - intros (r & [->|Hr]%elem_of_cons & Ha).
    + apply rule_without_ports in Ha as (b & ->%list_elem_of_singleton & Hm). left.
      by apply peer_in_namespace.
    + right. destruct owner as [o|]; [|by apply not_elem_of_nil in Hr].
      apply list_elem_of_singleton in Hr as ->. apply owner_rule_admits in Ha. naive_solver.
  - intros [Hs|(Hns & (o & -> & Ho) & Hp)].
    + eexists. split; [left|]. apply rule_without_ports. eexists. split; [left|]. by apply peer_in_namespace.
    + eexists. split; [right; left|]. by apply owner_rule_admits.
Qed.

Lemma tenant_policy_admits ns target peer port t :
  policy_admits ns target peer port (tenant_policy t) = true <->
  has_label CLUSTER_ID_LABEL (tn_id t) (ep_labels target) /\
  (ep_namespace peer = ns /\ has_label CLUSTER_ID_LABEL (tn_id t) (ep_labels peer) \/
   owners_notebook t peer port).
Proof.
  unfold tenant_policy, owners_notebook.
  destruct (tn_engine t); unfold RayNet.cluster_allow_network_policy,
    DaskNet.cluster_allow_network_policy; by rewrite allow_policy_admits.
Qed.

Lemma tenant_allow_admits ns target peer port :
  policy_admits ns target peer port tenant_allow_network_policy = true <->
  is_Some (ep_labels target !! CLUSTER_ID_LABEL) /\
  (control_plane_pod ns peer port \/ operator_pod peer port).
Proof.
  unfold policy_admits, policy_selects, tenant_allow_network_policy.
  cbn -[rule_admits selects control_plane_rule operator_rule tenant_pod_selector].
  rewrite selects_exists, andb_true_iff, bool_decide_eq_true, !orb_true_iff,
    control_plane_rule_admits, operator_rule_admits. naive_solver.
Qed.

Lemma same_tenant (tenants : list Tenant) t t' :
  NoDup (tn_id <$> tenants) -> t ∈ tenants -> t' ∈ tenants -> tn_id t' = tn_id t -> t' = t.
Proof.
  intros Hnd [i Hi]%list_elem_of_lookup [j Hj]%list_elem_of_lookup E.
  assert (i = j) as <-; [|congruence].
  eapply NoDup_lookup; [done|by rewrite list_lookup_fmap, Hi|by rewrite list_lookup_fmap, Hj; cbn; rewrite E].
Qed.

(** C15. Tenant isolation. Under the policies the control plane installs, a connection
    into a pod of a tenant cluster is admitted exactly from a pod of the same
    cluster in the same namespace, from the notebook of the cluster's owner to
    the engine's two client ports, from a control-plane pod to the dashboard and
    client ports, and from the KubeRay operator to the ports it drives. A pod of
    another cluster and the notebook of another user are kept out. *)
Theorem tenant_isolation ns tenants t target peer port :
  NoDup (tn_id <$> tenants) -> t ∈ tenants ->
  has_label CLUSTER_ID_LABEL (tn_id t) (ep_labels target) ->
  admitted ns (installed tenants) target peer port = true <->
  ep_namespace peer = ns /\ has_label CLUSTER_ID_LABEL (tn_id t) (ep_labels peer) \/
  owners_notebook t peer port \/ control_plane_pod ns peer port \/ operator_pod peer port.
Proof.
  intros Hnd Ht Hlabel. unfold admitted, installed. cbn [existsb].
  assert (Hsel : policy_selects target default_deny_network_policy = true).
  { unfold policy_selects. cbn -[selects tenant_pod_selector].
    rewrite selects_exists. apply bool_decide_eq_true. by eexists. }
  assert (Hdeny : policy_admits ns target peer port default_deny_network_policy = false)
    by apply andb_false_r.
  rewrite Hsel, Hdeny. cbn [orb negb].
  rewrite orb_true_iff, tenant_allow_admits, existsb_elem_of. split.
  - intros [[_ [?|?]]|(p & (t' & -> & Ht')%list_elem_of_fmap & [Hl Hp]%tenant_policy_admits)]; auto.
    assert (t' = t) as -> by (eapply same_tenant; [done..|]; unfold has_label in *; congruence). tauto.
  - intros [Hs|[Hs|Hs]]; [right|right|left].
    + exists (tenant_policy t). split; [by apply list_elem_of_fmap_2|]. apply tenant_policy_admits. auto.
    + exists (tenant_policy t). split; [by apply list_elem_of_fmap_2|]. apply tenant_policy_admits. auto.
    + split; [by eexists|tauto].
Qed.
End isolation.

(** The selectors the manifests use, evaluated. *)
#[local] Instance demo_selectors : Selectors := fun selector labels =>
  forallb (fun kv => bool_decide (JStr <$> labels !! fst kv = Some (snd kv)))
    (default [] (json_get "matchLabels" selector ≫= as_object)) &&
  forallb (fun e => is_some_and (json_get "key" e ≫= as_str)
                      (fun k => bool_decide (is_Some ((labels : gmap string string) !! k))))
    (default [] (json_get "matchExpressions" selector ≫= as_array)).

#[local] Instance demo_selector_laws : SelectorLaws.
Proof.
  split.
  - intros key value labels. unfold selects, demo_selectors. cbn -[bool_decide].
    rewrite !andb_true_r. apply bool_decide_ext. destruct (labels !! key); cbn; naive_solver.
  - intros labels. unfold selects, demo_selectors. cbn -[bool_decide]. by rewrite andb_true_r.
  - done.
Qed.

Definition demo_tenants : list Tenant := [
  {| tn_id := "c1"; tn_engine := Ray; tn_owner := Some "alice" |};
  {| tn_id := "c2"; tn_engine := Dask; tn_owner := Some "bob" |}].
Definition demo_pod (cluster : string) : Endpoint := {|
  ep_namespace := "ray"; ep_namespace_labels := ∅; ep_labels := {[ CLUSTER_ID_LABEL := cluster ]} |}.
Definition demo_notebook (user : string) : Endpoint := {|
  ep_namespace := "jupyter"; ep_namespace_labels := {[ NAMESPACE_NAME_LABEL := NOTEBOOK_NAMESPACE ]};
  ep_labels := {[ OWNER_LABEL := user ]} |}.

Lemma tenant_isolation_witness :
  admitted "ray" (installed demo_tenants) (demo_pod "c1") (demo_notebook "alice") 10001 = true /\
  admitted "ray" (installed demo_tenants) (demo_pod "c1") (demo_notebook "bob") 10001 = false /\
  admitted "ray" (installed demo_tenants) (demo_pod "c1") (demo_pod "c2") 6379 = false /\
  (admitted "ray" (installed demo_tenants) (demo_pod "c1") (demo_pod "c1") 6379 = true <->
   ep_namespace (demo_pod "c1") = "ray" /\
     has_label CLUSTER_ID_LABEL "c1" (ep_labels (demo_pod "c1")) \/
   owners_notebook {| tn_id := "c1"; tn_engine := Ray; tn_owner := Some "alice" |} (demo_pod "c1") 6379 \/
   control_plane_pod "ray" (demo_pod "c1") 6379 \/ operator_pod (demo_pod "c1") 6379).
Proof.
  split_and!; [vm_compute; reflexivity..|].
  apply (tenant_isolation "ray" demo_tenants
    {| tn_id := "c1"; tn_engine := Ray; tn_owner := Some "alice" |} (demo_pod "c1") (demo_pod "c1") 6379).
  - apply (bool_decide_unpack _). vm_compute. exact I.
  - left.
  - vm_compute. reflexivity.
Defined.

(** ** Mobula's own policies are not an administrator's deny *)

Lemma own_policies_are_no_deny id owner :
  is_default_deny default_deny_network_policy = false /\
  is_default_deny tenant_allow_network_policy = false /\
  is_default_deny (RayNet.cluster_allow_network_policy id owner) = false /\
  is_default_deny (DaskNet.cluster_allow_network_policy id owner) = false.
Proof. done. Qed.
