(* ===== verification/Nodes.v ===== *)
(** * Views of a running cluster (crates/mobula-provision/src/kuberay.rs, dask.rs;
      crates/mobula-core/src/node.rs, obs.rs)

    The node breakdown of a cluster from the pods its operator owns, its
    Kubernetes events, and the tail of a pod's log: pure functions over the
    objects the API server returned. *)

From S2P Require Import Prelude Float64 Core Policy Json Provision Manifests.
#[local] Open Scope Z_scope.
#[local] Open Scope string_scope.

Record NodeView := {
  nv_pod_name : string;
  nv_group : option string;
  nv_is_head : bool;
  nv_phase : string;
  nv_ready : bool;
  nv_node_ip : option string;
  nv_host : option string;
  nv_cpu : option f64;
  nv_memory_bytes : option Z;
  nv_gpu : option f64;
}.

Record WorkerGroupNodes := {
  wn_name : string;
  wn_desired : Z;
  wn_ready : Z;
  wn_nodes : list NodeView;
}.

Record ClusterNodes := {
  cn_cluster_id : string;
  cn_head : option NodeView;
  cn_worker_groups : list WorkerGroupNodes;
}.

(** [as u32] keeps the low bits; [as u64] on a double truncates and saturates. *)
Definition as_u32 (z : Z) : Z := z mod 2 ^ 32.
Definition f64_as_u64 (v : f64) : Z :=
  match v with
  | S754_finite false m e => Z.min (Z.shiftl (Z.pos m) e) u64_max
  | S754_infinity false => u64_max
  | _ => 0
  end.

(** [Iterator::count] on the nodes that are up. *)
Definition node_up (n : NodeView) : bool := String.eqb (nv_phase n) "Running" && nv_ready n.
Definition ready_count (nodes : list NodeView) : Z :=
  as_u32 (Z.of_nat (length (List.filter node_up nodes))).

Definition path_str (o : option Value) (key : string) : option string :=
  v ← o; json_get key v ≫= as_str.

(** ** Ray *)

Module RayNodes.
Definition RAY_CLUSTER_LABEL : string := "ray.io/cluster".
Definition RAY_GROUP_LABEL : string := "ray.io/group".
Definition RAY_NODE_TYPE_LABEL : string := "ray.io/node-type".

Definition pod_label (pod : Value) (key : string) : option string :=
  m ← json_get "metadata" pod; l ← json_get "labels" m; json_get key l ≫= as_str.

Definition parse_cpu (q0 : string) : option f64 :=
  let q := trim q0 in
  match strip_suffix "m" q with
  | Some milli => (fun v => f64_div v (f64_of_Z 1000)) <$> parse_f64 (trim milli)
  | None => parse_f64 q
  end.

Definition parse_gpu (q : string) : option f64 := parse_f64 (trim q).

Definition BINARY : list (string * f64) := [
  ("Ki", f64_of_Z 1024); ("Mi", f64_of_Z 1048576); ("Gi", f64_of_Z 1073741824);
  ("Ti", f64_of_Z 1099511627776); ("Pi", f64_of_Z 1125899906842624);
  ("Ei", f64_of_Z 1152921504606846976)].
Definition DECIMAL : list (string * f64) := [
  ("k", f64_of_Z (10 ^ 3)); ("M", f64_of_Z (10 ^ 6)); ("G", f64_of_Z (10 ^ 9));
  ("T", f64_of_Z (10 ^ 12)); ("P", f64_of_Z (10 ^ 15)); ("E", f64_of_Z (10 ^ 18))].

(** The suffix loops: the first suffix that fits decides, even when the number
    before it does not parse. *)
Fixpoint by_suffix (table : list (string * f64)) (q : string) : option (option Z) :=
  match table with
  | [] => None
  | (suffix, mult) :: table' =>
      match strip_suffix suffix q with
      | Some n => Some ((fun v => f64_as_u64 (f64_mul v mult)) <$> parse_f64 (trim n))
      | None => by_suffix table' q
      end
  end.

Definition parse_memory (q0 : string) : option Z :=
  let q := trim q0 in
  match by_suffix (BINARY ++ DECIMAL) q with
  | Some r => r
  | None => match parse_u64 q with
            | Some n => Some n
            | None => f64_as_u64 <$> parse_f64 q
            end
  end.

Definition container_request (resource : string) (c : Value) : option string :=
  r ← json_get "resources" c; req ← json_get "requests" r; json_get resource req ≫= as_str.

Definition sum_requests {T} (pod : Value) (resource : string) (parse : string -> option T)
    (add : T -> T -> T) : option T :=
  containers ← (s ← json_get "spec" pod; json_get "containers" s ≫= as_array);
  fold_left (fun acc c =>
    match container_request resource c ≫= parse with
    | Some q => Some (match acc with Some existing => add existing q | None => q end)
    | None => acc
    end) containers None.

Definition pod_to_node_view (pod : Value) (is_head : bool) : NodeView := {|
  nv_pod_name := default "" (path_str (json_get "metadata" pod) "name");
  nv_group := if is_head then None else pod_label pod RAY_GROUP_LABEL;
  nv_is_head := is_head;
  nv_phase := default "Unknown" (path_str (json_get "status" pod) "phase");
  nv_ready := DaskCr.pod_ready pod;
  nv_node_ip := path_str (json_get "status" pod) "podIP";
  nv_host := path_str (json_get "spec" pod) "nodeName";
  nv_cpu := sum_requests pod "cpu" parse_cpu f64_add;
  nv_memory_bytes := sum_requests pod "memory" parse_memory u64_add;
  nv_gpu := sum_requests pod "nvidia.com/gpu" parse_gpu f64_add |}.

Definition is_worker (p : Value) : bool := negb (opt_eqb (pod_label p RAY_NODE_TYPE_LABEL) "head").
Definition in_group (name : string) (p : Value) : bool :=
  is_worker p && opt_eqb (pod_label p RAY_GROUP_LABEL) name.

Definition group_nodes (pods : list Value) (name : string) : list NodeView :=
  (fun p => pod_to_node_view p false) <$> List.filter (in_group name) pods.

Definition group_view (pods : list Value) (name : string) (desired : Z) : WorkerGroupNodes :=
  let nodes := group_nodes pods name in
  {| wn_name := name; wn_desired := desired; wn_ready := ready_count nodes; wn_nodes := nodes |}.

Definition group_name (g : Value) : string := default "" (json_get "groupName" g ≫= as_str).
Definition group_desired (g : Value) : Z :=
  as_u32 (match json_get "replicas" g ≫= as_u64 with
          | Some n => n
          | None => default 0 (json_get "minReplicas" g ≫= as_u64)
          end).

(** The second loop: groups that only pods name, each once, after the spec's. *)
Fixpoint extra_groups (pods rest : list Value) (seen : list string) : list WorkerGroupNodes :=
  match rest with
  | [] => []
  | p :: rest' =>
      if is_worker p then
        match pod_label p RAY_GROUP_LABEL with
        | None => extra_groups pods rest' seen
        | Some name =>
            if existsb (String.eqb name) seen then extra_groups pods rest' seen
            else group_view pods name (as_u32 (Z.of_nat (length (group_nodes pods name))))
                 :: extra_groups pods rest' (seen ++ [name])
        end
      else extra_groups pods rest' seen
  end.

Definition spec_groups (raycluster : Value) : list Value :=
  match s ← json_get "spec" raycluster; json_get "workerGroupSpecs" s ≫= as_array with
  | Some l => l
  | None => []
  end.

Definition node_breakdown (cluster_id : string) (raycluster : Value) (pods : list Value) : ClusterNodes :=
  let groups := spec_groups raycluster in
  let head := (fun p => pod_to_node_view p true) <$>
    List.find (fun p => opt_eqb (pod_label p RAY_NODE_TYPE_LABEL) "head") pods in
  let worker_groups := (fun g => group_view pods (group_name g) (group_desired g)) <$> groups in
  {| cn_cluster_id := cluster_id; cn_head := head;
     cn_worker_groups := worker_groups ++ extra_groups pods pods (group_name <$> groups) |}.
End RayNodes.

(** ** Dask *)

Module DaskNodes.
Definition pod_to_node_view (pod : Value) (is_head : bool) : NodeView := {|
  nv_pod_name := default "" (path_str (json_get "metadata" pod) "name");
  nv_group := if is_head then None else Some "default";
  nv_is_head := is_head; nv_phase := DaskCr.pod_phase pod; nv_ready := DaskCr.pod_ready pod;
  nv_node_ip := path_str (json_get "status" pod) "podIP";
  nv_host := path_str (json_get "spec" pod) "nodeName";
  nv_cpu := None; nv_memory_bytes := None; nv_gpu := None |}.

Definition node_breakdown (cluster_id : string) (pods : list Value) : ClusterNodes :=
  let head := (fun p => pod_to_node_view p true) <$>
    List.find (DaskCr.has_component "scheduler") pods in
  let workers := (fun p => pod_to_node_view p false) <$>
    List.filter (DaskCr.has_component "worker") pods in
  {| cn_cluster_id := cluster_id; cn_head := head;
     cn_worker_groups := match workers with
       | [] => []
       | _ => [{| wn_name := "default"; wn_desired := as_u32 (Z.of_nat (length workers));
                  wn_ready := ready_count workers; wn_nodes := workers |}]
       end |}.
End DaskNodes.

(** ** Events *)

Record ClusterEvent := {
  ev_type : string;
  ev_reason : option string;
  ev_message : option string;
  ev_count : Z;
  ev_first_seen : option string;
  ev_last_seen : option string;
  ev_object : option string;
}.

Definition MAX_EVENTS : nat := 200.

Definition object_belongs_to_cluster (id object_name : string) : bool :=
  String.eqb object_name id || starts_with (id +:+ "-") object_name.

Definition or_else {A} (o p : option A) : option A := match o with Some _ => o | None => p end.

Definition event_object (ev : Value) : option (string * string) :=
  obj ← or_else (json_get "involvedObject" ev) (json_get "regarding" ev);
  name ← json_get "name" obj ≫= as_str;
  let kind := default "Object" (json_get "kind" obj ≫= as_str) in
  Some (name, kind +:+ "/" +:+ name).

Definition event_from_k8s (cluster_id : string) (ev : Value) : option ClusterEvent :=
  o ← event_object ev;
  if negb (object_belongs_to_cluster cluster_id (fst o)) then None
  else
    let s k := json_get k ev ≫= as_str in
    let series k := v ← json_get "series" ev; json_get k v in
    let count := as_u32 (default 1
      (or_else (json_get "count" ev ≫= as_u64)
        (or_else (json_get "deprecatedCount" ev ≫= as_u64) (series "count" ≫= as_u64)))) in
    let first_seen := or_else (s "firstTimestamp") (s "eventTime") in
    let last_seen := or_else (s "lastTimestamp")
      (or_else (series "lastObservedTime" ≫= as_str) (or_else (s "eventTime") first_seen)) in
    Some {| ev_type := default "Normal" (s "type"); ev_reason := s "reason";
            ev_message := or_else (s "message") (s "note"); ev_count := count;
            ev_first_seen := first_seen; ev_last_seen := last_seen; ev_object := Some (snd o) |}.

(** [Ord] on [Option<String>]: absent first. *)
Definition opt_str_leb (a b : option string) : bool :=
  match a, b with
  | None, _ => true
  | Some _, None => false
  | Some a, Some b => str_leb a b
  end.

Definition newest_first (a b : ClusterEvent) : bool := opt_str_leb (ev_last_seen b) (ev_last_seen a).

Definition events_from_k8s (cluster_id : string) (raw_events : list Value) : list ClusterEvent :=
  firstn MAX_EVENTS (sort_stable newest_first (omap (event_from_k8s cluster_id) raw_events)).

(** ** Logs *)

Record ClusterLogs := {
  lg_cluster_id : string;
  lg_pods : list string;
  lg_pod : string;
  lg_tail : Z;
  lg_lines : list string;
  lg_truncated : bool;
}.

(** [str::lines]: a line ends at a line feed, with a carriage return before it;
    the text after the last line feed is a line unless it is empty. *)
Definition end_of_line (cur : list ascii) : string :=
  match cur with
  | c :: cur' => if byte_is c 13 then str_of (rev cur') else str_of (rev cur)
  | [] => EmptyString
  end.
Fixpoint lines_from (cur l : list ascii) : list string :=
  match l with
  | [] => match cur with [] => [] | _ => [str_of (rev cur)] end
  | c :: l' => if byte_is c 10 then end_of_line cur :: lines_from [] l' else lines_from (c :: cur) l'
  end.
Definition lines (s : string) : list string := lines_from [] (bytes_of s).

Definition drop_trailing_empty (ls : list string) : list string :=
  match last ls with Some EmptyString => removelast ls | _ => ls end.

Definition tail_lines (raw : string) (tail : nat) : list string * bool :=
  let ls := drop_trailing_empty (lines raw) in
  let total := length ls in
  let kept := if Nat.ltb 0 tail && Nat.ltb tail total then skipn (total - tail) ls else ls in
  (kept, Nat.ltb 0 tail && Nat.leb tail total).

(** ** Theorems *)

(** The groups the worker pods of a list name. *)
Definition pod_group (p : Value) : option string :=
  if RayNodes.is_worker p then RayNodes.pod_label p RayNodes.RAY_GROUP_LABEL else None.
Definition pod_groups (pods : list Value) : list string := omap pod_group pods.

Section breakdown.
Context (pods : list Value).

Definition faithful (g : WorkerGroupNodes) : Prop :=
  wn_nodes g = RayNodes.group_nodes pods (wn_name g) /\ wn_ready g = ready_count (wn_nodes g).

Lemma extra_groups_cons p rest seen :
  RayNodes.extra_groups pods (p :: rest) seen =
  match pod_group p with
  | Some name =>
      if decide (name ∈ seen) then RayNodes.extra_groups pods rest seen
      else RayNodes.group_view pods name (as_u32 (Z.of_nat (length (RayNodes.group_nodes pods name))))
           :: RayNodes.extra_groups pods rest (seen ++ [name])
  | None => RayNodes.extra_groups pods rest seen
  end.
Proof.
  unfold pod_group. cbn [RayNodes.extra_groups]. destruct (RayNodes.is_worker p); [|done].
  destruct (RayNodes.pod_label p RayNodes.RAY_GROUP_LABEL) as [m|]; [|done].
  assert (existsb (String.eqb m) seen = true <-> m ∈ seen) as Hseen.
  { rewrite existsb_elem_of. split; [by intros (x & ? & ->%String.eqb_eq)|].
    intros ?. exists m. by rewrite String.eqb_refl. }
  destruct (existsb (String.eqb m) seen); case_decide; intuition congruence.
Qed.

Lemma extra_groups_faithful rest : forall seen, Forall faithful (RayNodes.extra_groups pods rest seen).
Proof.
  induction rest as [|p rest IH]; intros seen; [constructor|]. rewrite extra_groups_cons.
  destruct (pod_group p); [case_decide|]; try apply IH. constructor; [done|apply IH].
Qed.

Lemma extra_groups_names rest : forall seen n,
  (n ∈ (wn_name <$> RayNodes.extra_groups pods rest seen)) <-> (n ∉ seen) /\ (n ∈ pod_groups rest).
Proof.
  induction rest as [|p rest IH]; intros seen n; [cbn; set_solver|]. rewrite extra_groups_cons.
  change (pod_groups (p :: rest)) with (match pod_group p with Some m => m :: pod_groups rest | None => pod_groups rest end).
  destruct (pod_group p) as [m|]; [|apply IH]. case_decide as Hm.
  - rewrite IH. set_solver.
  - cbn [fmap list_fmap wn_name RayNodes.group_view]. rewrite elem_of_cons, IH.
    destruct (decide (n = m)); set_solver.
Qed.

Lemma extra_groups_nodup rest : forall seen, NoDup (wn_name <$> RayNodes.extra_groups pods rest seen).
Proof.
  induction rest as [|p rest IH]; intros seen; [constructor|]. rewrite extra_groups_cons.
  destruct (pod_group p); [case_decide|]; try apply IH.
  cbn [fmap list_fmap wn_name RayNodes.group_view].
  constructor; [|apply IH]. rewrite extra_groups_names. set_solver.
Qed.
End breakdown.

Definition spec_names (cr : Value) : list string := RayNodes.group_name <$> RayNodes.spec_groups cr.
Definition view_names (gs : list WorkerGroupNodes) : list string := wn_name <$> gs.

#[local] Open Scope list_scope.

Lemma view_names_app gs gs' : view_names (gs ++ gs') = view_names gs ++ view_names gs'.
Proof. apply fmap_app. Qed.

(** The node breakdown reports every worker pod exactly where its label says:
    each group lists the views of the pods that carry its name and counts the
    ones that are up; the groups of the resource come first, in its order; a
    group only pods name is appended, once; and every labelled worker pod is in a
    group. *)
Theorem node_breakdown_complete id cr pods :
  NoDup (spec_names cr) ->
  let groups := cn_worker_groups (RayNodes.node_breakdown id cr pods) in
  NoDup (view_names groups) /\ Forall (faithful pods) groups /\
  (exists extra, view_names groups = (spec_names cr) ++ extra) /\
  (forall p n, p ∈ pods -> RayNodes.is_worker p = true ->
     RayNodes.pod_label p RayNodes.RAY_GROUP_LABEL = Some n -> exists g, g ∈ groups /\ wn_name g = n /\ RayNodes.pod_to_node_view p false ∈ wn_nodes g).
Proof.
  intros Hnd groups. subst groups. unfold RayNodes.node_breakdown. cbn [cn_worker_groups].
  fold (spec_names cr).
  set (specs := (fun g => RayNodes.group_view pods (RayNodes.group_name g) (RayNodes.group_desired g))
    <$> RayNodes.spec_groups cr).
  set (extra := RayNodes.extra_groups pods pods (spec_names cr)).
  assert (Hspec : view_names specs = spec_names cr)
    by (unfold view_names, specs; rewrite <-list_fmap_compose; done).
  assert (Hextra : forall n, n ∈ view_names extra <-> (n ∉ spec_names cr) /\ (n ∈ pod_groups pods))
    by (intros n; apply extra_groups_names).
  assert (Hfaithful : Forall (faithful pods) (specs ++ extra)).
  { apply Forall_app. split; [|apply extra_groups_faithful]. by apply Forall_fmap, Forall_true. }
  rewrite view_names_app, Hspec. split_and!; [|done|by eexists|].
  - apply NoDup_app. split_and!; [done| |apply extra_groups_nodup]. intros n Hn. rewrite Hextra. tauto.
  - intros p n Hp Hw Hl.
    assert (n ∈ view_names (specs ++ extra)) as (g & -> & Hg)%list_elem_of_fmap.
    { rewrite view_names_app, Hspec, elem_of_app, Hextra. destruct (decide (n ∈ spec_names cr)); [by left|right].
      split; [done|]. apply list_elem_of_omap. exists p. split; [done|]. unfold pod_group. by rewrite Hw. }
    exists g. split_and!; [done..|]. destruct (proj1 (Forall_forall _ _) Hfaithful g Hg) as [-> _].
    unfold RayNodes.group_nodes. apply (list_elem_of_fmap_2 (fun p => RayNodes.pod_to_node_view p false)). rewrite list_elem_of_In, filter_In, <-list_elem_of_In.
    split; [done|]. unfold RayNodes.in_group. rewrite Hw, Hl. cbn. apply String.eqb_refl.
Qed.

Definition labelled_pod (group : string) (ready : bool) : Value := JObj [
  ("metadata", JObj [("name", JStr ("pod-" +:+ group));
    ("labels", JObj [(RayNodes.RAY_GROUP_LABEL, JStr group); (RayNodes.RAY_NODE_TYPE_LABEL, JStr "worker")])]);
  ("status", JObj [("phase", JStr "Running"); ("conditions", JArr [
    JObj [("type", JStr "Ready"); ("status", JStr (if ready then "True" else "False"))]])])].

Definition demo_raycluster : Value := Ray.to_raycluster "c1" demo_spec false 1 None.

Lemma node_breakdown_complete_witness :
  let pods := [labelled_pod "cpu" true; labelled_pod "old" false] in
  let groups := cn_worker_groups (RayNodes.node_breakdown "c1" demo_raycluster pods) in
  NoDup (view_names groups) /\ Forall (faithful pods) groups /\
  (exists extra, view_names groups = spec_names demo_raycluster ++ extra) /\
  (forall p n, p ∈ pods -> RayNodes.is_worker p = true ->
     RayNodes.pod_label p RayNodes.RAY_GROUP_LABEL = Some n ->
     exists g, g ∈ groups /\ wn_name g = n /\ RayNodes.pod_to_node_view p false ∈ wn_nodes g).
Proof.
  apply (node_breakdown_complete "c1" demo_raycluster [labelled_pod "cpu" true; labelled_pod "old" false]).
  apply (bool_decide_unpack _). vm_compute. exact I.
Defined.

(** *** Events *)

(** The events returned are at most 200, each read from an event the server
    returned about the cluster itself or an object whose name starts with the
    cluster's id and a dash, no event of those is left out unless 200 are kept. *)
Lemma events_from_k8s_spec id raw :
  let all := omap (event_from_k8s id) raw in
  (length (events_from_k8s id raw) <= MAX_EVENTS)%nat /\
  (exists rest, events_from_k8s id raw ++ rest ≡ₚ all /\
    ((length all <= MAX_EVENTS)%nat -> rest = [])).
Proof.
  cbn zeta. unfold events_from_k8s. set (all := omap (event_from_k8s id) raw).
  split; [rewrite length_firstn; lia|]. exists (skipn MAX_EVENTS (sort_stable newest_first all)).
  split; [rewrite firstn_skipn; apply sort_stable_perm|]. intros Hl. apply skipn_all2.
  by rewrite (Permutation_length (sort_stable_perm newest_first all)).
Qed.

(** A cluster named like another one's prefix is shown the other's events. *)
Definition demo_event (name : string) : Value := JObj [
  ("involvedObject", JObj [("kind", JStr "Pod"); ("name", JStr name)]);
  ("reason", JStr "BackOff"); ("lastTimestamp", JStr "2026-01-01T00:00:00Z")].

Lemma prefix_shows_other_cluster :
  length (events_from_k8s "team" [demo_event "team-b"; demo_event "team-b-head-x7k"]) = 2%nat /\
  length (events_from_k8s "team-b" [demo_event "team-b"; demo_event "team-b-head-x7k"]) = 2%nat.
Proof. by vm_compute. Qed.

(** *** Logs *)

(** A non-zero tail returns at most that many lines, the last ones of the log in
    their order, and says it may be truncated exactly when it is full. *)
Lemma tail_lines_spec raw tail :
  (0 < tail)%nat ->
  exists before, drop_trailing_empty (lines raw) = before ++ fst (tail_lines raw tail) /\
  length (fst (tail_lines raw tail)) = Nat.min tail (length (drop_trailing_empty (lines raw))) /\
  (snd (tail_lines raw tail) = true <-> length (fst (tail_lines raw tail)) = tail).
Proof.
  intros Ht. unfold tail_lines. cbn [fst snd].
  set (ls := drop_trailing_empty (lines raw)). set (n := (length ls - tail)%nat).
  rewrite (proj2 (Nat.ltb_lt 0 tail) Ht). cbn [andb].
  destruct (Nat.ltb_spec tail (length ls)); [exists (firstn n ls)|exists []]; cbn [fst snd].
  - rewrite firstn_skipn, length_skipn. split_and!; [done|lia|]. rewrite Nat.leb_le. lia.
  - split_and!; [done|lia|]. rewrite Nat.leb_le. lia.
Qed.
