(* ===== verification/Kube.v ===== *)
(** * The Kubernetes API as the provisioners use it (crate [kube])

    The API server is not part of this program: a class of the calls the two
    clients make, over an unknown server state, and a class of laws that state
    what the API documents of server-side apply, reads and deletes when nobody
    else writes in between. A small in-memory server shows that the laws can
    hold. *)

From stdpp Require Import pretty.
From S2P Require Import Prelude Float64 Core Policy Store Json Provision Manifests.
#[local] Open Scope Z_scope.

Inductive Kind :=
| KRayCluster | KRayService | KDaskCluster | KNetworkPolicy | KNamespace | KPod | KEvent
| KCohort | KResourceFlavor | KClusterQueue | KLocalQueue.
#[export] Instance Kind_eq_dec : EqDecision Kind.
Proof. solve_decision. Defined.
#[export] Instance Kind_countable : Countable Kind.
Proof.
  refine (inj_countable'
    (fun k => match k with
              | KRayCluster => 0 | KRayService => 1 | KDaskCluster => 2 | KNetworkPolicy => 3
              | KNamespace => 4 | KPod => 5 | KEvent => 6 | KCohort => 7
              | KResourceFlavor => 8 | KClusterQueue => 9 | KLocalQueue => 10
              end%nat)
    (fun n => match n with
              | 0 => KRayCluster | 1 => KRayService | 2 => KDaskCluster | 3 => KNetworkPolicy
              | 4 => KNamespace | 5 => KPod | 6 => KEvent | 7 => KCohort
              | 8 => KResourceFlavor | 9 => KClusterQueue | _ => KLocalQueue
              end%nat) _).
  by intros [].
Defined.

(** [kube::core::DynamicObject]: name, labels and annotations, and everything
    but the metadata in [ob_data]. *)
Record DynamicObject := {
  ob_name : option string;
  ob_namespace : option string;
  ob_labels : option (gmap string string);
  ob_annotations : option (gmap string string);
  ob_data : Value;
}.

(** [kube::Error]: an answer of the API server with its code, or anything else;
    each with its text. *)
Inductive KubeError := KubeApi (code : Z) (text : string) | KubeOther (text : string).

Definition kube_error_text (e : KubeError) : string :=
  match e with KubeApi _ text | KubeOther text => text end.

Definition is_404 (e : KubeError) : bool :=
  match e with KubeApi code _ => Z.eqb code 404 | KubeOther _ => false end.

(** [From<kube::Error> for ProvisionError]. *)
Definition from_kube (e : KubeError) : ProvisionError := PBackend (kube_error_text e).

(** Where an object lives; cluster-scoped kinds have the empty namespace. *)
Abbreviation Key := (Kind * string * string)%type.

Class Kube (K : Type) := {
  k_get_opt : Key -> ST K KubeError (option DynamicObject);
  k_list : Kind -> string -> option (string * string) -> ST K KubeError (list DynamicObject);
  k_list_all : Kind -> option (string * string) -> ST K KubeError (list DynamicObject);
  k_discover : Kind -> ST K KubeError unit;
  k_apply : Key -> string -> bool -> DynamicObject -> ST K KubeError unit;
  k_merge : Key -> Value -> ST K KubeError unit;
  k_delete : Key -> ST K KubeError unit;
  k_logs : string -> string -> Z -> ST K KubeError string;
  object_json : DynamicObject -> option Value;
}.

Definition label_of (key : string) (o : DynamicObject) : option string :=
  ls ← ob_labels o; ls !! key.
Definition annotation_of (key : string) (o : DynamicObject) : option string :=
  xs ← ob_annotations o; xs !! key.

Definition selected (sel : option (string * string)) (o : DynamicObject) : Prop :=
  match sel with Some (k, v) => label_of k o = Some v | None => True end.

(** What an applied object leaves on the live one: its name, labels,
    annotations and the fields of its spec. *)
Definition carries (live o : DynamicObject) : Prop :=
  ob_name live = ob_name o /\
  (forall k v, label_of k o = Some v -> label_of k live = Some v) /\
  (forall k v, annotation_of k o = Some v -> annotation_of k live = Some v) /\
  (forall f v, (json_get "spec" (ob_data o) ≫= json_get f) = Some v ->
     (json_get "spec" (ob_data live) ≫= json_get f) = Some v).

(** What the server holds, and the documented effect of each call on it. A call
    that fails may or may not have taken effect, but only on its own object. *)
Class KubeLaws (K : Type) `{Kube K} := {
  objects : K -> gmap Key DynamicObject;
  get_sees key k o k' : k_get_opt key k = (Ok o, k') -> o = objects k !! key;
  get_keeps key k : objects (snd (k_get_opt key k)) = objects k;
  list_sees kind ns sel k l k' o : k_list kind ns sel k = (Ok l, k') ->
    o ∈ l <-> exists name, objects k !! (kind, ns, name) = Some o /\ selected sel o;
  list_keeps kind ns sel k : objects (snd (k_list kind ns sel k)) = objects k;
  list_all_sees kind sel k l k' o : k_list_all kind sel k = (Ok l, k') ->
    o ∈ l <-> exists ns name, objects k !! (kind, ns, name) = Some o /\ selected sel o;
  list_all_keeps kind sel k : objects (snd (k_list_all kind sel k)) = objects k;
  discover_keeps kind k : objects (snd (k_discover kind k)) = objects k;
  apply_sees key manager force o k k' : k_apply key manager force o k = (Ok tt, k') ->
    exists live, objects k' !! key = Some live /\ carries live o;
  apply_frame key key' manager force o k : key' <> key ->
    objects (snd (k_apply key manager force o k)) !! key' = objects k !! key';
  merge_frame key key' v k : key' <> key ->
    objects (snd (k_merge key v k)) !! key' = objects k !! key';
  delete_frame key key' k : key' <> key ->
    objects (snd (k_delete key k)) !! key' = objects k !! key';
  delete_sees key k : objects k !! key = None -> exists text,
    fst (k_delete key k) = Err (KubeApi 404 text) /\ objects (snd (k_delete key k)) = objects k;
  delete_404 key k text k' : k_delete key k = (Err (KubeApi 404 text), k') -> objects k' !! key = None;
  delete_policy ns name k k' : k_delete (KNetworkPolicy, ns, name) k = (Ok tt, k') ->
    objects k' !! (KNetworkPolicy, ns, name) = None;
  logs_keeps ns pod tail k : objects (snd (k_logs ns pod tail k)) = objects k;
}.

(** ** Generations as annotations *)

Lemma digit_val_pretty d : (d < 10)%N -> digit_val (pretty_N_char d) = Some d.
Proof. intros Hd. destruct d as [|p]; [done|]. do 4 (try (destruct p as [p|p|]; try done)); lia. Qed.

Lemma take_digits_go n : forall s acc k, exists j,
  (0 < n)%N -> (0 < j)%nat /\
  take_digits acc k (bytes_of (pretty_N_go n s)) =
  take_digits (acc * 10 ^ N.of_nat j + n)%N (k + j) (bytes_of s).
Proof.
  induction n as [n IH] using (well_founded_induction N.lt_wf_0). intros s acc k.
  destruct (decide (n = 0)%N) as [->|Hn]; [by exists 0%nat|].
  assert (Hdm : n = (10 * (n / 10) + n mod 10)%N) by (apply N.div_mod; lia).
  assert (Hmod : (n mod 10 < 10)%N) by (apply N.mod_lt; lia).
  rewrite pretty_N_go_step by lia.
  destruct (decide (n / 10 = 0)%N) as [H0|H0].
  - exists 1%nat. intros _. split; [lia|]. rewrite H0, pretty_N_go_0.
    cbn [bytes_of String.list_ascii_of_string take_digits]. rewrite digit_val_pretty by done.
    rewrite H0 in Hdm. change (10 ^ N.of_nat 1)%N with 10%N. f_equal; [f_equal; lia|lia].
  - destruct (IH (n / 10)%N ltac:(apply N.div_lt; lia)
      (String (pretty_N_char (n mod 10)) s) acc k) as [j Hj].
    destruct (Hj ltac:(lia)) as [Hj0 E]. exists (S j). intros _. split; [lia|]. rewrite E.
    cbn [bytes_of String.list_ascii_of_string take_digits]. rewrite digit_val_pretty by done.
    replace ((acc * 10 ^ N.of_nat j + n `div` 10) * 10 + n `mod` 10)%N
      with (acc * 10 ^ N.of_nat (S j) + n)%N; [f_equal; lia|].
    rewrite Nat2N.inj_succ, N.pow_succ_r by lia. nia.
Qed.

Lemma take_digits_pretty n : exists j, (0 < j)%nat /\
  take_digits 0 0 (bytes_of (pretty n)) = (n, j, []).
Proof.
  unfold pretty, pretty_N. case_decide as Hn; [subst; by exists 1%nat; split; [lia|]|].
  destruct (take_digits_go n EmptyString 0 0) as [j Hj]. destruct (Hj ltac:(lia)) as [Hj0 E].
  exists j. split; [done|]. rewrite E. cbn [bytes_of String.list_ascii_of_string take_digits].
  by replace (0 * 10 ^ N.of_nat j + n)%N with n by lia.
Qed.

Lemma parse_u64_str g : is_u64 g -> parse_u64 (u64_str g) = Some g.
Proof.
  intros [Hg Hmax]. unfold parse_u64, u64_str.
  destruct (take_digits_pretty (Z.to_N g)) as (j & Hj & E).
  destruct (bytes_of (pretty (Z.to_N g))) as [|c l] eqn:Eb; [cbn in E; injection E as _ <-; lia|].
  destruct (byte_is c 43) eqn:Ec.
  - exfalso. apply Ascii.eqb_eq in Ec as ->. cbn in E. injection E as _ <-. lia.
  - rewrite E. destruct j; [lia|]. rewrite Z2N.id by done. by rewrite (proj2 (Z.leb_le _ _) Hmax).
Qed.

(** ** An in-memory API server

    Objects in a map, no other writers: the laws can hold. *)
Record DemoKube := { dk_objects : gmap Key DynamicObject }.

Definition merge_map (new old : option (gmap string string)) : option (gmap string string) :=
  match new, old with
  | Some n, Some o => Some (n ∪ o)
  | Some n, None => Some n
  | None, o => o
  end.

Definition merge_data (new old : Value) : Value :=
  match json_get "spec" new, old with
  | Some sp, JObj fields => JObj (set_field "spec" sp fields)
  | Some sp, _ => JObj [("spec"%string, sp)]
  | None, _ => old
  end.

Definition merge_object (new : DynamicObject) (old : option DynamicObject) : DynamicObject := {|
  ob_name := ob_name new;
  ob_namespace := match ob_namespace new with Some n => Some n | None => old ≫= ob_namespace end;
  ob_labels := merge_map (ob_labels new) (old ≫= ob_labels);
  ob_annotations := merge_map (ob_annotations new) (old ≫= ob_annotations);
  ob_data := merge_data (ob_data new) (default JNull (ob_data <$> old)) |}.

Definition patch_data (patch old : Value) : Value :=
  match json_get "spec" patch, json_get "spec" old with
  | Some (JObj fields), Some sp =>
      json_set "spec" (fold_left (fun v kv => json_set (fst kv) (snd kv) v) fields sp) old
  | _, _ => old
  end.

Definition with_data (f : Value -> Value) (o : DynamicObject) : DynamicObject := {|
  ob_name := ob_name o; ob_namespace := ob_namespace o; ob_labels := ob_labels o; ob_annotations := ob_annotations o;
  ob_data := f (ob_data o) |}.

#[export] Instance selected_dec sel o : Decision (selected sel o).
Proof. destruct sel as [[k v]|]; cbn; apply _. Defined.

Definition not_found : KubeError := KubeApi 404 "not found".

#[export] Instance demo_kube : Kube DemoKube := {|
  k_get_opt := fun key => st_get (fun d => dk_objects d !! key);
  k_list := fun kind ns sel => st_get (fun d =>
    snd <$> List.filter (fun ko => bool_decide (fst (fst ko) = (kind, ns) /\ selected sel (snd ko)))
      (map_to_list (dk_objects d)));
  k_list_all := fun kind sel => st_get (fun d =>
    snd <$> List.filter (fun ko => bool_decide (fst (fst (fst ko)) = kind /\ selected sel (snd ko)))
      (map_to_list (dk_objects d)));
  k_discover := fun _ => mret tt;
  k_apply := fun key _ _ o => st_put (fun d =>
    {| dk_objects := <[key := merge_object o (dk_objects d !! key)]> (dk_objects d) |});
  k_merge := fun key patch d =>
    match dk_objects d !! key with
    | Some o => (Ok tt, {| dk_objects := <[key := with_data (patch_data patch) o]> (dk_objects d) |})
    | None => (Err not_found, d)
    end;
  k_delete := fun key d =>
    match dk_objects d !! key with
    | Some _ => (Ok tt, {| dk_objects := delete key (dk_objects d) |})
    | None => (Err not_found, d)
    end;
  k_logs := fun _ _ _ => st_err not_found;
  object_json := fun o => Some (ob_data o) |}.

Lemma merge_map_label new old k v :
  (xs ← new; xs !! k) = Some v -> (xs ← merge_map new old; (xs : gmap string string) !! k) = Some v.
Proof.
  destruct new as [n|]; [|done]. intros Hn. destruct old as [o|]; [|done].
  cbn in *. by apply lookup_union_Some_l.
Qed.

Lemma merge_carries new old : carries (merge_object new old) new.
Proof.
  unfold carries. split_and!; [done| | |].
  - intros k v. apply merge_map_label.
  - intros k v. apply merge_map_label.
  - intros f v Hv. cbn [ob_data merge_object]. unfold merge_data.
    destruct (json_get "spec" (ob_data new)) as [sp|]; [|done].
    destruct (default JNull (ob_data <$> old)); try done. by rewrite json_get_set_eq.
Qed.

#[export] Instance demo_kube_laws : KubeLaws DemoKube.
Proof.
  refine {| objects := dk_objects |}.
  - by intros key k o k' [= <- _].
  - done.
  - intros kind ns sel k l k' o [= <- _]. rewrite list_elem_of_fmap. split.
    + intros ([[[kd n] name] o'] & -> & Hin%list_elem_of_In).
      apply filter_In in Hin as [Hin%list_elem_of_In%elem_of_map_to_list Hp%bool_decide_eq_true].
      destruct Hp as [[= -> ->] Hsel]. eauto.
    + intros (name & Ho & Hsel). exists (kind, ns, name, o). split; [done|].
      apply list_elem_of_In, filter_In. split; [by apply list_elem_of_In, elem_of_map_to_list|].
      by apply bool_decide_eq_true.
  - done.
  - intros kind sel k l k' o [= <- _]. rewrite list_elem_of_fmap. split.
    + intros ([[[kd n] name] o'] & -> & Hin%list_elem_of_In).
      apply filter_In in Hin as [Hin%list_elem_of_In%elem_of_map_to_list Hp%bool_decide_eq_true].
      destruct Hp as [[= ->] Hsel]. eauto.
    + intros (ns & name & Ho & Hsel). exists (kind, ns, name, o). split; [done|].
      apply list_elem_of_In, filter_In. split; [by apply list_elem_of_In, elem_of_map_to_list|].
      by apply bool_decide_eq_true.
  - done.
  - done.
  - intros key manager force o k k' [= <-]. eexists. split; [apply lookup_insert_eq|apply merge_carries].
  - intros key key' manager force o k Hne. by apply lookup_insert_ne.
  - intros key key' v k Hne. cbn. destruct (dk_objects k !! key); [|done]. by apply lookup_insert_ne.
  - intros key key' k Hne. cbn. destruct (dk_objects k !! key); [|done]. by apply lookup_delete_ne.
  - intros key k Hk. cbn. rewrite Hk. by eexists.
  - intros key k text k'. cbn. destruct (dk_objects k !! key) eqn:E; [done|]. by intros [= _ <-].
  - intros ns name k k'. cbn. case_match; [|done]. intros [= <-]. apply lookup_delete_eq.
  - done.
Defined.
