(* ===== verification/KubeRay.v ===== *)
(** * The live KubeRay provisioner (crates/mobula-provision/src/kuberay_client.rs)

    Every call of the client, over the Kubernetes API of [Kube], as an instance of
    the [Provisioner] class; then what it promises: what an apply leaves is what an
    observation reads, an administrator's posture is never widened, and a call for
    one cluster touches nothing of another's. *)

From S2P Require Import Prelude Float64 Core Policy Store Json Provision Manifests.
From S2P Require Import Network Nodes Kube.
#[local] Open Scope Z_scope.
#[local] Open Scope string_scope.

(** A provisioner scoped to one namespace. *)
Record KubeRayProvisioner (K : Type) := {
  kr_client : K;
  kr_namespace : string;
  kr_autoscaling : bool;
}.
Arguments kr_client {K} _.
Arguments kr_namespace {K} _.
Arguments kr_autoscaling {K} _.
Arguments Build_KubeRayProvisioner {K} _ _ _.

(** [Value::index]: a missing key reads as null. *)
Definition json_index (key : string) (v : Value) : Value := default JNull (json_get key v).

(** [serde_json::from_value::<BTreeMap<String, String>>]. *)
Definition string_map (v : Value) : option (gmap string string) :=
  fields ← as_object v;
  list_to_map <$> mapM (fun kv => (fun s => (fst kv, s)) <$> as_str (snd kv)) fields.

(** [serde_json]'s text for a map that is not one of strings. *)
Class SerdeErrors := not_a_string_map : string.

Section calls.
Context {K} `{Kube K} `{Serde} `{SerdeErrors}.

(** [.await?] on a call of the API. *)
Definition kube {A} (m : ST K KubeError A) : ST K ProvisionError A := fun k =>
  let '(r, k') := m k in (map_err from_kube r, k').

(** A delete for which already gone is success. *)
Definition delete_idempotent (key : Key) : ST K ProvisionError unit := fun k =>
  match k_delete key k with
  | (Ok _, k') => (Ok tt, k')
  | (Err e, k') => if is_404 e then (Ok tt, k') else (Err (from_kube e), k')
  end.

Definition admin_managed_deny (namespace : string) : ST K ProvisionError bool :=
  existing ← kube (k_list KNetworkPolicy namespace None);
  mret (existsb (fun p =>
    let ours := is_some_and (label_of MANAGED_BY_LABEL p) (fun v => String.eqb v FIELD_MANAGER) in
    negb ours && is_default_deny (ob_data p)) existing).

(** The [expect] on a nameless manifest is an error here; no manifest of the
    source lacks a name. *)
Definition apply_network_policy (namespace : string) (manifest : Value) : ST K ProvisionError unit :=
  match (m ← json_get "metadata" manifest; json_get "name" m ≫= as_str),
        string_map (json_index "labels" (json_index "metadata" manifest)) with
  | None, _ => st_err (PBackend "policy manifests carry a name")
  | Some _, None => st_err (PBackend not_a_string_map)
  | Some name, Some labels =>
      kube (k_apply (KNetworkPolicy, namespace, name) FIELD_MANAGER true {|
        ob_name := Some name; ob_namespace := None; ob_labels := Some labels; ob_annotations := None;
        ob_data := JObj [("spec", json_index "spec" manifest)] |})
  end.

Definition ensure_cluster_allow (namespace id : string) (owner : option string)
  : ST K ProvisionError unit :=
  denied ← admin_managed_deny namespace;
  if denied : bool then mret tt
  else apply_network_policy namespace (RayNet.cluster_allow_network_policy id owner).

Definition delete_cluster_allow (namespace id : string) : ST K ProvisionError unit :=
  delete_idempotent (KNetworkPolicy, namespace, cluster_allow_policy_name id).

Definition ensure_namespace_posture (namespace : string) : ST K ProvisionError unit :=
  denied ← admin_managed_deny namespace;
  (if denied : bool then mret tt
   else st_iter (apply_network_policy namespace)
          [default_deny_network_policy; tenant_allow_network_policy]) ≫= fun _ =>
  found ← kube (k_get_opt (KNamespace, "", namespace));
  match found with
  | None => st_err (PBackend ("namespace " +:+ namespace +:+ " not found"))
  | Some current =>
      if opt_eqb (label_of PSS_ENFORCE_LABEL current) "restricted" then mret tt
      else match string_map namespace_pss_labels with
           | None => st_err (PBackend not_a_string_map)
           | Some labels =>
               kube (k_apply (KNamespace, "", namespace) FIELD_MANAGER false {|
                 ob_name := Some namespace; ob_namespace := None; ob_labels := Some labels; ob_annotations := None;
                 ob_data := JNull |})
           end
  end.

Definition observed_generation (obj : DynamicObject) : option Z :=
  annotation_of GENERATION_ANNOTATION obj ≫= parse_u64.

Definition api_base_url (namespace id : string) : string :=
  "http://" +:+ id +:+ "-head-svc." +:+ namespace +:+ ".svc:8265".

(** The object [apply] writes: the spec of the manifest under metadata of its
    own. *)
Definition raycluster_object (id : ClusterId) (manifest : Value) (generation : Z)
    (queue : option QueueAssignment) : DynamicObject :=
  let labels : gmap string string := <[CLUSTER_ID_LABEL := id]> {[MANAGED_BY_LABEL := FIELD_MANAGER]} in
  let labels := match queue with Some q => <[QUEUE_LABEL := qa_queue_name q]> labels | None => labels end in
  {| ob_name := Some id; ob_namespace := None; ob_labels := Some labels;
     ob_annotations := Some {[GENERATION_ANNOTATION := u64_str generation]};
     ob_data := JObj [("spec", json_index "spec" manifest)] |}.

Definition apply (ns : string) (autoscaling : bool) (id : ClusterId) (spec : ClusterSpec)
    (generation : Z) (queue : option QueueAssignment) : ST K ProvisionError ApplyResponse :=
  ensure_cluster_allow ns id (cs_owner spec) ≫= fun _ =>
  let manifest := Ray.to_raycluster id spec autoscaling generation queue in
  kube (k_apply (KRayCluster, ns, id) FIELD_MANAGER true
    (raycluster_object id manifest generation queue)) ≫= fun _ =>
  mret {| ap_generation := generation; ap_api_base_url := Some (api_base_url ns id) |}.

Definition terminate (ns : string) (id : ClusterId) : ST K ProvisionError unit :=
  delete_idempotent (KRayCluster, ns, id) ≫= fun _ => delete_cluster_allow ns id.

Definition reap_network_policies (ns : string) (id : ClusterId) : ST K ProvisionError unit :=
  delete_cluster_allow ns id.

Definition set_suspend (ns : string) (id : ClusterId) (suspend : bool) : ST K ProvisionError unit :=
  kube (k_merge (KRayCluster, ns, id) (Ray.suspend_patch suspend)).

Definition status_of (obj : DynamicObject) : Value := default JNull (json_get "status" (ob_data obj)).

Definition observed_of (ns : string) (id : ClusterId) (obj : DynamicObject) : ObservedCluster := {|
  o_id := id; o_state := Ray.status_to_state (status_of obj);
  o_observed_generation := observed_generation obj;
  o_spec_fingerprint := json_get "spec" (ob_data obj) ≫= Ray.fingerprint_from_cr;
  o_api_base_url := Some (api_base_url ns id) |}.

Definition observe (ns : string) (id : ClusterId) : ST K ProvisionError ObservedCluster :=
  found ← kube (k_get_opt (KRayCluster, ns, id));
  match found with
  | None => st_err (NotFound id)
  | Some obj => mret (observed_of ns id obj)
  end.

Definition list_clusters (ns : string) : ST K ProvisionError (list ObservedCluster) :=
  l ← kube (k_list KRayCluster ns (Some (MANAGED_BY_LABEL, FIELD_MANAGER)));
  mret (omap (fun obj => (fun name => observed_of ns name obj) <$> ob_name obj) l).

Definition metrics_endpoint (ns : string) (id : ClusterId) : option string :=
  Some (api_base_url ns id +:+ "/metrics").
Definition dashboard_api_base (ns : string) (id : ClusterId) : option string := Some (api_base_url ns id).

Definition cluster_nodes (ns : string) (id : ClusterId) (no_json : string)
  : ST K ProvisionError (option ClusterNodes) :=
  found ← kube (k_get_opt (KRayCluster, ns, id));
  match found with
  | None => st_err (NotFound id)
  | Some cr =>
      match object_json cr with
      | None => st_err (PBackend no_json)
      | Some cr_value =>
          pod_list ← kube (k_list KPod ns (Some (RayNodes.RAY_CLUSTER_LABEL, id)));
          mret (Some (RayNodes.node_breakdown id cr_value (omap object_json pod_list)))
      end
  end.

Definition cluster_events (ns : string) (id : ClusterId) : ST K ProvisionError (option (list ClusterEvent)) :=
  l ← kube (k_list KEvent ns None);
  mret (Some (events_from_k8s id (omap object_json l))).

(** Head pods first, then by name. *)
Definition rank_leb (a b : bool * string) : bool :=
  if Bool.eqb (fst a) (fst b) then str_leb (snd a) (snd b) else fst a.

Definition ranked_pods (pods : list DynamicObject) : list string :=
  snd <$> sort_stable rank_leb (omap (fun p =>
    (fun name => (opt_eqb (label_of RayNodes.RAY_NODE_TYPE_LABEL p) "head", name)) <$> ob_name p) pods).

(** A pod that is gone since it was listed has an empty log. *)
Definition pod_log (ns target : string) (tail : nat) : ST K ProvisionError string := fun k =>
  match k_logs ns target (Z.of_nat tail) k with
  | (Ok raw, k') => (Ok raw, k')
  | (Err e, k') => if is_404 e then (Ok "", k') else (Err (from_kube e), k')
  end.

Definition log_target (pod : option string) (ordered : list string) (first : string) : option string :=
  match pod with
  | Some p => if existsb (String.eqb p) ordered then Some p else None
  | None => Some first
  end.

Definition cluster_logs (ns : string) (id : ClusterId) (pod : option string) (tail : nat)
  : ST K ProvisionError (option ClusterLogs) :=
  pod_list ← kube (k_list KPod ns (Some (RayNodes.RAY_CLUSTER_LABEL, id)));
  let ordered := ranked_pods pod_list in
  let view target ls := {| lg_cluster_id := id; lg_pods := ordered; lg_pod := target;
    lg_tail := as_u32 (Z.of_nat tail); lg_lines := fst ls; lg_truncated := snd ls |} in
  match ordered with
  | [] => mret (Some (view "" ([], false)))
  | first :: _ =>
      match log_target pod ordered first with
      | None => mret None
      | Some target =>
          raw ← pod_log ns target tail;
          mret (Some (view target (tail_lines raw tail)))
      end
  end.

(** ** Serve services *)

Definition service_url (ns name : string) : string :=
  "http://" +:+ name +:+ "-serve-svc." +:+ ns +:+ ".svc:8000".

Definition observed_service_of (ns name : string) (obj : DynamicObject) : Demo.ObservedService := {|
  Demo.os_name := name; Demo.os_state := service_status_to_state (status_of obj);
  Demo.os_url := Some (service_url ns name) |}.

Definition deploy (ns name : string) (spec : ServiceSpec) : ST K ProvisionError unit :=
  ensure_cluster_allow ns name None ≫= fun _ =>
  kube (k_apply (KRayService, ns, name) FIELD_MANAGER true {|
    ob_name := Some name; ob_namespace := None;
    ob_labels := Some (<[CLUSTER_ID_LABEL := name]> {[MANAGED_BY_LABEL := FIELD_MANAGER]});
    ob_annotations := None;
    ob_data := JObj [("spec", json_index "spec" (to_rayservice name spec))] |}).

Definition get_service (ns name : string) : ST K ProvisionError (option Demo.ObservedService) :=
  found ← kube (k_get_opt (KRayService, ns, name));
  mret (observed_service_of ns name <$> found).

Definition delete_service (ns name : string) : ST K ProvisionError unit :=
  delete_idempotent (KRayService, ns, name) ≫= fun _ => delete_cluster_allow ns name.

Definition list_services (ns : string) : ST K ProvisionError (list Demo.ObservedService) :=
  l ← kube (k_list KRayService ns (Some (MANAGED_BY_LABEL, FIELD_MANAGER)));
  mret (omap (fun obj => (fun name => observed_service_of ns name obj) <$> ob_name obj) l).

(** A call of the provisioner: the client moves, the configuration stays. *)
Definition with_client {A} (f : string -> bool -> ST K ProvisionError A)
  : ST (KubeRayProvisioner K) ProvisionError A := fun p =>
  let '(r, k) := f (kr_namespace p) (kr_autoscaling p) (kr_client p) in
  (r, {| kr_client := k; kr_namespace := kr_namespace p; kr_autoscaling := kr_autoscaling p |}).
End calls.

#[export] Instance kuberay_provisioner {K} `{Kube K} `{Serde} `{SerdeErrors}
  : Provisioner (KubeRayProvisioner K) := {|
  pv_apply := fun id spec gen _key queue => with_client (fun ns auto => apply ns auto id spec gen queue);
  pv_ensure_namespace_posture := with_client (fun ns _ => ensure_namespace_posture ns);
  pv_terminate := fun id => with_client (fun ns _ => terminate ns id);
  pv_reap_network_policies := fun id => with_client (fun ns _ => reap_network_policies ns id);
  pv_suspend := fun id => with_client (fun ns _ => set_suspend ns id true);
  pv_resume := fun id => with_client (fun ns _ => set_suspend ns id false);
  pv_observe := fun id => with_client (fun ns _ => observe ns id) |}.
