(* ===== verification/KubeRayFacts.v ===== *)
(** * What the KubeRay provisioner promises

    Proved for any API server that keeps the laws of [Kube]: the calls for one
    cluster write two objects and no others; what an apply leaves is what the next
    observation reports; an administrator's network posture and a stricter
    pod-security level are left alone. *)

From S2P Require Import Prelude Float64 Core Policy Store Json Provision Manifests.
From S2P Require Import Network Nodes Kube KubeRay.
#[local] Open Scope Z_scope.
#[local] Open Scope string_scope.

(** ** Which objects a call may write *)

Section frame.
Context {K} `{KubeLaws K}.

Definition writes_only {E A} (S : Key -> Prop) (m : ST K E A) : Prop :=
  forall k key, ~ S key -> objects (snd (m k)) !! key = objects k !! key.

Lemma writes_ret {E A} S (a : A) : writes_only (E := E) S (mret a).
Proof. by intros k key _. Qed.
Lemma writes_err {E A} S (e : E) : writes_only (A := A) S (st_err e).
Proof. by intros k key _. Qed.
Lemma writes_bind {E A B} S (m : ST K E A) (f : A -> ST K E B) :
  writes_only S m -> (forall a, writes_only S (f a)) -> writes_only S (m ≫= f).
Proof.
  intros Hm Hf k key Hkey. rewrite ST_bind_eq. specialize (Hm k key Hkey).
  destruct (m k) as [[a|e] k1]; cbn in *; [|done]. rewrite <-Hm. by apply Hf.
Qed.
Lemma writes_mono {E A} (S S' : Key -> Prop) (m : ST K E A) :
  (forall key, S key -> S' key) -> writes_only S m -> writes_only S' m.
Proof. intros HS Hm k key Hkey. apply Hm. auto. Qed.
Lemma writes_iter {E A} S (f : A -> ST K E unit) l :
  (forall a, a ∈ l -> writes_only S (f a)) -> writes_only S (st_iter f l).
Proof.
  induction l as [|a l IH]; intros Hf; [apply writes_ret|]. cbn. apply writes_bind.
  - apply Hf. left.
  - intros _. apply IH. intros b Hb. apply Hf. by right.
Qed.
Lemma writes_kube {A} S (m : ST K KubeError A) : writes_only S m -> writes_only S (kube m).
Proof. intros Hm k key Hkey. unfold kube. specialize (Hm k key Hkey). by destruct (m k). Qed.

Lemma writes_get S key : writes_only S (k_get_opt key).
Proof. intros k key' _. by rewrite get_keeps. Qed.
Lemma writes_list S kind ns sel : writes_only S (k_list kind ns sel).
Proof. intros k key' _. by rewrite list_keeps. Qed.
Lemma writes_apply (S : Key -> Prop) key manager force o : S key -> writes_only S (k_apply key manager force o).
Proof. intros HS k key' Hkey. apply apply_frame. by intros ->. Qed.
Lemma writes_merge (S : Key -> Prop) key v : S key -> writes_only S (k_merge key v).
Proof. intros HS k key' Hkey. apply merge_frame. by intros ->. Qed.
Lemma writes_delete (S : Key -> Prop) key : S key -> writes_only S (delete_idempotent key).
Proof.
  intros HS k key' Hkey. unfold delete_idempotent.
  pose proof (delete_frame key key' k ltac:(by intros ->)) as Hd.
  destruct (k_delete key k) as [[[]|e] k']; cbn in *; [done|]. by destruct (is_404 e).
Qed.
End frame.
#[export] Hint Resolve writes_ret writes_err writes_get writes_list writes_kube writes_apply
  writes_merge writes_delete : mobula.

(** Which writes a call makes follows its text. *)
Ltac writes :=
  repeat first
    [ progress intros
    | apply writes_bind
    | apply writes_kube
    | case_match
    | solve [eauto 3 with mobula] ].

(** The two objects of a cluster. *)
Definition cluster_objects (ns id : string) (key : Key) : Prop :=
  key = (KRayCluster, ns, id) \/ key = (KNetworkPolicy, ns, cluster_allow_policy_name id).
Definition policy_of (ns name : string) (key : Key) : Prop := key = (KNetworkPolicy, ns, name).

Section facts.
Context {K} `{KubeLaws K} `{Serde} `{SerdeErrors}.

Lemma admin_check_reads S ns : writes_only S (admin_managed_deny ns).
Proof. unfold admin_managed_deny. writes. Qed.

Lemma apply_policy_writes ns manifest name :
  (m ← json_get "metadata" manifest; json_get "name" m ≫= as_str) = Some name ->
  writes_only (policy_of ns name) (apply_network_policy ns manifest).
Proof.
  intros Hn. unfold apply_network_policy. rewrite Hn. case_match; [|apply writes_err].
  apply writes_kube, writes_apply. done.
Qed.

Lemma ensure_allow_writes ns id owner :
  writes_only (policy_of ns (cluster_allow_policy_name id)) (ensure_cluster_allow ns id owner).
Proof.
  apply writes_bind; [apply admin_check_reads|]. intros []; [apply writes_ret|].
  by apply apply_policy_writes.
Qed.

Lemma allow_writes_cluster ns id owner : writes_only (cluster_objects ns id) (ensure_cluster_allow ns id owner).
Proof. eapply writes_mono; [|apply ensure_allow_writes]. intros key ->. by right. Qed.

Lemma cluster_objects_cr ns id : cluster_objects ns id (KRayCluster, ns, id).
Proof. by left. Qed.
Lemma cluster_objects_policy ns id : cluster_objects ns id (KNetworkPolicy, ns, cluster_allow_policy_name id).
Proof. by right. Qed.
Hint Resolve cluster_objects_cr cluster_objects_policy allow_writes_cluster : mobula.

Lemma calls_write_cluster ns auto id spec gen queue suspend :
  writes_only (cluster_objects ns id) (apply ns auto id spec gen queue) /\
  writes_only (cluster_objects ns id) (terminate ns id) /\
  writes_only (cluster_objects ns id) (reap_network_policies ns id) /\
  writes_only (cluster_objects ns id) (set_suspend ns id suspend) /\
  writes_only (cluster_objects ns id) (observe ns id).
Proof.
  split_and!.
  - unfold apply. writes.
  - unfold terminate, delete_cluster_allow. writes.
  - unfold reap_network_policies, delete_cluster_allow. writes.
  - unfold set_suspend. writes.
  - unfold observe. writes.
Qed.

(** Clusters do not interfere: whatever a call for one cluster does, and whether
    or not it succeeds, the custom resource and the network policy of every other
    cluster of the namespace stay as they are. *)
Theorem calls_stay_on_their_cluster ns auto id id' spec gen queue suspend k key :
  id <> id' -> cluster_objects ns id' key ->
  objects (snd (apply ns auto id spec gen queue k)) !! key = objects k !! key /\
  objects (snd (terminate ns id k)) !! key = objects k !! key /\
  objects (snd (reap_network_policies ns id k)) !! key = objects k !! key /\
  objects (snd (set_suspend ns id suspend k)) !! key = objects k !! key /\
  objects (snd (observe ns id k)) !! key = objects k !! key.
Proof.
  intros Hne Hkey.
  assert (~ cluster_objects ns id key) as Hnot.
  { unfold cluster_objects in *. intros [->| ->]; by destruct Hkey as [[=]|[=]]. }
  destruct (calls_write_cluster ns auto id spec gen queue suspend) as (Ha & Ht & Hr & Hs & Ho).
  split_and!; [by apply Ha|by apply Ht|by apply Hr|by apply Hs|by apply Ho].
Qed.

(** ** What an apply leaves *)

Lemma kube_ok {A} (m : ST K KubeError A) k a k' : kube m k = (Ok a, k') -> m k = (Ok a, k').
Proof. unfold kube. destruct (m k) as [[b|e] k1]; by intros [=]; subst. Qed.

Lemma value_from_cr_ext a b :
  json_get "headGroupSpec" a = json_get "headGroupSpec" b ->
  json_get "workerGroupSpecs" a = json_get "workerGroupSpecs" b ->
  json_get "rayVersion" a = json_get "rayVersion" b ->
  Ray.value_from_cr a = Ray.value_from_cr b.
Proof. intros Hh Hw Hv. unfold Ray.value_from_cr. by rewrite Hh, Hw, Hv. Qed.

(** A live object that carries an applied manifest reads back as the manifest. *)
Lemma carried_reads_back ns id spec auto generation queue live :
  Forall group_wf (cs_worker_groups spec) -> is_u64 generation ->
  carries live (raycluster_object id (Ray.to_raycluster id spec auto generation queue) generation queue) ->
  let o := observed_of ns id live in
  o_observed_generation o = Some generation /\
  o_spec_fingerprint o = Some (Kuberay.owned_spec_fingerprint spec).
Proof.
  intros Hwf Hgen (_ & _ & Hann & Hspec). cbn zeta. cbn [o_observed_generation o_spec_fingerprint observed_of].
  split.
  - unfold observed_generation. rewrite (Hann GENERATION_ANNOTATION (u64_str generation)).
    + by apply parse_u64_str.
    + unfold annotation_of. cbn [ob_annotations raycluster_object mbind option_bind]. apply lookup_singleton_eq.
  - pose proof (ray_reads_back id spec auto generation queue Hwf) as Hread.
    unfold ray_cr_spec in Hread. cbn [ob_data raycluster_object] in Hspec.
    rewrite json_get_cons in Hspec. cbn [String.eqb Ascii.eqb Bool.eqb mbind option_bind] in Hspec.
    unfold json_index in Hspec.
    destruct (json_get "spec" (Ray.to_raycluster id spec auto generation queue)) as [sp|] eqn:Esp; [|done].
    cbn [default mbind option_bind] in Hspec, Hread.
    assert (exists v, json_get "headGroupSpec" sp = Some v) as [h Hh]
      by (injection Esp as <-; by eexists).
    assert (exists v, json_get "workerGroupSpecs" sp = Some v) as [w Hw]
      by (injection Esp as <-; by eexists).
    assert (exists v, json_get "rayVersion" sp = Some v) as [v Hv]
      by (injection Esp as <-; by eexists).
    pose proof (Hspec _ _ Hh) as Lh. pose proof (Hspec _ _ Hw) as Lw. pose proof (Hspec _ _ Hv) as Lv.
    destruct (json_get "spec" (ob_data live)) as [cr|]; [|done]. cbn [mbind option_bind] in *.
    unfold Ray.fingerprint_from_cr. rewrite (value_from_cr_ext cr sp), Hread by congruence. done.
Qed.


(** ** An administrator's posture *)

(** An administrator runs a default-deny of their own in the namespace. *)
Definition admin_deny (ns : string) (k : K) : Prop := exists name o,
  objects k !! (KNetworkPolicy, ns, name) = Some o /\
  label_of MANAGED_BY_LABEL o <> Some FIELD_MANAGER /\ is_default_deny (ob_data o) = true.

Lemma admin_managed_deny_spec ns k b k' :
  admin_managed_deny ns k = (Ok b, k') -> (b = true <-> admin_deny ns k).
Proof.
  intros E. unfold admin_managed_deny in E. apply ST_bind_Ok in E as (l & k1 & El & E).
  injection E as <- <-. apply kube_ok in El. rewrite existsb_elem_of. unfold admin_deny. split.
  - intros (o & Ho & [Hl Hd]%andb_true_iff). apply (list_sees _ _ _ _ _ _ _ El) in Ho as (name & Ho & _).
    exists name, o. split_and!; [done| |done]. intros Hm. rewrite Hm in Hl. done.
  - intros (name & o & Ho & Hm & Hd). exists o. split.
    + apply (list_sees _ _ _ _ _ _ _ El). exists name. done.
    + rewrite Hd, andb_true_r. destruct (label_of MANAGED_BY_LABEL o) as [v|]; [|done]. cbn.
      apply negb_true_iff, String.eqb_neq. congruence.
Qed.

(** Under an administrator's deny the check either fails or says so, and writes
    nothing. *)
Lemma denied_or_failed ns k :
  admin_deny ns k -> exists k', objects k' = objects k /\
  (admin_managed_deny ns k = (Ok true, k') \/ exists e, admin_managed_deny ns k = (Err e, k')).
Proof.
  intros Hd. exists (snd (admin_managed_deny ns k)). split.
  - apply map_eq. intros key. apply (admin_check_reads (fun _ => False)). tauto.
  - destruct (admin_managed_deny ns k) as [[b|e] k'] eqn:E; [|right; by exists e].
    left. cbn [snd]. by rewrite (proj2 (admin_managed_deny_spec ns k b k' E) Hd).
Qed.

Lemma allow_under_deny ns id owner k :
  admin_deny ns k -> objects (snd (ensure_cluster_allow ns id owner k)) = objects k.
Proof.
  intros (k' & Hk & [E|[e E]])%denied_or_failed; unfold ensure_cluster_allow; by rewrite ST_bind_eq, E.
Qed.

Definition is_policy (key : Key) : Prop := exists ns name, key = (KNetworkPolicy, ns, name).
Definition outside_policies (key : Key) : Prop := ~ is_policy key.

Lemma posture_rest_writes ns : writes_only outside_policies
  (found ← kube (k_get_opt (KNamespace, "", ns));
   match found with
   | None => st_err (PBackend ("namespace " +:+ ns +:+ " not found"))
   | Some current =>
       if opt_eqb (label_of PSS_ENFORCE_LABEL current) "restricted" then mret tt
       else match string_map namespace_pss_labels with
            | None => st_err (PBackend not_a_string_map)
            | Some labels =>
                kube (k_apply (KNamespace, "", ns) FIELD_MANAGER false {|
                  ob_name := Some ns; ob_namespace := None; ob_labels := Some labels; ob_annotations := None;
                  ob_data := JNull |})
            end
   end).
Proof.
  writes. apply writes_apply. intros (? & ? & [=]).
Qed.

(** An administrator's network posture is left alone. While a default-deny that
    Mobula does not manage is in the namespace, applying a cluster, deploying a
    service and ensuring the namespace posture write no network policy at all,
    succeed or fail. *)
Theorem admin_posture_untouched ns auto id spec gen queue name service k key :
  admin_deny ns k -> is_policy key ->
  objects (snd (apply ns auto id spec gen queue k)) !! key = objects k !! key /\
  objects (snd (deploy ns name service k)) !! key = objects k !! key /\
  objects (snd (ensure_namespace_posture ns k)) !! key = objects k !! key.
Proof.
  intros Hd Hp. split_and!.
  - unfold apply. rewrite ST_bind_eq. pose proof (allow_under_deny ns id (cs_owner spec) k Hd) as Ha.
    destruct (ensure_cluster_allow ns id (cs_owner spec) k) as [[[]|e] k1]; cbn [snd] in *; rewrite <-Ha; [|done].
    assert (writes_only outside_policies (kube (k_apply (KRayCluster, ns, id) FIELD_MANAGER true
      (raycluster_object id (Ray.to_raycluster id spec auto gen queue) gen queue)) ≫= fun _ =>
      mret (M := ST K ProvisionError) {| ap_generation := gen; ap_api_base_url := Some (api_base_url ns id) |})) as Hw.
    { writes. apply writes_apply. intros (? & ? & [=]). }
    apply Hw. unfold outside_policies. tauto.
  - unfold deploy. rewrite ST_bind_eq. pose proof (allow_under_deny ns name None k Hd) as Ha.
    destruct (ensure_cluster_allow ns name None k) as [[[]|e] k1]; cbn [snd] in *; rewrite <-Ha; [|done].
    assert (Hw : ~ outside_policies key) by (unfold outside_policies; tauto). revert Hw.
    apply (writes_kube outside_policies), writes_apply. intros (? & ? & [=]).
  - unfold ensure_namespace_posture. rewrite ST_bind_eq.
    destruct (denied_or_failed ns k Hd) as (k' & Hk & [E|[e E]]); rewrite E; [|by cbn; rewrite Hk].
    rewrite ST_bind_eq. cbn [mret ST_ret]. rewrite <-Hk. apply posture_rest_writes.
    unfold outside_policies. tauto.
Qed.

(** A namespace that already enforces the restricted level keeps its labels, and
    one that does not is set to baseline: after a successful call the namespace
    enforces one of the two, and never a laxer level than before. *)
Theorem pod_security_never_lowered ns k k' before :
  objects k !! (KNamespace, "", ns) = Some before ->
  ensure_namespace_posture ns k = (Ok tt, k') ->
  exists after, objects k' !! (KNamespace, "", ns) = Some after /\
    (label_of PSS_ENFORCE_LABEL before = Some "restricted" -> after = before) /\
    (label_of PSS_ENFORCE_LABEL after = Some "restricted" \/ label_of PSS_ENFORCE_LABEL after = Some "baseline").
Proof.
  intros Hns E. unfold ensure_namespace_posture in E.
  apply ST_bind_Ok in E as (denied & k1 & Ed & E). apply ST_bind_Ok in E as ([] & k2 & Ep & E).
  apply ST_bind_Ok in E as (found & k3 & Eg & E). apply kube_ok in Eg.
  assert (Hk2 : objects k2 !! (KNamespace, "", ns) = Some before).
  { rewrite <-Hns. transitivity (objects k1 !! (KNamespace, "", ns)).
    - assert (writes_only is_policy (if denied : bool then mret (M := ST K ProvisionError) tt
        else st_iter (apply_network_policy ns) [default_deny_network_policy; tenant_allow_network_policy])) as Hw.
      { destruct denied; [apply writes_ret|]. apply writes_iter. intros m Hm.
        eapply writes_mono; [|apply apply_policy_writes with (name := if decide (m = default_deny_network_policy)
          then DEFAULT_DENY_POLICY_NAME else TENANT_ALLOW_POLICY_NAME)].
        - intros key ->. by eexists _, _.
        - apply elem_of_cons in Hm as [->|Hm%list_elem_of_singleton]; [done|subst; done]. }
      specialize (Hw k1 (KNamespace, "", ns)). rewrite Ep in Hw. apply Hw. intros (? & ? & [=]).
    - pose proof (admin_check_reads (fun _ => False) ns k (KNamespace, "", ns)) as Hr.
      rewrite Ed in Hr. apply Hr. auto. }
  pose proof (get_keeps (KNamespace, "", ns) k2) as Hk3. rewrite Eg in Hk3. cbn [snd] in Hk3.
  apply get_sees in Eg. rewrite Hk2 in Eg. subst found.
  destruct (opt_eqb (label_of PSS_ENFORCE_LABEL before) "restricted") eqn:Er.
  - injection E as <-. exists before. rewrite Hk3. split_and!; [done..|]. left.
    unfold opt_eqb in Er. destruct (label_of PSS_ENFORCE_LABEL before); [|done].
    by apply String.eqb_eq in Er as ->.
  - destruct (string_map namespace_pss_labels) as [labels|] eqn:El; [|done]. apply kube_ok in E.
    destruct (apply_sees _ _ _ _ _ _ E) as (live & Hlive & _ & Hlab & _). exists live. split_and!; [done| |].
    + intros Hb. rewrite Hb in Er. done.
    + right. apply Hlab. unfold label_of. cbn [ob_labels mbind option_bind]. injection El as <-. done.
Qed.

(** ** Teardown *)

(** Terminate is idempotent: it succeeds on a cluster that is already gone and
    then changes nothing, and whenever it succeeds no allow policy is left. *)
Theorem terminate_spec ns id k :
  (forall k', terminate ns id k = (Ok tt, k') ->
     objects k' !! (KNetworkPolicy, ns, cluster_allow_policy_name id) = None) /\
  (objects k !! (KRayCluster, ns, id) = None ->
   objects k !! (KNetworkPolicy, ns, cluster_allow_policy_name id) = None ->
   exists k', terminate ns id k = (Ok tt, k') /\ objects k' = objects k).
Proof.
  assert (Hgone : forall key k0, objects k0 !! key = None ->
    exists k1, delete_idempotent key k0 = (Ok tt, k1) /\ objects k1 = objects k0).
  { intros key k0 Hk0. destruct (delete_sees key k0 Hk0) as (text & Hd & Hk). unfold delete_idempotent.
    destruct (k_delete key k0) as [r k1]. cbn in Hd, Hk. subst r. cbn. by exists k1. }
  split.
  - intros k' E. unfold terminate in E. apply ST_bind_Ok in E as ([] & k1 & _ & E).
    unfold delete_cluster_allow, delete_idempotent in E.
    destruct (k_delete _ k1) as [[[]|e] k2] eqn:Ed.
    + injection E as <-. by eapply delete_policy.
    + destruct (is_404 e) eqn:E4; [|done]. injection E as <-. destruct e as [code text|]; [|done].
      apply Z.eqb_eq in E4 as ->. by eapply delete_404.
  - intros Hcr Hpol. destruct (Hgone _ _ Hcr) as (k1 & E1 & Hk1).
    destruct (Hgone (KNetworkPolicy, ns, cluster_allow_policy_name id) k1) as (k2 & E2 & Hk2); [by rewrite Hk1|].
    exists k2. split; [|congruence]. unfold terminate. rewrite ST_bind_eq, E1. exact E2.
Qed.
End facts.

(** ** Examples *)

#[local] Instance exact_serde : Serde := {|
  json_text := exact_text; spec_json := fun s => cs_name s; apply_response_json := fun g _ => u64_str g |}.
#[local] Instance no_serde_errors : SerdeErrors := "not a map of strings".

Definition demo_ns : DynamicObject := {|
  ob_name := Some "ray"; ob_namespace := None; ob_labels := Some {[PSS_ENFORCE_LABEL := "restricted"]};
  ob_annotations := None; ob_data := JNull |}.
Definition admin_policy : DynamicObject := {|
  ob_name := Some "deny-all"; ob_namespace := None; ob_labels := None; ob_annotations := None;
  ob_data := JObj [("spec", JObj [("podSelector", JObj []); ("policyTypes", both_types)])] |}.
Definition open_cluster : DemoKube := {| dk_objects := {[(KNamespace, "", "ray") := demo_ns]} |}.
Definition denied_cluster : DemoKube := {| dk_objects :=
  <[(KNetworkPolicy, "ray", "deny-all") := admin_policy]> (dk_objects open_cluster) |}.
Definition demo_backend : KubeRayProvisioner DemoKube :=
  {| kr_client := open_cluster; kr_namespace := "ray"; kr_autoscaling := true |}.


Lemma admin_posture_untouched_witness :
  let k := denied_cluster in
  let key := (KNetworkPolicy, "ray", "deny-all") in
  objects (snd (apply "ray" true "c1" demo_spec 7 None k)) !! key = objects k !! key /\
  objects (snd (deploy "ray" "s1" {| ss_name := "s1"; ss_project := "p"; ss_ray_version := "2.9";
    ss_image := "i"; ss_serve_config_v2 := ""; ss_head_cpu := "1"; ss_head_memory := "1Gi";
    ss_worker_replicas := 1; ss_worker_cpu := "1"; ss_worker_memory := "1Gi"; ss_upgrade := Canary |} k)) !! key
    = objects k !! key /\
  objects (snd (ensure_namespace_posture "ray" k)) !! key = objects k !! key.
Proof.
  apply (admin_posture_untouched "ray" true "c1" demo_spec 7 None "s1" _ denied_cluster).
  - exists "deny-all", admin_policy. split_and!; [reflexivity|discriminate|reflexivity].
  - by exists "ray", "deny-all".
Defined.

Lemma calls_stay_on_their_cluster_witness :
  let k := open_cluster in
  let key := (KRayCluster, "ray", "c2") in
  objects (snd (apply "ray" true "c1" demo_spec 7 None k)) !! key = objects k !! key /\
  objects (snd (terminate "ray" "c1" k)) !! key = objects k !! key /\
  objects (snd (reap_network_policies "ray" "c1" k)) !! key = objects k !! key /\
  objects (snd (set_suspend "ray" "c1" true k)) !! key = objects k !! key /\
  objects (snd (observe "ray" "c1" k)) !! key = objects k !! key.
Proof.
  apply (calls_stay_on_their_cluster "ray" true "c1" "c2" demo_spec 7 None true open_cluster); [done|by left].
Defined.

Lemma pod_security_never_lowered_witness :
  exists k', ensure_namespace_posture "ray" open_cluster = (Ok tt, k') /\
  exists after, objects k' !! (KNamespace, "", "ray") = Some after /\
    (label_of PSS_ENFORCE_LABEL demo_ns = Some "restricted" -> after = demo_ns) /\
    (label_of PSS_ENFORCE_LABEL after = Some "restricted" \/ label_of PSS_ENFORCE_LABEL after = Some "baseline").
Proof.
  eexists. split; [reflexivity|].
  by eapply (pod_security_never_lowered "ray" open_cluster _ demo_ns).
Defined.

(** The annotation that makes a Kueue workload elastic and the owner label are in
    the manifest but not in the object that is applied: its metadata is built
    anew. *)
Lemma applied_metadata_drops id spec auto gen queue :
  (forall q, queue = Some q -> qa_elastic q = true ->
     (m ← json_get "metadata" (Ray.to_raycluster id spec auto gen queue);
      a ← json_get "annotations" m; json_get ELASTIC_JOB_ANNOTATION a) = Some (JStr "true")) /\
  let o := raycluster_object id (Ray.to_raycluster id spec auto gen queue) gen queue in
  annotation_of ELASTIC_JOB_ANNOTATION o = None /\ label_of OWNER_LABEL o = None.
Proof.
  split.
  - intros q -> Hq. unfold Ray.to_raycluster. cbn [is_some_and]. rewrite Hq. reflexivity.
  - split; [reflexivity|]. by destruct queue.
Qed.

(** A Serve service and a cluster of the same name share one allow policy: a
    deploy rewrites it without the owner's notebook rule. *)
Definition owner_rules (k : DemoKube) (id : string) : option nat :=
  o ← dk_objects k !! (KNetworkPolicy, "ray", cluster_allow_policy_name id);
  sp ← json_get "spec" (ob_data o); rules ← json_get "ingress" sp ≫= as_array; Some (length rules).

Definition owned_demo_spec : ClusterSpec := {|
  cs_name := cs_name demo_spec; cs_project := cs_project demo_spec; cs_engine := cs_engine demo_spec;
  cs_ray_version := cs_ray_version demo_spec; cs_image := cs_image demo_spec;
  cs_head_cpu := cs_head_cpu demo_spec; cs_head_memory := cs_head_memory demo_spec;
  cs_worker_groups := cs_worker_groups demo_spec; cs_ttl_seconds := cs_ttl_seconds demo_spec;
  cs_idle_timeout_secs := cs_idle_timeout_secs demo_spec; cs_owner := Some "alice" |}.

Lemma service_rewrites_owner_rule service :
  let k1 := snd (apply "ray" true "c1" owned_demo_spec 7 None open_cluster) in
  owner_rules k1 "c1" = Some 2%nat /\ owner_rules (snd (deploy "ray" "c1" service k1)) "c1" = Some 1%nat /\
  owner_rules (snd (delete_service "ray" "c1" (snd (deploy "ray" "c1" service k1)))) "c1" = None.
Proof. split_and!; vm_compute; reflexivity. Qed.
