(* ===== verification/Kueue.v ===== *)
(** * Kueue objects of a pool (crates/mobula-provision/src/kueue.rs, kueue_client.rs)

    The translation of a pool and its allocations into Kueue resources, the pool
    provisioner interface, and its live implementation over the Kubernetes API:
    apply in order, delete by label, and the quota ledger read back. *)

From S2P Require Import Prelude Float64 Core Quantity Policy Store Json Provision Manifests Network.
From S2P Require Import Nodes Kube KubeRay KubeRayFacts.
#[local] Open Scope Z_scope.
#[local] Open Scope string_scope.

Definition KUEUE_API_VERSION : string := "kueue.x-k8s.io/v1beta2".
Definition POOL_LABEL : string := "mobula.dev/pool".
Definition NOMINAL_ANNOTATION : string := "mobula.dev/nominal".
Definition BORROWING_LIMIT_ANNOTATION : string := "mobula.dev/borrowing-limit".
Definition LENDING_LIMIT_ANNOTATION : string := "mobula.dev/lending-limit".

(** A map of strings as a JSON object. *)
Definition string_obj (m : list (string * string)) : Value :=
  JObj ((fun kv => (fst kv, JStr (snd kv))) <$> m).

Definition kueue_object (kind : string) (metadata : list (string * Value)) (spec : Value) : Value :=
  JObj [("apiVersion", JStr KUEUE_API_VERSION); ("kind", JStr kind); ("metadata", JObj metadata); ("spec", spec)].

Definition to_resource_flavor (pool : string) (flavor : FlavorSpec) : Value :=
  let taints := (fun t => JObj [("key", JStr (t_key t)); ("value", JStr (t_value t));
                                ("effect", JStr (t_effect t))]) <$> f_taints flavor in
  kueue_object "ResourceFlavor" [("name", JStr (f_name flavor)); ("labels", JObj [(POOL_LABEL, JStr pool)])]
    (JObj [("nodeLabels", string_obj (f_node_labels flavor)); ("nodeTaints", JArr taints)]).

Definition to_cohort (pool : PoolSpec) : Value :=
  kueue_object "Cohort" [("name", JStr (p_cohort pool)); ("labels", JObj [(POOL_LABEL, JStr (p_name pool))])] (JObj []).

(** [f64::fract] is zero: a finite number without a fraction, of which the
    integer value. *)
Definition f64_integer (w : f64) : option Z :=
  match w with
  | S754_zero _ => Some 0
  | S754_finite s m e =>
      if Z.leb 0 e then Some (cond_Zopp s (Z.pos m * 2 ^ e))
      else if Z.eqb (Z.pos m mod 2 ^ (- e)) 0 then Some (cond_Zopp s (Z.pos m / 2 ^ (- e))) else None
  | _ => None
  end.

(** A non-finite number serializes as null. *)
Definition weight_json (w : f64) : Value :=
  match f64_integer w with
  | Some n => if Z.ltb (Z.abs n) 9000000000000000 then JNum n else JFloat w
  | None => if f64_is_finite w then JFloat w else JNull
  end.

(** The sorted, duplicate-free union of the keys. *)
Definition covered_resources (pool : PoolSpec) : list string :=
  sort_stable str_leb (elements (list_to_set (C := gset string) (p_flavors pool ≫= fun f => (f_resources f).*1))).

Definition to_cluster_queue (pool : PoolSpec) : Value :=
  let covered := covered_resources pool in
  let flavors := (fun f => JObj [("name", JStr (f_name f));
    ("resources", JArr ((fun kv => JObj [("name", JStr (fst kv)); ("nominalQuota", JStr (snd kv))])
                          <$> f_resources f))]) <$> p_flavors pool in
  kueue_object "ClusterQueue" [("name", JStr (p_name pool)); ("labels", JObj [(POOL_LABEL, JStr (p_name pool))])]
    (JObj [("cohortName", JStr (p_cohort pool)); ("namespaceSelector", JObj []);
           ("fairSharing", JObj [("weight", weight_json (p_fair_sharing_weight pool))]);
           ("resourceGroups", JArr [JObj [("coveredResources", JArr (JStr <$> covered)); ("flavors", JArr flavors)]])]).

Definition to_local_queue `{Serde} (alloc : AllocationSpec) : Value :=
  kueue_object "LocalQueue" [("name", JStr (a_project alloc)); ("namespace", JStr (a_namespace alloc));
    ("labels", JObj [(POOL_LABEL, JStr (a_pool alloc))]);
    ("annotations", JObj [
      (NOMINAL_ANNOTATION, JStr (json_text (string_obj (a_nominal alloc))));
      (BORROWING_LIMIT_ANNOTATION, JStr (json_text (string_obj (a_borrowing_limit alloc))));
      (LENDING_LIMIT_ANNOTATION, JStr (json_text (string_obj (a_lending_limit alloc))))])]
    (JObj [("clusterQueue", JStr (a_pool alloc))]).

(** ** The pool provisioner interface (lib.rs) *)

(** Quantities by flavor or queue, then by resource. *)
Abbreviation UsageMap := (gmap string (gmap string string)).

Record PoolObservation := {
  po_admitted_workloads : Z;
  po_reserving_workloads : Z;
  po_pending_workloads : Z;
  po_flavors_usage : UsageMap;
  po_queues_usage : UsageMap;
}.

Class PoolProvisioner (P : Type) := {
  pp_apply_pool : PoolSpec -> list AllocationSpec -> ST P ProvisionError unit;
  pp_delete_pool : string -> ST P ProvisionError unit;
  pp_observe_pool : string -> ST P ProvisionError (option PoolObservation);
  pp_kueue_present : P -> bool * P;
}.

(** ** Reading the ledger *)

Definition status_u32 (status : Value) (key : string) : Z :=
  Z.min (default 0 (json_get key status ≫= as_u64)) u32_max.

Definition add_resource (m : gmap string string) (r : Value) : gmap string string :=
  match json_get "name" r ≫= as_str, json_get "total" r ≫= as_str with
  | Some res, Some total => <[res := total]> m
  | _, _ => m
  end.

Definition add_flavor (out : UsageMap) (f : Value) : UsageMap :=
  match json_get "name" f ≫= as_str with
  | None => out
  | Some flavor =>
      let entry := default ∅ (out !! flavor) in
      <[flavor := match json_get "resources" f ≫= as_array with
                  | Some resources => foldl add_resource entry resources
                  | None => entry
                  end]> out
  end.

Definition flavors_usage_map (status : Value) : UsageMap :=
  match json_get "flavorsUsage" status ≫= as_array with
  | Some flavors => foldl add_flavor ∅ flavors
  | None => ∅
  end.

(** Text of a double without an integer rendering; the standard library's. *)
Class FloatText := float_text : f64 -> string.

Definition i64_str (z : Z) : string := if Z.ltb z 0 then "-" +:+ u64_str (- z) else u64_str z.

Definition format_quantity `{FloatText} (v : f64) : string :=
  match f64_integer v with
  | Some n => if Z.ltb (Z.abs n) 1000000000000000 then i64_str n else float_text v
  | None => float_text v
  end.

(** Unparseable quantities are skipped. *)
Definition add_usage (sums : ResourceMap) (rq : string * string) : ResourceMap :=
  match parse_quantity (snd rq) with
  | Ok v => <[fst rq := f64_add (default f64_zero (sums !! fst rq)) v]> sums
  | Err _ => sums
  end.

Definition sum_usage_by_resource `{FloatText} (by_flavor : UsageMap) : gmap string string :=
  format_quantity <$> foldl (fun sums fr => foldl add_usage sums (btree_iter (snd fr))) ∅ (btree_iter by_flavor).

(** ** The client *)

Record KueueClient (K : Type) := { kc_client : K; kc_present : option bool }.
Arguments kc_client {K} _.
Arguments kc_present {K} _.
Arguments Build_KueueClient {K} _ _.

Section client.
Context {K} `{Kube K} `{Serde} `{FloatText}.

Definition to_dynamic (manifest : Value) : DynamicObject :=
  let meta := json_index "metadata" manifest in
  {| ob_name := Some (default "" (json_get "name" meta ≫= as_str));
     ob_namespace := json_get "namespace" meta ≫= as_str;
     ob_labels := json_get "labels" meta ≫= string_map;
     ob_annotations := json_get "annotations" meta ≫= string_map;
     ob_data := JObj [("spec", default JNull (json_get "spec" manifest))] |}.

(** A non-forced apply of one manifest. *)
Definition put (key : Key) (manifest : Value) : ST K ProvisionError unit :=
  kube (k_apply key FIELD_MANAGER false (to_dynamic manifest)).

Definition apply_pool (spec : PoolSpec) (allocs : list AllocationSpec) : ST K ProvisionError unit :=
  put (KCohort, "", p_cohort spec) (to_cohort spec) ≫= fun _ =>
  st_iter (fun f => put (KResourceFlavor, "", f_name f) (to_resource_flavor (p_name spec) f)) (p_flavors spec) ≫= fun _ =>
  put (KClusterQueue, "", p_name spec) (to_cluster_queue spec) ≫= fun _ =>
  st_iter (fun a => put (KLocalQueue, a_namespace a, a_project a) (to_local_queue a)) allocs.

Definition delete_queue (obj : DynamicObject) : ST K ProvisionError unit :=
  match ob_name obj, ob_namespace obj with
  | Some n, Some ns => delete_idempotent (KLocalQueue, ns, n)
  | _, _ => mret tt
  end.

Definition delete_scoped (kind : Kind) (obj : DynamicObject) : ST K ProvisionError unit :=
  match ob_name obj with Some n => delete_idempotent (kind, "", n) | None => mret tt end.

Definition delete_pool (name : string) : ST K ProvisionError unit :=
  let sel := Some (POOL_LABEL, name) in
  lqs ← kube (k_list_all KLocalQueue sel);
  st_iter delete_queue lqs ≫= fun _ =>
  st_iter (fun kind => kube (k_list kind "" sel) ≫= st_iter (delete_scoped kind))
    [KCohort; KResourceFlavor; KClusterQueue].

Definition queue_usage (lq : DynamicObject) : option (string * gmap string string) :=
  name ← ob_name lq;
  let by_resource := sum_usage_by_resource (flavors_usage_map (status_of lq)) in
  if decide (by_resource = ∅) then None else Some (name, by_resource).

Definition observe_pool (name : string) : ST K ProvisionError (option PoolObservation) :=
  found ← kube (k_get_opt (KClusterQueue, "", name));
  match found with
  | None => mret None
  | Some obj =>
      let status := status_of obj in
      lqs ← kube (k_list_all KLocalQueue (Some (POOL_LABEL, name)));
      mret (Some {|
        po_admitted_workloads := status_u32 status "admittedWorkloads";
        po_reserving_workloads := status_u32 status "reservingWorkloads";
        po_pending_workloads := status_u32 status "pendingWorkloads";
        po_flavors_usage := flavors_usage_map status;
        po_queues_usage := foldl (fun m nu => <[fst nu := snd nu]> m) ∅ (omap queue_usage lqs) |})
  end.

Definition kueue_present (c : KueueClient K) : bool * KueueClient K :=
  match kc_present c with
  | Some b => (b, c)
  | None =>
      let '(r, k) := k_discover KClusterQueue (kc_client c) in
      (is_ok r, {| kc_client := k; kc_present := Some (is_ok r) |})
  end.

Definition on_client {A} (m : ST K ProvisionError A) : ST (KueueClient K) ProvisionError A := fun c =>
  let '(r, k) := m (kc_client c) in (r, {| kc_client := k; kc_present := kc_present c |}).
End client.

#[export] Instance kueue_pool_provisioner {K} `{Kube K} `{Serde} `{FloatText}
  : PoolProvisioner (KueueClient K) := {|
  pp_apply_pool := fun spec allocs => on_client (apply_pool spec allocs);
  pp_delete_pool := fun name => on_client (delete_pool name);
  pp_observe_pool := fun name => on_client (observe_pool name);
  pp_kueue_present := kueue_present |}.

(** ** What is applied is what is found *)

Section facts.
Context {K} `{KubeLaws K} `{Serde} `{FloatText}.

Lemma to_dynamic_label manifest pool :
  (m ← json_get "metadata" manifest; json_get "labels" m) = Some (JObj [(POOL_LABEL, JStr pool)]) ->
  label_of POOL_LABEL (to_dynamic manifest) = Some pool.
Proof.
  intros Hm. unfold label_of, to_dynamic, json_index. cbn [ob_labels].
  destruct (json_get "metadata" manifest) as [m|]; [|done]. cbn [mbind option_bind from_option id] in *.
  by rewrite Hm.
Qed.

(** The keys of a pool's objects. *)
Definition pool_keys (spec : PoolSpec) (allocs : list AllocationSpec) (key : Key) : Prop :=
  key = (KCohort, "", p_cohort spec) \/
  (exists f, f ∈ p_flavors spec /\ key = (KResourceFlavor, "", f_name f)) \/
  key = (KClusterQueue, "", p_name spec) \/
  (exists a, a ∈ allocs /\ key = (KLocalQueue, a_namespace a, a_project a)).

Lemma put_writes (S : Key -> Prop) key manifest : S key -> writes_only S (put key manifest).
Proof. intros. by apply writes_kube, writes_apply. Qed.
Hint Resolve put_writes : mobula.

Lemma apply_pool_writes spec allocs : writes_only (pool_keys spec allocs) (apply_pool spec allocs).
Proof.
  unfold apply_pool, pool_keys. repeat (apply writes_bind; [|intros _]).
  - apply put_writes. auto.
  - apply writes_iter. intros f Hf. apply put_writes. eauto.
  - apply put_writes. auto.
  - apply writes_iter. intros a Ha. apply put_writes. right. right. right. eauto.
Qed.

(** A written object that later writes of other keys leave in place. *)
Lemma put_then_kept key manifest k k' pool :
  put key manifest k = (Ok tt, k') ->
  (m ← json_get "metadata" manifest; json_get "labels" m) = Some (JObj [(POOL_LABEL, JStr pool)]) ->
  exists live, objects k' !! key = Some live /\ label_of POOL_LABEL live = Some pool /\
    (forall f v, (json_get "spec" manifest ≫= json_get f) = Some v ->
      (json_get "spec" (ob_data live) ≫= json_get f) = Some v).
Proof.
  intros E Hl. unfold put in E. apply kube_ok in E.
  destruct (apply_sees _ _ _ _ _ _ E) as (live & Hlive & _ & Hlab & _ & Hspec).
  exists live. split_and!; [done|by apply Hlab, to_dynamic_label|]. intros f v Hv. apply Hspec.
  cbn [ob_data to_dynamic]. rewrite json_get_cons. cbn [String.eqb Ascii.eqb Bool.eqb mbind option_bind].
  destruct (json_get "spec" manifest); done.
Qed.

(** Applying a pool writes only its own cohort, flavors, queue and local queues,
    and when it succeeds its cluster queue is there, under the pool's label, in
    the cohort and with the quotas of the spec. *)
Theorem apply_pool_spec spec allocs k r k' :
  apply_pool spec allocs k = (r, k') ->
  (forall key, ~ pool_keys spec allocs key -> objects k' !! key = objects k !! key) /\
  (r = Ok tt -> exists live, objects k' !! (KClusterQueue, "", p_name spec) = Some live /\
     label_of POOL_LABEL live = Some (p_name spec) /\
     (json_get "spec" (ob_data live) ≫= json_get "cohortName") = Some (JStr (p_cohort spec)) /\
     (json_get "spec" (ob_data live) ≫= json_get "resourceGroups") =
       (json_get "spec" (to_cluster_queue spec) ≫= json_get "resourceGroups")).
Proof.
  intros E. split.
  { intros key Hkey. replace k' with (snd (apply_pool spec allocs k)) by by rewrite E.
    by apply apply_pool_writes. }
  intros ->. unfold apply_pool in E.
  apply ST_bind_Ok in E as ([] & k1 & _ & E). apply ST_bind_Ok in E as ([] & k2 & _ & E).
  apply ST_bind_Ok in E as ([] & k3 & Eq & E).
  destruct (put_then_kept _ _ _ _ (p_name spec) Eq) as (live & Hlive & Hlab & Hspec); [done|].
  exists live. split_and!; [|done|by apply Hspec|by apply Hspec].
  rewrite <-Hlive. replace k' with (snd (st_iter (fun a =>
    put (KLocalQueue, a_namespace a, a_project a) (to_local_queue a)) allocs k3)) by by rewrite E.
  assert (Hw : writes_only (fun key => exists ns n, key = (KLocalQueue, ns, n)) (st_iter (fun a =>
    put (KLocalQueue, a_namespace a, a_project a) (to_local_queue a)) allocs)).
  { apply writes_iter. intros a _. apply put_writes. by eexists _, _. }
  apply Hw. by intros (? & ? & [=]).
Qed.
End facts.
