(* ===== verification/DaskClient.v ===== *)
(** * The live Dask provisioner (crates/mobula-provision/src/dask_client.rs)

    The calls of the Dask client over the same Kubernetes API, with what an apply
    leaves and what an observation tolerates. *)

From S2P Require Import Prelude Float64 Core Policy Store Json Provision Manifests.
From S2P Require Import Network Nodes Kube KubeRay KubeRayFacts.
#[local] Open Scope Z_scope.
#[local] Open Scope string_scope.

Module DaskClient.
Section calls.
Context {K} `{Kube K} `{Serde} `{SerdeErrors}.

Definition admin_managed_deny (ns : string) : ST K ProvisionError bool :=
  existing ← kube (k_list KNetworkPolicy ns None);
  mret (existsb (fun p =>
    let ours := is_some_and (label_of MANAGED_BY_LABEL p) (fun v => String.eqb v FIELD_MANAGER) in
    negb ours && is_default_deny (ob_data p)) existing).

Definition ensure_cluster_allow (ns id : string) (owner : option string) : ST K ProvisionError unit :=
  denied ← admin_managed_deny ns;
  if denied : bool then mret tt
  else
    let manifest := DaskNet.cluster_allow_network_policy id owner in
    let name := cluster_allow_policy_name id in
    match string_map (json_index "labels" (json_index "metadata" manifest)) with
    | None => st_err (PBackend not_a_string_map)
    | Some labels =>
        kube (k_apply (KNetworkPolicy, ns, name) FIELD_MANAGER true {|
          ob_name := Some name; ob_namespace := None; ob_labels := Some labels; ob_annotations := None;
          ob_data := JObj [("spec", json_index "spec" manifest)] |})
    end.

Definition delete_cluster_allow (ns id : string) : ST K ProvisionError unit :=
  delete_idempotent (KNetworkPolicy, ns, cluster_allow_policy_name id).

Definition list_cluster_pods (ns id : string) : ST K ProvisionError (list Value) :=
  l ← kube (k_list KPod ns (Some (DaskCr.DASK_CLUSTER_NAME_LABEL, id)));
  mret (omap object_json l).

Definition map_absent (id : ClusterId) (e : KubeError) : ProvisionError :=
  if is_404 e then NotFound id else from_kube e.

Definition daskcluster_object (id : ClusterId) (spec : ClusterSpec) (generation : Z) : DynamicObject :=
  let labels : gmap string string := <[CLUSTER_ID_LABEL := id]> {[MANAGED_BY_LABEL := FIELD_MANAGER]} in
  let labels := match cs_owner spec with Some o => <[OWNER_LABEL := o]> labels | None => labels end in
  {| ob_name := Some id; ob_namespace := None; ob_labels := Some labels;
     ob_annotations := Some {[GENERATION_ANNOTATION := u64_str generation]};
     ob_data := JObj [("spec", json_index "spec" (DaskCr.to_daskcluster id spec generation))] |}.

Definition apply (ns : string) (id : ClusterId) (spec : ClusterSpec) (generation : Z)
  : ST K ProvisionError ApplyResponse :=
  ensure_cluster_allow ns id (cs_owner spec) ≫= fun _ =>
  kube (k_apply (KDaskCluster, ns, id) FIELD_MANAGER true (daskcluster_object id spec generation)) ≫= fun _ =>
  mret {| ap_generation := generation; ap_api_base_url := None |}.

Definition terminate (ns : string) (id : ClusterId) : ST K ProvisionError unit :=
  delete_idempotent (KDaskCluster, ns, id) ≫= fun _ => delete_cluster_allow ns id.

Definition reap_network_policies (ns : string) (id : ClusterId) : ST K ProvisionError unit :=
  delete_cluster_allow ns id.

Definition suspend (_id : ClusterId) : ST K ProvisionError unit := mret tt.
Definition resume (_id : ClusterId) : ST K ProvisionError unit := mret tt.

(** [get_opt(..).map_err(map_absent)?.ok_or(NotFound)?]. *)
Definition get_cluster (ns : string) (id : ClusterId) : ST K ProvisionError DynamicObject := fun k =>
  match k_get_opt (KDaskCluster, ns, id) k with
  | (Ok (Some obj), k') => (Ok obj, k')
  | (Ok None, k') => (Err (NotFound id), k')
  | (Err e, k') => (Err (map_absent id e), k')
  end.

(** The state from the pods, or from the resource's phase when no pod is seen. *)
Definition state_of (ns : string) (id : ClusterId) (obj : DynamicObject) : ST K ProvisionError ClusterState :=
  let phase := DaskCr.status_to_state (status_of obj) in fun k =>
  match list_cluster_pods ns id k with
  | (Ok pods, k') => (Ok (default phase (DaskCr.observed_state_from_pods pods)), k')
  | (Err _, k') => (Ok phase, k')
  end.

Definition observed_of (id : ClusterId) (obj : DynamicObject) (state : ClusterState) : ObservedCluster := {|
  o_id := id; o_state := state;
  o_observed_generation := observed_generation obj;
  o_spec_fingerprint := json_get "spec" (ob_data obj) ≫= DaskCr.fingerprint_from_cr;
  o_api_base_url := None |}.

Definition observe (ns : string) (id : ClusterId) : ST K ProvisionError ObservedCluster :=
  obj ← get_cluster ns id;
  state ← state_of ns id obj;
  mret (observed_of id obj state).

Definition list_clusters (ns : string) : ST K ProvisionError (list ObservedCluster) := fun k =>
  match k_list KDaskCluster ns (Some (MANAGED_BY_LABEL, FIELD_MANAGER)) k with
  | (Ok l, k') => (Ok (omap (fun obj => (fun name =>
      observed_of name obj (DaskCr.status_to_state (status_of obj))) <$> ob_name obj) l), k')
  | (Err e, k') => (if is_404 e then Ok [] else Err (from_kube e), k')
  end.

Definition cluster_nodes (ns : string) (id : ClusterId) : ST K ProvisionError (option ClusterNodes) :=
  get_cluster ns id ≫= fun _ =>
  pods ← list_cluster_pods ns id;
  mret (Some (DaskNodes.node_breakdown id pods)).
End calls.

(** ** What it promises *)

Section facts.
Context {K} `{KubeLaws K} `{Serde} `{SerdeErrors}.

Lemma dask_value_from_cr_ext a b :
  json_get "scheduler" a = json_get "scheduler" b -> json_get "worker" a = json_get "worker" b ->
  DaskCr.value_from_cr a = DaskCr.value_from_cr b.
Proof. intros Hs Hw. unfold DaskCr.value_from_cr, DaskCr.worker_from_cr. by rewrite Hs, Hw. Qed.

Lemma dask_carried_reads_back id spec generation live state :
  cs_worker_groups spec <> [] -> is_u64 generation ->
  carries live (daskcluster_object id spec generation) ->
  let o := observed_of id live state in
  o_observed_generation o = Some generation /\
  o_spec_fingerprint o = Some (Dask.owned_spec_fingerprint spec).
Proof.
  intros Hwg Hgen (_ & _ & Hann & Hspec). cbn zeta. cbn [o_observed_generation o_spec_fingerprint observed_of].
  split.
  - unfold observed_generation. rewrite (Hann GENERATION_ANNOTATION (u64_str generation)).
    + by apply parse_u64_str.
    + unfold annotation_of. cbn [ob_annotations daskcluster_object mbind option_bind]. apply lookup_singleton_eq.
  - destruct (cs_worker_groups spec) as [|g gs] eqn:Eg; [done|].
    pose proof (dask_reads_back id spec generation g gs Eg) as Hread.
    unfold dask_cr_spec in Hread. cbn [ob_data daskcluster_object] in Hspec.
    rewrite json_get_cons in Hspec. cbn [String.eqb Ascii.eqb Bool.eqb mbind option_bind] in Hspec.
    unfold json_index in Hspec.
    destruct (json_get "spec" (DaskCr.to_daskcluster id spec generation)) as [sp|] eqn:Esp; [|done].
    cbn [default mbind option_bind] in Hspec, Hread.
    assert (exists v, json_get "scheduler" sp = Some v) as [s Hs] by (injection Esp as <-; by eexists).
    assert (exists v, json_get "worker" sp = Some v) as [w Hw] by (injection Esp as <-; by eexists).
    pose proof (Hspec _ _ Hs) as Ls. pose proof (Hspec _ _ Hw) as Lw.
    destruct (json_get "spec" (ob_data live)) as [cr|]; [|done]. cbn [mbind option_bind] in *.
    unfold DaskCr.fingerprint_from_cr. rewrite (dask_value_from_cr_ext cr sp), Hread by congruence. done.
Qed.

(** An observation of a Dask cluster fails only when the resource itself cannot
    be read: a failing pod list never does, it falls back to the resource's
    phase. *)
Lemma observe_spec ns id k r k' :
  observe ns id k = (r, k') ->
  (exists e, fst (k_get_opt (KDaskCluster, ns, id) k) = Err e /\ r = Err (map_absent id e)) \/
  (objects k !! (KDaskCluster, ns, id) = None /\ r = Err (NotFound id)) \/
  (exists obj state, objects k !! (KDaskCluster, ns, id) = Some obj /\ r = Ok (observed_of id obj state)).
Proof.
  intros E. unfold observe, get_cluster in E. rewrite ST_bind_eq in E.
  destruct (k_get_opt (KDaskCluster, ns, id) k) as [[[obj|]|e] k1] eqn:Eg.
  - apply get_sees in Eg. right. right. unfold state_of in E. rewrite ST_bind_eq in E.
    destruct (list_cluster_pods ns id k1) as [[pods|e] k2]; injection E as <- _; eauto.
  - apply get_sees in Eg. right. left. by injection E as <- _.
  - left. injection E as <- _. eauto.
Qed.

(** An apply that succeeds is observed: the next observation that can read the
    resource reports the generation and the fingerprint applied. *)
Theorem dask_apply_is_observed ns id spec generation k r k' o :
  cs_worker_groups spec <> [] -> is_u64 generation ->
  apply ns id spec generation k = (Ok r, k') ->
  fst (observe ns id k') = Ok o ->
  r = {| ap_generation := generation; ap_api_base_url := None |} /\
  o_observed_generation o = Some generation /\
  o_spec_fingerprint o = Some (Dask.owned_spec_fingerprint spec).
Proof.
  intros Hwg Hgen E Hobs. unfold apply in E. apply ST_bind_Ok in E as ([] & k1 & _ & E).
  apply ST_bind_Ok in E as ([] & k2 & Eput & E). injection E as <- <-.
  apply kube_ok in Eput. destruct (apply_sees _ _ _ _ _ _ Eput) as (live & Hlive & Hcarries).
  split; [done|]. destruct (observe ns id k2) as [res k3] eqn:Eo. cbn in Hobs. subst res.
  apply observe_spec in Eo as [(e & _ & [=])|[[_ [=]]|(obj & state & Hobj & [= ->])]].
  rewrite Hlive in Hobj. injection Hobj as <-. by eapply dask_carried_reads_back.
Qed.
End facts.
End DaskClient.
