(* ===== verification/Router.v ===== *)
(** * The engine router (crates/mobula-provision/src/router.rs)

    One provisioner in front of the Ray and the Dask backend: each call goes to
    the backend of the cluster's engine, which an apply knows and the other calls
    resolve from a cache or by a probe. The two backends act on one state [P], in
    production one namespace of one API server. *)

From S2P Require Import Prelude Float64 Core Policy Store Json Provision Manifests.
From S2P Require Import Network Nodes Kube KubeRay KubeRayFacts DaskClient.
#[local] Open Scope Z_scope.
#[local] Open Scope string_scope.
#[local] Open Scope list_scope.

Record EngineRouter (P : Type) := { er_backends : P; er_cache : gmap string Engine }.
Arguments er_backends {P} _.
Arguments er_cache {P} _.
Arguments Build_EngineRouter {P} _ _.

(** The backends' other calls, which are not in [Provisioner]. *)
Class Lister (P : Type) := pv_list : ST P ProvisionError (list ObservedCluster).
Class NodeViewer (P : Type) := pv_cluster_nodes : ClusterId -> ST P ProvisionError (option ClusterNodes).

Section router.
Context {P : Type} (ray dask : Provisioner P).

Definition backend (e : Engine) : Provisioner P := match e with Ray => ray | Dask => dask end.

(** A call of a backend leaves the cache alone. *)
Definition on_backend {A} (m : ST P ProvisionError A) : ST (EngineRouter P) ProvisionError A := fun r =>
  let '(res, p) := m (er_backends r) in (res, {| er_backends := p; er_cache := er_cache r |}).

Definition remember (id : string) (e : Engine) : ST (EngineRouter P) ProvisionError unit :=
  st_put (fun r => {| er_backends := er_backends r; er_cache := <[id := e]> (er_cache r) |}).

(** The outcome of a call, as a value. *)
Definition outcome {A} (m : ST (EngineRouter P) ProvisionError A)
  : ST (EngineRouter P) ProvisionError (result ProvisionError A) := fun r =>
  let '(res, r') := m r in (Ok res, r').

Definition engine_of (id : ClusterId) : ST (EngineRouter P) ProvisionError Engine :=
  cached ← st_get (fun r => er_cache r !! id);
  match cached with
  | Some e => mret e
  | None =>
      probe ← outcome (on_backend (pv_observe (Provisioner := dask) id));
      let engine := match probe with Ok _ => Dask | Err _ => Ray end in
      remember id engine ≫= fun _ => mret engine
  end.

Definition apply (id : ClusterId) (spec : ClusterSpec) (generation : Z) (key : string)
    (queue : option QueueAssignment) : ST (EngineRouter P) ProvisionError ApplyResponse :=
  remember id (cs_engine spec) ≫= fun _ =>
  on_backend (pv_apply (Provisioner := backend (cs_engine spec)) id spec generation key queue).

Definition ensure_namespace_posture : ST (EngineRouter P) ProvisionError unit :=
  on_backend (pv_ensure_namespace_posture (Provisioner := ray)).

(** A level-triggered call: to the backend of the engine resolved. *)
Definition dispatch {A} (call : Provisioner P -> ST P ProvisionError A) (id : ClusterId)
  : ST (EngineRouter P) ProvisionError A :=
  engine ← engine_of id;
  on_backend (call (backend engine)).

Definition terminate (id : ClusterId) : ST (EngineRouter P) ProvisionError unit :=
  dispatch (fun b => pv_terminate (Provisioner := b) id) id.

Definition reap_network_policies (id : ClusterId) : ST (EngineRouter P) ProvisionError unit :=
  on_backend (pv_reap_network_policies (Provisioner := ray) id) ≫= fun _ =>
  on_backend (pv_reap_network_policies (Provisioner := dask) id).

Definition suspend (id : ClusterId) : ST (EngineRouter P) ProvisionError unit :=
  dispatch (fun b => pv_suspend (Provisioner := b) id) id.

Definition resume (id : ClusterId) : ST (EngineRouter P) ProvisionError unit :=
  dispatch (fun b => pv_resume (Provisioner := b) id) id.

(** Unlike [engine_of], an observation treats only an absent Dask cluster as Ray. *)
Definition observe (id : ClusterId) : ST (EngineRouter P) ProvisionError ObservedCluster :=
  cached ← st_get (fun r => er_cache r !! id);
  match cached with
  | Some e => on_backend (pv_observe (Provisioner := backend e) id)
  | None =>
      probe ← outcome (on_backend (pv_observe (Provisioner := dask) id));
      match probe with
      | Ok o => remember id Dask ≫= fun _ => mret o
      | Err (NotFound _) => remember id Ray ≫= fun _ => on_backend (pv_observe (Provisioner := ray) id)
      | Err e => st_err e
      end
  end.

Definition list_clusters (ray_list dask_list : Lister P) : ST (EngineRouter P) ProvisionError (list ObservedCluster) :=
  out ← on_backend ray_list;
  st_iter (fun o => remember (o_id o) Ray) out ≫= fun _ =>
  dk ← on_backend dask_list;
  st_iter (fun o => remember (o_id o) Dask) dk ≫= fun _ =>
  mret (out ++ dk).

(** [metrics_endpoint] and [dashboard_api_base]; the cache is read only when its
    lock is free. *)
Definition ray_endpoint (of_ray : ClusterId -> option string) (lock_free : bool) (id : ClusterId)
    (r : EngineRouter P) : option string :=
  match (if lock_free then er_cache r !! id else None) with
  | Some Dask => None
  | _ => of_ray id
  end.

Definition cluster_nodes (ray_nodes dask_nodes : NodeViewer P) (id : ClusterId)
  : ST (EngineRouter P) ProvisionError (option ClusterNodes) :=
  engine ← engine_of id;
  on_backend (match engine with Ray => ray_nodes id | Dask => dask_nodes id end).

Definition cluster_events (ray_events dask_events : ClusterId -> ST P ProvisionError (option (list ClusterEvent)))
    (id : ClusterId) : ST (EngineRouter P) ProvisionError (option (list ClusterEvent)) :=
  engine ← engine_of id;
  on_backend (match engine with Ray => ray_events id | Dask => dask_events id end).

Definition cluster_logs
    (ray_logs dask_logs : ClusterId -> option string -> nat -> ST P ProvisionError (option ClusterLogs))
    (id : ClusterId) (pod : option string) (tail : nat) : ST (EngineRouter P) ProvisionError (option ClusterLogs) :=
  engine ← engine_of id;
  on_backend (match engine with Ray => ray_logs id pod tail | Dask => dask_logs id pod tail end).
End router.

Definition router_provisioner {P} (ray dask : Provisioner P) : Provisioner (EngineRouter P) := {|
  pv_apply := apply ray dask;
  pv_ensure_namespace_posture := ensure_namespace_posture ray;
  pv_terminate := terminate ray dask;
  pv_reap_network_policies := reap_network_policies ray dask;
  pv_suspend := suspend ray dask;
  pv_resume := resume ray dask;
  pv_observe := observe ray dask |}.

(** The Dask calls on the namespace the Ray provisioner works in. *)
Definition dask_in_namespace {K} `{Kube K} `{Serde} `{SerdeErrors} : Provisioner (KubeRayProvisioner K) := {|
  pv_apply := fun id spec gen _key _queue => with_client (fun ns _ => DaskClient.apply ns id spec gen);
  pv_ensure_namespace_posture := mret tt;
  pv_terminate := fun id => with_client (fun ns _ => DaskClient.terminate ns id);
  pv_reap_network_policies := fun id => with_client (fun ns _ => DaskClient.reap_network_policies ns id);
  pv_suspend := fun id => with_client (fun _ _ => DaskClient.suspend id);
  pv_resume := fun id => with_client (fun _ _ => DaskClient.resume id);
  pv_observe := fun id => with_client (fun ns _ => DaskClient.observe ns id) |}.

(** ** Dispatch *)

Section dispatch.
Context {P : Type} (ray dask : Provisioner P).

(** A cluster whose engine is cached. *)
Definition knows (r : EngineRouter P) (id : ClusterId) (e : Engine) : Prop := er_cache r !! id = Some e.

Lemma engine_of_cached id e r : knows r id e -> engine_of dask id r = (Ok e, r).
Proof. intros Hk. unfold engine_of. rewrite ST_bind_eq. cbn. unfold knows in Hk. by rewrite Hk. Qed.

Lemma dispatch_cached {A} (call : Provisioner P -> ST P ProvisionError A) id e r :
  knows r id e -> dispatch ray dask call id r = on_backend (call (backend ray dask e)) r.
Proof. intros Hk. unfold dispatch. by rewrite ST_bind_eq, (engine_of_cached id e r Hk). Qed.

(** After an apply, succeeded or failed, every further call for the cluster goes
    straight to the backend of the engine its spec names: exactly that backend's
    call, no probe, and the cache as it was. Only an apply with another engine, a
    probe of an uncached id or a listing changes what is cached. *)
Theorem apply_pins_the_engine id spec gen key queue r res r' :
  apply ray dask id spec gen key queue r = (res, r') ->
  let b := backend ray dask (cs_engine spec) in
  res = fst (pv_apply (Provisioner := b) id spec gen key queue (er_backends r)) /\
  er_backends r' = snd (pv_apply (Provisioner := b) id spec gen key queue (er_backends r)) /\
  er_cache r' = <[id := cs_engine spec]> (er_cache r) /\
  terminate ray dask id r' = on_backend (pv_terminate (Provisioner := b) id) r' /\
  suspend ray dask id r' = on_backend (pv_suspend (Provisioner := b) id) r' /\
  resume ray dask id r' = on_backend (pv_resume (Provisioner := b) id) r' /\
  observe ray dask id r' = on_backend (pv_observe (Provisioner := b) id) r'.
Proof.
  intros E b. unfold apply in E. rewrite ST_bind_eq in E.
  cbn [remember st_put] in E. unfold on_backend at 1 in E. cbn [er_backends er_cache] in E. fold b in E.
  destruct (pv_apply id spec gen key queue (er_backends r)) as [res0 p0].
  injection E as <- <-. cbn [er_backends er_cache fst snd].
  set (r' := {| er_backends := p0; er_cache := <[id := cs_engine spec]> (er_cache r) |}).
  assert (Hk : knows r' id (cs_engine spec)) by apply lookup_insert_eq.
  split_and!; [done..| | | |].
  - exact (dispatch_cached (fun b => pv_terminate (Provisioner := b) id) id _ r' Hk).
  - exact (dispatch_cached (fun b => pv_suspend (Provisioner := b) id) id _ r' Hk).
  - exact (dispatch_cached (fun b => pv_resume (Provisioner := b) id) id _ r' Hk).
  - unfold observe. rewrite ST_bind_eq. cbn [st_get]. unfold knows in Hk. by rewrite Hk.
Qed.

(** A listing leaves every Dask cluster it saw cached as Dask, every other one it
    saw as Ray, and what it did not see alone. *)
Lemma remember_all e l (r : EngineRouter P) :
  st_iter (fun o => remember (o_id o) e) l r =
  (Ok tt, {| er_backends := er_backends r; er_cache := foldl (fun m o => <[o_id o := e]> m) (er_cache r) l |}).
Proof.
  revert r. induction l as [|o l IH]; intros r; [by destruct r|].
  change (st_iter (fun o => remember (o_id o) e) (o :: l) r) with
    ((remember (o_id o) e ≫= fun _ => st_iter (fun o => remember (o_id o) e) l) r).
  rewrite ST_bind_eq. unfold remember at 1, st_put. rewrite IH. done.
Qed.

Lemma foldl_insert_lookup (e : Engine) l (m : gmap string Engine) id :
  foldl (fun m o => <[o_id o := e]> m) m l !! id =
  if decide (id ∈ (o_id <$> l : list string)) then Some e else m !! id.
Proof.
  revert m. induction l as [|o l IH]; intros m; [done|]. cbn [foldl]. rewrite IH.
  cbn [fmap list_fmap]. destruct (decide (id = o_id o)) as [->|Hne].
  - rewrite lookup_insert_eq. repeat case_decide; set_solver.
  - rewrite lookup_insert_ne by done. repeat case_decide; set_solver.
Qed.

Lemma list_warms_the_cache (ray_list dask_list : Lister P) r out r' id :
  list_clusters ray_list dask_list r = (Ok out, r') ->
  exists rl dl, out = rl ++ dl /\
  er_cache r' !! id =
    (if decide (id ∈ (o_id <$> dl : list string)) then Some Dask
     else if decide (id ∈ (o_id <$> rl : list string)) then Some Ray else er_cache r !! id).
Proof.
  intros E. unfold list_clusters in E. apply ST_bind_Ok in E as (rl & r1 & E1 & E).
  rewrite ST_bind_eq, remember_all in E. apply ST_bind_Ok in E as (dl & r2 & E2 & E).
  rewrite ST_bind_eq, remember_all in E. injection E as <- <-. exists rl, dl. split; [done|].
  cbn [er_cache]. rewrite foldl_insert_lookup. case_decide; [done|].
  unfold on_backend in E1, E2. destruct (ray_list (er_backends r)) as [? p1]. injection E1 as -> <-.
  cbn [er_backends er_cache] in E2.
  destruct (dask_list p1) as [? p2]. injection E2 as -> <-. cbn [er_cache]. by rewrite foldl_insert_lookup.
Qed.

(** ** A failed probe *)

(** When the engine is not cached and the probe fails for whatever reason, the
    call goes to the Ray backend and the cluster is cached as Ray: later
    observations ask Ray too. *)
Lemma failed_probe_means_ray id r e p1 :
  er_cache r !! id = None ->
  pv_observe (Provisioner := dask) id (er_backends r) = (Err e, p1) ->
  let r1 := {| er_backends := p1; er_cache := <[id := Ray]> (er_cache r) |} in
  terminate ray dask id r = on_backend (pv_terminate (Provisioner := ray) id) r1 /\
  observe ray dask id r1 = on_backend (pv_observe (Provisioner := ray) id) r1.
Proof.
  intros Hc Hp r1.
  assert (Hprobe : outcome (on_backend (pv_observe (Provisioner := dask) id)) r =
    (Ok (Err e), {| er_backends := p1; er_cache := er_cache r |})).
  { unfold outcome, on_backend. by rewrite Hp. }
  assert (He : engine_of dask id r = (Ok Ray, r1)).
  { unfold engine_of. rewrite ST_bind_eq. cbn [st_get]. by rewrite Hc, ST_bind_eq, Hprobe. }
  split.
  - unfold terminate, dispatch. by rewrite ST_bind_eq, He.
  - unfold observe. rewrite ST_bind_eq. cbn [st_get er_cache r1]. by rewrite lookup_insert_eq.
Qed.
End dispatch.

(** ** Two ways to lose a cluster *)

#[local] Instance exact_serde : Serde := {|
  json_text := exact_text; spec_json := fun s => cs_name s; apply_response_json := fun g _ => u64_str g |}.
#[local] Instance no_serde_errors : SerdeErrors := "not a map of strings".

(** An API server whose first reads of a single object time out. *)
Record FlakyKube := { fk_timeouts : nat; fk_kube : DemoKube }.

Definition steady {A} (m : ST DemoKube KubeError A) : ST FlakyKube KubeError A := fun f =>
  let '(r, k) := m (fk_kube f) in (r, {| fk_timeouts := fk_timeouts f; fk_kube := k |}).

#[local] Instance flaky_kube : Kube FlakyKube := {|
  k_get_opt := fun key f =>
    match fk_timeouts f with
    | S n => (Err (KubeOther "timeout"), {| fk_timeouts := n; fk_kube := fk_kube f |})
    | O => steady (k_get_opt key) f
    end;
  k_list := fun kind ns sel => steady (k_list kind ns sel);
  k_list_all := fun kind sel => steady (k_list_all kind sel);
  k_discover := fun kind => steady (k_discover kind);
  k_apply := fun key manager force o => steady (k_apply key manager force o);
  k_merge := fun key patch => steady (k_merge key patch);
  k_delete := fun key => steady (k_delete key);
  k_logs := fun ns pod tail => steady (k_logs ns pod tail);
  object_json := object_json |}.

Definition with_engine (e : Engine) (s : ClusterSpec) : ClusterSpec := {|
  cs_name := cs_name s; cs_project := cs_project s; cs_engine := e;
  cs_ray_version := cs_ray_version s; cs_image := cs_image s;
  cs_head_cpu := cs_head_cpu s; cs_head_memory := cs_head_memory s;
  cs_worker_groups := cs_worker_groups s; cs_ttl_seconds := cs_ttl_seconds s;
  cs_idle_timeout_secs := cs_idle_timeout_secs s; cs_owner := cs_owner s |}.

Definition router_on {K} (k : K) : EngineRouter (KubeRayProvisioner K) := {|
  er_backends := {| kr_client := k; kr_namespace := "ray"; kr_autoscaling := false |}; er_cache := ∅ |}.

(** The namespace with a Dask cluster [d1] applied through a router. *)
Definition dask_running : DemoKube :=
  kr_client (er_backends (snd (apply kuberay_provisioner dask_in_namespace "d1"
    (with_engine Dask demo_spec) 1 "d1/1" None (router_on {| dk_objects := ∅ |})))).

(** After a restart, one timed-out probe during a terminate: the call succeeds,
    the Dask cluster stays, and from then on it is observed as gone. *)
Lemma timeout_orphans_dask :
  let r := router_on {| fk_timeouts := 1; fk_kube := dask_running |} in
  let '(res, r1) := terminate kuberay_provisioner dask_in_namespace "d1" r in
  res = Ok tt /\
  is_Some (dk_objects (fk_kube (kr_client (er_backends r1))) !! (KDaskCluster, "ray", "d1")) /\
  fst (observe kuberay_provisioner dask_in_namespace "d1" r1) = Err (NotFound "d1").
Proof. vm_compute. split_and!; [done|by eexists|done]. Qed.

(** A cluster whose spec changes engine is applied to the new backend only, and a
    later terminate reaches only that one: the old resource is left running. *)
Lemma engine_switch_orphans :
  let rt := router_on {| dk_objects := ∅ |} in
  let step e g r := snd (apply kuberay_provisioner dask_in_namespace "c1" (with_engine e demo_spec) g "k" None r) in
  let '(res, r1) := terminate kuberay_provisioner dask_in_namespace "c1" (step Dask 2 (step Ray 1 rt)) in
  res = Ok tt /\
  is_Some (dk_objects (kr_client (er_backends r1)) !! (KRayCluster, "ray", "c1")) /\
  dk_objects (kr_client (er_backends r1)) !! (KDaskCluster, "ray", "c1") = None.
Proof. vm_compute. split_and!; [done|by eexists|done]. Qed.

Lemma apply_pins_the_engine_witness :
  exists res r', apply kuberay_provisioner dask_in_namespace "d1" (with_engine Dask demo_spec) 1 "d1/1" None
    (router_on {| dk_objects := ∅ |}) = (res, r') /\
  let b := dask_in_namespace (K := DemoKube) in
  let r := router_on {| dk_objects := ∅ |} in
  res = fst (pv_apply (Provisioner := b) "d1" (with_engine Dask demo_spec) 1 "d1/1" None (er_backends r)) /\
  er_backends r' = snd (pv_apply (Provisioner := b) "d1" (with_engine Dask demo_spec) 1 "d1/1" None (er_backends r)) /\
  er_cache r' = <["d1" := Dask]> (er_cache r) /\
  terminate kuberay_provisioner dask_in_namespace "d1" r' = on_backend (pv_terminate (Provisioner := b) "d1") r' /\
  suspend kuberay_provisioner dask_in_namespace "d1" r' = on_backend (pv_suspend (Provisioner := b) "d1") r' /\
  resume kuberay_provisioner dask_in_namespace "d1" r' = on_backend (pv_resume (Provisioner := b) "d1") r' /\
  observe kuberay_provisioner dask_in_namespace "d1" r' = on_backend (pv_observe (Provisioner := b) "d1") r'.
Proof.
  eexists _, _. split; [apply surjective_pairing|].
  apply (apply_pins_the_engine kuberay_provisioner dask_in_namespace "d1" (with_engine Dask demo_spec) 1 "d1/1" None
    (router_on {| dk_objects := ∅ |})). apply surjective_pairing.
Defined.
