(* ===== verification/Reconcile.v ===== *)
(** * Reconcile engine (crates/mobula-controller/src/reconcile.rs)

    The observation-first reconcile pass over every stored cluster, its backoff
    and token bucket, the lifecycle reapers, the stale-restore check and one tick
    of the control loop. The engine is generic over a [Provisioner]; the store is
    [InMemoryStore]. Logging is not modelled. *)

From S2P Require Import Prelude Float64 Core Policy Store Provision.
#[local] Open Scope Z_scope.

Definition INTENT_RETENTION_SECS : Z := 3600.
Definition TERMINATED_RETENTION_SECS : Z := 24 * 3600.
Definition BACKOFF_BASE_SECS : Z := 5.
Definition BACKOFF_CEIL_SECS : Z := 300.

Definition backoff_secs (failure_count : Z) : Z :=
  let shift := Z.min (sat_sub failure_count 1) 20 in
  Z.min (u64_sat_mul BACKOFF_BASE_SECS (Z.shiftl 1 shift mod 2 ^ 64)) BACKOFF_CEIL_SECS.

(** ** The token bucket

    Over any arithmetic: the code computes in [f64]; exact rationals give the
    statement free of rounding. *)
Section bucket.
Context {A : Type} `{Numeric A}.

Record RateLimits := { rl_capacity : A; rl_refill_per_sec : A }.

Record TokenBucket := { tb_tokens : A; tb_capacity : A; tb_refill_per_sec : A; tb_last : Z }.

Definition bucket_new (limits : RateLimits) (now : Z) : TokenBucket := {|
  tb_tokens := rl_capacity limits; tb_capacity := rl_capacity limits;
  tb_refill_per_sec := rl_refill_per_sec limits; tb_last := now |}.

Definition try_take (now : Z) (b : TokenBucket) : bool * TokenBucket :=
  let elapsed := n_of_Z (sat_sub now (tb_last b)) in
  let tokens := n_min (n_add (tb_tokens b) (n_mul elapsed (tb_refill_per_sec b))) (tb_capacity b) in
  let with_tokens t := {| tb_tokens := t; tb_capacity := tb_capacity b;
                          tb_refill_per_sec := tb_refill_per_sec b; tb_last := now |} in
  if n_leb (n_of_Z 1) tokens then (true, with_tokens (n_sub tokens (n_of_Z 1)))
  else (false, with_tokens tokens).
End bucket.
Arguments RateLimits : clear implicits.
Arguments TokenBucket : clear implicits.

Inductive ReconcileError :=
| RStore (e : StoreError)
| RProvision (e : ProvisionError)
| StaleIntent (key : string).

Inductive Action := NoOp | Applied | ATerminated | ASuspended | Drift | Backoff.
#[export] Instance Action_eq_dec : EqDecision Action.
Proof. solve_decision. Defined.

(** ** Pure decisions *)

Definition observed_gone (observed : option ClusterState) : bool :=
  match observed with None | Some Terminated => true | _ => false end.

Definition is_purgeable_tombstone (c : StoredCluster) (now retention_secs : Z) : bool :=
  match c_desired c with DTerminated => true | _ => false end
  && observed_gone (c_observed_state c)
  && is_some_and (c_terminated_at c) (fun t => Z.leb retention_secs (sat_sub now t)).

Inductive ReapReason := MaxAge | Idle.

Definition desired_and_observed_running (c : StoredCluster) : bool :=
  match c_desired c with DRunning => true | _ => false end
  && bool_decide (c_observed_state c = Some Running).

Definition is_expired (c : StoredCluster) (now : Z) : bool :=
  desired_and_observed_running c
  && is_some_and (cs_ttl_seconds (c_spec c)) (fun ttl => Z.leb ttl (sat_sub now (c_created_at c))).

Definition job_is_terminal (status : string) : bool :=
  let s := to_ascii_uppercase status in
  String.eqb s "SUCCEEDED" || String.eqb s "FAILED" || String.eqb s "STOPPED".

Fixpoint last_activity_loop (last : Z) (jobs : list JobRecord) (now : Z) : Z :=
  match jobs with
  | [] => last
  | j :: jobs' =>
      if negb (job_is_terminal (j_status j)) then now
      else last_activity_loop
             (Z.max last (u64_sat_add (j_submitted_at j) (default 0 (j_duration_secs j)))) jobs' now
  end.
Definition last_activity_at (created_at : Z) (jobs : list JobRecord) (now : Z) : Z :=
  last_activity_loop created_at jobs now.

Definition is_idle_expired (c : StoredCluster) (last_activity now : Z) : bool :=
  desired_and_observed_running c
  && is_some_and (cs_idle_timeout_secs (c_spec c))
       (fun idle => Z.leb idle (sat_sub now last_activity)).

Definition needs_apply (observed : option ClusterState)
    (observed_generation desired_generation : Z) (queued : bool) : bool :=
  match observed with
  | None => true
  | Some Terminated | Some Terminating => true
  | Some Suspended => negb queued
  | Some _ => Z.ltb observed_generation desired_generation
  end.

(** ** The engine *)

(** What a pass reads and writes: the store, the backend, the token bucket, and
    a wall clock whose successive reads [now_unix] returns. *)
Record World (P : Type) := {
  w_store : InMemoryStore;
  w_prov : P;
  w_limits : option (TokenBucket f64);
  w_clock : nat -> Z;
  w_reads : nat;
}.
Arguments w_store {P} _.
Arguments w_prov {P} _.
Arguments w_limits {P} _.
Arguments w_clock {P} _.
Arguments w_reads {P} _.
Arguments Build_World {P} _ _ _ _ _.

Section engine.
Context {P : Type} `{Provisioner P} `{Serde}.
Abbreviation R := (ST (World P) ReconcileError).

Definition set_store (s : InMemoryStore) (w : World P) : World P := {|
  w_store := s; w_prov := w_prov w; w_limits := w_limits w; w_clock := w_clock w;
  w_reads := w_reads w |}.
Definition set_prov (p : P) (w : World P) : World P := {|
  w_store := w_store w; w_prov := p; w_limits := w_limits w; w_clock := w_clock w;
  w_reads := w_reads w |}.
Definition set_limits (b : option (TokenBucket f64)) (w : World P) : World P := {|
  w_store := w_store w; w_prov := w_prov w; w_limits := b; w_clock := w_clock w;
  w_reads := w_reads w |}.

(** [self.store.f(..).await?] and [self.provisioner.f(..).await?]. *)
Definition store {A} (m : M A) : R A := fun w =>
  let '(r, s) := m (w_store w) in (map_err RStore r, set_store s w).
Definition prov {A} (m : ST P ProvisionError A) : R A := fun w =>
  let '(r, p) := m (w_prov w) in (map_err RProvision r, set_prov p w).

Definition now_unix : R Z := fun w =>
  (Ok (w_clock w (w_reads w)),
   {| w_store := w_store w; w_prov := w_prov w; w_limits := w_limits w; w_clock := w_clock w;
      w_reads := S (w_reads w) |}).

Definition params_fingerprint (spec : ClusterSpec) : string := spec_json spec.

Definition take_token (now : Z) : R bool := fun w =>
  match w_limits w with
  | None => (Ok true, w)
  | Some b => let '(granted, b') := try_take now b in (Ok granted, set_limits (Some b') w)
  end.

(** [observe], with [NotFound] read as nothing provisioned. *)
Definition try_observe (id : ClusterId) : R (option ObservedCluster) := fun w =>
  match pv_observe id (w_prov w) with
  | (Ok o, p) => (Ok (Some o), set_prov p w)
  | (Err (NotFound _), p) => (Ok None, set_prov p w)
  | (Err e, p) => (Err (RProvision e), set_prov p w)
  end.

(** How an arm of the decision ends: an early [return Ok(action)], or the action
    with the condition to persist. *)
Inductive ArmOutcome :=
| Return (a : Action)
| Decide (a : Action) (new_condition : option DriftCondition).

Definition desired_fp (spec : ClusterSpec) : string :=
  match cs_engine spec with
  | Ray => Kuberay.owned_spec_fingerprint spec
  | Dask => Dask.owned_spec_fingerprint spec
  end.

(** The transactional outbox around one apply. *)
Definition apply_through_outbox (c : StoredCluster) (queue : option QueueAssignment) : R ArmOutcome :=
  let key := intent_key c in
  let fp := params_fingerprint (c_spec c) in
  t ← now_unix;
  outcome ← store (begin_intent t key fp);
  match outcome with
  | ParamMismatch => st_err (StaleIntent key)
  | Proceed _ =>
      _ ← prov pv_ensure_namespace_posture;
      resp ← prov (pv_apply (c_id c) (c_spec c) (c_generation c) key queue);
      t' ← now_unix;
      _ ← store (complete_intent t' key
                   (apply_response_json (ap_generation resp) (ap_api_base_url resp)));
      mret (Decide Applied None)
  end.

Definition running_arm (c : StoredCluster) (observed_state : option ClusterState)
    (observed_gen : Z) (observed_fp : option string) (queue : option QueueAssignment) (now : Z)
  : R ArmOutcome :=
  match observed_state with
  | Some Degraded => mret (Decide Drift (Some DriftDegraded))
  | _ =>
      if needs_apply observed_state observed_gen (c_generation c) (bool_decide (is_Some queue)) then
        granted ← take_token now;
        if negb granted then mret (Return Backoff) else apply_through_outbox c queue
      else if is_some_and observed_fp (fun fp => negb (String.eqb fp (desired_fp (c_spec c))))
      then mret (Decide Drift (Some SpecDrift))
      else mret (Decide NoOp None)
  end.

Definition terminated_arm (c : StoredCluster) (observed_state : option ClusterState) : R ArmOutcome :=
  if is_some_and observed_state (fun s => negb (bool_decide (s = Terminated)))
  then _ ← prov (pv_terminate (c_id c)); mret (Decide ATerminated None)
  else mret (Decide NoOp None).

Definition suspended_arm (c : StoredCluster) (observed_state : option ClusterState)
    (queue : option QueueAssignment) : R ArmOutcome :=
  match queue with
  | Some _ => mret (Decide NoOp None)
  | None =>
      if is_some_and observed_state
           (fun s => match s with Suspended | Terminated | Terminating => false | _ => true end)
      then _ ← prov (pv_suspend (c_id c)); mret (Decide ASuspended None)
      else mret (Decide NoOp None)
  end.

Definition decide_and_actuate (c : StoredCluster) (observed : option ObservedCluster)
    (queue : option QueueAssignment) (now : Z) : R ArmOutcome :=
  let observed_state := o_state <$> observed in
  let observed_gen := default 0 (observed ≫= o_observed_generation) in
  match c_desired c with
  | DRunning =>
      running_arm c observed_state observed_gen (observed ≫= o_spec_fingerprint) queue now
  | DTerminated => terminated_arm c observed_state
  | DSuspended => suspended_arm c observed_state queue
  end.

(** Backoff accounting. *)
Definition progressed (c : StoredCluster) (action : Action) (final_state : option ClusterState)
  : option bool :=
  match action, c_desired c with
  | Applied, _ => Some (match final_state with
                        | None | Some Terminated | Some Terminating => false
                        | _ => true
                        end)
  | NoOp, DRunning => Some true
  | _, _ => None
  end.

Definition account_progress (c : StoredCluster) (p : option bool) (now : Z) : R unit :=
  match p with
  | Some false =>
      let failure_count := u32_sat_add (c_failure_count c) 1 in
      store (record_attempt (c_id c) failure_count
               (u64_sat_add now (backoff_secs failure_count)))
  | Some true =>
      if negb (Z.eqb (c_failure_count c) 0) || negb (Z.eqb (c_next_attempt_at c) 0)
      then store (record_attempt (c_id c) 0 0)
      else mret tt
  | None => mret tt
  end.

(** Re-observe and persist. *)
Definition persist_outcome (c : StoredCluster) (action : Action)
    (new_condition : option DriftCondition) (now : Z) : R Action :=
  final ← try_observe (c_id c);
  let final_state := o_state <$> final in
  let final_gen := default 0 (final ≫= o_observed_generation) in
  _ ← store (record_observation (c_id c) final_state final_gen);
  _ ← (if bool_decide (new_condition = c_condition c) then mret tt
       else store (set_condition (c_id c) new_condition));
  _ ← account_progress c (progressed c action final_state) now;
  mret action.

Definition in_backoff (c : StoredCluster) (now : Z) : bool :=
  match c_desired c with DRunning => true | _ => false end && Z.ltb now (c_next_attempt_at c).

Definition reconcile_one (c : StoredCluster) (now : Z) : R Action :=
  if in_backoff c now then mret Backoff
  else
    observed ← try_observe (c_id c);
    quarantined ← store is_quarantined;
    if (quarantined : bool) then
      _ ← store (record_observation (c_id c) (o_state <$> observed)
                   (default 0 (observed ≫= o_observed_generation)));
      mret NoOp
    else
      queue ← store (queue_assignment_for_project (cs_project (c_spec c)));
      decision ← decide_and_actuate c observed queue now;
      match decision with
      | Return a => mret a
      | Decide action new_condition => persist_outcome c action new_condition now
      end.

(** One entry per cluster listed at the start; an error is an entry, and the
    loop goes on with the world it left. *)
Fixpoint reconcile_loop (clusters : list StoredCluster) (now : Z) (w : World P)
  : list (string * result ReconcileError Action) * World P :=
  match clusters with
  | [] => ([], w)
  | c :: clusters' =>
      let '(r, w1) := reconcile_one c now w in
      let '(out, w2) := reconcile_loop clusters' now w1 in
      ((c_id c, r) :: out, w2)
  end.

Definition reconcile_all_at (now : Z) (w : World P)
  : list (string * result ReconcileError Action) * World P :=
  match store list_clusters w with
  | (Ok clusters, w') => reconcile_loop clusters now w'
  | (Err e, w') => ([("<list>"%string, Err e)], w')
  end.

Definition reconcile_all (w : World P) : list (string * result ReconcileError Action) * World P :=
  match now_unix w with
  | (Ok now, w') => reconcile_all_at now w'
  | (Err _, w') => ([], w')
  end.

(** *** Lifecycle reaping *)

Definition reap_reason (c : StoredCluster) (jobs : list JobRecord) (now : Z) : option ReapReason :=
  let last_activity := last_activity_at (c_created_at c) jobs now in
  if is_expired c now then Some MaxAge
  else if is_idle_expired c last_activity now then Some Idle
  else None.

(** [jobs_by_cluster], the job history bucketed by cluster id. *)
Definition cluster_jobs (id : ClusterId) (jobs : list JobRecord) : list JobRecord :=
  filter (fun j => j_cluster j = id) jobs.

Fixpoint reap_expired_loop (clusters : list StoredCluster) (jobs : list JobRecord) (now : Z)
  : R (list string) :=
  match clusters with
  | [] => mret []
  | c :: clusters' =>
      match reap_reason c (cluster_jobs (c_id c) jobs) now with
      | None => reap_expired_loop clusters' jobs now
      | Some _ =>
          t ← now_unix;
          _ ← store (set_desired t (c_id c) DTerminated);
          reaped ← reap_expired_loop clusters' jobs now;
          mret (c_id c :: reaped)
      end
  end.

Definition reap_expired (now : Z) : R (list string) :=
  clusters ← store list_clusters;
  jobs ← store list_jobs;
  reap_expired_loop clusters jobs now.

Fixpoint reap_terminated_loop (clusters : list StoredCluster) (now retention_secs : Z)
  : R (list string) :=
  match clusters with
  | [] => mret []
  | c :: clusters' =>
      if negb (is_purgeable_tombstone c now retention_secs)
      then reap_terminated_loop clusters' now retention_secs
      else fun w =>
        match prov (pv_reap_network_policies (c_id c)) w with
        | (Err _, w') => reap_terminated_loop clusters' now retention_secs w'
        | (Ok _, w') =>
            (existed ← store (remove_cluster (c_id c));
             removed ← reap_terminated_loop clusters' now retention_secs;
             mret (if (existed : bool) then c_id c :: removed else removed)) w'
        end
  end.

Definition reap_terminated (now retention_secs : Z) : R (list string) :=
  clusters ← store list_clusters;
  reap_terminated_loop clusters now retention_secs.

(** *** Stale restore *)

Fixpoint stale_loop (clusters : list StoredCluster) : R bool :=
  match clusters with
  | [] => mret false
  | c :: clusters' =>
      observed ← try_observe (c_id c);
      if is_some_and (observed ≫= o_observed_generation) (fun g => Z.ltb (c_generation c) g)
      then _ ← store (set_quarantine true); mret true
      else stale_loop clusters'
  end.

Definition detect_stale_restore : R bool := store list_clusters ≫= stale_loop.

(** *** One tick of [run]: every pass runs, whatever the one before it returned *)

Definition run_tick (retention_secs : Z) (w : World P) : World P :=
  let w1 := snd ((now_unix ≫= reap_expired) w) in
  let w2 := snd ((now ← now_unix; store (reap_intents (sat_sub now INTENT_RETENTION_SECS))) w1) in
  let w3 := snd ((now ← now_unix; reap_terminated now retention_secs) w2) in
  snd (reconcile_all w3).
End engine.
