(* ===== verification/PoolReconcile.v ===== *)
(** * Pool reconcile loop (crates/mobula-controller/src/pool_reconcile.rs)

    The level-triggered loop that converges the Kueue objects of every stored
    pool: observe, then apply under an outbox row keyed by generation and digest,
    and tear down what disappeared. Generic over a [PoolProvisioner]. *)

From S2P Require Import Prelude Float64 Core Policy Store StoreFacts Json Provision Reconcile Kueue.
#[local] Open Scope Z_scope.
#[local] Open Scope string_scope.

Inductive PoolAction := PNoOp | PApplied | PDeleted.

(** What a pass reads and writes; the clock's successive reads are the store's. *)
Record PoolWorld (P : Type) := {
  pw_store : InMemoryStore;
  pw_prov : P;
  pw_converged : gset string;
  pw_clock : nat -> Z;
  pw_reads : nat;
}.
Arguments pw_store {P} _.
Arguments pw_prov {P} _.
Arguments pw_converged {P} _.
Arguments pw_clock {P} _.
Arguments pw_reads {P} _.
Arguments Build_PoolWorld {P} _ _ _ _ _.

(** Text of a pool with its allocations and of an observation; [serde_json]'s. *)
Class PoolSerde := {
  pool_json : PoolSpec -> list AllocationSpec -> string;
  observation_json : PoolObservation -> string;
}.

(** ** Keys *)

Definition fnv_step (h : Z) (b : ascii) : Z :=
  u64_mul (Z.lxor h (Z.of_N (N_of_ascii b))) 0x100000001b3.

Definition hex_digit (d : Z) : ascii :=
  ascii_of_N (if Z.ltb d 10 then Z.to_N (d + 48) else Z.to_N (d + 87)).

(** [{:016x}] of a 64-bit value: sixteen nibbles, the highest first. *)
Definition hex16 (h : Z) : string :=
  str_of ((fun i => hex_digit (Z.land (Z.shiftr h (4 * (15 - Z.of_nat i))) 15)) <$> seq 0 16).

Definition digest (s : string) : string :=
  hex16 (foldl fnv_step 0xcbf29ce484222325 (bytes_of s)).

Definition desired_fingerprint `{PoolSerde} (spec : PoolSpec) (allocs : list AllocationSpec) : string :=
  pool_json spec (sort_stable (fun a b => str_leb (a_project a) (a_project b)) allocs).

Definition pool_intent_key (pool : StoredPool) (fingerprint : string) : string :=
  "pool:" +:+ sp_name pool +:+ "/" +:+ u64_str (sp_generation pool) +:+ ":" +:+ digest fingerprint.

(** ** The loop *)

Section engine.
Context {P : Type} `{PoolProvisioner P} `{PoolSerde}.
Abbreviation R := (ST (PoolWorld P) ReconcileError).

Definition set_pool_store (s : InMemoryStore) (w : PoolWorld P) : PoolWorld P := {|
  pw_store := s; pw_prov := pw_prov w; pw_converged := pw_converged w; pw_clock := pw_clock w;
  pw_reads := pw_reads w |}.
Definition set_pool_prov (p : P) (w : PoolWorld P) : PoolWorld P := {|
  pw_store := pw_store w; pw_prov := p; pw_converged := pw_converged w; pw_clock := pw_clock w;
  pw_reads := pw_reads w |}.
Definition set_converged (c : gset string) (w : PoolWorld P) : PoolWorld P := {|
  pw_store := pw_store w; pw_prov := pw_prov w; pw_converged := c; pw_clock := pw_clock w;
  pw_reads := pw_reads w |}.

Definition in_store {A} (m : M A) : R A := fun w =>
  let '(r, s) := m (pw_store w) in (map_err RStore r, set_pool_store s w).
Definition at_provisioner {A} (m : ST P ProvisionError A) : R A := fun w =>
  let '(r, p) := m (pw_prov w) in (map_err RProvision r, set_pool_prov p w).
Definition read_clock : R Z := fun w =>
  (Ok (pw_clock w (pw_reads w)), {| pw_store := pw_store w; pw_prov := pw_prov w;
     pw_converged := pw_converged w; pw_clock := pw_clock w; pw_reads := S (pw_reads w) |}).
Definition note_converged (name : string) : R unit :=
  st_put (fun w => set_converged ({[name]} ∪ pw_converged w) w).

Definition record_seen (pool : StoredPool) : R unit :=
  obs ← at_provisioner (pp_observe_pool (sp_name pool));
  match obs with
  | Some o =>
      t ← read_clock;
      in_store (record_pool_observation t (sp_name pool) (observation_json o))
  | None => mret tt
  end.

(** The row that says this desired state is applied. *)
Definition already_applied (fp : string) (row : option IntentRecord) : bool :=
  is_some_and row (fun r => bool_decide (i_status r = IApplied) && String.eqb (i_params_fingerprint r) fp).

Definition apply_under_intent (pool : StoredPool) (allocs : list AllocationSpec) (key fp : string) : R PoolAction :=
  t ← read_clock;
  outcome ← in_store (begin_intent t key fp);
  match outcome with
  | ParamMismatch => st_err (StaleIntent key)
  | Proceed _ =>
      at_provisioner (pp_apply_pool (sp_spec pool) allocs) ≫= fun _ =>
      t' ← read_clock;
      in_store (complete_intent t' key "{}") ≫= fun _ =>
      note_converged (sp_name pool) ≫= fun _ => mret PApplied
  end.

Definition reconcile_pool (pool : StoredPool) : R PoolAction :=
  record_seen pool ≫= fun _ =>
  quarantined ← in_store is_quarantined;
  if quarantined : bool then mret PNoOp
  else
    allocs ← in_store (list_allocations (sp_name pool));
    let fp := desired_fingerprint (sp_spec pool) allocs in
    let key := pool_intent_key pool fp in
    row ← in_store (get_intent key);
    if already_applied fp row then note_converged (sp_name pool) ≫= fun _ => mret PNoOp
    else apply_under_intent pool allocs key fp.

Abbreviation Outcomes := (list (string * result ReconcileError PoolAction)).

Fixpoint pool_loop (pools : list StoredPool) (w : PoolWorld P) : Outcomes * PoolWorld P :=
  match pools with
  | [] => ([], w)
  | p :: pools' =>
      let '(r, w1) := reconcile_pool p w in
      let '(out, w2) := pool_loop pools' w1 in
      ((sp_name p, r) :: out, w2)
  end.

Fixpoint teardown_loop (names : list string) (w : PoolWorld P) : Outcomes * PoolWorld P :=
  match names with
  | [] => ([], w)
  | name :: names' =>
      let '(r, w1) :=
        match at_provisioner (pp_delete_pool name) w with
        | (Ok _, w') => (Ok PDeleted, set_converged (pw_converged w' ∖ {[name]}) w')
        | (Err e, w') => (Err e, w')
        end in
      let '(out, w2) := teardown_loop names' w1 in
      ((name, r) :: out, w2)
  end.

Definition vanished (current : gset string) (w : PoolWorld P) : list string :=
  sort_stable str_leb (elements (pw_converged w ∖ current)).

Definition reconcile_pools (w : PoolWorld P) : Outcomes * PoolWorld P :=
  let '(present, p) := pp_kueue_present (pw_prov w) in
  let w := set_pool_prov p w in
  if negb present then ([], w)
  else
    match in_store list_pools w with
    | (Err e, w) => ([("<list>", Err e)], w)
    | (Ok pools, w) =>
        let current : gset string := list_to_set (sp_name <$> pools) in
        let '(out, w) := pool_loop pools w in
        match in_store is_quarantined w with
        | (Ok false, w) => let '(gone, w) := teardown_loop (vanished current w) w in (app out gone, w)
        | (Ok true, w) => (out, w)
        | (Err e, w) => (app out [("<quarantine>", Err e)], w)
        end
    end.

(** One iteration of [run]: the outcomes are only logged. *)
Definition pool_tick (w : PoolWorld P) : PoolWorld P := snd (reconcile_pools w).
End engine.

(** ** Logging the actuating calls *)

Inductive PoolCall :=
| PoolApply (spec : PoolSpec) (allocs : list AllocationSpec)
| PoolDelete (name : string).

Record LoggedPools (P : Type) := { lp_calls : list PoolCall; lp_inner : P }.
Arguments lp_calls {P} _.
Arguments lp_inner {P} _.
Arguments Build_LoggedPools {P} _ _.

Definition pool_logging {P A} (calls : list PoolCall) (m : ST P ProvisionError A)
  : ST (LoggedPools P) ProvisionError A := fun l =>
  let '(r, p) := m (lp_inner l) in (r, {| lp_calls := app (lp_calls l) calls; lp_inner := p |}).

#[export] Instance logged_pools {P} `{PoolProvisioner P} : PoolProvisioner (LoggedPools P) := {|
  pp_apply_pool := fun spec allocs => pool_logging [PoolApply spec allocs] (pp_apply_pool spec allocs);
  pp_delete_pool := fun name => pool_logging [PoolDelete name] (pp_delete_pool name);
  pp_observe_pool := fun name => pool_logging [] (pp_observe_pool name);
  pp_kueue_present := fun l => let '(b, p) := pp_kueue_present (lp_inner l) in
                               (b, {| lp_calls := lp_calls l; lp_inner := p |}) |}.

(** ** What one pass over a pool does *)

Section facts.
Context {P : Type} `{PoolProvisioner P} `{PoolSerde}.
Abbreviation W := (PoolWorld (LoggedPools P)).

Definition pool_calls (w : W) : list PoolCall := lp_calls (pw_prov w).
Definition stored_allocations (w : W) (pool : string) : list AllocationSpec :=
  filter (fun a => a_pool a = pool) (map_values (m_allocations (pw_store w))).
Definition fp_of (w : W) (pool : StoredPool) : string :=
  desired_fingerprint (sp_spec pool) (stored_allocations w (sp_name pool)).
Definition key_of (w : W) (pool : StoredPool) : string := pool_intent_key pool (fp_of w pool).
Definition intent_at (w : W) (key : string) : option IntentRecord := m_intents (pw_store w) !! key.

(** Everything of the world that an observation leaves alone. *)
Definition same_but_seen (w w' : W) : Prop :=
  m_intents (pw_store w') = m_intents (pw_store w) /\
  m_allocations (pw_store w') = m_allocations (pw_store w) /\
  m_quarantined (pw_store w') = m_quarantined (pw_store w) /\
  pool_calls w' = pool_calls w.

Lemma record_seen_keeps pool (w w' : W) r : record_seen pool w = (r, w') -> same_but_seen w w'.
Proof.
  unfold record_seen. rewrite ST_bind_eq. unfold at_provisioner. cbn [pp_observe_pool logged_pools].
  unfold pool_logging. destruct (pp_observe_pool (sp_name pool) (lp_inner (pw_prov w))) as [[[o|]|e] p];
    cbn; intros [= _ <-]; unfold same_but_seen, pool_calls; cbn; by rewrite app_nil_r.
Qed.

Lemma in_store_get {A} (f : InMemoryStore -> A) (w : W) : in_store (st_get f) w = (Ok (f (pw_store w)), w).
Proof. by destruct w. Qed.

(** Opening an intent that may proceed leaves its row, with the fingerprint. *)
Lemma begin_intent_opens now key fp s :
  match begin_intent now key fp s with
  | (Ok (Proceed _), s1) => m_allocations s1 = m_allocations s /\
      exists row, m_intents s1 !! key = Some row /\ i_params_fingerprint row = fp
  | (Ok ParamMismatch, s1) => s1 = s
  | (Err _, _) => False
  end.
Proof.
  unfold begin_intent. rewrite ST_bind_eq. cbn [st_get]. destruct (m_intents s !! key) as [row|] eqn:E.
  - cbn. destruct (String.eqb_spec (i_params_fingerprint row) fp); [|done]. eauto.
  - cbn. split; [done|]. eexists. split; [apply lookup_insert_eq|done].
Qed.

(** The apply of one pool under its outbox row. *)
Lemma apply_under_intent_calls pool allocs key fp (w w' : W) r :
  apply_under_intent pool allocs key fp w = (r, w') ->
  m_allocations (pw_store w') = m_allocations (pw_store w) /\
  match r with
  | Ok PApplied => pool_calls w' = app (pool_calls w) [PoolApply (sp_spec pool) allocs] /\
                   already_applied fp (intent_at w' key) = true
  | Ok _ => False
  | Err _ => pool_calls w' = pool_calls w \/ pool_calls w' = app (pool_calls w) [PoolApply (sp_spec pool) allocs]
  end.
Proof.
  intros E. unfold apply_under_intent in E. rewrite ST_bind_eq in E. unfold read_clock at 1 in E.
  rewrite ST_bind_eq in E. unfold in_store at 1 in E. cbn [pw_store] in E.
  pose proof (begin_intent_opens (pw_clock w (pw_reads w)) key fp (pw_store w)) as Hb.
  destruct (begin_intent (pw_clock w (pw_reads w)) key fp (pw_store w)) as [[[replayed|]|e] s1];
    cbn [map_err] in E; [|injection E as <- <-; subst; by auto|done].
  destruct Hb as (Hal & row & Hrow & Hfp).
  rewrite ST_bind_eq in E. unfold at_provisioner in E. cbn [pp_apply_pool logged_pools set_pool_store pw_prov] in E.
  unfold pool_logging in E.
  destruct (pp_apply_pool (sp_spec pool) allocs (lp_inner (pw_prov w))) as [[[]|e] p1]; cbn in E.
  - injection E as <- <-. split; [exact Hal|]. split; [done|]. unfold intent_at. cbn.
    rewrite lookup_alter_eq, Hrow. cbn. by rewrite Hfp, String.eqb_refl.
  - injection E as <- <-. split; [exact Hal|]. by right.
Qed.

Lemma reconcile_pool_cases pool (w w' : W) r :
  reconcile_pool pool w = (r, w') ->
  m_allocations (pw_store w') = m_allocations (pw_store w) /\
  match r with
  | Ok PNoOp => pool_calls w' = pool_calls w /\
      (m_quarantined (pw_store w) = true \/
       already_applied (fp_of w pool) (intent_at w (key_of w pool)) = true)
  | Ok PApplied =>
      pool_calls w' = app (pool_calls w) [PoolApply (sp_spec pool) (stored_allocations w (sp_name pool))] /\
      m_quarantined (pw_store w) = false /\
      already_applied (fp_of w pool) (intent_at w (key_of w pool)) = false /\
      already_applied (fp_of w pool) (intent_at w' (key_of w pool)) = true
  | Ok PDeleted => False
  | Err _ => pool_calls w' = pool_calls w \/
      pool_calls w' = app (pool_calls w) [PoolApply (sp_spec pool) (stored_allocations w (sp_name pool))]
  end.
Proof.
  intros E. unfold reconcile_pool in E. rewrite ST_bind_eq in E.
  destruct (record_seen pool w) as [[[]|e] w1] eqn:Es; apply record_seen_keeps in Es as (Hi & Ha & Hq & Hc);
    [|injection E as <- <-; auto].
  assert (Hallocs : stored_allocations w1 (sp_name pool) = stored_allocations w (sp_name pool))
    by (unfold stored_allocations; by rewrite Ha).
  rewrite ST_bind_eq in E. unfold is_quarantined in E. rewrite in_store_get, Hq in E.
  destruct (m_quarantined (pw_store w)); [injection E as <- <-; auto|].
  rewrite ST_bind_eq in E. unfold list_allocations in E. rewrite in_store_get in E.
  change (filter (fun a => a_pool a = sp_name pool) (map_values (m_allocations (pw_store w1))))
    with (stored_allocations w1 (sp_name pool)) in E.
  rewrite Hallocs in E. fold (fp_of w pool) in E. fold (key_of w pool) in E.
  rewrite ST_bind_eq in E. unfold get_intent in E. rewrite in_store_get, Hi in E.
  fold (intent_at w (key_of w pool)) in E.
  destruct (already_applied (fp_of w pool) (intent_at w (key_of w pool))) eqn:Eap.
  { injection E as <- <-. auto. }
  apply apply_under_intent_calls in E as [Hal Hr]. rewrite Ha in Hal. split; [done|]. rewrite Hc in Hr.
  destruct r as [[| |]|]; naive_solver.
Qed.
(** C23. One pool of a pass, call by call. No-op means no call; an apply is exactly one
    call, with the stored spec and the stored allocations, outside quarantine, when
    no applied row for this state exists, and leaves that row applied; a failure
    makes that call or none. The allocations are never written. *)
Theorem reconcile_pool_calls pool (w w' : W) r :
  reconcile_pool pool w = (r, w') ->
  m_allocations (pw_store w') = m_allocations (pw_store w) /\
  match r with
  | Ok PNoOp => pool_calls w' = pool_calls w /\
      (m_quarantined (pw_store w) = true \/
       already_applied (fp_of w pool) (intent_at w (key_of w pool)) = true)
  | Ok PApplied =>
      pool_calls w' = app (pool_calls w) [PoolApply (sp_spec pool) (stored_allocations w (sp_name pool))] /\
      m_quarantined (pw_store w) = false /\
      already_applied (fp_of w pool) (intent_at w (key_of w pool)) = false /\
      already_applied (fp_of w pool) (intent_at w' (key_of w pool)) = true
  | Ok PDeleted => False
  | Err _ => pool_calls w' = pool_calls w \/
      pool_calls w' = app (pool_calls w) [PoolApply (sp_spec pool) (stored_allocations w (sp_name pool))]
  end.
Proof. apply reconcile_pool_cases. Qed.

Lemma reconcile_pool_quiet pool (w : W) :
  already_applied (fp_of w pool) (intent_at w (key_of w pool)) = true ->
  pool_calls (snd (reconcile_pool pool w)) = pool_calls w /\
  (fst (reconcile_pool pool w) = Ok PNoOp \/ exists e, fst (reconcile_pool pool w) = Err e).
Proof.
  intros Hap. destruct (reconcile_pool pool w) as [r w'] eqn:E.
  pose proof (reconcile_pool_cases _ _ _ _ E) as [_ Hr]. cbn [fst snd].
  destruct r as [[| |]|e]; [by destruct Hr; auto|destruct Hr as (_ & _ & Hn & _); congruence|done|].
  split; [|by eauto]. unfold reconcile_pool in E. rewrite ST_bind_eq in E.
  destruct (record_seen pool w) as [[[]|e1] w1] eqn:Es; apply record_seen_keeps in Es as (Hi & Ha & Hq & Hc);
    [|by injection E as _ <-].
  assert (Hallocs : stored_allocations w1 (sp_name pool) = stored_allocations w (sp_name pool))
    by (unfold stored_allocations; by rewrite Ha).
  rewrite ST_bind_eq in E. unfold is_quarantined in E. rewrite in_store_get in E.
  destruct (m_quarantined (pw_store w1)); [done|].
  rewrite ST_bind_eq in E. unfold list_allocations in E. rewrite in_store_get in E.
  change (filter (fun a => a_pool a = sp_name pool) (map_values (m_allocations (pw_store w1))))
    with (stored_allocations w1 (sp_name pool)) in E.
  rewrite Hallocs in E. fold (fp_of w pool) in E. fold (key_of w pool) in E.
  rewrite ST_bind_eq in E. unfold get_intent in E. rewrite in_store_get, Hi in E.
  fold (intent_at w (key_of w pool)) in E. by rewrite Hap in E.
Qed.

(** An applied pool settles: after a pass applied it, further passes over the
    same pool row make no call, whatever they observe, until the row, its
    allocations or the outbox change. *)
Theorem applied_pool_settles pool (w w1 : W) :
  reconcile_pool pool w = (Ok PApplied, w1) ->
  pool_calls (snd (reconcile_pool pool w1)) = pool_calls w1 /\
  (fst (reconcile_pool pool w1) = Ok PNoOp \/ exists e, fst (reconcile_pool pool w1) = Err e).
Proof.
  intros E. apply reconcile_pool_cases in E as (Ha & _ & _ & _ & Hap). apply reconcile_pool_quiet.
  unfold key_of, fp_of, stored_allocations in *. by rewrite Ha.
Qed.
End facts.

(** ** An example that does not converge *)

(** A backend that keeps what was last applied. *)
Definition DemoPools : Type := gmap string (PoolSpec * list AllocationSpec).
#[local] Instance demo_pools : PoolProvisioner DemoPools := {|
  pp_apply_pool := fun spec allocs => st_put (fun d => <[p_name spec := (spec, allocs)]> d : DemoPools);
  pp_delete_pool := fun name => st_put (fun d => delete name d : DemoPools);
  pp_observe_pool := fun _ => mret None;
  pp_kueue_present := fun d => (true, d) |}.
#[local] Instance demo_pool_serde : PoolSerde := {|
  pool_json := fun spec allocs => p_name spec +:+ foldr (fun a acc =>
    a_project a +:+ "=" +:+ foldr (fun kv t => fst kv +:+ ":" +:+ snd kv +:+ t) "" (a_nominal a) +:+ ";" +:+ acc) "" allocs;
  observation_json := fun _ => "" |}.

Definition demo_pool_spec : PoolSpec := {|
  p_name := "gpu"; p_flavors := []; p_cohort := "research"; p_fair_sharing_weight := f64_one;
  p_elastic := false; p_gpu_sharing := None |}.
Definition demo_alloc (cpu : string) : AllocationSpec := {|
  a_pool := "gpu"; a_project := "p"; a_namespace := "p"; a_nominal := [("cpu", cpu)];
  a_borrowing_limit := []; a_lending_limit := [] |}.

Definition pool_world (s : InMemoryStore) : PoolWorld (LoggedPools DemoPools) := {|
  pw_store := s; pw_prov := {| lp_calls := []; lp_inner := ∅ |}; pw_converged := ∅;
  pw_clock := Z.of_nat; pw_reads := 0 |}.

Definition edit {A} (m : M A) (w : PoolWorld (LoggedPools DemoPools)) : PoolWorld (LoggedPools DemoPools) :=
  set_pool_store (snd (m (pw_store w))) w.

Definition with_alloc (cpu : string) w := pool_tick (edit (upsert_allocation (demo_alloc cpu)) w).

Definition pool_start : PoolWorld (LoggedPools DemoPools) :=
  edit (upsert_pool 0 "gpu" demo_pool_spec) (pool_world empty_store).

Definition applied_quota (w : PoolWorld (LoggedPools DemoPools)) : option (list (list (string * string))) :=
  match (lp_inner (pw_prov w) : gmap string (PoolSpec * list AllocationSpec)) !! "gpu" with
  | Some sa => Some (map a_nominal (snd sa))
  | None => None
  end.

(** Set an allocation to 4, to 8 and back to 4, with a pass after each edit: the
    applied row of the first state is still there, so the third pass is a no-op
    and the backend keeps 8. *)
Lemma reverted_allocation_is_not_applied :
  applied_quota (with_alloc "4" pool_start) = Some [[("cpu", "4")]] /\
  applied_quota (with_alloc "8" (with_alloc "4" pool_start)) = Some [[("cpu", "8")]] /\
  applied_quota (with_alloc "4" (with_alloc "8" (with_alloc "4" pool_start))) = Some [[("cpu", "8")]] /\
  applied_quota (pool_tick (with_alloc "4" (with_alloc "8" (with_alloc "4" pool_start)))) = Some [[("cpu", "8")]].
Proof. vm_compute. done. Qed.

Lemma applied_pool_settles_witness :
  exists pool w1, m_pools (pw_store pool_start) !! "gpu" = Some pool /\
  reconcile_pool pool pool_start = (Ok PApplied, w1) /\
  pool_calls (snd (reconcile_pool pool w1)) = pool_calls w1 /\
  (fst (reconcile_pool pool w1) = Ok PNoOp \/ exists e, fst (reconcile_pool pool w1) = Err e).
Proof.
  eexists _, _. split; [reflexivity|]. split; [vm_compute; reflexivity|].
  eapply (applied_pool_settles _ pool_start). vm_compute. reflexivity.
Defined.

Lemma reconcile_pool_calls_witness :
  exists pool r w', m_pools (pw_store pool_start) !! "gpu" = Some pool /\
  reconcile_pool pool pool_start = (r, w') /\
  m_allocations (pw_store w') = m_allocations (pw_store pool_start) /\
  match r with
  | Ok PNoOp => pool_calls w' = pool_calls pool_start /\
      (m_quarantined (pw_store pool_start) = true \/
       already_applied (fp_of pool_start pool) (intent_at pool_start (key_of pool_start pool)) = true)
  | Ok PApplied =>
      pool_calls w' = app (pool_calls pool_start) [PoolApply (sp_spec pool) (stored_allocations pool_start (sp_name pool))] /\
      m_quarantined (pw_store pool_start) = false /\
      already_applied (fp_of pool_start pool) (intent_at pool_start (key_of pool_start pool)) = false /\
      already_applied (fp_of pool_start pool) (intent_at w' (key_of pool_start pool)) = true
  | Ok PDeleted => False
  | Err _ => pool_calls w' = pool_calls pool_start \/
      pool_calls w' = app (pool_calls pool_start) [PoolApply (sp_spec pool) (stored_allocations pool_start (sp_name pool))]
  end.
Proof.
  eexists _, _, _. split; [reflexivity|]. split; [apply surjective_pairing|].
  apply (reconcile_pool_calls _ pool_start). apply surjective_pairing.
Defined.

(** FNV-1a's published vectors. *)
Example digest_vectors :
  digest "" = "cbf29ce484222325" /\ digest "a" = "af63dc4c8601ec8c" /\ digest "foobar" = "85944171f73967e8".
Proof. by vm_compute. Qed.
