(* ===== verification/Sample.v ===== *)
(** * A concrete world for the witnesses

    One Ray cluster in an otherwise empty store, a plain text encoding, and the
    demo backend. *)

From S2P Require Import Prelude Float64 Core Policy Store Json Provision Reconcile.
#[local] Open Scope Z_scope.

(** A simple text encoding. *)
Fixpoint sample_text (v : Value) : string :=
  match v with
  | JNull => "null"
  | JBool b => if b then "true" else "false"
  | JNum n => u64_str n
  | JFloat _ => "float"
  | JStr s => "'" +:+ s +:+ "'"
  | JArr l => "[" +:+ foldr (fun x acc => sample_text x +:+ "," +:+ acc) "]"%string l
  | JObj l => "{" +:+ foldr (fun kx acc => fst kx +:+ ":" +:+ sample_text (snd kx) +:+ "," +:+ acc)
                       "}"%string l
  end.

#[export] Instance sample_serde : Serde := {|
  json_text := sample_text;
  spec_json := fun s => cs_name s +:+ "|" +:+ cs_image s +:+ "|" +:+ engine_str (cs_engine s);
  apply_response_json := fun g _ => u64_str g |}.

(** The demo spec stored as cluster [c1] at time 10. *)
Definition sample_store : InMemoryStore := snd (upsert_desired 10 "c1" demo_spec empty_store).
Definition sample_row : StoredCluster := upsert_record 10 "c1" demo_spec None.

Definition world_of {P} (s : InMemoryStore) (p : P) : World P := {|
  w_store := s; w_prov := p; w_limits := None; w_clock := fun n => 100 + Z.of_nat n; w_reads := 0 |}.

Definition sample_world : World Demo.DemoProvisioner := world_of sample_store Demo.new.
Definition sample_logged : World (Logged Demo.DemoProvisioner) :=
  world_of sample_store {| lg_calls := []; lg_inner := Demo.new |}.

(** The same store, quarantined. *)
Definition quarantined_logged : World (Logged Demo.DemoProvisioner) :=
  world_of (set_quarantined true sample_store) {| lg_calls := []; lg_inner := Demo.new |}.

Lemma sample_clusters id c :
  m_clusters sample_store !! id = Some c -> id = "c1"%string /\ c = sample_row.
Proof.
  change (m_clusters sample_store) with (<["c1"%string := sample_row]> (∅ : gmap string StoredCluster)).
  rewrite lookup_insert_Some, lookup_empty. naive_solver.
Qed.

Lemma sample_keyed : map_Forall (fun id c => c_id c = id) (m_clusters sample_store).
Proof. by intros id c [-> ->]%sample_clusters. Qed.
