(* ===== verification/ReconcileFacts.v ===== *)
(** * Theorems about the reconcile engine

    Backoff and rate limiting, which provider calls a pass makes, the restore
    quarantine, isolation of failures, and the lifecycle reapers. *)

From Stdlib Require Import QArith Qcanon.
From S2P Require Import Prelude Float64 Core Policy Usage Store StoreFacts StoreQueries.
From S2P Require Import Provision Reconcile Sample.
#[local] Open Scope Z_scope.

(** ** Backoff *)

(** The delay doubles from five seconds with every consecutive failure up to the
    sixth, is five minutes from the seventh on, and never decreases. *)
Theorem backoff_secs_spec n :
  (n <= 1 -> backoff_secs n = 5) /\
  (1 <= n <= 6 -> backoff_secs n = 5 * 2 ^ (n - 1)) /\
  (7 <= n -> backoff_secs n = 300) /\
  (forall m, n <= m -> backoff_secs n <= backoff_secs m).
Proof.
  assert (forall k, backoff_secs k = Z.min (5 * 2 ^ Z.min (Z.max (k - 1) 0) 20) 300) as Heq.
  { intros k. unfold backoff_secs, u64_sat_mul, sat_sub, BACKOFF_BASE_SECS, BACKOFF_CEIL_SECS.
    set (e := Z.min (Z.max (k - 1) 0) 20).
    assert (0 <= e <= 20) as He by lia.
    rewrite Z.shiftl_1_l.
    assert (1 <= 2 ^ e <= 2 ^ 20) as Hp.
    { split; [change 1 with (2 ^ 0)|]; apply Z.pow_le_mono_r; lia. }
    rewrite Z.mod_small by lia. unfold u64_max. lia. }
  split_and!; [intros Hn|intros Hn|intros Hn|intros m Hm]; rewrite !Heq.
  - replace (Z.min (Z.max (n - 1) 0) 20) with 0 by lia. done.
  - replace (Z.min (Z.max (n - 1) 0) 20) with (n - 1) by lia.
    assert (2 ^ (n - 1) <= 2 ^ 5) by (apply Z.pow_le_mono_r; lia). lia.
  - set (e := Z.min (Z.max (n - 1) 0) 20).
    assert (2 ^ 6 <= 2 ^ e) by (apply Z.pow_le_mono_r; lia). lia.
  - apply Z.min_le_compat_r, Z.mul_le_mono_nonneg_l; [lia|]. apply Z.pow_le_mono_r; lia.
Qed.

(** ** Rate limiting *)

(** Actuations granted over a sequence of attempts at the given times. *)
Fixpoint grants {A} `{Numeric A} (times : list Z) (b : TokenBucket A) : nat * TokenBucket A :=
  match times with
  | [] => (0%nat, b)
  | t :: times' =>
      let '(g, b1) := try_take t b in
      let '(n, b2) := grants times' b1 in
      ((if (g : bool) then S n else n), b2)
  end.

Definition Qc_of_Z (z : Z) : Qc := Q2Qc (inject_Z z).

Lemma Qc_of_Z_nonneg z : 0 <= z -> (0 <= Qc_of_Z z)%Qc.
Proof.
  intros Hz. unfold Qcle. eapply Qle_trans; [|apply Qle_lteq; right; symmetry; apply Qred_correct].
  unfold Qle. cbn -[Z.mul]. change (Qred 0) with 0%Q. cbn. lia.
Qed.

Lemma try_take_budget t (b b' : TokenBucket Qc) g :
  try_take t b = (g, b') -> tb_last b <= t ->
  (Qc_of_Z (if g then 1 else 0) + tb_tokens b' <=
     tb_tokens b + Qc_of_Z (t - tb_last b) * tb_refill_per_sec b)%Qc /\
  tb_last b' = t /\ tb_refill_per_sec b' = tb_refill_per_sec b /\
  ((0 <= tb_tokens b)%Qc -> (0 <= tb_refill_per_sec b)%Qc -> (0 <= tb_capacity b)%Qc ->
     (0 <= tb_tokens b')%Qc) /\ tb_capacity b' = tb_capacity b.
Proof.
  unfold try_take. intros Hb Ht. change (@n_of_Z Qc _) with Qc_of_Z in Hb.
  replace (sat_sub t (tb_last b)) with (t - tb_last b) in Hb by (unfold sat_sub; lia).
  cbn [n_min n_add n_mul n_sub n_leb Qc_numeric] in Hb.
  set (full := (tb_tokens b + Qc_of_Z (t - tb_last b) * tb_refill_per_sec b)%Qc) in *.
  set (tok := if Qclt_le_dec (tb_capacity b) full then tb_capacity b else full) in *.
  assert (tok <= full)%Qc as Htok.
  { unfold tok. destruct (Qclt_le_dec _ _); [by apply Qclt_le_weak|apply Qcle_refl]. }
  assert ((0 <= tb_tokens b)%Qc -> (0 <= tb_refill_per_sec b)%Qc -> (0 <= tb_capacity b)%Qc ->
     (0 <= tok)%Qc) as Hpos.
  { intros H0 Hr Hc. unfold tok. destruct (Qclt_le_dec _ _); [done|]. unfold full.
    replace 0%Qc with (0 + 0)%Qc by ring. apply Qcplus_le_compat; [done|].
    replace 0%Qc with (0 * tb_refill_per_sec b)%Qc by ring. apply Qcmult_le_compat_r; [|done].
    apply Qc_of_Z_nonneg. lia. }
  destruct (Qclt_le_dec tok (Qc_of_Z 1)) as [Hlt|Hle]; simplify_eq; cbn; split_and!; try done.
  - replace (Qc_of_Z 0 + tok)%Qc with tok; [done|]. change (Qc_of_Z 0) with 0%Qc. ring.
  - replace (Qc_of_Z 1 + (tok - Qc_of_Z 1))%Qc with tok by ring. done.
  - intros _ _ _. apply Qcle_minus_iff in Hle. exact Hle.
Qed.

Lemma grants_budget times (b b' : TokenBucket Qc) n :
  StronglySorted Z.le (tb_last b :: times) -> grants times b = (n, b') ->
  (0 <= tb_tokens b)%Qc -> (0 <= tb_refill_per_sec b)%Qc -> (0 <= tb_capacity b)%Qc ->
  (Qc_of_Z (Z.of_nat n) + tb_tokens b' <=
     tb_tokens b + Qc_of_Z (tb_last b' - tb_last b) * tb_refill_per_sec b)%Qc /\
  (0 <= tb_tokens b')%Qc /\ tb_last b' = default (tb_last b) (last times).
Proof.
  revert b n. induction times as [|t times IH]; intros b n Hs Hg H0 Hr Hc; cbn in Hg.
  { simplify_eq. split_and!; [|done..]. rewrite Z.sub_diag. change (Qc_of_Z 0) with 0%Qc.
    change (Qc_of_Z (Z.of_nat 0)) with 0%Qc.
    replace (0 + tb_tokens b')%Qc with (tb_tokens b' + 0 * tb_refill_per_sec b')%Qc by ring.
    apply Qcle_refl. }
  destruct (try_take t b) as [g b1] eqn:Ht. destruct (grants times b1) as [k b2] eqn:Hk.
  apply StronglySorted_inv in Hs as [Hs Hall]. apply Forall_cons in Hall as [Hle _].
  destruct (try_take_budget _ _ _ _ Ht Hle) as (Hstep & Hl & Hrr & Hpos & Hcap).
  rewrite <-Hl in Hs.
  assert (b2 = b') as -> by congruence.
  destruct (IH b1 k Hs Hk) as (Hrec & Hfin & Hlast); [by auto|by rewrite Hrr|by rewrite Hcap|].
  split_and!; [|done|].
  - rewrite Hrr, Hl in Hrec.
    assert (Qc_of_Z (Z.of_nat n) = Qc_of_Z (if g then 1 else 0) + Qc_of_Z (Z.of_nat k))%Qc as ->.
    { unfold Qc_of_Z. rewrite <-Qc_of_Z_add. do 2 f_equal. destruct g; simplify_eq; lia. }
    replace (tb_last b' - tb_last b) with ((t - tb_last b) + (tb_last b' - t)) by lia.
    unfold Qc_of_Z at 3. rewrite Qc_of_Z_add. fold (Qc_of_Z (t - tb_last b)) (Qc_of_Z (tb_last b' - t)).
    pose proof (Qcplus_le_compat _ _ _ _ Hstep Hrec) as Hsum.
    apply (Qcplus_le_compat _ _ (- tb_tokens b1) (- tb_tokens b1))%Qc in Hsum; [|apply Qcle_refl].
    match type of Hsum with (?x <= ?y)%Qc => match goal with |- (?u <= ?v)%Qc =>
      replace u with x by ring; replace v with y by ring end end. exact Hsum.
  - rewrite Hlast, Hl, last_cons. by destruct (last times).
Qed.

(** Over exact arithmetic, a bucket opened at [t0] never grants more actuations
    than its burst capacity plus what was refilled up to the last attempt, for
    attempts at non-decreasing times. *)
Theorem rate_limit_bound (limits : RateLimits Qc) t0 times n b' :
  (0 <= rl_capacity limits)%Qc -> (0 <= rl_refill_per_sec limits)%Qc ->
  StronglySorted Z.le (t0 :: times) -> grants times (bucket_new limits t0) = (n, b') ->
  (Qc_of_Z (Z.of_nat n) <=
     rl_capacity limits + Qc_of_Z (default t0 (last times) - t0) * rl_refill_per_sec limits)%Qc.
Proof.
  intros Hc Hr Hs Hg. destruct (grants_budget times (bucket_new limits t0) b' n Hs Hg) as (Hb & Hpos & Hl); [done..|].
  rewrite Hl in Hb. cbn in Hb. eapply Qcle_trans; [|exact Hb].
  replace (Qc_of_Z (Z.of_nat n)) with (Qc_of_Z (Z.of_nat n) + 0)%Qc at 1 by ring.
  apply Qcplus_le_compat; [apply Qcle_refl|done].
Qed.

(** Two in a burst and one more per ten seconds: five attempts in ten seconds. *)
Definition demo_limits : RateLimits Qc := {|
  rl_capacity := Qc_of_Z 2; rl_refill_per_sec := (1 / Qc_of_Z 10)%Qc |}.
Lemma rate_limit_bound_witness :
  fst (grants [0; 0; 0; 5; 10] (bucket_new demo_limits 0)) = 3%nat /\
  (Qc_of_Z 3 <= rl_capacity demo_limits
     + Qc_of_Z (10 - 0) * rl_refill_per_sec demo_limits)%Qc.
Proof.
  split; [by vm_compute|].
  apply (rate_limit_bound demo_limits 0 [0; 0; 0; 5; 10] 3
    (snd (grants [0; 0; 0; 5; 10] (bucket_new demo_limits 0)))); [by vm_compute..| |by vm_compute].
  repeat constructor; lia.
Defined.

(** ** What a pass does *)

Section pass.
Context {P : Type} `{Provisioner P} `{Serde}.
Implicit Types (w : World P) (c : StoredCluster).

Lemma store_get_eq {A} (f : InMemoryStore -> A) w : store (st_get f) w = (Ok (f (w_store w)), w).
Proof. by destruct w. Qed.

Lemma store_put_eq f w : store (st_put f) w = (Ok tt, set_store (f (w_store w)) w).
Proof. done. Qed.

Lemma try_observe_store id w : w_store (snd (try_observe id w)) = w_store w.
Proof. unfold try_observe. by destruct (pv_observe id (w_prov w)) as [[|[]] ?]. Qed.

(** The pass with the store reads resolved. *)
Lemma reconcile_one_eq c now w :
  reconcile_one c now w =
  if in_backoff c now then (Ok Backoff, w) else
  match try_observe (c_id c) w with
  | (Err e, w1) => (Err e, w1)
  | (Ok obs, w1) =>
      if m_quarantined (w_store w1) then
        (Ok NoOp, set_store (snd (record_observation (c_id c) (o_state <$> obs)
           (default 0 (obs ≫= o_observed_generation)) (w_store w1))) w1)
      else
        match decide_and_actuate c obs (queue_of (cs_project (c_spec c)) (w_store w1)) now w1 with
        | (Err e, w2) => (Err e, w2)
        | (Ok (Return a), w2) => (Ok a, w2)
        | (Ok (Decide a cond), w2) => persist_outcome c a cond now w2
        end
  end.
Proof.
  unfold reconcile_one. destruct (in_backoff c now); [done|].
  unfold mbind, ST_bind. destruct (try_observe (c_id c) w) as [[obs|e] w1]; [|done].
  unfold is_quarantined. rewrite store_get_eq. destruct (m_quarantined (w_store w1)); [done|].
  unfold store at 1. rewrite queue_assignment_eq. cbn [map_err].
  replace (set_store (w_store w1) w1) with w1 by (by destruct w1).
  destruct (decide_and_actuate _ _ _ _ w1) as [[[]|] w2]; done.
Qed.
End pass.

(** The provider calls of each action, in order. *)
Definition action_calls (c : StoredCluster) (q : option QueueAssignment) (a : Action) : list Call :=
  match a with
  | Applied => [CallPosture; CallApply (c_id c) (c_spec c) (c_generation c) (intent_key c) q]
  | ATerminated => [CallTerminate (c_id c)]
  | ASuspended => [CallSuspend (c_id c)]
  | NoOp | Drift | Backoff => []
  end.

(** The desired state an actuation serves; only queue-free clusters are suspended. *)
Definition serves (d : DesiredState) (q : option QueueAssignment) (a : Action) : Prop :=
  match a with
  | Applied => d = DRunning
  | ATerminated => d = DTerminated
  | ASuspended => d = DSuspended /\ q = None
  | NoOp | Drift | Backoff => False
  end.

Section calls.
Context {P : Type} `{Provisioner P} `{Serde}.
Abbreviation W := (World (Logged P)).
Implicit Types (w : W) (c : StoredCluster).

Definition log (w : W) : list Call := lg_calls (w_prov w).

(** A computation that makes no mutating provider call and leaves the outbox
    alone. *)
Definition quiet {A} (m : ST W ReconcileError A) : Prop := forall w,
  log (snd (m w)) = log w /\ m_intents (w_store (snd (m w))) = m_intents (w_store w).

Lemma quiet_ret {A} (a : A) : quiet (mret a).
Proof. done. Qed.
Lemma quiet_bind {A B} (m : ST W ReconcileError A) (f : A -> ST W ReconcileError B) :
  quiet m -> (forall a, quiet (f a)) -> quiet (m ≫= f).
Proof.
  intros Hm Hf w. unfold mbind, ST_bind. destruct (Hm w) as [Hl Hi].
  destruct (m w) as [[a|e] w1]; cbn in *; [|done].
  destruct (Hf a w1). by rewrite <-Hl, <-Hi.
Qed.
Lemma quiet_upd_clusters f : quiet (store (upd_clusters f)).
Proof. done. Qed.
Lemma quiet_observe id : quiet (try_observe id).
Proof.
  intros w. unfold try_observe, log. cbn. unfold logging.
  destruct (pv_observe id (lg_inner (w_prov w))) as [[|[]] p]; cbn; by rewrite app_nil_r.
Qed.

Lemma quiet_persist c a cond now : quiet (persist_outcome c a cond now).
Proof.
  apply quiet_bind; [apply quiet_observe|intros obs].
  apply quiet_bind; [apply quiet_upd_clusters|intros _].
  apply quiet_bind; [case_bool_decide; [apply quiet_ret|apply quiet_upd_clusters]|intros _].
  apply quiet_bind; [|intros _; apply quiet_ret].
  unfold account_progress. repeat case_match; first [apply quiet_ret|apply quiet_upd_clusters].
Qed.

Lemma persist_result c a cond now w a' w' :
  persist_outcome c a cond now w = (Ok a', w') -> a' = a.
Proof.
  unfold persist_outcome. intros (? & ? & _ & (? & ? & _ & (? & ? & _ & (? & ? & _ & Hr)%ST_bind_Ok)%ST_bind_Ok)%ST_bind_Ok)%ST_bind_Ok.
  by injection Hr.
Qed.

(** What an arm may have done when it stops, with [calls] made: the row of the
    key is there as soon as one call of an apply is. *)
Definition arm_spec (c : StoredCluster) (q : option QueueAssignment) (w : W)
    (r : result ReconcileError ArmOutcome) (w' : W) : Prop :=
  exists a calls, log w' = log w ++ calls /\ calls `prefix_of` action_calls c q a /\
  (calls <> [] -> serves (c_desired c) q a) /\
  (forall o, r = Ok o -> calls = action_calls c q a /\
     (o = Return a \/ exists cond, o = Decide a cond)) /\
  (a = Applied -> calls <> [] -> exists i, m_intents (w_store w') !! intent_key c = Some i /\
     i_params_fingerprint i = params_fingerprint (c_spec c) /\
     (is_ok r = true -> i_status i = IApplied)).

Lemma arm_spec_quiet c q w a o :
  action_calls c q a = [] -> (o = Return a \/ exists cond, o = Decide a cond) ->
  forall w', log w' = log w -> arm_spec c q w (Ok o) w'.
Proof.
  intros Ha Ho w' Hl. exists a, []. rewrite Ha. split_and!; try done.
  - by rewrite app_nil_r.
  - intros o' [= <-]. done.
Qed.
Lemma begin_intent_row t key fp s :
  exists out s', begin_intent t key fp s = (Ok out, s') /\
  (out <> ParamMismatch -> exists i, m_intents s' !! key = Some i /\ i_params_fingerprint i = fp).
Proof.
  unfold begin_intent. run_store. destruct (m_intents s !! key) as [i|] eqn:E.
  - destruct (String.eqb_spec (i_params_fingerprint i) fp); [eauto 10|]. by do 2 eexists.
  - do 2 eexists. split; [reflexivity|]. cbn. rewrite lookup_insert_eq. eauto.
Qed.

Lemma arm_spec_err c q w e w' a calls :
  log w' = log w ++ calls -> calls `prefix_of` action_calls c q a ->
  (calls <> [] -> serves (c_desired c) q a) ->
  (a = Applied -> calls <> [] -> exists i, m_intents (w_store w') !! intent_key c = Some i /\
     i_params_fingerprint i = params_fingerprint (c_spec c)) ->
  arm_spec c q w (Err e) w'.
Proof.
  intros Hl Hp Hs Hi. exists a, calls. split_and!; try done.
  intros Ha Hc. destruct (Hi Ha Hc) as (i & ? & ?). by exists i.
Qed.

Lemma outbox_arm c q w :
  c_desired c = DRunning ->
  arm_spec c q w (fst (apply_through_outbox c q w)) (snd (apply_through_outbox c q w)).
Proof.
  intros Hd. unfold apply_through_outbox, now_unix, mbind, ST_bind, store. cbn [w_store].
  destruct (begin_intent_row (w_clock w (w_reads w)) (intent_key c)
    (params_fingerprint (c_spec c)) (w_store w)) as (out & s' & -> & Hrow). cbn.
  destruct out as [replay|]; cbn.
  2:{ apply (arm_spec_err _ _ _ _ _ Applied []); try done; [by rewrite app_nil_r|apply prefix_nil]. }
  destruct (Hrow ltac:(done)) as (i & Hi & Hfp). unfold prov, logging. cbn.
  destruct (pv_ensure_namespace_posture (lg_inner (w_prov w))) as [[u|e] p1]; cbn.
  2:{ apply (arm_spec_err _ _ _ _ _ Applied [CallPosture]); try done; [|eauto].
      cbn. by apply prefix_cons, prefix_nil. }
  destruct (pv_apply _ _ _ _ _ p1) as [[resp|e] p2]; cbn.
  2:{ apply (arm_spec_err _ _ _ _ _ Applied (action_calls c q Applied)); try done; [|eauto].
      unfold log. cbn. by rewrite <-app_assoc. }
  exists Applied, (action_calls c q Applied). unfold log. cbn. rewrite <-app_assoc. split_and!; try done.
  - intros o [= <-]. split; [done|right; by eexists].
  - intros _ _. rewrite lookup_alter_eq, Hi. eexists. split; [done|]. cbn. done.
Qed.

Lemma take_token_quiet now : quiet (take_token now).
Proof.
  intros w. unfold take_token. destruct (w_limits w); [|done]. by destruct (try_take _ _).
Qed.

Lemma running_arm_calls c st gen fp q now w :
  c_desired c = DRunning ->
  arm_spec c q w (fst (running_arm c st gen fp q now w)) (snd (running_arm c st gen fp q now w)).
Proof.
  intros Hd. unfold running_arm.
  assert (forall b : bool, let m := (if b
    then granted ← take_token now;
         if negb granted then mret (Return Backoff) else apply_through_outbox c q
    else if is_some_and fp (fun fp => negb (String.eqb fp (desired_fp (c_spec c))))
      then mret (Decide Drift (Some SpecDrift)) else mret (Decide NoOp None)) in
    arm_spec c q w (fst (m w)) (snd (m w))) as Hgen.
  { intros [|]; cbn zeta.
    - destruct (take_token_quiet now w) as [Hl _]. unfold mbind, ST_bind.
      destruct (take_token now w) as [[[|]|e] w1]; cbn in *.
      + destruct (outbox_arm c q w1 Hd) as (a & calls & Hlog & Hrest).
        exists a, calls. by rewrite <-Hl.
      + by apply (arm_spec_quiet c q w Backoff); eauto.
      + apply (arm_spec_err _ _ _ _ _ Applied []); try done; [by rewrite app_nil_r|apply prefix_nil].
    - case_match; [apply (arm_spec_quiet c q w Drift)|apply (arm_spec_quiet c q w NoOp)]; eauto. }
  destruct st as [[]|]; try apply Hgen. apply (arm_spec_quiet c q w Drift); eauto.
Qed.

Lemma provider_arm c q w a (m : ST P ProvisionError unit) call :
  action_calls c q a = [call] -> a <> Applied -> serves (c_desired c) q a ->
  let m := (_ ← prov (logging [call] m); mret (Decide a None)) : ST W ReconcileError ArmOutcome in
  arm_spec c q w (fst (m w)) (snd (m w)).
Proof.
  intros Ha Hne Hs. cbn zeta. unfold mbind, ST_bind, prov, logging.
  destruct (m (lg_inner (w_prov w))) as [[[]|e] p]; cbn.
  - exists a, [call]. rewrite Ha. split_and!; try done. intros o [= <-]. split; [done|right; by eexists].
  - by apply (arm_spec_err _ _ _ _ _ a [call]); [..|done]; rewrite ?Ha.
Qed.

Lemma decide_calls c obs q now w :
  arm_spec c q w (fst (decide_and_actuate c obs q now w)) (snd (decide_and_actuate c obs q now w)).
Proof.
  unfold decide_and_actuate. destruct (c_desired c) eqn:Hd; [by apply running_arm_calls|..].
  - unfold suspended_arm. destruct q as [q|]; [apply (arm_spec_quiet c _ w NoOp); eauto|].
    destruct (is_some_and _ _); [|apply (arm_spec_quiet c _ w NoOp); eauto].
    by apply (provider_arm c None w ASuspended).
  - unfold terminated_arm. destruct (is_some_and _ _); [|apply (arm_spec_quiet c _ w NoOp); eauto].
    by apply (provider_arm c q w ATerminated).
Qed.

Lemma reconcile_one_log c now w r w' :
  reconcile_one c now w = (r, w') ->
  exists a calls, log w' = log w ++ calls /\
  let q := queue_of (cs_project (c_spec c)) (w_store w) in
  calls `prefix_of` action_calls c q a /\
  (forall a', r = Ok a' -> a' = a /\ calls = action_calls c q a) /\
  (calls <> [] ->
     serves (c_desired c) q a /\ m_quarantined (w_store w) = false /\ in_backoff c now = false) /\
  (a = Applied -> calls <> [] -> exists i, m_intents (w_store w') !! intent_key c = Some i /\
     i_params_fingerprint i = params_fingerprint (c_spec c) /\
     (is_ok r = true -> i_status i = IApplied)).
Proof.
  rewrite reconcile_one_eq. destruct (in_backoff c now) eqn:Hb.
  { intros [= <- <-]. exists Backoff, []. rewrite app_nil_r. split_and!; try done. naive_solver. }
  pose proof (quiet_observe (c_id c) w) as [Hlog _]. pose proof (try_observe_store (c_id c) w) as Hst.
  destruct (try_observe (c_id c) w) as [[obs|e] w1]; cbn [snd] in *.
  2:{ intros [= <- <-]. exists NoOp, []. rewrite app_nil_r, Hlog. by split_and!. }
  rewrite Hst. destruct (m_quarantined (w_store w)) eqn:Hq.
  { intros [= <- <-]. exists NoOp, []. rewrite app_nil_r, <-Hlog. split_and!; try done. naive_solver. }
  set (q := queue_of _ _).
  destruct (decide_calls c obs q now w1) as (a & calls & Hl & Hp & Hserves & Hok & Hrow).
  rewrite Hlog in Hl.
  destruct (decide_and_actuate c obs q now w1) as [[[a0|a0 cond]|e] w2]; cbn [fst snd] in *.
  - intros [= <- <-]. exists a, calls. destruct (Hok _ eq_refl) as [? [[= ->]|[? [=]]]].
    split_and!; try done; naive_solver.
  - destruct (Hok _ eq_refl) as [? [[=]|[? [= <- <-]]]].
    destruct (quiet_persist c a0 cond now w2) as [Hlp Hip].
    destruct (persist_outcome c a0 cond now w2) as [rp wp] eqn:Hpe; cbn [snd] in *.
    intros [= <- <-]. exists a0, calls. rewrite Hlp, Hl, Hip. split_and!; try done; [|naive_solver..].
    intros a' ->. split; [eapply persist_result, Hpe|done].
  - intros [= <- <-]. exists a, calls. split_and!; try done. naive_solver.
Qed.

(** C1. One pass over one cluster makes exactly the provider calls of the action it
    reports, in order, and when it stops with an error a prefix of one action's
    calls. It makes a call only outside quarantine and backoff, and only one that
    serves the desired state: apply for Running, terminate for Terminated,
    suspend for a queue-free Suspended. Whenever any call of an apply was made,
    failed or not, the outbox row of the cluster's key carries the fingerprint of
    the spec that was sent, and it is marked applied if the pass succeeded. *)
Theorem reconcile_one_calls c now w :
  let r := fst (reconcile_one c now w) in
  let w' := snd (reconcile_one c now w) in
  let q := queue_of (cs_project (c_spec c)) (w_store w) in
  exists a calls, log w' = log w ++ calls /\
  calls `prefix_of` action_calls c q a /\
  (forall a', r = Ok a' -> a' = a /\ calls = action_calls c q a) /\
  (calls <> [] ->
     serves (c_desired c) q a /\ m_quarantined (w_store w) = false /\ in_backoff c now = false) /\
  (a = Applied -> calls <> [] -> exists i, m_intents (w_store w') !! intent_key c = Some i /\
     i_params_fingerprint i = params_fingerprint (c_spec c) /\
     (is_ok r = true -> i_status i = IApplied)).
Proof. apply (reconcile_one_log c now w). by destruct (reconcile_one c now w). Qed.

(** ** Quarantine *)

(** What a pass may do to the store outside the cluster table. *)
Lemma reconcile_one_quarantined c now w r w' :
  reconcile_one c now w = (r, w') -> m_quarantined (w_store w) = true ->
  log w' = log w /\ m_quarantined (w_store w') = true /\
  m_intents (w_store w') = m_intents (w_store w) /\
  forall id row, m_clusters (w_store w) !! id = Some row ->
    exists o g, m_clusters (w_store w') !! id = Some row \/
      m_clusters (w_store w') !! id = Some (with_observation o g row).
Proof.
  rewrite reconcile_one_eq. destruct (in_backoff c now).
  { intros [= <- <-] Hq. split_and!; try done. intros id row Hid. exists None, 0. by left. }
  pose proof (quiet_observe (c_id c) w) as [Hlog _]. pose proof (try_observe_store (c_id c) w) as Hst.
  destruct (try_observe (c_id c) w) as [[obs|e] w1]; cbn [snd] in *.
  - intros Hr Hq. rewrite Hst, Hq in Hr. simplify_eq. split_and!; try done.
    intros id row Hid. do 2 eexists. cbn. rewrite lookup_alter. case_decide; subst; [right|left];
    rewrite ?Hid; done.
  - intros [= <- <-] Hq. rewrite Hst. split_and!; try done. intros id row Hid. exists None, 0. by left.
Qed.

(** The rows a loop of passes leaves when quarantined: observations only. *)
Definition only_observed (s s' : InMemoryStore) : Prop :=
  forall id row, m_clusters s !! id = Some row ->
    exists row', m_clusters s' !! id = Some row' /\ c_spec row' = c_spec row /\
      c_generation row' = c_generation row /\ c_desired row' = c_desired row /\
      c_condition row' = c_condition row /\ c_failure_count row' = c_failure_count row /\
      c_next_attempt_at row' = c_next_attempt_at row /\
      c_observed_generation row <= c_observed_generation row'.

Lemma reconcile_loop_quarantined cs now w out w' :
  reconcile_loop cs now w = (out, w') -> m_quarantined (w_store w) = true ->
  log w' = log w /\ m_quarantined (w_store w') = true /\
  m_intents (w_store w') = m_intents (w_store w) /\ only_observed (w_store w) (w_store w').
Proof.
  revert w out. induction cs as [|c cs IH]; intros w out; cbn [reconcile_loop].
  { intros [= _ <-] Hq. split_and!; try done. intros id row Hid. exists row. split_and!; try done. }
  destruct (reconcile_one c now w) as [r w1] eqn:E1.
  destruct (reconcile_loop cs now w1) as [out2 w2] eqn:E2. intros [= _ <-] Hq.
  destruct (reconcile_one_quarantined _ _ _ _ _ E1 Hq) as (Hl & Hq1 & Hi & Hrows).
  destruct (IH _ _ E2 Hq1) as (Hl2 & Hq2 & Hi2 & Hrows2).
  rewrite Hl2, Hi2. split_and!; try done. intros id row Hid.
  destruct (Hrows _ _ Hid) as (o & g & [Hrow|Hrow]); destruct (Hrows2 _ _ Hrow) as (row' & Hr' & Hrest);
    exists row'; split; try done; cbn in Hrest; destruct_and!; split_and!; try done; lia.
Qed.
End calls.

(** ** The frame of a pass *)

(** The fields a pass may write are the status ones. *)
Definition same_intent (row row' : StoredCluster) : Prop :=
  c_id row' = c_id row /\ c_spec row' = c_spec row /\ c_generation row' = c_generation row /\
  c_desired row' = c_desired row /\ c_created_at row' = c_created_at row /\
  c_terminated_at row' = c_terminated_at row /\
  c_observed_generation row <= c_observed_generation row'.

Record status_only (s s' : InMemoryStore) : Prop := {
  so_rows : forall id, option_Forall2 same_intent (m_clusters s !! id) (m_clusters s' !! id);
  so_quarantined : m_quarantined s' = m_quarantined s;
  so_jobs : m_jobs s' = m_jobs s;
  so_pools : m_pools s' = m_pools s;
  so_allocations : m_allocations s' = m_allocations s;
  so_usage : m_usage s' = m_usage s;
  so_policy : m_policy s' = m_policy s;
  so_audit : m_audit s' = m_audit s /\ m_audit_seq s' = m_audit_seq s;
  so_users : m_local_users s' = m_local_users s;
  so_tokens : m_api_tokens s' = m_api_tokens s;
  so_assignments : m_assignments s' = m_assignments s;
}.

#[export] Instance same_intent_preorder : PreOrder same_intent.
Proof.
  split; [by intros ?|]. intros x y z (? & ? & ? & ? & ? & ? & ?) (? & ? & ? & ? & ? & ? & ?).
  split_and!; try lia; congruence.
Qed.

#[export] Instance status_only_preorder : PreOrder status_only.
Proof.
  split.
  - by intros s; split.
  - intros s1 s2 s3 [R1 ?] [R2 ?]. split; try congruence.
    + intros id. specialize (R1 id). specialize (R2 id).
      destruct R1 as [x y|]; inversion R2; subst; constructor. by etrans.
    + destruct_and!. split; congruence.
Qed.

Section frame.
Context {P : Type} `{Provisioner P} `{Serde}.
Implicit Types (w : World P) (c : StoredCluster).

Definition framed {A} (m : ST (World P) ReconcileError A) : Prop :=
  forall w, status_only (w_store w) (w_store (snd (m w))).

Lemma framed_ret {A} (a : A) : framed (mret a).
Proof. done. Qed.
Lemma framed_err {A} e : framed (A := A) (st_err e).
Proof. done. Qed.
Lemma framed_now : framed now_unix.
Proof. done. Qed.
Lemma framed_prov {A} (m : ST P ProvisionError A) : framed (prov m).
Proof. intros w. unfold prov. by destruct (m (w_prov w)). Qed.
Lemma framed_bind {A B} (m : ST (World P) ReconcileError A) (f : A -> ST (World P) ReconcileError B) :
  framed m -> (forall a, framed (f a)) -> framed (m ≫= f).
Proof.
  intros Hm Hf w. unfold mbind, ST_bind. specialize (Hm w).
  destruct (m w) as [[a|e] w1]; cbn in *; [|done]. etrans; [exact Hm|apply Hf].
Qed.
Lemma framed_alter id f :
  (forall row, same_intent row (f row)) -> framed (store (upd_clusters (alter f id))).
Proof.
  intros Hf w. split; try done. intros j. cbn. rewrite lookup_alter.
  case_decide; subst; destruct (m_clusters (w_store w) !! _); constructor; auto. done.
Qed.
Lemma framed_get {A} (f : InMemoryStore -> A) : framed (store (st_get f)).
Proof. intros w. by rewrite store_get_eq. Qed.
Lemma framed_intents f : framed (store (st_put (fun s => set_intents (f s) s))).
Proof. by intros w; split. Qed.
Lemma framed_observe id : framed (try_observe id).
Proof. intros w. by rewrite try_observe_store. Qed.
Lemma framed_token now : framed (take_token now).
Proof. intros w. unfold take_token. destruct (w_limits w); [|done]. by destruct (try_take _ _). Qed.
Lemma framed_queue p : framed (store (queue_assignment_for_project p)).
Proof. intros w. unfold store. by rewrite queue_assignment_eq. Qed.
Lemma framed_begin t key fp : framed (store (begin_intent t key fp)).
Proof.
  intros w. unfold store, begin_intent. run_store. destruct (m_intents _ !! key); [done|].
  apply (framed_intents (fun s => <[key := _]> (m_intents s)) w).
Qed.

Lemma same_intent_observation o g row : same_intent row (with_observation o g row).
Proof. split_and!; try done. cbn. lia. Qed.
Lemma same_intent_condition d row : same_intent row (with_condition d row).
Proof. by split_and!. Qed.
Lemma same_intent_attempt f n row : same_intent row (with_attempt f n row).
Proof. by split_and!. Qed.
End frame.

Create HintDb framed.
#[export] Hint Resolve framed_ret framed_err framed_now framed_prov framed_get framed_observe
  framed_token framed_queue framed_begin framed_intents framed_alter same_intent_observation
  same_intent_condition same_intent_attempt : framed.

(** Follow the control flow of a computation, framing each step. *)
Ltac frame_step :=
  repeat (first [apply framed_bind; [|intros ?] | progress cbn beta iota | case_match];
          try solve [eauto with framed nocore]).

Section frame_pass.
Context {P : Type} `{Provisioner P} `{Serde}.
Implicit Types (w : World P) (c : StoredCluster).

Lemma framed_outbox c q : framed (apply_through_outbox c q).
Proof. unfold apply_through_outbox, complete_intent. frame_step. Qed.

Lemma framed_decide c obs q now : framed (decide_and_actuate c obs q now).
Proof.
  unfold decide_and_actuate, running_arm, terminated_arm, suspended_arm.
  pose proof framed_outbox. frame_step; done.
Qed.

Lemma framed_persist c a cond now : framed (persist_outcome c a cond now).
Proof.
  unfold persist_outcome, account_progress, record_observation, set_condition, record_attempt.
  frame_step.
Qed.

Lemma framed_reconcile_one c now : framed (reconcile_one c now).
Proof.
  unfold reconcile_one, is_quarantined, record_observation.
  pose proof framed_decide. pose proof framed_persist. frame_step; done.
Qed.

Lemma framed_loop cs now w :
  status_only (w_store w) (w_store (snd (reconcile_loop cs now w))).
Proof.
  revert w. induction cs as [|c cs IH]; intros w; cbn [reconcile_loop]; [done|].
  pose proof (framed_reconcile_one c now w) as H1.
  destruct (reconcile_one c now w) as [r w1]. specialize (IH w1).
  destruct (reconcile_loop cs now w1) as [out w2]. cbn in *. by etrans.
Qed.

Lemma reconcile_all_eq now w :
  reconcile_all_at now w = reconcile_loop (map_values (m_clusters (w_store w))) now w.
Proof. unfold reconcile_all_at, list_clusters. by rewrite store_get_eq. Qed.

Lemma reconcile_loop_entries cs now w :
  (fst (reconcile_loop cs now w)).*1 = c_id <$> cs.
Proof.
  revert w. induction cs as [|c cs IH]; intros w; cbn [reconcile_loop]; [done|].
  destruct (reconcile_one c now w) as [r w1]. specialize (IH w1).
  destruct (reconcile_loop cs now w1) as [out w2]. cbn in *. by rewrite IH.
Qed.

(** A pass reports one outcome per stored cluster, an error of one never keeps
    another from its turn, and whatever the outcomes the pass writes only status:
    no row appears or disappears, specs, generations, desired states, creation
    and termination times stay, the observed generation never goes back, and no
    other table of the store but the outbox changes. *)
Theorem reconcile_all_frame now w :
  (fst (reconcile_all_at now w)).*1 = c_id <$> map_values (m_clusters (w_store w)) /\
  status_only (w_store w) (w_store (snd (reconcile_all_at now w))).
Proof. rewrite reconcile_all_eq. split; [apply reconcile_loop_entries|apply framed_loop]. Qed.
End frame_pass.

(** C18. A quarantined control plane observes and never actuates: a pass makes no
    mutating provider call, opens no intent, stays quarantined, and changes in
    every row only what was observed. *)
Theorem quarantine_never_actuates {P} `{Provisioner P} `{Serde} now (w : World (Logged P)) :
  m_quarantined (w_store w) = true ->
  let w' := snd (reconcile_all_at now w) in
  log w' = log w /\ m_quarantined (w_store w') = true /\
  m_intents (w_store w') = m_intents (w_store w) /\ only_observed (w_store w) (w_store w').
Proof.
  intros Hq. cbn zeta. rewrite reconcile_all_eq.
  destruct (reconcile_loop _ now w) as [out w'] eqn:E. by eapply reconcile_loop_quarantined.
Qed.

Lemma quarantine_never_actuates_witness :
  m_quarantined (w_store quarantined_logged) = true /\
  log (snd (reconcile_all_at 100 quarantined_logged)) = [] /\
  m_intents (w_store (snd (reconcile_all_at 100 quarantined_logged))) = ∅.
Proof.
  split; [reflexivity|].
  destruct (quarantine_never_actuates 100 quarantined_logged eq_refl) as (Hl & _ & Hi & _).
  split; [exact Hl|exact Hi].
Defined.
