(* ===== verification/ReaperFacts.v ===== *)
(** * Theorems about the reapers and the stale-restore check *)

From S2P Require Import Prelude Float64 Core Policy Store StoreFacts StoreQueries Provision.
From S2P Require Import Reconcile Sample ReconcileFacts.
#[local] Open Scope Z_scope.

(** ** When a cluster's lifetime is over *)

Definition job_end (j : JobRecord) : Z :=
  u64_sat_add (j_submitted_at j) (default 0 (j_duration_secs j)).

(** Desired and observed running, and past its age cap, or with an idle window
    and no unfinished job, every job having ended at least the window ago. A
    window of zero is always past. *)
Definition lifetime_over (jobs : list JobRecord) (now : Z) (c : StoredCluster) : Prop :=
  c_desired c = DRunning /\ c_observed_state c = Some Running /\
  ((exists ttl, cs_ttl_seconds (c_spec c) = Some ttl /\ ttl <= sat_sub now (c_created_at c)) \/
   (exists idle, cs_idle_timeout_secs (c_spec c) = Some idle /\
     (idle <= 0 \/
      c_created_at c + idle <= now /\
      forall j, j ∈ jobs -> j_cluster j = c_id c ->
        job_is_terminal (j_status j) = true /\ job_end j + idle <= now))).

Lemma last_activity_idle last jobs now idle :
  0 < idle ->
  idle <= sat_sub now (last_activity_loop last jobs now) <->
  last + idle <= now /\
  forall j, j ∈ jobs -> job_is_terminal (j_status j) = true /\ job_end j + idle <= now.
Proof.
  intros Hidle. revert last. induction jobs as [|j jobs IH]; intros last; cbn.
  { rewrite sat_sub_le_iff by done. set_solver by lia. }
  destruct (job_is_terminal (j_status j)) eqn:Hj; cbn.
  - rewrite IH. fold (job_end j). split.
    + intros [? Hall]. split; [lia|]. intros j' [->|?]%elem_of_cons; [split; [done|lia]|by apply Hall].
    + intros [? Hall]. destruct (Hall j ltac:(left)). split; [lia|]. intros j' ?. apply Hall. by right.
  - rewrite sat_sub_le_iff by done. split; [lia|]. intros [_ Hall]. destruct (Hall j ltac:(left)). congruence.
Qed.

Lemma reap_reason_spec jobs now c :
  is_Some (reap_reason c (cluster_jobs (c_id c) jobs) now) <-> lifetime_over jobs now c.
Proof.
  unfold reap_reason, is_expired, is_idle_expired, desired_and_observed_running, lifetime_over.
  destruct (c_desired c) eqn:Hd; cbn; try (split; [by intros []|naive_solver]).
  case_bool_decide as Ho; cbn; [|split; [by intros []|naive_solver]].
  set (jc := cluster_jobs (c_id c) jobs).
  assert (forall idle, idle <= sat_sub now (last_activity_at (c_created_at c) jc now) <->
    (idle <= 0 \/ c_created_at c + idle <= now /\
      forall j, j ∈ jobs -> j_cluster j = c_id c ->
        job_is_terminal (j_status j) = true /\ job_end j + idle <= now)) as Hidle.
  { intros idle. destruct (decide (idle <= 0)) as [Hle|Hgt].
    - split; [by left|]. intros _. unfold sat_sub. lia.
    - unfold last_activity_at. rewrite last_activity_idle by lia. unfold jc, cluster_jobs.
      setoid_rewrite list_elem_of_filter. naive_solver lia. }
  destruct (is_some_and (cs_ttl_seconds _) _) eqn:Httl.
  { apply is_some_and_true in Httl as (ttl & Heq & ?%Z.leb_le). split; [|by eauto]. naive_solver. }
  assert (~ exists ttl, cs_ttl_seconds (c_spec c) = Some ttl /\ ttl <= sat_sub now (c_created_at c)) as Hn.
  { intros (ttl & Heq & Hle). rewrite Heq in Httl. cbn in Httl. apply Z.leb_gt in Httl. lia. }
  destruct (is_some_and (cs_idle_timeout_secs _) _) eqn:Hi.
  - apply is_some_and_true in Hi as (idle & Heq & Hle%Z.leb_le%Hidle). split; [|by eauto].
    intros _. split_and!; try done. right. eauto.
  - split; [by intros []|]. intros (_ & _ & [?|(idle & Heq & Hle%Hidle)]); [done|].
    rewrite Heq in Hi. cbn in Hi. apply Z.leb_gt in Hi. lia.
Qed.

#[export] Instance lifetime_over_dec jobs now c : Decision (lifetime_over jobs now c).
Proof.
  refine (cast_if (decide (is_Some (reap_reason c (cluster_jobs (c_id c) jobs) now))));
    by rewrite <-reap_reason_spec.
Defined.

Section reap.
Context {P : Type} `{Provisioner P} `{Serde}.
Implicit Types (w : World P).

Lemma set_desired_eq t id d c w :
  m_clusters (w_store w) !! id = Some c ->
  store (set_desired t id d) w =
  (Ok tt, set_store (set_clusters (<[id := with_desired t d c]> (m_clusters (w_store w))) (w_store w)) w).
Proof. intros Hc. unfold store, set_desired. run_store. by rewrite Hc. Qed.

(** The loop over rows that are still as they were listed. *)
Lemma reap_expired_loop_spec cs jobs now w :
  (forall c, c ∈ cs -> m_clusters (w_store w) !! c_id c = Some c) -> NoDup (c_id <$> cs) ->
  exists w', reap_expired_loop cs jobs now w =
    (Ok (c_id <$> filter (lifetime_over jobs now) cs), w') /\
  w_prov w' = w_prov w /\
  (forall id, id ∉ c_id <$> cs -> m_clusters (w_store w') !! id = m_clusters (w_store w) !! id) /\
  (forall c, c ∈ cs ->
     (lifetime_over jobs now c /\
        exists t, m_clusters (w_store w') !! c_id c = Some (with_desired t DTerminated c)) \/
     (~ lifetime_over jobs now c /\ m_clusters (w_store w') !! c_id c = Some c)).
Proof.
  revert w. induction cs as [|c cs IH]; intros w Hrows Hnd; cbn [reap_expired_loop].
  { eexists. split; [done|]. split_and!; try done. set_solver. }
  rewrite fmap_cons, NoDup_cons in Hnd. destruct Hnd as [Hnot Hnd].
  pose proof (reap_reason_spec jobs now c) as Hspec.
  destruct (reap_reason c _ now) as [reason|].
  - assert (lifetime_over jobs now c) as Hover by (apply Hspec; eauto).
    unfold mbind, ST_bind, now_unix. cbn [w_store].
    rewrite (set_desired_eq _ _ _ c) by (apply Hrows; left).
    match goal with |- context [reap_expired_loop cs jobs now ?w1] =>
      destruct (IH w1) as (w' & -> & Hp & Hother & Heach); [|done|] end.
    { intros c' Hc'. cbn. rewrite lookup_insert_ne; [apply Hrows; by right|].
      intros Heq. apply Hnot, list_elem_of_fmap. by exists c'. }
    exists w'. rewrite filter_cons_True by done. cbn in Hp, Hother, Heach. split_and!; try done.
    + intros id Hid. rewrite fmap_cons, not_elem_of_cons in Hid. destruct Hid.
      rewrite Hother by done. by rewrite lookup_insert_ne.
    + intros c' [->|Hc']%elem_of_cons; [|by apply Heach]. left. split; [done|].
      rewrite Hother by done. rewrite lookup_insert_eq. eauto.
  - assert (~ lifetime_over jobs now c) as Hover by (rewrite <-Hspec; by intros []).
    destruct (IH w) as (w' & -> & Hp & Hother & Heach); [intros; apply Hrows; by right|done|].
    exists w'. rewrite filter_cons_False by done. split_and!; try done.
    + intros id Hid. rewrite fmap_cons, not_elem_of_cons in Hid. apply Hother, Hid.
    + intros c' [->|Hc']%elem_of_cons; [|by apply Heach]. right. split; [done|].
      rewrite Hother by done. apply Hrows. left.
Qed.

(** The listed rows of a store whose rows sit under their own ids. *)
Lemma listed_rows s :
  map_Forall (fun id c => c_id c = id) (m_clusters s) ->
  (forall c, c ∈ map_values (m_clusters s) -> m_clusters s !! c_id c = Some c) /\
  NoDup (c_id <$> map_values (m_clusters s)).
Proof.
  intros Hwf. split.
  - intros c [id Hid]%elem_of_map_values. by rewrite (Hwf _ _ Hid).
  - unfold map_values. rewrite <-list_fmap_compose.
    rewrite (list_fmap_ext _ fst).
    { apply NoDup_fst_map_to_list. }
    intros i [k c] Hi. cbn. apply (Hwf k c), elem_of_map_to_list. by eapply list_elem_of_lookup_2.
Qed.

Lemma reap_expired_eq now w :
  reap_expired now w =
  reap_expired_loop (map_values (m_clusters (w_store w)))
    (sort_by_key (fun r => - j_submitted_at r) (map_values (m_jobs (w_store w)))) now w.
Proof.
  unfold reap_expired, mbind, ST_bind, list_clusters, list_jobs. by rewrite !store_get_eq.
Qed.

Lemma lifetime_over_jobs jobs jobs' now c :
  (forall j, j ∈ jobs <-> j ∈ jobs') -> lifetime_over jobs now c <-> lifetime_over jobs' now c.
Proof. intros Hj. unfold lifetime_over. by setoid_rewrite Hj. Qed.

(** The lifecycle reaper reaps exactly the clusters whose lifetime is over: a
    running cluster past its age cap, or one whose idle window has passed since
    its creation and the end of every one of its jobs with none unfinished. Each
    becomes desired Terminated with a termination time and nothing else of it
    changes; every other row, and the backend, are left alone. *)
Theorem reap_expired_spec now w :
  map_Forall (fun id c => c_id c = id) (m_clusters (w_store w)) ->
  exists reaped w', reap_expired now w = (Ok reaped, w') /\ w_prov w' = w_prov w /\
  forall id c, m_clusters (w_store w) !! id = Some c ->
  let over := lifetime_over (map_values (m_jobs (w_store w))) now c in
  (id ∈ reaped <-> over) /\
  (over -> exists t, m_clusters (w_store w') !! id = Some (with_desired t DTerminated c)) /\
  (~ over -> m_clusters (w_store w') !! id = Some c).
Proof.
  intros Hwf. destruct (listed_rows _ Hwf) as [Hrows Hnd]. rewrite reap_expired_eq.
  set (js := sort_by_key _ _).
  destruct (reap_expired_loop_spec _ js now w Hrows Hnd) as (w' & -> & Hp & _ & Heach).
  do 2 eexists. split; [done|]. split; [done|]. intros id c Hid. cbn zeta.
  assert (c ∈ map_values (m_clusters (w_store w))) as Hin by (apply elem_of_map_values; eauto).
  rewrite (lifetime_over_jobs _ js) by (intros j; symmetry; apply elem_of_sort_stable).
  pose proof (Hwf _ _ Hid) as Hcid. cbn in Hcid. subst id. split; [|naive_solver].
  rewrite list_elem_of_fmap. setoid_rewrite list_elem_of_filter. split.
  - intros (c' & Heq & Ho & Hin'). pose proof (Hrows _ Hin') as Hr.
    rewrite <-Heq in Hr. by assert (c = c') as -> by congruence.
  - intros Ho. by exists c.
Qed.

(** ** Tombstones *)

(** Desired Terminated for at least the retention window and observed gone. *)
Definition dead_tombstone (now retention : Z) (c : StoredCluster) : Prop :=
  c_desired c = DTerminated /\
  (c_observed_state c = None \/ c_observed_state c = Some Terminated) /\
  exists t, c_terminated_at c = Some t /\ retention <= sat_sub now t.

Lemma is_purgeable_spec c now retention :
  is_purgeable_tombstone c now retention = true <-> dead_tombstone now retention c.
Proof.
  unfold is_purgeable_tombstone, dead_tombstone, observed_gone.
  rewrite !andb_true_iff, is_some_and_true. setoid_rewrite Z.leb_le.
  destruct (c_desired c), (c_observed_state c) as [[]|]; naive_solver.
Qed.

Lemma reap_terminated_loop_spec cs now retention w :
  (forall c, c ∈ cs -> m_clusters (w_store w) !! c_id c = Some c) -> NoDup (c_id <$> cs) ->
  exists removed w', reap_terminated_loop cs now retention w = (Ok removed, w') /\
  (forall id, id ∈ removed -> exists c, c ∈ cs /\ c_id c = id /\ dead_tombstone now retention c) /\
  (forall id, m_clusters (w_store w') !! id =
     if decide (id ∈ removed) then None else m_clusters (w_store w) !! id) /\
  ((forall id p, is_ok (fst (pv_reap_network_policies id p)) = true) ->
     forall c, c ∈ cs -> dead_tombstone now retention c -> c_id c ∈ removed).
Proof.
  revert w. induction cs as [|c cs IH]; intros w Hrows Hnd; cbn [reap_terminated_loop].
  { do 2 eexists. split; [done|]. split_and!; [set_solver|by intros|set_solver]. }
  rewrite fmap_cons, NoDup_cons in Hnd. destruct Hnd as [Hnot Hnd].
  pose proof (is_purgeable_spec c now retention) as Hspec.
  assert (forall c', c' ∈ cs -> m_clusters (w_store w) !! c_id c' = Some c') as Hrows'
    by (intros; apply Hrows; by right).
  destruct (is_purgeable_tombstone c now retention); cbn [negb].
  2:{ destruct (IH w) as (removed & w' & -> & Hin & Hlook & Hall); [done..|].
      do 2 eexists. split; [done|]. split_and!; [set_solver|done|]. intros Hok c'.
      rewrite elem_of_cons. naive_solver. }
  unfold prov. destruct (pv_reap_network_policies (c_id c) (w_prov w)) as [[u|e] p] eqn:Hp; cbn.
  2:{ destruct (IH (set_prov p w)) as (removed & w' & -> & Hin & Hlook & Hall); [done..|].
      do 2 eexists. split; [done|]. split_and!; [set_solver|done|]. intros Hok.
      specialize (Hok (c_id c) (w_prov w)). by rewrite Hp in Hok. }
  unfold mbind, ST_bind, store, remove_cluster. run_store. cbn.
  rewrite (Hrows c) by left. rewrite bool_decide_eq_true_2 by eauto.
  match goal with |- context [reap_terminated_loop cs now retention ?w1] =>
    destruct (IH w1) as (removed & w' & -> & Hin & Hlook & Hall); [|done|] end.
  { intros c' Hc'. cbn. rewrite lookup_delete_ne; [by apply Hrows'|].
    intros Heq. apply Hnot, list_elem_of_fmap. by exists c'. }
  do 2 eexists. split; [done|]. split_and!.
  - intros id [->|Hid]%elem_of_cons; [exists c; split_and!; [left|done|by apply Hspec]|set_solver].
  - intros id. rewrite Hlook. cbn.
    destruct (decide (id = c_id c)) as [->|Hne].
    + rewrite lookup_delete_eq. repeat case_decide; set_solver.
    + rewrite lookup_delete_ne by done. repeat case_decide; set_solver.
  - intros Hok c' [->|Hc']%elem_of_cons Hdead; [left|right; by apply Hall].
Qed.

(** The retention sweep removes only dead tombstones, leaves every other row
    untouched, and removes all of them when no network-policy reap fails; a
    failed reap keeps the row for the next sweep. *)
Theorem reap_terminated_spec now retention w :
  map_Forall (fun id c => c_id c = id) (m_clusters (w_store w)) ->
  exists removed w', reap_terminated now retention w = (Ok removed, w') /\
  (forall id, m_clusters (w_store w') !! id =
     if decide (id ∈ removed) then None else m_clusters (w_store w) !! id) /\
  (forall id, id ∈ removed ->
     exists c, m_clusters (w_store w) !! id = Some c /\ dead_tombstone now retention c) /\
  ((forall id p, is_ok (fst (pv_reap_network_policies id p)) = true) ->
     forall id c, m_clusters (w_store w) !! id = Some c -> dead_tombstone now retention c ->
       id ∈ removed).
Proof.
  intros Hwf. destruct (listed_rows _ Hwf) as [Hrows Hnd].
  unfold reap_terminated, mbind, ST_bind, list_clusters. rewrite store_get_eq.
  destruct (reap_terminated_loop_spec _ now retention w Hrows Hnd)
    as (removed & w' & -> & Hin & Hlook & Hall).
  do 2 eexists. split; [done|]. split_and!; [done|..].
  - intros id (c & Hc & <- & ?)%Hin. exists c. split; [by apply Hrows|done].
  - intros Hok id c Hid Hd. pose proof (Hwf _ _ Hid) as Hcid. cbn in Hcid. subst id.
    apply Hall; [done| |done]. apply elem_of_map_values. eauto.
Qed.
End reap.

(** ** Stale restore *)

Section stale.
Context {P : Type} `{ObservePure P} `{Serde}.
Implicit Types (w : World P).

(** What [observe] reports of a cluster's generation. *)
Definition reported_generation (id : ClusterId) (p : P) : option Z :=
  match fst (pv_observe id p) with Ok o => o_observed_generation o | Err _ => None end.

(** The backend answers for the cluster: an observation, or [NotFound]. *)
Definition answers (id : ClusterId) (p : P) : Prop :=
  match fst (pv_observe id p) with Err (PBackend _) => False | _ => True end.

Lemma try_observe_pure id w :
  answers id (w_prov w) ->
  exists obs, try_observe id w = (Ok obs, w) /\
    obs ≫= o_observed_generation = reported_generation id (w_prov w).
Proof.
  unfold try_observe, answers, reported_generation. pose proof (observe_pure id (w_prov w)) as Hp.
  assert (set_prov (w_prov w) w = w) as Hw by (by destruct w).
  destruct (pv_observe id (w_prov w)) as [[o|[]] p]; cbn in *; intros; subst p; rewrite Hw; eauto.
  done.
Qed.

Definition ahead (w : World P) (c : StoredCluster) : Prop :=
  exists g, reported_generation (c_id c) (w_prov w) = Some g /\ c_generation c < g.

Lemma stale_loop_spec cs w :
  (forall c, c ∈ cs -> answers (c_id c) (w_prov w)) ->
  (stale_loop cs w = (Ok false, w) /\ forall c, c ∈ cs -> ~ ahead w c) \/
  (stale_loop cs w = (Ok true, set_store (set_quarantined true (w_store w)) w) /\
   exists c, c ∈ cs /\ ahead w c).
Proof.
  induction cs as [|c cs IH]; intros Hans; cbn [stale_loop].
  { left. split; [done|]. set_solver. }
  destruct (try_observe_pure (c_id c) w) as (obs & Ho & Hg); [apply Hans; left|].
  unfold mbind, ST_bind. rewrite Ho. change (option_bind _ _ o_observed_generation obs) with
    (obs ≫= o_observed_generation). rewrite Hg.
  destruct (reported_generation (c_id c) (w_prov w)) as [g|] eqn:Hr; cbn.
  - destruct (Z.ltb_spec (c_generation c) g) as [Hlt|Hge].
    + right. split; [done|]. exists c. split; [left|]. by exists g.
    + destruct IH as [[-> Hno]|[-> (c' & ? & ?)]]; [intros; apply Hans; by right|left|right].
      * split; [done|]. intros c' [->|?]%elem_of_cons (g' & Hg' & ?); [simplify_eq; lia|].
        eapply Hno; [done|]. by exists g'.
      * split; [done|]. exists c'. by split; [right|].
  - destruct IH as [[-> Hno]|[-> (c' & ? & ?)]]; [intros; apply Hans; by right|left|right].
    * split; [done|]. intros c' [->|?]%elem_of_cons (g' & Hg' & ?); [simplify_eq|].
      eapply Hno; [done|]. by exists g'.
    * split; [done|]. exists c'. by split; [right|].
Qed.
End stale.

(** The boot check, on a backend that answers for every stored cluster: it
    quarantines exactly when some backing cluster reports a generation newer than
    the store's, changes nothing otherwise, and once it has quarantined, no later
    pass makes a mutating provider call. *)
Theorem stale_restore_fence {P} `{ObservePure P} `{Serde} (w : World (Logged P)) :
  (forall id c, m_clusters (w_store w) !! id = Some c -> answers (c_id c) (w_prov w)) ->
  exists stale w1, detect_stale_restore w = (Ok stale, w1) /\
  (stale = true <-> exists id c, m_clusters (w_store w) !! id = Some c /\ ahead w c) /\
  (stale = false -> w1 = w) /\
  (stale = true -> m_quarantined (w_store w1) = true /\
     forall now, log (snd (reconcile_all_at now w1)) = log w).
Proof.
  intros Hans. unfold detect_stale_restore, mbind, ST_bind, list_clusters. rewrite store_get_eq.
  destruct (stale_loop_spec (map_values (m_clusters (w_store w))) w)
    as [[-> Hno]|[-> (c & [id Hid]%elem_of_map_values & Hc)]].
  { intros c [id Hid]%elem_of_map_values. by eapply Hans. }
  - do 2 eexists. split; [done|]. split_and!; try done. split; [done|].
    intros (id & c & Hid & Hc). exfalso. eapply Hno; [|exact Hc]. apply elem_of_map_values. eauto.
  - do 2 eexists. split; [done|]. split_and!; try done; [by split; eauto|]. intros _. split; [done|].
    intros now. rewrite reconcile_all_eq.
    destruct (reconcile_loop _ now _) as [out w'] eqn:E.
    apply reconcile_loop_quarantined in E as [Hl _]; [|done]. exact Hl.
Qed.

Lemma stale_restore_fence_witness :
  exists stale w1, detect_stale_restore sample_logged = (Ok stale, w1) /\
    (stale = false -> w1 = sample_logged).
Proof.
  destruct (stale_restore_fence sample_logged) as (stale & w1 & Hd & _ & Hf & _).
  - intros id c [-> ->]%sample_clusters. exact I.
  - exists stale, w1. split; [exact Hd|exact Hf].
Defined.

(** The sample cluster has no age cap and no idle window. *)
Lemma reap_expired_spec_witness :
  exists reaped w', reap_expired 100000 sample_world = (Ok reaped, w') /\
    w_prov w' = Demo.new.
Proof.
  destruct (reap_expired_spec 100000 sample_world sample_keyed) as (reaped & w' & Hr & Hp & _).
  exists reaped, w'. split; [exact Hr|exact Hp].
Defined.

(** The sample cluster is desired Running: no tombstone. *)
Lemma reap_terminated_spec_witness :
  exists removed w', reap_terminated 100000 TERMINATED_RETENTION_SECS sample_world = (Ok removed, w') /\
    "c1"%string ∉ removed.
Proof.
  destruct (reap_terminated_spec 100000 TERMINATED_RETENTION_SECS sample_world sample_keyed)
    as (removed & w' & Hr & _ & Hin & _).
  exists removed, w'. split; [exact Hr|]. intros Hc.
  destruct (Hin _ Hc) as (c & [_ ->]%sample_clusters & [Hd _]). discriminate Hd.
Defined.
