(* ===== verification/Converge.v ===== *)
(** * Convergence of the reconcile engine on the demo backend

    The reconcile loop of [serve --demo], end to end: keys of the outbox never
    collide, one pass brings every cluster that is ready for actuation to its
    desired state, and a further pass leaves the backend alone. *)

From stdpp Require Import pretty.
From S2P Require Import Prelude Float64 Core Policy Store StoreFacts StoreQueries Provision.
From S2P Require Import Reconcile Sample ReconcileFacts ReaperFacts.
#[local] Open Scope Z_scope.

(** ** Outbox keys *)

Definition slash : ascii := "/"%char.

Lemma digits_no_slash (n : N) : slash ∉ String.list_ascii_of_string (pretty n).
Proof. apply digits_avoid. intros d. unfold pretty_N_char. repeat case_match; done. Qed.

Lemma list_ascii_app a b :
  String.list_ascii_of_string (a +:+ b) = String.list_ascii_of_string a ++ String.list_ascii_of_string b.
Proof.
  induction a as [|c a IH]; [done|].
  change (String c a +:+ b) with (String c (a +:+ b)). cbn. by rewrite IH.
Qed.

Lemma list_ascii_inj a b :
  String.list_ascii_of_string a = String.list_ascii_of_string b -> a = b.
Proof.
  intros Hab. rewrite <-(String.string_of_list_ascii_of_string a), Hab.
  apply String.string_of_list_ascii_of_string.
Qed.

(** The last separator of a list decides where it splits. *)
Lemma split_last_sep {A} (x : A) l1 l2 k1 k2 :
  x ∉ k1 -> x ∉ k2 -> l1 ++ x :: k1 = l2 ++ x :: k2 -> l1 = l2 /\ k1 = k2.
Proof.
  revert l2. induction l1 as [|y l1 IH]; intros [|z l2] H1 H2 [= Heq]; subst; set_solver.
Qed.

(** The key [{id}/{generation}] determines both: two clusters never share an
    outbox row, and a new generation never reuses one. *)
Lemma intent_key_inj c c' :
  0 <= c_generation c -> 0 <= c_generation c' -> intent_key c = intent_key c' ->
  c_id c = c_id c' /\ c_generation c = c_generation c'.
Proof.
  intros Hg Hg' Hk. unfold intent_key, u64_str in Hk.
  apply (f_equal String.list_ascii_of_string) in Hk. rewrite !list_ascii_app in Hk. cbn in Hk.
  apply split_last_sep in Hk as [Hid%list_ascii_inj Hgen%list_ascii_inj]; [|apply digits_no_slash..].
  apply (inj pretty) in Hgen. split; [done|lia].
Qed.

(** ** One pass on the demo backend *)

Section demo.
Context `{Serde}.
Abbreviation W := (World Demo.DemoProvisioner).
Implicit Types (w : W) (c : StoredCluster).

Definition backing (w : W) (id : ClusterId) : option Demo.DemoCluster :=
  Demo.d_clusters (w_prov w) !! id.

(** Ready for actuation: outside any backoff window, queue-free, and with no
    conflicting row under its outbox key. *)
Definition ready (now : Z) (w : W) (c : StoredCluster) : Prop :=
  in_backoff c now = false /\
  queue_of (cs_project (c_spec c)) (w_store w) = None /\
  0 <= c_generation c /\
  (forall i, m_intents (w_store w) !! intent_key c = Some i ->
     i_params_fingerprint i = params_fingerprint (c_spec c)).

(** The backing cluster is where the desired state wants it. *)
Definition backed (c : StoredCluster) (b : option Demo.DemoCluster) : Prop :=
  match c_desired c with
  | DRunning => exists dc, b = Some dc /\ Demo.d_state dc = Running /\
                  c_generation c <= Demo.d_generation dc
  | DTerminated => forall dc, b = Some dc -> Demo.d_state dc = Terminated
  | DSuspended => forall dc, b = Some dc -> Demo.d_state dc ∈ [Suspended; Terminated]
  end.

Lemma try_observe_demo id w :
  try_observe id w = (Ok (Demo.observed_of id <$> backing w id), w).
Proof.
  assert (set_prov (w_prov w) w = w) as Hw by (by destruct w).
  unfold try_observe, backing. cbn. unfold Demo.observe.
  destruct (Demo.d_clusters (w_prov w) !! id); cbn; by rewrite Hw.
Qed.

(** A step that may touch the backing cluster and the outbox row of [c], and no
    row of the cluster table. *)
Record only_c (c : StoredCluster) (w w' : W) : Prop := {
  oc_limits : w_limits w' = w_limits w;
  oc_clusters : m_clusters (w_store w') = m_clusters (w_store w);
  oc_backing : forall id, id <> c_id c -> backing w' id = backing w id;
  oc_intents : forall k, k <> intent_key c ->
    m_intents (w_store w') !! k = m_intents (w_store w) !! k;
}.

Lemma only_c_refl c w : only_c c w w.
Proof. done. Qed.

Lemma begin_intent_ready t key fp s :
  (forall i, m_intents s !! key = Some i -> i_params_fingerprint i = fp) ->
  exists replay s', begin_intent t key fp s = (Ok (Proceed replay), s') /\
    m_clusters s' = m_clusters s /\ (forall k, k <> key -> m_intents s' !! k = m_intents s !! k).
Proof.
  intros Hi. unfold begin_intent. run_store. destruct (m_intents s !! key) as [i|] eqn:E.
  - rewrite (Hi i eq_refl), String.eqb_refl. eauto 10.
  - do 2 eexists. split; [done|]. split; [done|]. cbn. intros k Hk. by rewrite lookup_insert_ne.
Qed.

Lemma outbox_demo now c w :
  ready now w c -> c_desired c = DRunning ->
  exists w', apply_through_outbox c None w = (Ok (Decide Applied None), w') /\
    only_c c w w' /\ backed c (backing w' (c_id c)).
Proof.
  intros (_ & _ & _ & Hi) Hd. unfold apply_through_outbox, now_unix, mbind, ST_bind, store.
  cbn [w_store].
  destruct (begin_intent_ready (w_clock w (w_reads w)) _ _ _ Hi) as (replay & s' & -> & Hc & Hk).
  cbn. eexists. split; [done|]. split; [split|]; cbn.
  - done.
  - done.
  - intros id Hid. unfold backing. cbn. by rewrite lookup_insert_ne.
  - intros k Hne. rewrite lookup_alter_ne by done. by apply Hk.
  - unfold backed, backing. rewrite Hd. cbn. rewrite lookup_insert_eq. eexists. split; [done|].
    cbn. split; [done|lia].
Qed.

Lemma demo_states w id dc :
  Demo.demo_wf (w_prov w) -> backing w id = Some dc ->
  Demo.d_state dc = Running \/ Demo.d_state dc = Suspended \/ Demo.d_state dc = Terminated.
Proof. intros Hwf Hb. specialize (Hwf _ _ Hb). cbn in Hwf. set_solver. Qed.

(** The backend call of the Suspended and Terminated arms. *)
Lemma alter_only_c c w f :
  only_c c w (set_prov (Demo.set_demo_clusters
    (alter (Demo.with_state f) (c_id c) (Demo.d_clusters (w_prov w))) (w_prov w)) w) /\
  backing (set_prov (Demo.set_demo_clusters
    (alter (Demo.with_state f) (c_id c) (Demo.d_clusters (w_prov w))) (w_prov w)) w) (c_id c)
  = Demo.with_state f <$> backing w (c_id c).
Proof.
  split; [split; try done|].
  - intros id Hid. unfold backing. cbn. by rewrite lookup_alter_ne.
  - unfold backing. cbn. by rewrite lookup_alter_eq.
Qed.

Lemma decide_demo now c w :
  ready now w c -> w_limits w = None -> Demo.demo_wf (w_prov w) ->
  exists a cond w', decide_and_actuate c (Demo.observed_of (c_id c) <$> backing w (c_id c)) None now w
    = (Ok (Decide a cond), w') /\ only_c c w w' /\ backed c (backing w' (c_id c)).
Proof.
  intros Hr Hlim Hwf. unfold decide_and_actuate. destruct (c_desired c) eqn:Hd.
  - assert (exists a cond w', (granted ← take_token now;
      if negb granted then mret (Return Backoff) else apply_through_outbox c None) w
      = (Ok (Decide a cond), w') /\ only_c c w w' /\ backed c (backing w' (c_id c))) as Happly.
    { unfold mbind, ST_bind, take_token. rewrite Hlim. cbn.
      destruct (outbox_demo now c w Hr Hd) as (w' & -> & ? & ?). eauto 10. }
    unfold running_arm. destruct (backing w (c_id c)) as [dc|] eqn:Hb; cbn; [|exact Happly].
    destruct (demo_states _ _ _ Hwf Hb) as [Hs|[Hs|Hs]]; rewrite Hs; cbn; try exact Happly.
    destruct (Z.ltb_spec (Demo.d_generation dc) (c_generation c)); [exact Happly|].
    assert (backed c (backing w (c_id c))) as Hbk by (unfold backed; rewrite Hd, Hb; eauto).
    destruct (negb _); eauto 10 using only_c_refl.
  - unfold suspended_arm. destruct (backing w (c_id c)) as [dc|] eqn:Hb; cbn.
    2:{ do 3 eexists. split; [done|]. split; [done|]. unfold backed. by rewrite Hd, Hb. }
    destruct (alter_only_c c w Demo.suspended_state) as [Ho Hbk]. rewrite Hb in Hbk.
    destruct (demo_states _ _ _ Hwf Hb) as [Hs|[Hs|Hs]]; rewrite Hs; cbn;
      do 3 eexists; (split; [done|]); (split; [done|]); unfold backed; rewrite Hd;
      rewrite ?Hb, ?Hbk; cbn; intros ? [= <-]; cbn; rewrite Hs; set_solver.
  - unfold terminated_arm. destruct (backing w (c_id c)) as [dc|] eqn:Hb; cbn.
    2:{ do 3 eexists. split; [done|]. split; [done|]. unfold backed. by rewrite Hd, Hb. }
    destruct (alter_only_c c w (fun _ => Terminated)) as [Ho Hbk]. rewrite Hb in Hbk.
    destruct (demo_states _ _ _ Hwf Hb) as [Hs|[Hs|Hs]]; rewrite Hs; cbn;
      do 3 eexists; (split; [done|]); (split; [done|]); unfold backed; rewrite Hd;
      rewrite ?Hb, ?Hbk; cbn; by intros ? [= <-].
Qed.

Lemma persist_demo c a cond now w row :
  m_clusters (w_store w) !! c_id c = Some row ->
  exists w' row', persist_outcome c a cond now w = (Ok a, w') /\
    w_prov w' = w_prov w /\ w_limits w' = w_limits w /\
    m_intents (w_store w') = m_intents (w_store w) /\
    (forall id, id <> c_id c -> m_clusters (w_store w') !! id = m_clusters (w_store w) !! id) /\
    m_clusters (w_store w') !! c_id c = Some row' /\ same_intent row row' /\
    c_observed_state row' = Demo.d_state <$> backing w (c_id c).
Proof.
  intros Hrow. unfold persist_outcome, account_progress, mbind, ST_bind.
  rewrite try_observe_demo. unfold record_observation, set_condition, record_attempt, upd_clusters.
  rewrite !store_put_eq.
  assert (o_state <$> (Demo.observed_of (c_id c) <$> backing w (c_id c))
    = Demo.d_state <$> backing w (c_id c)) as -> by (by destruct (backing w (c_id c))).
  case_bool_decide; destruct (progressed _ _ _) as [[]|];
    try destruct (negb (c_failure_count c =? 0) || _); unfold mret, ST_ret; rewrite ?store_put_eq;
    (do 2 eexists; split; [reflexivity|]; cbn; split_and!;
     [done|done|done|intros id Hid; by rewrite ?lookup_alter_ne
     |rewrite ?lookup_alter_eq, Hrow; reflexivity
     |split_and!; try done; cbn; lia
     |done]).
Qed.

Lemma queue_of_frame project s s' : status_only s s' -> queue_of project s' = queue_of project s.
Proof.
  intros Hs. unfold queue_of, queue_assignment_for_project, list_pools. run_store.
  rewrite (so_pools _ _ Hs). induction (map_values (m_pools s)) as [|p ps IH]; [done|].
  cbn [first_queue]. unfold mbind, ST_bind. rewrite !list_allocations_eq, (so_allocations _ _ Hs).
  by destruct (find _ _).
Qed.

(** What one pass leaves for the passes after it. *)
Record pass_ok (c : StoredCluster) (w w' : W) : Prop := {
  po_limits : w_limits w' = None;
  po_wf : Demo.demo_wf (w_prov w');
  po_frame : status_only (w_store w) (w_store w');
  po_backing : forall id, id <> c_id c -> backing w' id = backing w id;
  po_intents : forall k, k <> intent_key c -> m_intents (w_store w') !! k = m_intents (w_store w) !! k;
  po_clusters : forall id, id <> c_id c -> m_clusters (w_store w') !! id = m_clusters (w_store w) !! id;
  po_settled : exists row, m_clusters (w_store w') !! c_id c = Some row /\ same_intent c row /\
    backed c (backing w' (c_id c)) /\ c_observed_state row = Demo.d_state <$> backing w' (c_id c);
}.

Lemma backed_states c dc :
  backed c (Some dc) -> Demo.d_state dc ∈ [Running; Suspended; Terminated].
Proof. unfold backed. destruct (c_desired c); intros Hb; [|specialize (Hb _ eq_refl)..]; set_solver. Qed.

Lemma reconcile_one_demo now c w :
  ready now w c -> w_limits w = None -> Demo.demo_wf (w_prov w) ->
  m_quarantined (w_store w) = false -> m_clusters (w_store w) !! c_id c = Some c ->
  exists a w', reconcile_one c now w = (Ok a, w') /\ pass_ok c w w'.
Proof.
  intros Hr Hlim Hwf Hq Hc. pose proof (framed_reconcile_one c now w) as Hframe.
  revert Hframe. rewrite reconcile_one_eq. destruct Hr as (Hb & Hqueue & Hrest).
  rewrite Hb, try_observe_demo, Hq, Hqueue.
  destruct (decide_demo now c w) as (a & cond & w1 & -> & Ho & Hbk); [done..|].
  destruct (persist_demo c a cond now w1 c) as (w2 & row & -> & Hp & Hl & Hi & Hother & Hrow & Hsame & Hobs).
  { by rewrite (oc_clusters _ _ _ Ho). }
  assert (forall id, backing w2 id = backing w1 id) as Hbeq by (intros; unfold backing; by rewrite Hp).
  intros Hframe. do 2 eexists. split; [done|]. split.
  - by rewrite Hl, (oc_limits _ _ _ Ho).
  - intros id dc Hid. change (backing w2 id = Some dc) in Hid. rewrite Hbeq in Hid.
    destruct (decide (id = c_id c)) as [->|Hne].
    + rewrite Hid in Hbk. by eapply backed_states.
    + rewrite (oc_backing _ _ _ Ho) in Hid by done. by apply (Hwf id).
  - exact Hframe.
  - intros id Hid. rewrite Hbeq. by apply (oc_backing _ _ _ Ho).
  - intros k Hk. rewrite Hi. by apply (oc_intents _ _ _ Ho).
  - intros id Hid. rewrite Hother by done. by rewrite (oc_clusters _ _ _ Ho).
  - exists row. rewrite Hbeq. by split_and!.
Qed.

(** Another cluster's pass keeps a cluster ready. *)
Lemma ready_after now c c' w w' :
  pass_ok c w w' -> c_id c' <> c_id c -> 0 <= c_generation c -> ready now w c' -> ready now w' c'.
Proof.
  intros Hp Hne Hg (Hb & Hq & Hg' & Hi). split_and!; try done.
  - by rewrite (queue_of_frame _ _ _ (po_frame _ _ _ Hp)).
  - rewrite (po_intents _ _ _ Hp); [done|]. intros Hk. by apply intent_key_inj in Hk as [].
Qed.

Lemma reconcile_loop_demo now cs w :
  NoDup (c_id <$> cs) ->
  (forall c, c ∈ cs -> ready now w c /\ m_clusters (w_store w) !! c_id c = Some c) ->
  w_limits w = None -> Demo.demo_wf (w_prov w) -> m_quarantined (w_store w) = false ->
  let w' := snd (reconcile_loop cs now w) in
  Forall (fun x => is_ok (snd x) = true) (fst (reconcile_loop cs now w)) /\
  (forall id, id ∉ c_id <$> cs ->
     backing w' id = backing w id /\ m_clusters (w_store w') !! id = m_clusters (w_store w) !! id) /\
  (forall c, c ∈ cs -> exists row, m_clusters (w_store w') !! c_id c = Some row /\ same_intent c row /\
     backed c (backing w' (c_id c)) /\ c_observed_state row = Demo.d_state <$> backing w' (c_id c)).
Proof.
  cbn zeta. revert w. induction cs as [|c cs IH]; intros w Hnd Hcs Hlim Hwf Hq; cbn [reconcile_loop].
  { split_and!; [constructor|done|set_solver]. }
  rewrite fmap_cons, NoDup_cons in Hnd. destruct Hnd as [Hnot Hnd].
  assert (forall c', c' ∈ cs -> c_id c' <> c_id c) as Hne.
  { intros c' Hc' Heq. apply Hnot. rewrite <-Heq. by apply list_elem_of_fmap_2. }
  destruct (Hcs c) as [Hr Hrow]; [left|].
  destruct (reconcile_one_demo now c w) as (a & w1 & -> & Hp); [done..|].
  destruct (IH w1) as (Hall & Hother & Heach); [done| |apply Hp|apply Hp| |].
  { intros c' Hc'. destruct (Hcs c') as [Hr' Hrow']; [by right|]. pose proof (Hne _ Hc'). split.
    - eapply ready_after; [exact Hp|done| |done]. apply Hr.
    - by rewrite (po_clusters _ _ _ Hp). }
  { by rewrite (so_quarantined _ _ (po_frame _ _ _ Hp)). }
  destruct (reconcile_loop cs now w1) as [out w2]. cbn [fst snd] in *. split_and!.
  - by constructor.
  - intros id Hid. rewrite fmap_cons, not_elem_of_cons in Hid. destruct Hid as [Hid Hid'].
    destruct (Hother id Hid') as [-> ->]. split; [by apply Hp|by apply Hp].
  - intros c' [->|Hc']%elem_of_cons; [|by apply Heach].
    destruct (Hother _ Hnot) as [-> ->]. apply Hp.
Qed.

(** A pass over a settled cluster leaves the backend alone. *)
Lemma decide_settled c now w q :
  q = None -> backed c (backing w (c_id c)) ->
  exists a cond, decide_and_actuate c (Demo.observed_of (c_id c) <$> backing w (c_id c)) q now w
    = (Ok (Decide a cond), w).
Proof.
  intros -> Hb. unfold decide_and_actuate, running_arm, suspended_arm, terminated_arm, backed in *.
  destruct (c_desired c).
  - destruct Hb as (dc & -> & Hs & Hg). cbn. rewrite Hs. cbn.
    destruct (Z.ltb_spec (Demo.d_generation dc) (c_generation c)); [lia|].
    destruct (negb _); by do 2 eexists.
  - destruct (backing w (c_id c)) as [dc|]; cbn; [|by do 2 eexists].
    specialize (Hb _ eq_refl). apply elem_of_cons in Hb as [Hs|Hs%list_elem_of_singleton];
      rewrite Hs; by do 2 eexists.
  - destruct (backing w (c_id c)) as [dc|]; cbn; [|by do 2 eexists].
    rewrite (Hb _ eq_refl). by do 2 eexists.
Qed.

Lemma reconcile_one_settled now c w :
  queue_of (cs_project (c_spec c)) (w_store w) = None -> backed c (backing w (c_id c)) ->
  w_prov (snd (reconcile_one c now w)) = w_prov w.
Proof.
  intros Hq Hb. rewrite reconcile_one_eq. destruct (in_backoff c now); [done|].
  rewrite try_observe_demo. destruct (m_quarantined _); [done|].
  destruct (decide_settled c now w _ Hq Hb) as (a & cond & ->).
  unfold persist_outcome, account_progress, mbind, ST_bind. rewrite try_observe_demo.
  unfold record_observation, set_condition, record_attempt, upd_clusters. rewrite !store_put_eq.
  case_bool_decide; destruct (progressed _ _ _) as [[]|];
    try destruct (negb (c_failure_count c =? 0) || _); done.
Qed.

Lemma reconcile_loop_settled now cs w :
  (forall c, c ∈ cs -> queue_of (cs_project (c_spec c)) (w_store w) = None /\
     backed c (backing w (c_id c))) ->
  w_prov (snd (reconcile_loop cs now w)) = w_prov w.
Proof.
  revert w. induction cs as [|c cs IH]; intros w Hcs; cbn [reconcile_loop]; [done|].
  destruct (Hcs c) as [Hq Hb]; [left|]. pose proof (reconcile_one_settled now c w Hq Hb) as Hp.
  pose proof (framed_reconcile_one c now w) as Hf.
  destruct (reconcile_one c now w) as [r w1]. cbn in *. specialize (IH w1).
  destruct (reconcile_loop cs now w1) as [out w2]. cbn in *. rewrite <-Hp. apply IH.
  intros c' Hc'. destruct (Hcs c') as [Hq' Hb']; [by right|]. split.
  - by rewrite (queue_of_frame _ _ _ Hf).
  - unfold backing. rewrite Hp. exact Hb'.
Qed.

End demo.


(** ** Dask clusters on the demo backend *)

(** The demo backend stamps every cluster with the Ray fingerprint, while the
    engine compares a Dask cluster's with the Dask one: after the pass that
    applied it, the next pass raises a drift alarm on an untouched cluster. *)
Definition dask_world : World Demo.DemoProvisioner :=
  world_of (snd (upsert_desired 10 "d1" (with_engine demo_spec Dask) empty_store)) Demo.new.

Lemma demo_dask_drifts :
  let w1 := snd (reconcile_all_at 100 dask_world) in
  fst (reconcile_all_at 100 dask_world) = [("d1"%string, Ok Applied)] /\
  fst (reconcile_all_at 130 w1) = [("d1"%string, Ok Drift)].
Proof. by vm_compute. Qed.

(** ** A change the generation does not see *)

(** The engine is no part of the generation, but it is part of the outbox
    fingerprint: after such a change the key of the old generation is taken, and
    when the backing cluster is lost every pass stops at the stale-intent fence. *)
Definition switched_world : World Demo.DemoProvisioner :=
  let w1 := snd (reconcile_all_at 100 sample_world) in
  world_of (snd (upsert_desired 110 "c1" (with_engine demo_spec Dask) (w_store w1))) Demo.new.

Lemma engine_change_is_stale :
  (c_generation <$> m_clusters (w_store switched_world) !! "c1"%string) = Some 1 /\
  fst (reconcile_all_at 120 switched_world) = [("c1"%string, Err (StaleIntent "c1/1"))].
Proof. by vm_compute. Qed.
