(* ===== verification/Auth.v ===== *)
(** * Identity and roles (crates/mobula-auth/src/lib.rs)

    Permissions, roles and scopes, the group mappings, and the identity built
    from the claims of a validated token. *)

From S2P Require Import Prelude Float64 Core Json.
#[local] Open Scope Z_scope.

Inductive PermissionType := Read | Write | PDelete | PAdmin.
#[export] Instance PermissionType_eq_dec : EqDecision PermissionType.
Proof. solve_decision. Defined.

Inductive Target := TJob | TCluster | TService | TPool | TAudit.
#[export] Instance Target_eq_dec : EqDecision Target.
Proof. solve_decision. Defined.

Inductive Role := Viewer | Developer | Operator | Admin | Auditor.
#[export] Instance Role_eq_dec : EqDecision Role.
Proof. solve_decision. Defined.

Definition is_read (a : PermissionType) : bool := bool_decide (a = Read).
Definition is_rwd (a : PermissionType) : bool :=
  match a with Read | Write | PDelete => true | PAdmin => false end.

Definition grants (r : Role) (action : PermissionType) (target : Target) : bool :=
  match r, target with
  | Admin, _ => true
  | Viewer, TAudit => false
  | Viewer, _ => is_read action
  | Auditor, TAudit => is_read action
  | Auditor, _ => false
  | Developer, TJob | Developer, TService => is_rwd action
  | Developer, TCluster | Developer, TPool => is_read action
  | Developer, TAudit => false
  | Operator, TCluster => is_rwd action
  | Operator, TJob | Operator, TService | Operator, TPool => is_read action
  | Operator, TAudit => false
  end.

Definition role_str (r : Role) : string :=
  match r with
  | Viewer => "viewer" | Developer => "developer" | Operator => "operator"
  | Admin => "admin" | Auditor => "auditor"
  end.

Definition role_parse (s : string) : option Role :=
  if String.eqb s "viewer" then Some Viewer
  else if String.eqb s "developer" then Some Developer
  else if String.eqb s "operator" then Some Operator
  else if String.eqb s "admin" then Some Admin
  else if String.eqb s "auditor" then Some Auditor
  else None.

(** ** Scopes *)

Definition GLOBAL_SCOPE : string := "*".
Definition project_scope (project : string) : string := "project:" +:+ project.

Definition scope_char (c : ascii) : bool :=
  is_ascii_alphanumeric c || Ascii.eqb c "-" || Ascii.eqb c "_" || Ascii.eqb c "." || Ascii.eqb c "/".

Definition valid_scope (scope : string) : bool :=
  if String.eqb scope GLOBAL_SCOPE then true
  else match strip_prefix "project:" scope with
       | None => false
       | Some name => negb (is_empty name) && forallb scope_char (bytes_of name)
       end.

Definition scope_covers (scope project : string) : bool :=
  String.eqb scope GLOBAL_SCOPE || String.eqb scope (project_scope project).

(** ** Identities *)

Record Identity := {
  id_subject : string;
  id_username : option string;
  id_email : option string;
  id_groups : list string;
  id_roles : list Role;
  id_project_roles : list (Role * string);
}.

Definition owner (i : Identity) : string := default (id_subject i) (id_username i).

Definition permits (i : Identity) (action : PermissionType) (target : Target) : bool :=
  existsb (fun r => grants r action target) (id_roles i).

Definition permits_scoped (i : Identity) (action : PermissionType) (target : Target)
    (assignments : list (Role * string)) (project : string) : bool :=
  permits i action target
  || existsb (fun rs => scope_covers (snd rs) project && grants (fst rs) action target) assignments.

Definition is_authorized (i : Identity) : bool :=
  match id_roles i with [] => false | _ => true end.

(** ** Group mappings *)

Record RoleMappings := {
  rm_admin : list string;
  rm_operator : list string;
  rm_developer : list string;
  rm_viewer : list string;
  rm_auditor : list string;
}.

Definition pattern_matches (groups patterns : list string) : bool :=
  existsb (fun p => String.eqb p "*" || existsb (fun g => String.eqb g p) groups) patterns.

Definition resolve_roles (m : RoleMappings) (groups : list string) : list Role :=
  let push patterns r := if pattern_matches groups patterns then [r] else [] in
  push (rm_admin m) Admin ++ push (rm_operator m) Operator ++ push (rm_developer m) Developer
  ++ push (rm_viewer m) Viewer ++ push (rm_auditor m) Auditor.

Definition has_wildcard (m : RoleMappings) : bool :=
  existsb (existsb (fun p => String.eqb p "*"))
    [rm_admin m; rm_operator m; rm_developer m; rm_viewer m; rm_auditor m].

Record ProjectRoleMappings := {
  prm_admin : list string;
  prm_operator : list string;
  prm_developer : list string;
  prm_viewer : list string;
  prm_auditor : list string;
  prm_strip_prefix : string;
}.

Definition mapping_entries (m : ProjectRoleMappings) : list (list string * Role) :=
  [(prm_admin m, Admin); (prm_operator m, Operator); (prm_developer m, Developer);
   (prm_viewer m, Viewer); (prm_auditor m, Auditor)].

Definition project_roles_is_empty (m : ProjectRoleMappings) : bool :=
  forallb (fun e => match fst e with [] => true | _ => false end) (mapping_entries m).

Definition project_roles_has_wildcard (m : ProjectRoleMappings) : bool :=
  existsb (fun e => existsb (fun p => String.eqb p "*") (fst e)) (mapping_entries m).

(** [resolve]: one [(patterns, role)] entry, group by group, into [out]. *)
Definition derived_scope (strip g : string) : option string :=
  let name := default g (strip_prefix strip g) in
  if is_empty name then None
  else let scope := project_scope name in
       if valid_scope scope then Some scope else None.

Definition push_entry (patterns : list string) (r : Role) (strip : string)
    (out : list (Role * string)) (g : string) : list (Role * string) :=
  if negb (existsb (fun p => String.eqb p "*" || String.eqb p g) patterns) then out
  else match derived_scope strip g with
       | None => out
       | Some scope => if bool_decide ((r, scope) ∈ out) then out else out ++ [(r, scope)]
       end.

Definition resolve_project_roles (m : ProjectRoleMappings) (groups : list string)
  : list (Role * string) :=
  foldl (fun out e =>
    match fst e with
    | [] => out
    | _ => foldl (push_entry (fst e) (snd e) (prm_strip_prefix m)) out groups
    end) [] (mapping_entries m).

(** ** Claims *)

(** [char::is_control] over UTF-8: C0 and DEL are one byte, C1 is [C2 80..9F]. *)
Fixpoint sanitize_bytes (l : list ascii) : list ascii :=
  match l with
  | [] => []
  | c :: l' =>
      if byte_in 0 31 c || byte_in 127 127 c then "?"%char :: sanitize_bytes l'
      else if byte_in 194 194 c then
        match l' with
        | c2 :: l'' =>
            if byte_in 128 159 c2 then "?"%char :: sanitize_bytes l''
            else c :: sanitize_bytes l'
        | [] => [c]
        end
      else c :: sanitize_bytes l'
  end.
Definition sanitize_claim (s : string) : string := str_of (sanitize_bytes (bytes_of s)).

(** [str::split_whitespace]. *)
Fixpoint split_ws (fuel : nat) (word l : list ascii) : list (list ascii) :=
  match fuel with
  | O => []
  | S fuel' =>
      match l with
      | [] => match word with [] => [] | _ => [reverse word] end
      | c :: l' =>
          match ws_width l with
          | Some (S n) =>
              let rest := split_ws fuel' [] (drop n l') in
              match word with [] => rest | _ => reverse word :: rest end
          | _ => split_ws fuel' (c :: word) l'
          end
      end
  end.
Definition split_whitespace (s : string) : list string :=
  str_of <$> split_ws (S (length (bytes_of s))) [] (bytes_of s).

Record AuthConfig := {
  ac_issuer : string;
  ac_audience : string;
  ac_groups_claim : string;
  ac_roles : RoleMappings;
  ac_project_roles : ProjectRoleMappings;
}.

Definition claim_groups (cfg : AuthConfig) (claims : Value) : list string :=
  match json_get (ac_groups_claim cfg) claims with
  | Some (JArr items) => omap as_str items
  | Some (JStr s) => split_whitespace s
  | _ => []
  end.

Definition claim_str (key : string) (claims : Value) : option string :=
  json_get key claims ≫= as_str.

Definition identity_from_claims (cfg : AuthConfig) (claims : Value) : Identity :=
  let groups := claim_groups cfg claims in {|
    id_subject := sanitize_claim (default EmptyString (claim_str "sub" claims));
    id_username := sanitize_claim <$> claim_str "preferred_username" claims;
    id_email := claim_str "email" claims;
    id_groups := groups;
    id_roles := resolve_roles (ac_roles cfg) groups;
    id_project_roles := resolve_project_roles (ac_project_roles cfg) groups |}.

(** ** Roles *)

(** Separation of duties, in full: only Admin mutates pools or holds the admin
    verb; the audit trail is readable by Admin and Auditor and writable by Admin
    alone; an Auditor holds nothing else; jobs and services are written by
    Developer and Admin, clusters by Operator and Admin; every role but Auditor
    reads everything that is not the audit trail. *)
Theorem separation_of_duties r a t :
  grants r a t = true <->
  r = Admin \/
  (a = Read /\ t = TAudit /\ r = Auditor) \/
  (a = Read /\ t <> TAudit /\ r <> Auditor) \/
  ((a = Write \/ a = PDelete) /\ r = Developer /\ (t = TJob \/ t = TService)) \/
  ((a = Write \/ a = PDelete) /\ r = Operator /\ t = TCluster).
Proof. destruct r, a, t; cbn; naive_solver. Qed.

(** ** Group-derived project roles *)

Lemma str_of_bytes_of s : str_of (bytes_of s) = s.
Proof. apply String.string_of_list_ascii_of_string. Qed.
Lemma bytes_of_str_of l : bytes_of (str_of l) = l.
Proof. apply String.list_ascii_of_string_of_list_ascii. Qed.

Lemma strip_prefix_bytes_app p l : strip_prefix_bytes p (p ++ l) = Some l.
Proof. induction p as [|a p IH]; cbn; [done|]. by rewrite Ascii.eqb_refl. Qed.

Lemma bytes_of_app a b : bytes_of (a +:+ b) = bytes_of a ++ bytes_of b.
Proof.
  unfold bytes_of. induction a as [|c a IH]; [done|].
  change (String c a +:+ b) with (String c (a +:+ b)). cbn. by rewrite IH.
Qed.

Lemma strip_prefix_app p s : strip_prefix p (p +:+ s) = Some s.
Proof.
  unfold strip_prefix. rewrite bytes_of_app, strip_prefix_bytes_app. cbn. by rewrite str_of_bytes_of.
Qed.

Lemma strip_prefix_bytes_Some p l r : strip_prefix_bytes p l = Some r -> l = p ++ r.
Proof.
  revert l. induction p as [|a p IH]; intros [|b l]; cbn; try by intros [= ->].
  destruct (Ascii.eqb_spec a b) as [->|]; [|done]. by intros ->%IH.
Qed.

Lemma strip_prefix_Some p s r : strip_prefix p s = Some r <-> s = p +:+ r.
Proof.
  split; [|intros ->; apply strip_prefix_app]. unfold strip_prefix.
  intros (l & Hl%strip_prefix_bytes_Some & ->)%fmap_Some.
  rewrite <-(str_of_bytes_of s), Hl, <-(str_of_bytes_of (p +:+ _)), bytes_of_app.
  by rewrite bytes_of_str_of.
Qed.

Lemma project_scope_inj a b : project_scope a = project_scope b -> a = b.
Proof.
  intros Heq. apply (f_equal (strip_prefix "project:")) in Heq. unfold project_scope in Heq.
  rewrite !strip_prefix_app in Heq. by injection Heq.
Qed.

Lemma project_scope_not_global p : project_scope p <> GLOBAL_SCOPE.
Proof. done. Qed.

Lemma scope_covers_project p q : scope_covers (project_scope p) q = true <-> p = q.
Proof.
  unfold scope_covers. rewrite orb_true_iff, !String.eqb_eq. split.
  - intros [?|?%project_scope_inj]; [by destruct (project_scope_not_global p)|done].
  - intros ->. by right.
Qed.

(** The project a group names: the group without the configured prefix. *)
Definition group_project (m : ProjectRoleMappings) (g : string) : string :=
  default g (strip_prefix (prm_strip_prefix m) g).

Lemma derived_scope_Some m g scope :
  derived_scope (prm_strip_prefix m) g = Some scope <->
  scope = project_scope (group_project m g) /\ group_project m g <> EmptyString /\
  Forall (fun c => scope_char c = true) (bytes_of (group_project m g)).
Proof.
  unfold derived_scope. fold (group_project m g). destruct (is_empty (group_project m g)) eqn:He.
  { apply is_empty_true in He. rewrite He. naive_solver. }
  assert (valid_scope (project_scope (group_project m g))
    = forallb scope_char (bytes_of (group_project m g))) as ->.
  { unfold valid_scope. rewrite (proj2 (String.eqb_neq _ _)) by apply project_scope_not_global.
    unfold project_scope. rewrite strip_prefix_app, He. done. }
  apply is_empty_false in He. rewrite <-forallb_Forall. destruct (forallb _ _); naive_solver.
Qed.

(** The grants one list of groups adds under one pattern list. *)
Definition entry_grants (m : ProjectRoleMappings) (patterns : list string) (g scope : string) : Prop :=
  ("*"%string ∈ patterns \/ g ∈ patterns) /\ derived_scope (prm_strip_prefix m) g = Some scope.

Lemma pattern_match_spec patterns g :
  existsb (fun p => String.eqb p "*" || String.eqb p g) patterns = true <->
  "*"%string ∈ patterns \/ g ∈ patterns.
Proof.
  rewrite existsb_elem_of. setoid_rewrite orb_true_iff. setoid_rewrite String.eqb_eq. naive_solver.
Qed.

Lemma push_entry_spec m patterns r out g e :
  NoDup out ->
  NoDup (push_entry patterns r (prm_strip_prefix m) out g) /\
  (e ∈ push_entry patterns r (prm_strip_prefix m) out g <->
   e ∈ out \/ (fst e = r /\ entry_grants m patterns g (snd e))).
Proof.
  intros Hnd. unfold push_entry, entry_grants. pose proof (pattern_match_spec patterns g) as Hp.
  destruct (existsb _ patterns); cbn; [|naive_solver].
  destruct (derived_scope _ g) as [scope|]; [|naive_solver].
  case_bool_decide as Hin; [|rewrite NoDup_app, elem_of_app, list_elem_of_singleton]; destruct e as [r' s'].
  - split; [done|]. cbn. naive_solver.
  - split; [|cbn; naive_solver]. split_and!; [done|set_solver|apply NoDup_singleton].
Qed.

Lemma push_groups_spec m patterns r groups out e :
  NoDup out ->
  NoDup (foldl (push_entry patterns r (prm_strip_prefix m)) out groups) /\
  (e ∈ foldl (push_entry patterns r (prm_strip_prefix m)) out groups <->
   e ∈ out \/ (fst e = r /\ exists g, g ∈ groups /\ entry_grants m patterns g (snd e))).
Proof.
  revert out. induction groups as [|g groups IH]; intros out Hnd; cbn [foldl]; [set_solver|].
  destruct (push_entry_spec m patterns r out g e Hnd) as [Hnd' He].
  destruct (IH _ Hnd') as [? He']. split; [done|]. rewrite He', He.
  setoid_rewrite elem_of_cons. naive_solver.
Qed.

Lemma push_entries_spec m groups entries out e :
  NoDup out ->
  let res := foldl (fun out e => match fst e with
    | [] => out
    | _ => foldl (push_entry (fst e) (snd e) (prm_strip_prefix m)) out groups
    end) out entries in
  NoDup res /\
  (e ∈ res <-> e ∈ out \/ exists patterns g, (patterns, fst e) ∈ entries /\ g ∈ groups /\
                entry_grants m patterns g (snd e)).
Proof.
  cbn zeta. revert out. induction entries as [|[patterns r] entries IH]; intros out Hnd; cbn [foldl].
  { set_solver. }
  assert (let out' := match patterns with [] => out
      | _ => foldl (push_entry patterns r (prm_strip_prefix m)) out groups end in
    NoDup out' /\ (e ∈ out' <-> e ∈ out \/ (fst e = r /\ exists g, g ∈ groups /\
      entry_grants m patterns g (snd e)))) as [Hnd' He].
  { destruct patterns; [|by apply push_groups_spec]. cbn. split; [done|].
    unfold entry_grants. set_solver. }
  destruct (IH _ Hnd') as [? He']. split; [done|]. cbn in He'. rewrite He', He.
  setoid_rewrite elem_of_cons. destruct e as [r' s']. cbn. naive_solver.
Qed.

(** The roles a caller's groups imply on projects: a role is granted exactly when
    one of its patterns is the wildcard or the group itself, on the project the
    group names when that is a well-formed name. The result has no duplicates,
    and whatever the configuration, none of these grants is global: a grant
    covers a project only if one of the caller's groups names that project. *)
Theorem project_roles_confined (m : ProjectRoleMappings) groups :
  NoDup (resolve_project_roles m groups) /\
  (forall r scope, (r, scope) ∈ resolve_project_roles m groups <->
     exists patterns g, (patterns, r) ∈ mapping_entries m /\ g ∈ groups /\
       ("*"%string ∈ patterns \/ g ∈ patterns) /\
       scope = project_scope (group_project m g) /\ group_project m g <> EmptyString /\
       Forall (fun c => scope_char c = true) (bytes_of (group_project m g))) /\
  (forall r scope project, (r, scope) ∈ resolve_project_roles m groups ->
     scope_covers scope project = true -> exists g, g ∈ groups /\ group_project m g = project).
Proof.
  assert (forall r scope, (r, scope) ∈ resolve_project_roles m groups <->
     exists patterns g, (patterns, r) ∈ mapping_entries m /\ g ∈ groups /\
       entry_grants m patterns g scope) as Hin.
  { intros r scope. unfold resolve_project_roles.
    destruct (push_entries_spec m groups (mapping_entries m) [] (r, scope)) as [_ ->]; [constructor|].
    set_solver. }
  split_and!.
  - by apply (push_entries_spec m groups (mapping_entries m) [] (Admin, EmptyString)), NoDup_nil.
  - intros r scope. rewrite Hin. unfold entry_grants. by setoid_rewrite derived_scope_Some.
  - intros r scope project (patterns & g & _ & Hg & _ & Hs)%Hin Hc.
    apply derived_scope_Some in Hs as (-> & _). apply scope_covers_project in Hc. eauto.
Qed.
