(* ===== verification/Oidc.v ===== *)
(** * The OIDC validator (crates/mobula-auth/src/lib.rs, [Validator])

    Discovery, the cached JWKS with its refresh cooldown, and bearer validation.
    The JWT library, the provider's answers and the two clocks are parameters. *)

From S2P Require Import Prelude Float64 Core Json Auth.
#[local] Open Scope Z_scope.

(** ** The JWT library (crate [jsonwebtoken]) *)

Record JwtHeader := { jh_alg : string; jh_kid : option string }.

Record Validation := {
  va_audience : list string;
  va_issuer : list string;
  va_required_spec_claims : list string;
  va_validate_nbf : bool;
}.

(** [Validation::new] allows a minute of clock skew. *)
Definition LEEWAY : Z := 60.

(** Header parsing, a JWK turned into a key, and [decode] at a wall-clock time;
    errors are their texts. *)
Class Jwt := {
  DecodingKey : Type;
  decode_header : string -> result string JwtHeader;
  decoding_key : Value -> option DecodingKey;
  jwt_decode : Z -> string -> DecodingKey -> Validation -> result string Value;
  signed_by : string -> DecodingKey -> Value -> Prop;
}.

(** A claim that is one string or several. *)
Definition claim_names (key : string) (claims : Value) : list string :=
  match json_get key claims with
  | Some (JStr s) => [s]
  | Some (JArr l) => omap as_str l
  | _ => []
  end.

(** What a decoded token has been checked for. *)
Definition claims_ok (v : Validation) (now : Z) (claims : Value) : Prop :=
  Forall (fun key => json_get key claims <> None) (va_required_spec_claims v) /\
  (exists a, a ∈ claim_names "aud" claims /\ a ∈ va_audience v) /\
  (exists i, i ∈ claim_names "iss" claims /\ i ∈ va_issuer v) /\
  (forall e, json_get "exp" claims = Some (JNum e) -> now - LEEWAY <= e) /\
  (va_validate_nbf v = true ->
   forall n, json_get "nbf" claims = Some (JNum n) -> n <= now + LEEWAY).

Class JwtLaws `{Jwt} := jwt_decode_ok : forall now token key v claims,
  jwt_decode now token key v = Ok claims -> signed_by token key claims /\ claims_ok v now claims.

Inductive AuthError :=
| Discovery (msg : string)
| Jwks (msg : string)
| InvalidToken (msg : string)
| UnknownKeyId
| InsecureIssuer (issuer : string)
| MissingSubject.

Record ProviderMetadata := { pm_issuer : option string; pm_jwks_uri : string }.

(** [s.trim_end_matches('/')]. *)
Fixpoint drop_slashes (l : list ascii) : list ascii :=
  match l with
  | c :: l' => if Ascii.eqb c "/" then drop_slashes l' else l
  | [] => []
  end.
Definition trim_end_slashes (s : string) : string :=
  str_of (reverse (drop_slashes (reverse (bytes_of s)))).

(** [Instant]s are nanoseconds of a monotonic clock. *)
Definition REFRESH_COOLDOWN : Z := 30 * 10 ^ 9.

Section validator.
Context `{Jwt}.

(** The validator's state, the clocks, and the provider: discovery by URL, and the
    answer to the n-th JWKS request. [iw_fetches] logs when each request's slot
    was claimed, newest first. *)
Record IdpWorld := {
  iw_jwks_uri : string;
  iw_keys : gmap string DecodingKey;
  iw_last_refresh : Z;
  iw_instant : nat -> Z;
  iw_wall : nat -> Z;
  iw_reads : nat;
  iw_discovery : string -> result string ProviderMetadata;
  iw_jwks : string -> nat -> result string (list Value);
  iw_fetches : list Z;
}.

Definition tick (w : IdpWorld) : IdpWorld := {|
  iw_jwks_uri := iw_jwks_uri w; iw_keys := iw_keys w; iw_last_refresh := iw_last_refresh w;
  iw_instant := iw_instant w; iw_wall := iw_wall w; iw_reads := S (iw_reads w);
  iw_discovery := iw_discovery w; iw_jwks := iw_jwks w; iw_fetches := iw_fetches w |}.
Definition set_keys (k : gmap string DecodingKey) (w : IdpWorld) : IdpWorld := {|
  iw_jwks_uri := iw_jwks_uri w; iw_keys := k; iw_last_refresh := iw_last_refresh w;
  iw_instant := iw_instant w; iw_wall := iw_wall w; iw_reads := iw_reads w;
  iw_discovery := iw_discovery w; iw_jwks := iw_jwks w; iw_fetches := iw_fetches w |}.
(** The refresh slot: the stamp, and the log of the request that follows. *)
Definition claim_slot (t : Z) (w : IdpWorld) : IdpWorld := {|
  iw_jwks_uri := iw_jwks_uri w; iw_keys := iw_keys w; iw_last_refresh := t;
  iw_instant := iw_instant w; iw_wall := iw_wall w; iw_reads := iw_reads w;
  iw_discovery := iw_discovery w; iw_jwks := iw_jwks w; iw_fetches := t :: iw_fetches w |}.
Definition new_validator (uri : string) (last : Z) (w : IdpWorld) : IdpWorld := {|
  iw_jwks_uri := uri; iw_keys := ∅; iw_last_refresh := last;
  iw_instant := iw_instant w; iw_wall := iw_wall w; iw_reads := iw_reads w;
  iw_discovery := iw_discovery w; iw_jwks := iw_jwks w; iw_fetches := iw_fetches w |}.

Abbreviation V := (ST IdpWorld AuthError).

Definition instant_now : V Z := fun w => (Ok (iw_instant w (iw_reads w)), tick w).
Definition wall_now : V Z := fun w => (Ok (iw_wall w (iw_reads w)), tick w).
Definition lift {A} (r : result AuthError A) : V A := fun w => (r, w).

(** The JWKS document of the request just logged. *)
Definition fetch_jwks : V (list Value) := fun w =>
  (map_err Jwks (iw_jwks w (iw_jwks_uri w) (pred (length (iw_fetches w)))), w).

(** The keys with a [kid] the library can use; a later one replaces an earlier one
    of the same [kid]. *)
Definition add_key (keys : gmap string DecodingKey) (key : Value) : gmap string DecodingKey :=
  match json_get "kid" key ≫= as_str, decoding_key key with
  | Some kid, Some decoding => <[kid := decoding]> keys
  | _, _ => keys
  end.
Definition usable_keys (doc : list Value) : gmap string DecodingKey := foldl add_key ∅ doc.

(** The slot is claimed before the request, whatever the request yields. *)
Definition refresh_jwks : V unit :=
  now ← instant_now;
  last ← st_get iw_last_refresh;
  if Z.ltb (sat_sub now last) REFRESH_COOLDOWN then mret tt
  else
    slot ← instant_now;
    _ ← st_put (claim_slot slot);
    doc ← fetch_jwks;
    st_put (set_keys (usable_keys doc)).

Definition validation (cfg : AuthConfig) : Validation := {|
  va_audience := [ac_audience cfg]; va_issuer := [trim_end_slashes (ac_issuer cfg)];
  va_required_spec_claims := ["exp"; "iss"; "aud"; "sub"]%string; va_validate_nbf := true |}.

Definition validate (cfg : AuthConfig) (token : string) : V Identity :=
  header ← lift (map_err InvalidToken (decode_header token));
  if negb (String.eqb (jh_alg header) "RS256")
  then st_err (InvalidToken ("unsupported alg " +:+ jh_alg header))
  else
    kid ← lift (ok_or (InvalidToken "missing kid") (jh_kid header));
    cached ← st_get (fun w => iw_keys w !! kid);
    found ← match cached with
            | Some key => mret (Some key)
            | None => _ ← refresh_jwks; st_get (fun w => iw_keys w !! kid)
            end;
    key ← lift (ok_or UnknownKeyId found);
    now ← wall_now;
    claims ← lift (map_err InvalidToken (jwt_decode now token key (validation cfg)));
    let identity := identity_from_claims cfg claims in
    if is_empty (id_subject identity) then st_err MissingSubject else mret identity.

(** [Validator::discover]. *)
Definition discover (cfg : AuthConfig) (allow_insecure : bool) : V unit :=
  if negb (starts_with "https://" (ac_issuer cfg)) && negb allow_insecure
  then st_err (InsecureIssuer (ac_issuer cfg))
  else
    answer ← st_get (fun w => iw_discovery w
      (trim_end_slashes (ac_issuer cfg) +:+ "/.well-known/openid-configuration"));
    doc ← lift (map_err Discovery answer);
    if is_some_and (pm_issuer doc) (fun advertised =>
         negb (String.eqb (trim_end_slashes advertised) (trim_end_slashes (ac_issuer cfg))))
    then st_err (Discovery ("issuer mismatch: configured " +:+ ac_issuer cfg
                            +:+ ", provider advertises " +:+ default EmptyString (pm_issuer doc)))
    else
      now ← instant_now;
      _ ← st_put (new_validator (pm_jwks_uri doc) (now - REFRESH_COOLDOWN));
      _ ← refresh_jwks;
      keys ← st_get iw_keys;
      if bool_decide (keys = ∅) then st_err (Jwks "provider returned no usable signing keys")
      else mret tt.
End validator.

(** ** What a validated bearer is *)

Section facts.
Context `{Jwt}.
Abbreviation monotonic w := (forall n m : nat, (n <= m)%nat -> iw_instant w n <= iw_instant w m).

(** What a step may do to the validator: answer from the same clocks and provider,
    keep the keys or take those of one more answer, and log at most one request,
    a cooldown after the last. *)
Definition steps_to (w w' : IdpWorld) : Prop :=
  iw_instant w' = iw_instant w /\ iw_jwks w' = iw_jwks w /\ iw_jwks_uri w' = iw_jwks_uri w /\
  (iw_keys w' = iw_keys w \/
   exists n doc, iw_jwks w (iw_jwks_uri w) n = Ok doc /\ iw_keys w' = usable_keys doc) /\
  (iw_fetches w' = iw_fetches w /\ iw_last_refresh w' = iw_last_refresh w \/
   iw_fetches w' = iw_last_refresh w' :: iw_fetches w /\
   (monotonic w -> iw_last_refresh w + REFRESH_COOLDOWN <= iw_last_refresh w')).

Lemma steps_to_same w w' :
  iw_instant w' = iw_instant w -> iw_jwks w' = iw_jwks w -> iw_jwks_uri w' = iw_jwks_uri w ->
  iw_keys w' = iw_keys w -> iw_fetches w' = iw_fetches w -> iw_last_refresh w' = iw_last_refresh w ->
  steps_to w w'.
Proof. intros. split_and!; auto. Qed.

Lemma refresh_steps w : steps_to w (snd (refresh_jwks w)).
Proof.
  unfold refresh_jwks, fetch_jwks, instant_now, st_get, st_put, mbind, ST_bind, mret, ST_ret.
  cbn [iw_last_refresh tick iw_jwks iw_jwks_uri iw_fetches claim_slot length pred].
  destruct (Z.ltb_spec (sat_sub (iw_instant w (iw_reads w)) (iw_last_refresh w)) REFRESH_COOLDOWN)
    as [|Hold]; [by apply steps_to_same|].
  assert (monotonic w -> iw_last_refresh w + REFRESH_COOLDOWN <= iw_instant w (S (iw_reads w))) as Hslot.
  { intros Hm. specialize (Hm (iw_reads w) (S (iw_reads w)) ltac:(lia)).
    unfold sat_sub in Hold. unfold REFRESH_COOLDOWN in *. lia. }
  cbn. destruct (iw_jwks w (iw_jwks_uri w) (length (iw_fetches w))) as [doc|e] eqn:Hdoc;
    (split; [done|]; split; [done|]; split; [done|]; split; [|by right]); [right|by left].
  by exists (length (iw_fetches w)), doc.
Qed.

(** A refresh that is due asks the provider. *)
Lemma refresh_when_due w :
  REFRESH_COOLDOWN <= iw_instant w (iw_reads w) - iw_last_refresh w ->
  iw_fetches (snd (refresh_jwks w)) = iw_instant w (S (iw_reads w)) :: iw_fetches w.
Proof.
  intros Hold.
  unfold refresh_jwks, fetch_jwks, instant_now, st_get, st_put, mbind, ST_bind, mret, ST_ret.
  cbn [iw_last_refresh tick iw_jwks iw_jwks_uri iw_fetches claim_slot length pred].
  destruct (Z.ltb_spec (sat_sub (iw_instant w (iw_reads w)) (iw_last_refresh w)) REFRESH_COOLDOWN)
    as [Hlt|_]; [unfold sat_sub in Hlt; lia|].
  cbn. by destruct (iw_jwks w (iw_jwks_uri w) (length (iw_fetches w))).
Qed.

Lemma validate_steps cfg token w : steps_to w (snd (validate cfg token w)).
Proof.
  unfold validate, lift, st_get, wall_now, st_err, mbind, ST_bind, mret, ST_ret.
  destruct (decode_header token) as [h|]; cbn [map_err snd]; [|by apply steps_to_same].
  destruct (negb _); [by apply steps_to_same|].
  destruct (jh_kid h) as [kid|]; cbn [ok_or]; [|by apply steps_to_same].
  destruct (iw_keys w !! kid) as [key|]; cbn [ok_or].
  - destruct (jwt_decode _ _ _ _); cbn; [destruct (is_empty _)|]; by apply steps_to_same.
  - pose proof (refresh_steps w) as Hr. destruct (refresh_jwks w) as [[[]|e] w1]; [|done].
    destruct (iw_keys w1 !! kid); cbn; [|done].
    destruct (jwt_decode _ _ _ _); cbn; [by destruct (is_empty _)|done].
Qed.

Lemma validate_accepts `{!JwtLaws} cfg token w i w' :
  validate cfg token w = (Ok i, w') ->
  exists h kid key claims now, decode_header token = Ok h /\ jh_alg h = "RS256"%string /\
    jh_kid h = Some kid /\ iw_keys w' !! kid = Some key /\
    (iw_keys w !! kid = Some key \/
     exists doc n, iw_jwks w (iw_jwks_uri w) n = Ok doc /\ usable_keys doc !! kid = Some key) /\
    signed_by token key claims /\ claims_ok (validation cfg) now claims /\
    i = identity_from_claims cfg claims /\ id_subject i <> EmptyString.
Proof.
  intros Hv. pose proof (validate_steps cfg token w) as Hs. rewrite Hv in Hs. cbn [snd] in Hs.
  destruct Hs as (_ & _ & _ & Hkeys & _). revert Hv. unfold validate. intros Hv.
  apply ST_bind_Ok in Hv as (h & w1 & Hh & Hv). injection Hh as Hh <-.
  destruct (decode_header token) as [h'|] eqn:Hdec; [|done]. injection Hh as ->.
  destruct (String.eqb_spec (jh_alg h) "RS256") as [Halg|]; cbn [negb] in Hv; [|done].
  apply ST_bind_Ok in Hv as (kid & w1 & Hk & Hv). injection Hk as Hk <-.
  destruct (jh_kid h) as [kid'|] eqn:Hkid; [|done]. injection Hk as ->.
  apply ST_bind_Ok in Hv as (cached & w1 & [= <- <-] & Hv).
  apply ST_bind_Ok in Hv as (found & w1 & Hf & Hv).
  apply ST_bind_Ok in Hv as (key & w2 & Hkey & Hv). injection Hkey as Hkey <-.
  destruct found as [key'|]; [|done]. injection Hkey as ->.
  apply ST_bind_Ok in Hv as (now & w2 & [= <- <-] & Hv).
  apply ST_bind_Ok in Hv as (claims & w2 & Hc & Hv). injection Hc as Hc <-.
  destruct (jwt_decode _ _ _ _) as [claims'|] eqn:Hd; [|done]. injection Hc as ->.
  destruct (id_subject (identity_from_claims cfg claims)) eqn:Hsub; [done|].
  cbn [is_empty] in Hv. injection Hv as <- <-.
  assert (iw_keys w1 !! kid = Some key) as Hin.
  { destruct (iw_keys w !! kid) eqn:E; [by injection Hf as -> ->|].
    apply ST_bind_Ok in Hf as ([] & w2 & _ & [= ? ->]). done. }
  apply jwt_decode_ok in Hd as [Hsig Hok].
  exists h, kid, key, claims, (iw_wall w1 (iw_reads w1)). split_and!; try done; [|by rewrite Hsub].
  cbn in Hkeys. destruct Hkeys as [Heq|(n & doc & Hdoc & Heq)].
  - left. by rewrite <-Heq.
  - right. exists doc, n. by rewrite <-Heq.
Qed.

(** C24. A bearer the validator accepts is an RS256 token whose [kid] names a key the
    provider serves: one held already or one of the answer to the refresh this
    very call made. Its claims are signed by that key and name the configured
    issuer and audience, are within their lifetime up to the leeway, and the
    identity is what the role mappings make of them, with a subject. *)
Theorem validate_sound `{!JwtLaws} cfg token w i w' :
  validate cfg token w = (Ok i, w') ->
  exists h kid key claims now, decode_header token = Ok h /\ jh_alg h = "RS256"%string /\
    jh_kid h = Some kid /\ iw_keys w' !! kid = Some key /\
    (iw_keys w !! kid = Some key \/
     exists doc n, iw_jwks w (iw_jwks_uri w) n = Ok doc /\ usable_keys doc !! kid = Some key) /\
    signed_by token key claims /\ claims_ok (validation cfg) now claims /\
    i = identity_from_claims cfg claims /\ id_subject i <> EmptyString.
Proof. apply validate_accepts. Qed.

(** ** Requests to the provider *)

(** The log: the newest entry is the stamp, each a cooldown after the one before. *)
Definition paced (w : IdpWorld) : Prop :=
  head (iw_fetches w) = Some (iw_last_refresh w) /\
  forall i a b, iw_fetches w !! i = Some a -> iw_fetches w !! S i = Some b -> b + REFRESH_COOLDOWN <= a.

Lemma paced_steps w w' : monotonic w -> paced w -> steps_to w w' -> paced w'.
Proof.
  intros Hm [Hh Hp] (_ & _ & _ & _ & [[Hf Hl]|[Hf Hl]]); unfold paced; rewrite Hf.
  - by rewrite Hl.
  - split; [done|]. intros [|i] a b Ha Hb; cbn in Ha, Hb; [|by eapply Hp].
    injection Ha as <-. destruct (iw_fetches w) as [|t l]; [done|]. cbn in Hh, Hb.
    injection Hh as ->. injection Hb as <-. by apply Hl.
Qed.

Lemma paced_count w : paced w -> forall k i a b,
  iw_fetches w !! i = Some a -> iw_fetches w !! (i + k)%nat = Some b ->
  b + Z.of_nat k * REFRESH_COOLDOWN <= a.
Proof.
  intros [_ Hp]. induction k as [|k IH]; intros i a b Ha Hb.
  - rewrite Nat.add_0_r in Hb. simplify_eq. lia.
  - destruct (iw_fetches w !! S i) as [c|] eqn:Hc.
    + specialize (IH (S i) c b Hc). rewrite Nat.add_succ_r in Hb. specialize (IH Hb).
      specialize (Hp i a c Ha Hc). lia.
    + apply lookup_ge_None in Hc. apply lookup_lt_Some in Hb. lia.
Qed.

Definition validate_all (cfg : AuthConfig) (tokens : list string) (w : IdpWorld) : IdpWorld :=
  foldl (fun w token => snd (validate cfg token w)) w tokens.

Lemma validate_all_paced cfg tokens w : monotonic w -> paced w -> paced (validate_all cfg tokens w).
Proof.
  unfold validate_all. revert w. induction tokens as [|t ts IH]; intros w Hm Hp; [done|].
  pose proof (validate_steps cfg t w) as Hs. cbn [foldl]. apply IH.
  - destruct Hs as (-> & _). exact Hm.
  - by eapply paced_steps.
Qed.

Lemma discover_paced cfg insecure w w1 :
  discover cfg insecure w = (Ok tt, w1) -> iw_fetches w = [] -> monotonic w ->
  paced w1 /\ iw_instant w1 = iw_instant w /\ iw_keys w1 <> ∅ /\
  (starts_with "https://" (ac_issuer cfg) = true \/ insecure = true).
Proof.
  intros Hd Hf Hm. unfold discover in Hd.
  destruct (negb _ && _) eqn:Hsec; [done|].
  apply ST_bind_Ok in Hd as (answer & w2 & [= <- <-] & Hd).
  apply ST_bind_Ok in Hd as (doc & w2 & Hdoc & Hd). injection Hdoc as Hdoc <-.
  destruct (is_some_and _ _); [done|].
  apply ST_bind_Ok in Hd as (now & w2 & [= <- <-] & Hd).
  apply ST_bind_Ok in Hd as ([] & w2 & [= <-] & Hd).
  apply ST_bind_Ok in Hd as ([] & w2 & Hr & Hd).
  apply ST_bind_Ok in Hd as (keys & w3 & [= <- <-] & Hd).
  case_bool_decide as Hk; [done|]. injection Hd as <-.
  set (w0 := new_validator _ _ _) in Hr. pose proof (refresh_steps w0) as Hs. rewrite Hr in Hs.
  destruct Hs as (Hi & _ & _ & _ & [[Hf' _]|[Hf' _]]).
  - exfalso. pose proof (refresh_when_due w0) as Hdue. rewrite Hr in Hdue. cbn [snd] in Hdue, Hf'.
    rewrite Hdue in Hf'; [by apply (f_equal length) in Hf'; cbn in Hf'; lia|].
    specialize (Hm (iw_reads w) (S (iw_reads w)) ltac:(lia)). cbn. unfold REFRESH_COOLDOWN. lia.
  - split_and!; [|exact Hi|exact Hk|].
    + unfold paced. cbn [snd] in Hf'. rewrite Hf'. cbn. rewrite Hf. split; [done|]. by intros [|i] a b.
    + destruct (starts_with _ _); [by left|]. destruct insecure; [by right|done].
Qed.

(** C29. Tokens cannot flood the provider. From a validator that has just been set up,
    whatever bearers it is then given, its n-th later request for the JWKS comes
    at least n cooldowns after the first: unknown key ids, failed requests and
    answers without keys make no difference. *)
Theorem jwks_requests_paced cfg insecure w w1 tokens i k a b :
  discover cfg insecure w = (Ok tt, w1) -> iw_fetches w = [] -> monotonic w ->
  let log := iw_fetches (validate_all cfg tokens w1) in
  log !! i = Some a -> log !! (i + k)%nat = Some b ->
  b + Z.of_nat k * REFRESH_COOLDOWN <= a.
Proof.
  cbn zeta. intros Hd Hf Hm. destruct (discover_paced _ _ _ _ Hd Hf Hm) as (Hp & Hi & _).
  apply paced_count, validate_all_paced; [by rewrite Hi|done].
Qed.

(** A key the provider has withdrawn stays accepted until some bearer with an
    unknown [kid] arrives: nothing else refreshes the cache. *)
Lemma withdrawn_key_stays cfg token w h kid key :
  decode_header token = Ok h -> jh_alg h = "RS256"%string -> jh_kid h = Some kid ->
  iw_keys w !! kid = Some key ->
  let '(r, w') := validate cfg token w in iw_keys w' = iw_keys w /\ iw_fetches w' = iw_fetches w.
Proof.
  intros Hh Ha Hk Hkey. destruct (validate cfg token w) as [r w'] eqn:E. revert E.
  unfold validate, lift, st_get, wall_now, st_err, mbind, ST_bind, mret, ST_ret.
  rewrite Hh. cbn [map_err]. rewrite Ha. cbn [negb String.eqb Ascii.eqb Bool.eqb].
  rewrite Hk. cbn [ok_or]. rewrite Hkey. cbn [ok_or].
  destruct (jwt_decode _ _ _ _); cbn; [destruct (is_empty _)|]; by intros [= _ <-].
Qed.
End facts.

(** ** A concrete provider *)

Definition demo_claims : Value := JObj
  [("iss", JStr "https://idp"); ("aud", JStr "mobula"); ("sub", JStr "u-1"); ("exp", JNum 5000);
   ("groups", JArr [JStr "eng"])]%string.
Definition demo_jwk : Value := JObj [("kid", JStr "k1"); ("n", JStr "modulus")]%string.

(** One key, one token, and the checks written out. *)
#[local] Instance demo_jwt : Jwt := {|
  DecodingKey := string;
  decode_header := fun token =>
    if String.eqb token "g.o.d" then Ok {| jh_alg := "RS256"; jh_kid := Some "k1"%string |}
    else if String.eqb token "junk" then Ok {| jh_alg := "RS256"; jh_kid := Some "k9"%string |}
    else Err "InvalidToken"%string;
  decoding_key := fun v => json_get "n" v ≫= as_str;
  jwt_decode := fun now token key v =>
    if String.eqb token "g.o.d" && String.eqb key "modulus"
       && bool_decide (va_audience v = ["mobula"%string])
       && bool_decide (va_issuer v = ["https://idp"%string])
       && bool_decide (va_required_spec_claims v = ["exp"; "iss"; "aud"; "sub"]%string)
       && Z.leb now 5060
    then Ok demo_claims else Err "InvalidSignature"%string;
  signed_by := fun token key claims =>
    token = "g.o.d"%string /\ key = "modulus"%string /\ claims = demo_claims |}.

#[local] Instance demo_jwt_laws : JwtLaws.
Proof.
  intros now token key v claims. cbn.
  destruct (String.eqb_spec token "g.o.d") as [->|]; [|done].
  destruct (String.eqb_spec key "modulus") as [->|]; [|done]. cbn [andb].
  repeat case_bool_decide; cbn [andb]; try done.
  destruct (Z.leb_spec now 5060); [|done]. intros [= <-]. split; [done|].
  unfold claims_ok. match goal with H : va_required_spec_claims v = _ |- _ => rewrite H end.
  split_and!.
  - by repeat constructor.
  - exists "mobula"%string. match goal with H : va_audience v = _ |- _ => rewrite H end. set_solver.
  - exists "https://idp"%string. match goal with H : va_issuer v = _ |- _ => rewrite H end. set_solver.
  - intros e [= <-]. unfold LEEWAY. lia.
  - by intros _ n [=].
Qed.

Definition demo_mappings : RoleMappings := {|
  rm_admin := []; rm_operator := []; rm_developer := ["eng"%string]; rm_viewer := []; rm_auditor := [] |}.
Definition demo_config : AuthConfig := {|
  ac_issuer := "https://idp/"; ac_audience := "mobula"; ac_groups_claim := "groups";
  ac_roles := demo_mappings;
  ac_project_roles := {| prm_admin := []; prm_operator := []; prm_developer := []; prm_viewer := [];
    prm_auditor := []; prm_strip_prefix := "" |} |}.

(** A clock of twenty seconds per reading, and a provider that always serves the key. *)
Definition demo_idp : IdpWorld := {|
  iw_jwks_uri := ""; iw_keys := ∅; iw_last_refresh := 0;
  iw_instant := fun n => Z.of_nat n * (20 * 10 ^ 9); iw_wall := fun n => 1000 + Z.of_nat n;
  iw_reads := 0;
  iw_discovery := fun _ => Ok {| pm_issuer := Some "https://idp"%string;
                                 pm_jwks_uri := "https://idp/jwks"%string |};
  iw_jwks := fun _ _ => Ok [demo_jwk]; iw_fetches := [] |}.

Lemma demo_idp_monotonic n m : (n <= m)%nat -> iw_instant demo_idp n <= iw_instant demo_idp m.
Proof. cbn. lia. Qed.

Lemma validate_sound_witness :
  exists i w', validate demo_config "g.o.d" (snd (discover demo_config false demo_idp)) = (Ok i, w') /\
    id_subject i = "u-1"%string /\ id_roles i = [Developer].
Proof.
  destruct (validate demo_config "g.o.d" (snd (discover demo_config false demo_idp)))
    as [[i|e] w'] eqn:Hv; [|vm_compute in Hv; discriminate Hv].
  destruct (validate_sound demo_config "g.o.d" _ i w' Hv)
    as (h & kid & key & claims & now & _ & _ & _ & _ & _ & (_ & _ & Hc) & _ & Hi & _).
  exists i, w'. split; [reflexivity|]. rewrite Hi, Hc. split; reflexivity.
Defined.

Lemma jwks_requests_paced_witness :
  exists log : list Z,
    log = iw_fetches (validate_all demo_config ["junk"; "junk"; "junk"; "g.o.d"]%string
                       (snd (discover demo_config false demo_idp))) /\
    forall i k a b, log !! i = Some a -> log !! (i + k)%nat = Some b ->
      b + Z.of_nat k * REFRESH_COOLDOWN <= a.
Proof.
  eexists. split; [reflexivity|]. intros i k a b.
  assert (discover demo_config false demo_idp
          = (Ok tt, snd (discover demo_config false demo_idp))) as Hd by (vm_compute; reflexivity).
  exact (jwks_requests_paced demo_config false demo_idp _ ["junk"; "junk"; "junk"; "g.o.d"]%string i k a b
           Hd eq_refl demo_idp_monotonic).
Defined.
