(* ===== verification/LocalAuth.v ===== *)
(** * Local authentication (crates/mobula-auth/src/local.rs)

    Username/password login and opaque tokens over the store. bcrypt and the
    random generator are parameters; the world counts bcrypt evaluations, because
    the login path is specified by how many it costs. *)

From S2P Require Import Prelude Float64 Core Policy Store Auth.
#[local] Open Scope Z_scope.

(** bcrypt (crate [bcrypt]): hashing with the default cost and a fresh salt, and
    verification; [None] is the crate's error. *)
Class Bcrypt := {
  bcrypt_hash : nat -> string -> option string;
  bcrypt_verify : string -> string -> option bool;
}.

(** Verifying what was hashed succeeds. *)
Class BcryptLaws `{Bcrypt} := bcrypt_verify_hash : forall salt p h,
  bcrypt_hash salt p = Some h -> bcrypt_verify p h = Some true.

Definition DUMMY_HASH : string := "$2b$12$dcjUjjUwxXC4Z9wsZzBD3.8Ec1/3r8C.XkqTVfQsgyrNz9sJGUt.K".
Definition TOKEN_PREFIX_LEN : nat := 8.

Record MintedToken := { mt_prefix : string; mt_token : string; mt_token_hash : string }.

Inductive LocalAuthError :=
| InvalidCredentials | Locked | Disabled | UnknownUser | TtlTooLong | LBackend (msg : string).

Record LoginOutcome := { lo_token : MintedToken; lo_expires_at : Z; lo_identity : Identity }.

(** The random draws of one token: eight alphanumeric characters and sixteen
    bytes. *)
Record Draw := { dr_prefix : list ascii; dr_bytes : list Z }.
Definition draw_wf (d : Draw) : Prop :=
  length (dr_prefix d) = TOKEN_PREFIX_LEN /\
  Forall (fun c => is_ascii_alphanumeric c = true) (dr_prefix d) /\
  length (dr_bytes d) = 16%nat /\ Forall (fun b => 0 <= b < 256) (dr_bytes d).

Record LocalWorld := {
  lw_store : InMemoryStore;
  lw_clock : nat -> Z;
  lw_reads : nat;
  lw_rng : nat -> Draw;
  lw_draws : nat;
  lw_bcrypts : nat;
}.

Definition set_lw_store (s : InMemoryStore) (w : LocalWorld) : LocalWorld := {|
  lw_store := s; lw_clock := lw_clock w; lw_reads := lw_reads w; lw_rng := lw_rng w;
  lw_draws := lw_draws w; lw_bcrypts := lw_bcrypts w |}.
Definition spend_bcrypt (w : LocalWorld) : LocalWorld := {|
  lw_store := lw_store w; lw_clock := lw_clock w; lw_reads := lw_reads w; lw_rng := lw_rng w;
  lw_draws := lw_draws w; lw_bcrypts := S (lw_bcrypts w) |}.

(** ** The token scheme *)

Definition hex_digit (n : Z) : ascii :=
  ascii_of_nat (Z.to_nat (if Z.ltb n 10 then 48 + n else 87 + n)).
(** [{b:02x}]. *)
Definition hex_byte (b : Z) : list ascii := [hex_digit (b / 16); hex_digit (b mod 16)].

Definition token_text (d : Draw) : string :=
  str_of (bytes_of "mob_" ++ dr_prefix d ++ "_"%char :: concat (hex_byte <$> dr_bytes d)).

(** [str::split_at] panics off a character boundary. *)
Inductive Panic := NotCharBoundary.
Definition is_char_boundary (n : nat) (l : list ascii) : bool :=
  match l !! n with
  | Some c => negb (byte_in 128 191 c)
  | None => Nat.eqb n (length l)
  end.

Definition is_ascii_hexdigit (c : ascii) : bool :=
  is_ascii_digit c || byte_in 97 102 c || byte_in 65 70 c.

Definition token_prefix (presented : string) : result Panic (option string) :=
  match strip_prefix_bytes (bytes_of "mob_") (bytes_of presented) with
  | None => Ok None
  | Some rest =>
      if negb (Nat.eqb (length rest) (TOKEN_PREFIX_LEN + 1 + 32)) then Ok None
      else if negb (is_char_boundary TOKEN_PREFIX_LEN rest) then Err NotCharBoundary
      else
        let prefix := take TOKEN_PREFIX_LEN rest in
        if negb (forallb is_ascii_alphanumeric prefix) then Ok None
        else match drop TOKEN_PREFIX_LEN rest with
             | c :: hex =>
                 if Ascii.eqb c "_" then
                   if negb (forallb is_ascii_hexdigit hex) then Ok None
                   else Ok (Some (str_of prefix))
                 else Ok None
             | [] => Ok None
             end
  end.

Definition to_role (r : LocalRole) : Role :=
  match r with
  | LViewer => Viewer | LDeveloper => Developer | LOperator => Operator
  | LAdmin => Admin | LAuditor => Auditor
  end.

Definition identity_of (u : LocalUserRecord) : Identity := {|
  id_subject := lu_username u; id_username := Some (lu_username u); id_email := lu_email u;
  id_groups := []; id_roles := [to_role (lu_role u)]; id_project_roles := [] |}.

Section authenticator.
Context `{Bcrypt} (login_ttl_secs token_max_days : Z).
Abbreviation L := (ST LocalWorld LocalAuthError).

(** [StoreError] becomes [Backend] with the error's text. *)
Definition store_error_text (e : StoreError) : string := match e with Backend m => m end.

Definition lstore {E A} (f : StoreError -> E) (m : M A) : ST LocalWorld E A := fun w =>
  let '(r, s) := m (lw_store w) in (map_err f r, set_lw_store s w).
Definition use_store {A} (m : M A) : L A := lstore (fun e => LBackend (store_error_text e)) m.

Definition now_unix {E} : ST LocalWorld E Z := fun w =>
  (Ok (lw_clock w (lw_reads w)), {| lw_store := lw_store w; lw_clock := lw_clock w;
    lw_reads := S (lw_reads w); lw_rng := lw_rng w; lw_draws := lw_draws w;
    lw_bcrypts := lw_bcrypts w |}).

Definition hash_password (password : string) : L string := fun w =>
  match bcrypt_hash (lw_bcrypts w) password with
  | Some h => (Ok h, spend_bcrypt w)
  | None => (Err (LBackend "bcrypt"), spend_bcrypt w)
  end.

(** A malformed stored hash verifies as [false]. *)
Definition verify_password {E} (password hash : string) : ST LocalWorld E bool := fun w =>
  (Ok (default false (bcrypt_verify password hash)), spend_bcrypt w).

Definition mint_token_parts : L (string * string) := fun w =>
  let d := lw_rng w (lw_draws w) in
  (Ok (str_of (dr_prefix d), token_text d),
   {| lw_store := lw_store w; lw_clock := lw_clock w; lw_reads := lw_reads w; lw_rng := lw_rng w;
      lw_draws := S (lw_draws w); lw_bcrypts := lw_bcrypts w |}).

Definition store_token (username label : string) (expires_at : Z) : L MintedToken :=
  parts ← mint_token_parts;
  let '(prefix, plaintext) := (parts : string * string) in
  token_hash ← hash_password plaintext;
  created ← now_unix;
  _ ← use_store (create_api_token {|
    at_prefix := prefix; at_token_hash := token_hash; at_username := username; at_label := label;
    at_created_at := created; at_expires_at := expires_at; at_revoked := false;
    at_last_used_at := None |});
  mret {| mt_prefix := prefix; mt_token := plaintext; mt_token_hash := token_hash |}.

Definition login (username password : string) : L LoginOutcome :=
  user ← use_store (get_local_user username);
  match user with
  | None => _ ← verify_password password DUMMY_HASH; st_err InvalidCredentials
  | Some user =>
      if lu_disabled user then
        _ ← verify_password password (lu_password_hash user); st_err Disabled
      else
        now ← now_unix;
        if is_some_and (lu_locked_until user) (fun until => Z.ltb now until) then st_err Locked
        else
          ok ← verify_password password (lu_password_hash user);
          if negb ok then
            t ← now_unix;
            _ ← use_store (record_login_failure t username);
            st_err InvalidCredentials
          else
            _ ← use_store (record_login_success username);
            let expires_at := u64_add now login_ttl_secs in
            token ← store_token username "login" expires_at;
            mret {| lo_token := token; lo_expires_at := expires_at; lo_identity := identity_of user |}
  end.

(** [None] for anything that does not check out; a store error is [None] too. *)
Definition authenticate_token (presented : string) : ST LocalWorld Panic (option Identity) := fun w =>
  match token_prefix presented with
  | Err p => (Err p, w)
  | Ok None => (Ok None, w)
  | Ok (Some prefix) =>
      match get_api_token_by_prefix prefix (lw_store w) with
      | (Ok (Some record), _) =>
          (now ← now_unix;
           if at_revoked record || Z.leb (at_expires_at record) now then mret None
           else
             ok ← verify_password presented (at_token_hash record);
             if negb ok then mret None
             else fun w1 =>
               match get_local_user (at_username record) (lw_store w1) with
               | (Ok (Some user), _) =>
                   if lu_disabled user then (Ok None, w1)
                   else (Ok (Some (identity_of user)),
                         set_lw_store (snd (touch_api_token prefix now (lw_store w1))) w1)
               | _ => (Ok None, w1)
               end) w
      | _ => (Ok None, w)
      end
  end.

Definition issue_token (username label : string) (ttl_days : Z)
  : L (MintedToken * ApiTokenRecord) :=
  if Z.eqb ttl_days 0 || Z.ltb token_max_days ttl_days then st_err TtlTooLong
  else
    user ← use_store (get_local_user username);
    match user with
    | None => st_err UnknownUser
    | Some user =>
        if lu_disabled user then st_err Disabled
        else
          now ← now_unix;
          let expires_at := u64_add now (u64_mul ttl_days 86400) in
          minted ← store_token username label expires_at;
          record ← use_store (get_api_token_by_prefix (mt_prefix minted));
          match record with
          | Some record => mret (minted, record)
          | None => st_err (LBackend "token vanished after create")
          end
    end.
End authenticator.

(** ** The token scheme *)

Lemma hex_digit_hex n : 0 <= n < 16 -> is_ascii_hexdigit (hex_digit n) = true.
Proof.
  intros Hn. assert (n ∈ seqZ 0 16) as Hin by (apply elem_of_seqZ; lia).
  clear Hn. revert n Hin. apply Forall_forall.
  by apply (forallb_Forall (fun n => is_ascii_hexdigit (hex_digit n))).
Qed.

Lemma hex_bytes bs :
  Forall (fun b => 0 <= b < 256) bs ->
  Forall (fun c => is_ascii_hexdigit c = true) (concat (hex_byte <$> bs)) /\
  length (concat (hex_byte <$> bs)) = (2 * length bs)%nat.
Proof.
  induction 1 as [|b bs Hb Hbs [IH1 IH2]]; cbn; [by split|]. split.
  - repeat constructor; [apply hex_digit_hex..|exact IH1].
    + split; [apply Z.div_pos; lia|apply Z.div_lt_upper_bound; lia].
    + apply Z.mod_pos_bound. lia.
  - cbn in IH2. rewrite IH2. lia.
Qed.

Lemma token_prefix_text d : draw_wf d -> token_prefix (token_text d) = Ok (Some (str_of (dr_prefix d))).
Proof.
  intros (Hlen & Hal & Hb & Hr). unfold token_prefix, token_text. rewrite bytes_of_str_of.
  rewrite strip_prefix_bytes_app. destruct (hex_bytes _ Hr) as [Hhex Hhl].
  rewrite length_app, Hlen. cbn [length]. rewrite Hhl, Hb. cbn [Nat.eqb negb Nat.add Nat.mul].
  change (Nat.eqb _ _) with true. cbn [negb].
  assert (is_char_boundary TOKEN_PREFIX_LEN
    (dr_prefix d ++ "_"%char :: concat (hex_byte <$> dr_bytes d)) = true) as ->.
  { unfold is_char_boundary. rewrite lookup_app_r by lia. rewrite Hlen. done. }
  rewrite take_app_length' by done. rewrite drop_app_length' by done. cbn [negb].
  apply forallb_Forall in Hal, Hhex. by rewrite Hal, Hhex.
Qed.

#[local] Arguments token_text : simpl never.

Section facts.
Context `{Bcrypt} (ttl max_days : Z).
Abbreviation user_row w name := (m_local_users (lw_store w) !! (name : string)).

Lemma set_lockout_eq name f l w u :
  user_row w name = Some u ->
  use_store (set_login_lockout name f l) w =
  (Ok tt, set_lw_store (set_local_users (<[name := with_lockout f l u]>
     (m_local_users (lw_store w))) (lw_store w)) w).
Proof.
  intros Hu. unfold use_store, lstore, set_login_lockout, modify_user, mbind, ST_bind, st_get, st_put.
  by rewrite Hu.
Qed.

Lemma login_failure_ok t name s u :
  m_local_users s !! name = Some u -> exists s', record_login_failure t name s = (Ok tt, s').
Proof.
  intros Hu. unfold record_login_failure, get_local_user, mbind, ST_bind, st_get. rewrite Hu.
  destruct (next_login_failure_state _ _) as [f l].
  unfold set_login_lockout, modify_user, mbind, ST_bind, st_get, st_put. rewrite Hu. by eexists.
Qed.

Lemma get_user_eq name w : use_store (get_local_user name) w = (Ok (user_row w name), w).
Proof. by destruct w. Qed.

(** The failure branch of [login]. *)
Lemma login_failure_branch name w :
  let m := (t ← now_unix; _ ← use_store (record_login_failure t name);
            st_err InvalidCredentials) : ST LocalWorld LocalAuthError LoginOutcome in
  forall u, user_row w name = Some u ->
  fst (m w) = Err InvalidCredentials /\ lw_bcrypts (snd (m w)) = lw_bcrypts w /\
  exists t, lw_store (snd (m w)) = snd (record_login_failure t name (lw_store w)).
Proof.
  cbn zeta. intros u Hu. rewrite ST_bind_eq. cbn [now_unix]. rewrite ST_bind_eq.
  unfold use_store, lstore. cbn [lw_store].
  destruct (login_failure_ok (lw_clock w (lw_reads w)) name (lw_store w) u Hu) as (s' & Hs).
  rewrite Hs. split_and!; try done. exists (lw_clock w (lw_reads w)). by rewrite Hs.
Qed.

(** The store after [store_token], and the token. *)
Lemma store_token_Ok name label exp w tok w' :
  store_token name label exp w = (Ok tok, w') ->
  let d := lw_rng w (lw_draws w) in
  exists rec, mt_prefix tok = str_of (dr_prefix d) /\ mt_token tok = token_text d /\
    (exists salt, bcrypt_hash salt (mt_token tok) = Some (mt_token_hash tok)) /\
    at_token_hash rec = mt_token_hash tok /\ at_username rec = name /\ at_label rec = label /\
    at_expires_at rec = exp /\ at_revoked rec = false /\
    m_api_tokens (lw_store w) !! mt_prefix tok = None /\
    lw_store w' = set_api_tokens (<[mt_prefix tok := rec]> (m_api_tokens (lw_store w))) (lw_store w).
Proof.
  unfold store_token, mint_token_parts, hash_password, now_unix, use_store, lstore, create_api_token.
  unfold mbind, ST_bind, st_get, st_put, st_err, mret, ST_ret. cbn.
  set (d := lw_rng w (lw_draws w)).
  destruct (bcrypt_hash (lw_bcrypts w) (token_text d)) as [h|] eqn:Hh; cbn; [|done].
  destruct (m_api_tokens (lw_store w) !! str_of (dr_prefix d)) eqn:Hp; cbn; [done|].
  intros [= <- <-]. cbn. match goal with |- context [<[_ := ?rec]> _] => exists rec end.
  split_and!; try done. by exists (lw_bcrypts w).
Qed.

Lemma store_token_users name label exp w :
  m_local_users (lw_store (snd (store_token name label exp w))) = m_local_users (lw_store w).
Proof.
  unfold store_token, mint_token_parts, hash_password, now_unix, use_store, lstore, create_api_token.
  unfold mbind, ST_bind, st_get, st_put, st_err, mret, ST_ret. cbn.
  destruct (bcrypt_hash _ _); cbn; [|done]. by destruct (m_api_tokens _ !! _).
Qed.

Lemma login_branches name password w :
  let r := fst (login ttl name password w) in
  let w' := snd (login ttl name password w) in
  match user_row w name with
  | None => r = Err InvalidCredentials /\ lw_store w' = lw_store w /\ lw_bcrypts w' = S (lw_bcrypts w)
  | Some u =>
      let now := lw_clock w (lw_reads w) in
      if lu_disabled u
      then r = Err Disabled /\ lw_store w' = lw_store w /\ lw_bcrypts w' = S (lw_bcrypts w)
      else if is_some_and (lu_locked_until u) (fun until => Z.ltb now until)
      then r = Err Locked /\ lw_store w' = lw_store w /\ lw_bcrypts w' = lw_bcrypts w
      else match bcrypt_verify password (lu_password_hash u) with
      | Some true =>
          user_row w' name = Some (with_lockout 0 None u) /\
          forall o, r = Ok o -> lo_identity o = identity_of u /\
            lo_expires_at o = u64_add now ttl /\
            mt_prefix (lo_token o) = str_of (dr_prefix (lw_rng w (lw_draws w))) /\
            mt_token (lo_token o) = token_text (lw_rng w (lw_draws w)) /\
            m_api_tokens (lw_store w) !! mt_prefix (lo_token o) = None /\
            exists rec, m_api_tokens (lw_store w') !! mt_prefix (lo_token o) = Some rec /\
              at_username rec = name /\ at_expires_at rec = u64_add now ttl /\ at_revoked rec = false /\
              exists salt, bcrypt_hash salt (mt_token (lo_token o)) = Some (at_token_hash rec)
      | _ =>
          r = Err InvalidCredentials /\ lw_bcrypts w' = S (lw_bcrypts w) /\
          exists t, lw_store w' = snd (record_login_failure t name (lw_store w))
      end
  end.
Proof.
  cbn zeta. unfold login. rewrite ST_bind_eq, get_user_eq.
  destruct (user_row w name) as [u|] eqn:Hu; [|by split_and!].
  destruct (lu_disabled u); [by split_and!|].
  rewrite ST_bind_eq. cbn [now_unix].
  destruct (is_some_and _ _); [by split_and!|]. rewrite ST_bind_eq. cbn [verify_password].
  destruct (bcrypt_verify password (lu_password_hash u)) as [[|]|]; cbn [default negb id].
  - rewrite ST_bind_eq. unfold record_login_success. erewrite set_lockout_eq by exact Hu.
    cbv beta iota zeta. rewrite ST_bind_eq. set (w1 := set_lw_store _ _).
    pose proof (store_token_users name "login" (u64_add (lw_clock w (lw_reads w)) ttl) w1) as Husers.
    destruct (store_token name "login" _ w1) as [[tok|e] w2] eqn:Hst;
      unfold mret, ST_ret; cbn [fst snd] in *.
    + split; [by rewrite Husers; apply lookup_insert_eq|]. intros o [= <-].
      apply store_token_Ok in Hst as (rec & ? & ? & [salt Hsalt] & Hh & ? & ? & ? & ? & Hnone & Hs). cbn.
      split_and!; [done..|]. exists rec. rewrite Hs. cbn. rewrite lookup_insert_eq.
      split_and!; [done..|]. exists salt. by rewrite Hh.
    + split; [by rewrite Husers; apply lookup_insert_eq|done].
  - exact (login_failure_branch name (spend_bcrypt (snd (@now_unix LocalAuthError w))) u Hu).
  - exact (login_failure_branch name (spend_bcrypt (snd (@now_unix LocalAuthError w))) u Hu).
Qed.

(** Login, branch by branch. An unknown user and a disabled one fail without a
    trace in the store at the price of one bcrypt; a locked account fails without
    a trace and without a bcrypt; a wrong password costs one bcrypt and records a
    failure; the right one clears the failure counter and the lock and, if a token
    is returned, that token was not in use, is stored for this user until the
    login lifetime from the time of the check, as nothing but its bcrypt hash, and
    is handed out with the user's identity. *)
Theorem login_spec name password w :
  let r := fst (login ttl name password w) in
  let w' := snd (login ttl name password w) in
  match user_row w name with
  | None => r = Err InvalidCredentials /\ lw_store w' = lw_store w /\ lw_bcrypts w' = S (lw_bcrypts w)
  | Some u =>
      let now := lw_clock w (lw_reads w) in
      if lu_disabled u
      then r = Err Disabled /\ lw_store w' = lw_store w /\ lw_bcrypts w' = S (lw_bcrypts w)
      else if is_some_and (lu_locked_until u) (fun until => Z.ltb now until)
      then r = Err Locked /\ lw_store w' = lw_store w /\ lw_bcrypts w' = lw_bcrypts w
      else match bcrypt_verify password (lu_password_hash u) with
      | Some true =>
          user_row w' name = Some (with_lockout 0 None u) /\
          forall o, r = Ok o -> lo_identity o = identity_of u /\
            lo_expires_at o = u64_add now ttl /\
            mt_prefix (lo_token o) = str_of (dr_prefix (lw_rng w (lw_draws w))) /\
            mt_token (lo_token o) = token_text (lw_rng w (lw_draws w)) /\
            m_api_tokens (lw_store w) !! mt_prefix (lo_token o) = None /\
            exists rec, m_api_tokens (lw_store w') !! mt_prefix (lo_token o) = Some rec /\
              at_username rec = name /\ at_expires_at rec = u64_add now ttl /\ at_revoked rec = false /\
              exists salt, bcrypt_hash salt (mt_token (lo_token o)) = Some (at_token_hash rec)
      | _ =>
          r = Err InvalidCredentials /\ lw_bcrypts w' = S (lw_bcrypts w) /\
          exists t, lw_store w' = snd (record_login_failure t name (lw_store w))
      end
  end.
Proof. apply login_branches. Qed.

(** ** Tokens *)

(** What it takes for a bearer to authenticate as [i]. *)
Definition authenticates (presented : string) (w : LocalWorld) (i : Identity) : Prop :=
  exists prefix rec u, token_prefix presented = Ok (Some prefix) /\
    m_api_tokens (lw_store w) !! prefix = Some rec /\ at_revoked rec = false /\
    lw_clock w (lw_reads w) < at_expires_at rec /\
    bcrypt_verify presented (at_token_hash rec) = Some true /\
    user_row w (at_username rec) = Some u /\ lu_disabled u = false /\ i = identity_of u.

(** Refusal leaves the store alone. *)
Lemma refused presented w w' :
  lw_store w' = lw_store w -> (forall i, ~ authenticates presented w i) ->
  exists r w1, (Ok (@None Identity), w') = ((Ok r : result Panic (option Identity)), w1) /\
  (forall i, r = Some i <-> authenticates presented w i) /\
  (lw_store w1 = lw_store w \/ exists now prefix, lw_store w1 =
     set_api_tokens (alter (touched_token now) prefix (m_api_tokens (lw_store w))) (lw_store w)).
Proof.
  intros Hw Hno. exists None, w'. split; [done|]. split; [|by left]. intros i. split; [done|].
  intros Hi. by destruct (Hno i).
Qed.

Ltac refuse Hpre :=
  apply refused; [done|]; intros i (? & ? & ? & Heq & ? & ? & ? & ? & ? & ? & ?);
  rewrite Hpre in Heq;
  simplify_eq; try congruence; lia.

Lemma authenticate_token_iff presented w :
  is_ok (token_prefix presented) = true ->
  exists r w', authenticate_token presented w = (Ok r, w') /\
  (forall i, r = Some i <-> authenticates presented w i) /\
  (lw_store w' = lw_store w \/ exists now prefix, lw_store w' =
     set_api_tokens (alter (touched_token now) prefix (m_api_tokens (lw_store w))) (lw_store w)).
Proof.
  intros Hp. unfold authenticate_token, get_api_token_by_prefix, st_get.
  destruct (token_prefix presented) as [p|] eqn:Hpre; [|done].
  destruct p as [prefix|]; [|refuse Hpre].
  destruct (m_api_tokens (lw_store w) !! prefix) as [rec|] eqn:Hrec;
    [|refuse Hpre].
  unfold mbind, ST_bind. cbn [now_unix].
  destruct (at_revoked rec) eqn:Hrev; cbn [orb]; [refuse Hpre|].
  destruct (Z.leb_spec (at_expires_at rec) (lw_clock w (lw_reads w)));
    [refuse Hpre|].
  cbn [verify_password].
  destruct (bcrypt_verify presented (at_token_hash rec)) as [[|]|] eqn:Hv; cbn [default id negb];
    [|refuse Hpre..].
  unfold get_local_user, st_get. cbn [lw_store spend_bcrypt].
  destruct (user_row w (at_username rec)) as [u|] eqn:Hu;
    [|refuse Hpre].
  destruct (lu_disabled u) eqn:Hd; [refuse Hpre|].
  do 2 eexists. split; [done|]. split; [|right; by do 2 eexists].
  intros i. split; [intros [= <-]; exists prefix, rec, u; by split_and!|].
  intros (? & ? & ? & Heq & ? & ? & ? & ? & ? & ? & ?). rewrite Hpre in Heq. by simplify_eq.
Qed.

(** C33. A bearer that is read without panicking authenticates exactly when it has the
    token shape, its prefix names a stored token that is neither revoked nor
    expired, the hash verifies, and the token's user still exists and is enabled;
    the identity is the user's as stored at that moment, role included. Nothing
    but a token's last-used stamp changes. *)
Theorem authenticate_token_spec presented w :
  is_ok (token_prefix presented) = true ->
  exists r w', authenticate_token presented w = (Ok r, w') /\
  (forall i, r = Some i <-> authenticates presented w i) /\
  (lw_store w' = lw_store w \/ exists now prefix, lw_store w' =
     set_api_tokens (alter (touched_token now) prefix (m_api_tokens (lw_store w))) (lw_store w)).
Proof. apply authenticate_token_iff. Qed.

(** Round trip: the token a login returns authenticates its user, with the
    identity the login reported, until it expires. *)
Theorem login_token_authenticates `{!BcryptLaws} name password w o w' :
  login ttl name password w = (Ok o, w') -> draw_wf (lw_rng w (lw_draws w)) ->
  lw_clock w' (lw_reads w') < lo_expires_at o ->
  exists w'', authenticate_token (mt_token (lo_token o)) w' = (Ok (Some (lo_identity o)), w'').
Proof.
  intros Hl Hd Hexp. pose proof (login_branches name password w) as Hspec. rewrite Hl in Hspec.
  cbn [fst snd] in Hspec. destruct (user_row w name) as [u|]; [|by destruct Hspec as [[=] _]].
  destruct (lu_disabled u) eqn:Hdis; [by destruct Hspec as [[=] _]|].
  destruct (is_some_and _ _); [by destruct Hspec as [[=] _]|].
  destruct (bcrypt_verify password _) as [[|]|]; [|by destruct Hspec as [[=] _]..].
  destruct Hspec as [Hu Hok]. destruct (Hok o eq_refl)
    as (Hi & He & Hp & Ht & _ & rec & Hrec & Hname & Hre & Hrev & salt & Hhash).
  pose proof (token_prefix_text _ Hd) as Hpre. rewrite <-Ht, <-Hp in Hpre.
  destruct (authenticate_token_iff (mt_token (lo_token o)) w') as (r & w'' & Ha & Hiff & _);
    [by rewrite Hpre|].
  exists w''. rewrite Ha. do 2 f_equal. apply Hiff.
  exists (mt_prefix (lo_token o)), rec, (with_lockout 0 None u). rewrite Hname, Hre, <-He.
  split_and!; try done. by eapply bcrypt_verify_hash.
Qed.
End facts.

(** ** A concrete run *)

(** A toy hash that is the password itself. *)
#[local] Instance plain_bcrypt : Bcrypt := {|
  bcrypt_hash := fun _ p => Some p; bcrypt_verify := fun p h => Some (String.eqb p h) |}.
#[local] Instance plain_bcrypt_laws : BcryptLaws.
Proof. intros salt p h [= ->]. cbn. by rewrite String.eqb_refl. Qed.

Definition demo_draw : Draw := {|
  dr_prefix := replicate 8 "a"%char; dr_bytes := replicate 16 255 |}.
Definition demo_local_world : LocalWorld := {|
  lw_store := snd (create_local_user 1 "alice" None "secret" LOperator empty_store);
  lw_clock := fun n => 1000 + Z.of_nat n; lw_reads := 0; lw_rng := fun _ => demo_draw;
  lw_draws := 0; lw_bcrypts := 0 |}.

Lemma demo_draw_wf : draw_wf demo_draw.
Proof. unfold draw_wf. cbn. split_and!; repeat constructor; lia. Qed.

Lemma login_token_authenticates_witness :
  exists o w' w'', login 3600 "alice" "secret" demo_local_world = (Ok o, w') /\
    authenticate_token (mt_token (lo_token o)) w' = (Ok (Some (lo_identity o)), w'').
Proof.
  destruct (login 3600 "alice" "secret" demo_local_world) as [[o|e] w'] eqn:Hl;
    [|vm_compute in Hl; discriminate Hl].
  destruct (login_token_authenticates 3600 "alice" "secret" demo_local_world o w' Hl demo_draw_wf)
    as [w'' Ha].
  - vm_compute in Hl. injection Hl as <- <-. vm_compute. reflexivity.
  - exists o, w', w''. split; [reflexivity|exact Ha].
Defined.

Lemma authenticate_token_spec_witness :
  is_ok (token_prefix "not a token") = true /\
  exists w', authenticate_token "not a token" demo_local_world = (Ok None, w').
Proof.
  split; [reflexivity|].
  destruct (authenticate_token_spec "not a token" demo_local_world eq_refl)
    as ([i|] & w' & Ha & Hiff & _).
  - destruct (proj1 (Hiff i) eq_refl) as (? & ? & ? & Hp & _). discriminate Hp.
  - exists w'. exact Ha.
Defined.
