(* ===== verification/Registry.v ===== *)
(** * Static cluster registry (crates/mobula-core/src/registry.rs)

    Host lookup, validation of the registry as security-sensitive input, token
    indirection through the environment, and the literal-IP denylist with the
    standard library's address parser. *)

From S2P Require Import Prelude Float64 Core.
#[local] Open Scope Z_scope.

Record ClusterEndpoint := {
  ep_id : ClusterId;
  ep_hostname : string;
  ep_api_base_url : string;
  ep_auth_token : option string;
  ep_auth_token_env : option string;
}.

Definition ClusterRegistry : Type := list ClusterEndpoint.

Inductive RegistryError :=
| DuplicateHostname (h : string)
| DuplicateId (id : string)
| InvalidUrl (id url reason : string)
| CleartextToken (id : string)
| InvalidHostname (id hostname : string)
| ConflictingTokenSource (id : string)
| MissingTokenEnv (id var : string).

Inductive TokenSourceNote := Plaintext (id : string) | FromEnv (id var : string).

(** ** Byte-string helpers *)

(** [s.split(c).next()]: the part before the first [c]. *)
Fixpoint before (c : ascii) (l : list ascii) : list ascii :=
  match l with
  | [] => []
  | x :: l' => if Ascii.eqb x c then [] else x :: before c l'
  end.
(** [s.rsplit_once(c)] for the last [c]. *)
Fixpoint after (c : ascii) (l : list ascii) : option (list ascii) :=
  match l with
  | [] => None
  | x :: l' => if Ascii.eqb x c then Some l' else after c l'
  end.
Definition rsplit_once (c : ascii) (l : list ascii) : option (list ascii * list ascii) :=
  match after c (reverse l) with
  | None => None
  | Some h => Some (reverse h, reverse (before c (reverse l)))
  end.
Definition count_byte (c : ascii) (l : list ascii) : nat := length (filter (fun x => x = c) l).
Definition has_byte (c : ascii) (l : list ascii) : bool := existsb (Ascii.eqb c) l.
(** [chars().any(char::is_whitespace)]. *)
Fixpoint has_whitespace (l : list ascii) : bool :=
  match l with
  | [] => false
  | _ :: l' => match ws_width l with Some _ => true | None => has_whitespace l' end
  end.
(** [s.split_once("://")], the second half. *)
Fixpoint after_scheme (l : list ascii) : option (list ascii) :=
  match strip_prefix_bytes (bytes_of "://") l with
  | Some r => Some r
  | None => match l with [] => None | _ :: l' => after_scheme l' end
  end.

Definition strip_port (host : string) : string :=
  let l := bytes_of host in
  match strip_prefix_bytes ["["%char] l with
  | Some rest => str_of (before "]" rest)
  | None =>
      if Nat.eqb (count_byte ":" l) 1 then
        match rsplit_once ":" l with
        | Some (h, port) =>
            if negb (Nat.eqb (length port) 0) && forallb is_ascii_digit port
            then str_of h else host
        | None => host
        end
      else host
  end.

Definition authority_host (authority : list ascii) : list ascii :=
  match strip_prefix_bytes ["["%char] authority with
  | Some rest => before "]" rest
  | None => before ":" authority
  end.

(** ** [str::parse::<IpAddr>] *)

Definition to_digit (radix : Z) (c : ascii) : option Z :=
  let n := Z.of_N (N_of_ascii c) in
  let v := if Z.leb 48 n && Z.leb n 57 then n - 48
           else if Z.leb 97 n && Z.leb n 122 then n - 87
           else if Z.leb 65 n && Z.leb n 90 then n - 55 else 99 in
  if Z.ltb v radix then Some v else None.

(** Digits greedily, failing past [max_digits] or [bound]. *)
Fixpoint read_digits (radix bound : Z) (max_digits : nat) (acc : Z) (count : nat) (l : list ascii)
  : option (Z * nat * list ascii) :=
  match l with
  | [] => Some (acc, count, [])
  | c :: l' =>
      match to_digit radix c with
      | None => Some (acc, count, l)
      | Some d =>
          let acc' := acc * radix + d in
          if Z.ltb bound acc' then None
          else if Nat.ltb max_digits (S count) then None
          else read_digits radix bound max_digits acc' (S count) l'
      end
  end.
Definition read_number (radix bound : Z) (max_digits : nat) (allow_zero_prefix : bool)
    (l : list ascii) : option (Z * list ascii) :=
  match read_digits radix bound max_digits 0 0 l with
  | Some (v, count, rest) =>
      if Nat.eqb count 0 then None
      else if negb allow_zero_prefix && bool_decide (head l = Some "0"%char) && Nat.ltb 1 count
      then None else Some (v, rest)
  | None => None
  end.

Definition read_separator (sep : ascii) (index : nat) (l : list ascii) : option (list ascii) :=
  match index with O => Some l | S _ => strip_prefix_bytes [sep] l end.

Definition read_octet (index : nat) (l : list ascii) : option (Z * list ascii) :=
  read_separator "." index l ≫= read_number 10 255 3 false.

Definition read_ipv4 (l : list ascii) : option (list Z * list ascii) :=
  '(a, l1) ← read_octet 0 l;
  '(b, l2) ← read_octet 1 l1;
  '(c, l3) ← read_octet 2 l2;
  '(d, l4) ← read_octet 3 l3;
  Some ([a; b; c; d], l4).

(** [read_groups]: the groups read, whether they end in an IPv4 part, the rest. *)
Fixpoint read_groups (remaining : nat) (index : nat) (l : list ascii) : list Z * bool * list ascii :=
  match remaining with
  | O => ([], false, l)
  | S remaining' =>
      let v4 := match remaining' with
                | O => None
                | S _ => read_separator ":" index l ≫= read_ipv4
                end in
      match v4 with
      | Some ([a; b; c; d], rest) => ([a * 256 + b; c * 256 + d], true, rest)
      | _ =>
          match read_separator ":" index l ≫= read_number 16 65535 4 true with
          | Some (g, rest) =>
              let '(gs, v4, rest') := read_groups remaining' (S index) rest in (g :: gs, v4, rest')
          | None => ([], false, l)
          end
      end
  end.

Definition read_ipv6 (l : list ascii) : option (list Z * list ascii) :=
  let '(hd, head_v4, rest) := read_groups 8 0 l in
  if Nat.eqb (length hd) 8 then Some (hd, rest)
  else if head_v4 then None
  else
    rest' ← strip_prefix_bytes [":"%char; ":"%char] rest;
    let '(tl, _, rest'') := read_groups (8 - (length hd + 1)) 0 rest' in
    Some (hd ++ replicate (8 - length hd - length tl) 0 ++ tl, rest'').

Inductive IpAddr := V4 (octets : list Z) | V6 (segments : list Z).

(** The whole input must be one address; IPv4 is tried first. *)
Definition parse_ip (l : list ascii) : option IpAddr :=
  match read_ipv4 l with
  | Some (o, []) => Some (V4 o)
  | Some _ => None
  | None => match read_ipv6 l with Some (s, []) => Some (V6 s) | _ => None end
  end.

Definition is_denied_southbound_ip (ip : IpAddr) : bool :=
  match ip with
  | V4 (o0 :: o1 :: _) =>
      (Z.eqb o0 169 && Z.eqb o1 254) || (Z.eqb o0 100 && Z.leb 64 o1 && Z.ltb o1 128)
  | V6 (s0 :: _) => Z.eqb (Z.land s0 0xffc0) 0xfe80
  | _ => false
  end.

(** ** The registry *)

Definition eq_ignore_ascii_case (a b : string) : bool :=
  String.eqb (to_ascii_lowercase a) (to_ascii_lowercase b).

Definition by_hostname (r : ClusterRegistry) (host : string) : option ClusterEndpoint :=
  find (fun c => eq_ignore_ascii_case (ep_hostname c) (strip_port host)) r.

Definition by_id (r : ClusterRegistry) (id : ClusterId) : option ClusterEndpoint :=
  find (fun c => String.eqb (ep_id c) id) r.

(** [resolve_auth_tokens], with the process environment as [env]; the entries
    before a failing one keep the tokens already read. *)
Fixpoint resolve_auth_tokens (env : string -> option string) (r : ClusterRegistry)
  : result RegistryError unit * ClusterRegistry :=
  match r with
  | [] => (Ok tt, [])
  | c :: r' =>
      let continue c' := let '(res, r'') := resolve_auth_tokens env r' in (res, c' :: r'') in
      match ep_auth_token c, ep_auth_token_env c with
      | Some _, Some _ => (Err (ConflictingTokenSource (ep_id c)), r)
      | _, None => continue c
      | None, Some var =>
          match env var with
          | Some token =>
              if is_empty token then (Err (MissingTokenEnv (ep_id c) var), r)
              else continue {| ep_id := ep_id c; ep_hostname := ep_hostname c;
                               ep_api_base_url := ep_api_base_url c; ep_auth_token := Some token;
                               ep_auth_token_env := ep_auth_token_env c |}
          | None => (Err (MissingTokenEnv (ep_id c) var), r)
          end
      end
  end.

Definition token_source_notes (r : ClusterRegistry) : list TokenSourceNote :=
  omap (fun c => match ep_auth_token_env c with
                 | Some var => Some (FromEnv (ep_id c) var)
                 | None => match ep_auth_token c with
                           | Some _ => Some (Plaintext (ep_id c))
                           | None => None
                           end
                 end) r.

(** The authority the validation looks at: up to the first [/]. *)
Definition url_authority (url : string) : list ascii :=
  before "/" (default [] (after_scheme (bytes_of url))).

Definition endpoint_validate (allow_insecure_transport : bool) (c : ClusterEndpoint)
  : result RegistryError unit :=
  let host := bytes_of (ep_hostname c) in
  let url := ep_api_base_url c in
  let invalid reason := Err (InvalidUrl (ep_id c) url reason) in
  let is_https := starts_with "https://" url in
  let is_http := starts_with "http://" url in
  let authority := url_authority url in
  if is_empty (ep_hostname c) || has_whitespace host || has_byte "/" host || has_byte "@" host
     || has_byte "#" host
  then Err (InvalidHostname (ep_id c) (ep_hostname c))
  else if negb is_https && negb is_http then invalid "scheme must be http or https"%string
  else if Nat.eqb (length authority) 0 then invalid "missing host"%string
  else if has_byte "@" authority then invalid "userinfo not allowed"%string
  else if has_byte "#" (bytes_of url) then invalid "fragment not allowed"%string
  else if is_some_and (parse_ip (authority_host authority)) is_denied_southbound_ip
  then invalid "literal IP in a link-local/CGNAT range (169.254.0.0/16, 100.64.0.0/10, fe80::/10) is not a cluster endpoint"%string
  else if bool_decide (is_Some (ep_auth_token c)) && is_http && negb allow_insecure_transport
  then Err (CleartextToken (ep_id c))
  else Ok tt.

(** [validate]: [ids] and [hostnames] are the sets of lowercased names seen. *)
Fixpoint validate_loop (allow : bool) (ids hostnames : gset string) (r : ClusterRegistry)
  : result RegistryError unit :=
  match r with
  | [] => Ok tt
  | c :: r' =>
      let id := to_ascii_lowercase (ep_id c) in
      let h := to_ascii_lowercase (ep_hostname c) in
      if bool_decide (id ∈ ids) then Err (DuplicateId (ep_id c))
      else if bool_decide (h ∈ hostnames) then Err (DuplicateHostname (ep_hostname c))
      else _ ← endpoint_validate allow c;
           validate_loop allow ({[id]} ∪ ids) ({[h]} ∪ hostnames) r'
  end.
Definition validate (r : ClusterRegistry) (allow_insecure_transport : bool)
  : result RegistryError unit := validate_loop allow_insecure_transport ∅ ∅ r.

Example parse_v4 : parse_ip (bytes_of "169.254.169.254") = Some (V4 [169; 254; 169; 254]).
Proof. reflexivity. Qed.
Example parse_v6 : parse_ip (bytes_of "fe80::1") = Some (V6 [65152; 0; 0; 0; 0; 0; 0; 1]).
Proof. reflexivity. Qed.
Example parse_v6_mapped :
  parse_ip (bytes_of "::ffff:10.0.0.1") = Some (V6 [0; 0; 0; 0; 0; 65535; 2560; 1]).
Proof. reflexivity. Qed.
Example parse_not_ip : parse_ip (bytes_of "demo-head-svc") = None.
Proof. reflexivity. Qed.
Example strip_port_host : strip_port "demo.ray:8484" = "demo.ray"%string.
Proof. reflexivity. Qed.
Example strip_port_v6 : strip_port "[fe80::1]:8484" = "fe80::1"%string.
Proof. reflexivity. Qed.

(** ** What validation promises *)

(** What every accepted endpoint satisfies. *)
Definition endpoint_safe (allow : bool) (c : ClusterEndpoint) : Prop :=
  ep_hostname c <> EmptyString /\
  (starts_with "https://" (ep_api_base_url c) = true \/ starts_with "http://" (ep_api_base_url c) = true) /\
  ("@"%char ∉ url_authority (ep_api_base_url c)) /\
  (forall ip, parse_ip (authority_host (url_authority (ep_api_base_url c))) = Some ip ->
     is_denied_southbound_ip ip = false) /\
  (is_Some (ep_auth_token c) -> starts_with "http://" (ep_api_base_url c) = true -> allow = true).

Lemma has_byte_false c l : has_byte c l = false <-> c ∉ l.
Proof.
  unfold has_byte. rewrite <-not_true_iff_false, existsb_elem_of. setoid_rewrite Ascii.eqb_eq.
  split; [intros Hn Hc; apply Hn; eauto|intros Hn (x & Hx & ->); done].
Qed.

Lemma endpoint_validate_ok allow c : endpoint_validate allow c = Ok tt -> endpoint_safe allow c.
Proof.
  unfold endpoint_validate. intros Hv.
  destruct (is_empty (ep_hostname c)) eqn:He; [done|]. cbn [orb] in Hv.
  destruct (has_whitespace _ || _ || _ || _); [done|].
  destruct (negb (starts_with "https://" _) && negb (starts_with "http://" _)) eqn:Hs; [done|].
  destruct (Nat.eqb _ 0); [done|].
  destruct (has_byte "@" _) eqn:Hat; [done|]. destruct (has_byte "#" _); [done|].
  destruct (is_some_and _ _) eqn:Hip; [done|].
  destruct (bool_decide (is_Some (ep_auth_token c)) && _ && _) eqn:Ht; [done|].
  split_and!.
  - by apply is_empty_false.
  - apply andb_false_iff in Hs as [Hs%negb_false_iff|Hs%negb_false_iff]; auto.
  - by apply has_byte_false.
  - intros ip Hp. by rewrite Hp in Hip.
  - intros Htok Hh. rewrite bool_decide_eq_true_2, Hh in Ht by done. by destruct allow.
Qed.

Lemma validate_loop_ok allow ids hosts r :
  validate_loop allow ids hosts r = Ok tt ->
  Forall (endpoint_safe allow) r /\
  NoDup ((to_ascii_lowercase ∘ ep_id) <$> r) /\
  NoDup ((to_ascii_lowercase ∘ ep_hostname) <$> r) /\
  (forall c, c ∈ r -> (to_ascii_lowercase (ep_id c) ∉ ids) /\ (to_ascii_lowercase (ep_hostname c) ∉ hosts)).
Proof.
  revert ids hosts. induction r as [|c r IH]; intros ids hosts Hv; cbn in Hv.
  { split_and!; try constructor; set_solver. }
  case_bool_decide as Hid; [done|]. case_bool_decide as Hh; [done|].
  apply result_bind_Ok in Hv as ([] & Hc & Hv). destruct (IH _ _ Hv) as (Hs & Hn1 & Hn2 & Hfresh).
  split_and!; [constructor; [by apply endpoint_validate_ok|done]|..].
  - rewrite fmap_cons. constructor; [|done].
    intros (c' & Heq & Hin)%list_elem_of_fmap. cbn in Heq. destruct (Hfresh c' Hin). set_solver.
  - rewrite fmap_cons. constructor; [|done].
    intros (c' & Heq & Hin)%list_elem_of_fmap. cbn in Heq. destruct (Hfresh c' Hin). set_solver.
  - intros c' [->|Hin]%elem_of_cons; [done|]. destruct (Hfresh c' Hin). set_solver.
Qed.

Lemma find_unique {A} (p : A -> bool) l x :
  x ∈ l -> p x = true -> (forall y, y ∈ l -> p y = true -> y = x) -> find p l = Some x.
Proof.
  induction l as [|y l IH]; intros Hx Hp Hu; [by apply elem_of_nil in Hx|]. cbn.
  destruct (p y) eqn:Hy; [f_equal; apply Hu; [left|done]|].
  apply elem_of_cons in Hx as [->|Hx]; [congruence|]. apply IH; [done..|]. intros z Hz. apply Hu. by right.
Qed.


Definition demo_endpoint : ClusterEndpoint := {|
  ep_id := "demo"; ep_hostname := "demo.ray.example.com";
  ep_api_base_url := "https://demo-head-svc:8265"; ep_auth_token := Some "secret"%string;
  ep_auth_token_env := None |}.


(** The denylist looks at the text up to the first slash only, and at no
    IPv4-mapped form: these URLs of the cloud metadata address pass. *)
Lemma metadata_address_passes :
  Forall (fun url => validate [{| ep_id := "x"; ep_hostname := "x.example.com";
      ep_api_base_url := url; ep_auth_token := None; ep_auth_token_env := None |}] false = Ok tt)
    ["http://169.254.169.254?q"; "http://[::ffff:169.254.169.254]/latest"]%string.
Proof. repeat constructor; vm_compute; reflexivity. Qed.
