(* ===== verification/Views.v ===== *)
(** * Wire views of the API (the response types of crates/mobula-api/src)

    What serde renders: settings.rs, pools.rs, access.rs, local_auth.rs, audit.rs.
    [total_nominal] holds the numbers that [format_quantity] prints. *)

From S2P Require Import Prelude Float64 Core Quantity Policy Store Auth Json Provision Kueue.
#[local] Open Scope Z_scope.

(** ** Settings *)

Record PolicyView := {
  pv_prices : option (gmap string f64);
  pv_quotas : gmap string (gmap string f64);
  pv_budgets : gmap string StoredBudget;
  pv_source : string;
  pv_editable : bool;
}.

Definition PolicyView_of (p : StoredPolicy) (source : string) : PolicyView := {|
  pv_prices := po_prices p; pv_quotas := po_quotas p; pv_budgets := po_budgets p;
  pv_source := source; pv_editable := true |}.

(** What an edit of the policy is refused for ([validate_amounts]'s message, and the
    budget window's). *)
Inductive AmountKind := PriceOf | QuotaOf (project : string) | BudgetOf (project : string).
Inductive SettingsError := InvalidAmount (what : AmountKind) (key : string) | InvalidWindow (project : string).

(** ** Pools *)

(** [*m.entry(k).or_insert(0.0) += q]. *)
Definition add_quantity (m : gmap string f64) (k : string) (q : f64) : gmap string f64 :=
  <[k := f64_add (default f64_zero (m !! k)) q]> m.

(** The sums over the flavors, and the keys some flavor does not parse. *)
Definition flavor_entry (acc : gmap string f64 * gset string) (kv : string * string)
  : gmap string f64 * gset string :=
  match parse_quantity (snd kv) with
  | Ok q => (add_quantity (fst acc) (fst kv) q, snd acc)
  | Err _ => (fst acc, {[fst kv]} ∪ snd acc)
  end.
Definition flavor_sums (fs : list FlavorSpec) : gmap string f64 * gset string :=
  foldl (fun acc f => foldl flavor_entry acc (f_resources f)) (∅, ∅) fs.

Definition total_nominal (spec : PoolSpec) : gmap string f64 :=
  let '(sums, unparseable) := flavor_sums (p_flavors spec) in
  filter (fun kv => fst kv ∉ unparseable) sums.

Record PoolView := {
  pw_name : string;
  pw_generation : Z;
  pw_created_at : Z;
  pw_flavors : list FlavorSpec;
  pw_cohort : string;
  pw_fair_sharing_weight : f64;
  pw_elastic : bool;
  pw_gpu_sharing : option GpuSharing;
  pw_total_nominal : gmap string f64;
}.

Definition pool_from_stored (p : StoredPool) : PoolView := {|
  pw_name := sp_name p; pw_generation := sp_generation p; pw_created_at := sp_created_at p;
  pw_flavors := p_flavors (sp_spec p); pw_cohort := p_cohort (sp_spec p);
  pw_fair_sharing_weight := p_fair_sharing_weight (sp_spec p); pw_elastic := p_elastic (sp_spec p);
  pw_gpu_sharing := p_gpu_sharing (sp_spec p); pw_total_nominal := total_nominal (sp_spec p) |}.

Record ResourceUtilization := { ru_allocated : f64; ru_nominal : f64; ru_pct : f64 }.
Record PoolUsageView := {
  uv_pool : string;
  uv_sampled_at : option Z;
  uv_utilization : gmap string ResourceUtilization;
  uv_projects : gmap string (gmap string f64);
}.

(** [sum_quantities]: unparseable values are skipped. *)
Definition sum_quantities (into : gmap string f64) (resources : gmap string string) : gmap string f64 :=
  foldl (fun m kv => match parse_quantity (snd kv) with Ok q => add_quantity m (fst kv) q | Err _ => m end)
        into (btree_iter resources).

Definition utilization_of (allocated nominal : gmap string f64) (k : string) : ResourceUtilization :=
  let a := default f64_zero (allocated !! k) in
  let n := default f64_zero (nominal !! k) in {|
  ru_allocated := a; ru_nominal := n;
  ru_pct := if f64_gtb n f64_zero then f64_mul (f64_div a n) (f64_of_Z 100) else f64_zero |}.

(** The usage view of a pool from its latest observation, when one parses. *)
Definition pool_usage_view (p : StoredPool) (name : string) (obs : option PoolObservation)
  : PoolUsageView :=
  let allocated := match obs with
    | Some o => foldl (fun m fr => sum_quantities m (snd fr)) ∅ (btree_iter (po_flavors_usage o))
    | None => ∅ end in
  let '(nominal, unparseable) := flavor_sums (p_flavors (sp_spec p)) in
  let keys := (dom nominal ∖ unparseable) ∪ dom allocated in {|
  uv_pool := name; uv_sampled_at := sp_observed_at p;
  uv_utilization := set_to_map (fun k => (k, utilization_of allocated nominal k)) keys;
  uv_projects := match obs with
    | Some o => (fun m => sum_quantities ∅ m) <$> po_queues_usage o
    | None => ∅ end |}.

(** ** Access *)

Record IdentityResponse := {
  ir_subject : string;
  ir_email : option string;
  ir_groups : list string;
  ir_roles : list string;
}.
Definition identity_response (i : Identity) : IdentityResponse := {|
  ir_subject := id_subject i; ir_email := id_email i; ir_groups := id_groups i;
  ir_roles := role_str <$> id_roles i |}.

(** [mappings] has the shape of the configuration's [RoleMappings]. *)
Record RolesResponse := {
  rr_mappings : option RoleMappings;
  rr_source : string;
  rr_editable : bool;
}.

(** ** Accounts *)

Record LoginResponse := {
  lr_token : string;
  lr_token_type : string;
  lr_expires_at : Z;
  lr_subject : string;
  lr_roles : list string;
}.
Record CreateTokenResponse := { cr_prefix : string; cr_token : string; cr_expires_at : Z }.

(** ** Audit *)

Record AuditListResponse := { al_items : list AuditEvent; al_next_cursor : option Z }.
Record AuditVerifyResponse := {
  vr_ok : bool;
  vr_events_checked : Z;
  vr_first_broken_seq : option Z;
}.
