(* ===== verification/Api.v ===== *)
(** * Authorization layer and cluster API
    (crates/mobula-api/src/auth_layer.rs, audit.rs, clusters.rs, and the parts of
    settings.rs and usage.rs they call)

    A handler runs against the store and a clock and answers a response; an early
    [return] is the error of the monad. Handlers are atomic steps: the quota
    section holds the project's admission lock, and every store call is atomic. *)

From S2P Require Import Prelude Float64 Core Policy Usage Store Json Reconcile Auth Quantity Views.
#[local] Open Scope Z_scope.

(** ** Responses *)

Record ClusterView := {
  cv_id : string;
  cv_generation : Z;
  cv_desired : string;
  cv_observed_state : option string;
  cv_observed_generation : Z;
  cv_condition : option string;
  cv_project : string;
  cv_engine : string;
  cv_ray_version : string;
  cv_est_min_hourly : option f64;
  cv_est_max_hourly : option f64;
}.

(** Bodies: fixed texts, JSON values, views, and the errors whose [Display] is
    the text. *)
Inductive Body :=
| Empty
| Text (s : string)
| Json (v : Value)
| OneView (v : ClusterView)
| Views (l : list ClusterView)
| InvalidSpec (e : PolicyError)
| OverQuota (e : QuotaExceeded)
| OverBudget (e : BudgetExceeded)
| GpuViolation (e : GpuSharingViolation)
| InvalidPool (e : PoolSpecError)
| InvalidPoolQuantity (flavor resource : string) (e : QuantityError)
| InvalidAllocation (e : AllocationSpecError)
| InvalidSetting (e : SettingsError)
| BadValue (what value : string)
| PolicyBody (v : PolicyView)
| PoolBodies (l : list PoolView)
| PoolBody (v : PoolView)
| PoolUsageBody (v : PoolUsageView)
| AllocationBodies (l : list AllocationSpec)
| IdentityBody (v : IdentityResponse)
| RolesBody (v : RolesResponse)
| AssignmentBodies (l : list RoleAssignment)
| AssignmentBody (a : RoleAssignment)
| LoginBody (v : LoginResponse)
| NewTokenBody (v : CreateTokenResponse)
| TokenBodies (l : list ApiTokenView)
| UserBodies (l : list LocalUserView)
| UserBody (v : LocalUserView)
| AuditPage (v : AuditListResponse)
| AuditVerdict (v : AuditVerifyResponse)
| Csv (s : string).

Record Response := { rs_status : Z; rs_body : Body }.
Definition respond (status : Z) (body : Body) : Response := {| rs_status := status; rs_body := body |}.

Definition store_err : Response := respond 500 (Text "store error").
Definition no_such_cluster : Response := respond 404 (Text "no such cluster").
Definition forbidden : Response := respond 403 (Text "insufficient permission").

Record ApiWorld := { api_store : InMemoryStore; api_clock : nat -> Z; api_reads : nat }.
Abbreviation H := (ST ApiWorld Response).

Definition set_api_store (s : InMemoryStore) (w : ApiWorld) : ApiWorld :=
  {| api_store := s; api_clock := api_clock w; api_reads := api_reads w |}.

(** A store call whose error answers 500. *)
Definition call {A} (m : M A) : H A := fun w =>
  let '(r, s) := m (api_store w) in (map_err (fun _ => store_err) r, set_api_store s w).
Definition now_unix : H Z := fun w =>
  (Ok (api_clock w (api_reads w)), {| api_store := api_store w; api_clock := api_clock w;
                                      api_reads := S (api_reads w) |}).

(** ** Audit events (audit.rs) *)

Definition permission_str (a : PermissionType) : string :=
  match a with Read => "read" | Write => "write" | PDelete => "delete" | PAdmin => "admin" end.
Definition target_str (t : Target) : string :=
  match t with
  | TJob => "job" | TCluster => "cluster" | TService => "service" | TPool => "pool"
  | TAudit => "audit"
  end.

(** The fields the handlers set; the others are [None] or empty. *)
Definition audit_event (ts : Z) (subject : option string) (decision : AuditDecision)
    (reason action cluster : option string) (status : option Z) (required : option AuditRequired)
    (granted : list string) : AuditEvent := {|
  ae_ts := ts; ae_subject := subject; ae_decision := decision; ae_reason := reason;
  ae_action := action; ae_cluster := cluster; ae_method := None; ae_path := None;
  ae_status := status; ae_latency_ms := None; ae_required := required; ae_granted_roles := granted |}.

Section handlers.
Context `{AuditCodec}.

(** [emit]: persistence failures are swallowed. *)
Definition emit (event : AuditEvent) : H unit := fun w =>
  (Ok tt, set_api_store (snd (record_audit event (api_store w))) w).

(** ** Authorization (auth_layer.rs) *)

Definition is_public (path : string) : bool :=
  String.eqb path "/healthz" || String.eqb path "/api/v1/version"
  || String.eqb path "/api/v1/openapi.json" || String.eqb path "/docs"
  || starts_with "/docs/" path || String.eqb path "/api/v1/auth/login"
  || String.eqb path "/api/v1/auth/providers".

Definition required_permission (method : string) : PermissionType :=
  if String.eqb method "GET" || String.eqb method "HEAD" || String.eqb method "OPTIONS"
  then Read else Write.

(** [path.split(['?', '#']).next()]. *)
Fixpoint path_part (l : list ascii) : list ascii :=
  match l with
  | [] => []
  | c :: l' => if Ascii.eqb c "?" || Ascii.eqb c "#" then [] else c :: path_part l'
  end.

Definition target_for_path (path : string) : Target :=
  let p := str_of (path_part (bytes_of path)) in
  let is_under prefix := String.eqb p prefix || starts_with (prefix +:+ "/") p in
  if is_under "/api/v1/clusters"%string then TCluster
  else if is_under "/api/v1/services"%string then TService
  else if is_under "/api/v1/pools"%string then TPool
  else if is_under "/api/v1/audit"%string then TAudit
  else if is_under "/api/v1/registry"%string || is_under "/api/v1/settings"%string then TCluster
  else TJob.

(** [StoreAssignments::assignments_for]: rows with an unknown role are skipped. *)
Definition assignments_for (s : InMemoryStore) (subject : string) : list (Role * string) :=
  match fst (list_role_assignments (Some subject) s) with
  | Ok rows => omap (fun a => r ← role_parse (ra_role a); Some (r, ra_scope a)) rows
  | Err _ => []
  end.

(** [if !out.contains(&a) { out.push(a) }], row by row. *)
Definition push_new (out : list (Role * string)) (a : Role * string) : list (Role * string) :=
  if bool_decide (a ∈ out) then out else out ++ [a].

Definition for_identity (s : InMemoryStore) (i : Identity) : list (Role * string) :=
  let out := assignments_for s (id_subject i) in
  match id_username i with
  | Some username =>
      if String.eqb username (id_subject i) then out
      else foldl push_new out (assignments_for s username)
  | None => out
  end.

Definition effective_assignments (s : option InMemoryStore) (i : Identity) : list (Role * string) :=
  match s with
  | Some s => foldl push_new (id_project_roles i) (for_identity s i)
  | None => id_project_roles i
  end.

Definition deny (i : Identity) (action : PermissionType) (target : Target) : H Response :=
  ts ← now_unix;
  _ ← emit (audit_event ts (Some (id_subject i)) Deny (Some "insufficient_permission"%string) None None
              (Some 403) (Some {| ar_action := permission_str action; ar_target := target_str target |})
              (role_str <$> id_roles i));
  mret forbidden.

Definition authorize (identity : option Identity) (action : PermissionType) (target : Target)
  : H (option Response) :=
  match identity with
  | None => mret None
  | Some i =>
      if permits i action target then mret None
      else r ← deny i action target; mret (Some r)
  end.

Definition authorize_scoped (identity : option Identity) (action : PermissionType)
    (target : Target) (project : string) : H (option Response) :=
  match identity with
  | None => mret None
  | Some i =>
      if permits i action target then mret None
      else
        s ← st_get api_store;
        if permits_scoped i action target (effective_assignments (Some s) i) project then mret None
        else r ← deny i action target; mret (Some r)
  end.

(** [if let Some(deny) = ... { return deny; }]. *)
Definition or_deny (m : H (option Response)) : H unit :=
  d ← m;
  match d with Some r => st_err r | None => mret tt end.

(** ** Policy (settings.rs, clusters.rs) *)

Record PolicyConfig := {
  pc_prices : option PriceSheet;
  pc_quotas : gmap string ResourceMap;
  pc_budgets : gmap string Budget;
  pc_gpu_default_sharing : GpuSharing;
}.

Definition default_policy : PolicyConfig := {|
  pc_prices := None; pc_quotas := ∅; pc_budgets := ∅; pc_gpu_default_sharing := WholeGpu |}.

Definition stored_budget (b : Budget) : StoredBudget :=
  {| sb_window_secs := b_window_secs b; sb_limits := b_limits b |}.
Definition budget_from_stored (b : StoredBudget) : Budget :=
  {| b_window_secs := sb_window_secs b; b_limits := sb_limits b |}.

Definition seed_from_config (cfg : PolicyConfig) : option StoredPolicy :=
  if bool_decide (pc_prices cfg = None) && bool_decide (size (pc_quotas cfg) = 0%nat)
     && bool_decide (size (pc_budgets cfg) = 0%nat)
  then None
  else Some {| po_prices := pc_prices cfg; po_quotas := pc_quotas cfg;
               po_budgets := stored_budget <$> pc_budgets cfg; po_from_file_seed := true |}.

Definition config_from_stored (p : StoredPolicy) : PolicyConfig := {|
  pc_prices := po_prices p; pc_quotas := po_quotas p;
  pc_budgets := budget_from_stored <$> po_budgets p; pc_gpu_default_sharing := WholeGpu |}.

Definition effective_policy (seed : PolicyConfig) : M (option StoredPolicy) :=
  row ← get_policy;
  match row with
  | Some p => mret (Some p)
  | None =>
      match seed_from_config seed with
      | Some p =>
          inserted ← seed_policy p;
          if (inserted : bool) then mret (Some p) else get_policy
      | None => mret None
      end
  end.

Definition load_policy (seed : PolicyConfig) : H PolicyConfig :=
  p ← call (effective_policy seed);
  mret (match p with Some p => config_from_stored p | None => default_policy end).

(** ** Usage (usage.rs) *)

Definition group_sample (m : gmap (string * string) (list (Z * f64))) (s : UsageSample)
  : gmap (string * string) (list (Z * f64)) :=
  let key := (us_pool s, us_resource s) in
  <[key := default [] (m !! key) ++ [(us_ts s, us_quantity s)]]> m.

Definition windowed_consumption (project : string) (from to : Z) : M ResourceMap :=
  samples ← usage_samples (Some project) None 0 to;
  mret (windowed_resource_hours (foldl group_sample ∅ samples) from to).

(** ** Cluster routes (clusters.rs) *)

Definition cluster_state_str (s : ClusterState) : string :=
  match s with
  | Pending => "pending" | Provisioning => "provisioning" | Running => "running"
  | Degraded => "degraded" | Updating => "updating" | Suspending => "suspending"
  | Suspended => "suspended" | Terminating => "terminating" | Terminated => "terminated"
  end.
Definition condition_str (c : DriftCondition) : string :=
  match c with SpecDrift => "spec_drift" | DriftDegraded => "degraded" end.
Definition desired_str (d : DesiredState) : string :=
  match d with DRunning => "running" | DSuspended => "suspended" | DTerminated => "terminated" end.

Definition from_stored (prices : option PriceSheet) (c : StoredCluster) : ClusterView :=
  let cost := prices ≫= fun p => match estimate p (c_spec c) with Ok e => Some e | Err _ => None end in {|
  cv_id := c_id c; cv_generation := c_generation c; cv_desired := desired_str (c_desired c);
  cv_observed_state := cluster_state_str <$> c_observed_state c;
  cv_observed_generation := c_observed_generation c;
  cv_condition := condition_str <$> c_condition c;
  cv_project := cs_project (c_spec c); cv_engine := engine_str (cs_engine (c_spec c));
  cv_ray_version := cs_ray_version (c_spec c);
  cv_est_min_hourly := min_hourly <$> cost; cv_est_max_hourly := max_hourly <$> cost |}.

Definition read_scope (s : InMemoryStore) (identity : option Identity)
  : list (Role * string) * option (list string) :=
  match identity with
  | None => ([], None)
  | Some i =>
      if bool_decide (Admin ∈ id_roles i) then ([], None)
      else
        let assignments := effective_assignments (Some s) i in
        let projects := omap (fun a => strip_prefix "project:" (snd a)) assignments in
        (assignments, match projects with [] => None | _ => Some projects end)
  end.

Definition visible (identity : option Identity) (assignments : list (Role * string))
    (narrowed : option (list string)) (c : StoredCluster) : bool :=
  match narrowed, identity with
  | Some projects, _ => bool_decide (cs_project (c_spec c) ∈ projects)
  | None, Some i => permits_scoped i Read TCluster assignments (cs_project (c_spec c))
  | None, None => true
  end.

Definition list_clusters_route (seed : PolicyConfig) (identity : option Identity) : H Response :=
  s ← st_get api_store;
  let '(assignments, narrowed) := read_scope s identity in
  _ ← match narrowed, identity with
      | None, Some i =>
          if negb (permits i Read TCluster) && bool_decide (assignments = [])
          then or_deny (authorize identity Read TCluster) else mret tt
      | _, _ => mret tt
      end;
  clusters ← call list_clusters;
  policy ← load_policy seed;
  mret (respond 200 (Views (from_stored (pc_prices policy) <$>
    filter (fun c => visible identity assignments narrowed c = true) clusters))).

Definition get_cluster (seed : PolicyConfig) (identity : option Identity) (id : string) : H Response :=
  row ← call (get id);
  match row with
  | None => mret no_such_cluster
  | Some c =>
      s ← st_get api_store;
      let '(_, narrowed) := read_scope s identity in
      if is_some_and narrowed (fun ps => negb (bool_decide (cs_project (c_spec c) ∈ ps)))
      then mret no_such_cluster
      else
        _ ← or_deny (authorize_scoped identity Read TCluster (cs_project (c_spec c)));
        policy ← load_policy seed;
        mret (respond 200 (OneView (from_stored (pc_prices policy) c)))
  end.

Definition subject_of (identity : option Identity) : option string := id_subject <$> identity.

(** The audit event of one cluster command, and the answer. *)
Definition audited (identity : option Identity) (decision : AuditDecision)
    (reason : option string) (action id : string) (status : option Z) : H unit :=
  ts ← now_unix;
  emit (audit_event ts (subject_of identity) decision reason (Some action) (Some id) status None []).

(** GPU tenant isolation: the first pool with an allocation for the project. *)
Fixpoint gpu_admission (platform_default : GpuSharing) (identity : option Identity) (id : string)
    (spec : ClusterSpec) (pools : list StoredPool) : H unit :=
  match pools with
  | [] => mret tt
  | p :: pools' =>
      allocs ← call (list_allocations (sp_name p));
      if negb (existsb (fun a => String.eqb (a_project a) (cs_project spec)) allocs)
      then gpu_admission platform_default identity id spec pools'
      else match check_cluster_gpu_isolation (sp_spec p) platform_default
                   (Z.of_nat (length allocs)) spec with
           | Ok _ => mret tt
           | Err v =>
               _ ← audited identity Deny (Some "gpu_tenant_isolation"%string) "create_cluster" id (Some 400);
               st_err (respond 400 (GpuViolation v))
           end
  end.

(** The clusters whose demand counts against the project's quota. *)
Definition counted (project id : string) (c : StoredCluster) : bool :=
  String.eqb (cs_project (c_spec c)) project && negb (String.eqb (c_id c) id)
  && bool_decide (c_desired c = DRunning).

Fixpoint sum_demand (acc : ResourceMap) (cs : list StoredCluster) : result PolicyError ResourceMap :=
  match cs with
  | [] => Ok acc
  | c :: cs' => d ← cluster_demand (c_spec c); sum_demand (rm_add acc (snd d)) cs'
  end.

Definition quota_accounting_failed : Response :=
  respond 500 (Text "quota accounting failed: an existing cluster has an invalid spec").

Definition quota_admission (policy : PolicyConfig) (identity : option Identity) (id : string)
    (spec : ClusterSpec) : H unit :=
  let project := cs_project spec in
  match pc_quotas policy !! project with
  | None => mret tt
  | Some limit =>
      match cluster_demand spec with
      | Err e => st_err (respond 400 (InvalidSpec e))
      | Ok (_, requested) =>
          clusters ← call list_clusters;
          match sum_demand ∅ (filter (fun c => counted project id c = true) clusters) with
          | Err _ => st_err quota_accounting_failed
          | Ok in_use =>
              match admit_quota project limit in_use requested with
              | Ok _ => mret tt
              | Err exceeded =>
                  _ ← audited identity Deny (Some "quota_exceeded"%string) "create_cluster" id (Some 409);
                  st_err (respond 409 (OverQuota exceeded))
              end
          end
      end
  end.

Definition budget_admission (policy : PolicyConfig) (identity : option Identity) (id : string)
    (spec : ClusterSpec) : H unit :=
  let project := cs_project spec in
  match pc_budgets policy !! project with
  | None => mret tt
  | Some budget =>
      to ← now_unix;
      consumed ← call (windowed_consumption project (sat_sub to (b_window_secs budget)) to);
      match admit_budget project budget consumed with
      | Ok _ => mret tt
      | Err exceeded =>
          _ ← audited identity Deny (Some "budget_exceeded"%string) "create_cluster" id (Some 409);
          st_err (respond 409 (OverBudget exceeded))
      end
  end.

(** The owner is the caller, whatever the body says. *)
Definition owned_spec (identity : option Identity) (spec : ClusterSpec) : ClusterSpec :=
  with_owner spec (owner <$> identity).

(** The queue lookup after the write only logs its failure. *)
Definition queue_or_none (project : string) : H (option QueueAssignment) := fun w =>
  match queue_assignment_for_project project (api_store w) with
  | (Ok q, s) => (Ok q, set_api_store s w)
  | (Err _, s) => (Ok None, set_api_store s w)
  end.

(** The write, its audit events and the answer. *)
Definition commit_cluster (identity : option Identity) (id : string) (spec : ClusterSpec)
  : H Response :=
  t ← now_unix;
  generation ← call (upsert_desired t id spec);
  _ ← audited identity Allow None "create_cluster" id (Some 201);
  q ← queue_or_none (cs_project spec);
  _ ← match q with
      | Some _ => audited identity Allow None "queue_assign" id None
      | None => mret tt
      end;
  mret (respond 201 (Json (JObj [("id"%string, JStr id); ("generation"%string, JNum generation)]))).

Definition create_cluster (seed : PolicyConfig) (identity : option Identity) (id : string)
    (body_spec : ClusterSpec) : H Response :=
  let project := cs_project body_spec in
  _ ← or_deny (authorize_scoped identity Write TCluster project);
  let spec := owned_spec identity body_spec in
  policy ← load_policy seed;
  pools ← call list_pools;
  _ ← gpu_admission (pc_gpu_default_sharing seed) identity id spec pools;
  _ ← quota_admission policy identity id spec;
  _ ← budget_admission policy identity id spec;
  commit_cluster identity id spec.

Definition purge_cluster (identity : option Identity) (id : string) (stored : StoredCluster)
  : H Response :=
  if negb (bool_decide (c_desired stored = DTerminated) && observed_gone (c_observed_state stored))
  then mret (respond 409
    (Text "cannot purge a live cluster: it must be terminated and observed gone first"))
  else
    existed ← call (remove_cluster id);
    if (existed : bool) then
      _ ← audited identity Allow None "purge_cluster" id (Some 200);
      mret (respond 200 (Text "cluster tombstone purged"))
    else mret no_such_cluster.

(** A store error whose text names a missing cluster is a 404, any other a 500. *)
Definition set_desired_or_404 (t : Z) (id : string) (d : DesiredState) : H unit := fun w =>
  match set_desired t id d (api_store w) with
  | (Ok _, s) => (Ok tt, set_api_store s w)
  | (Err (Backend m), s) =>
      (Err (if str_contains "no such cluster" m then no_such_cluster else store_err),
       set_api_store s w)
  end.

Definition delete_cluster (identity : option Identity) (id : string) (purge : bool) : H Response :=
  row ← call (get id);
  match row with
  | None => mret no_such_cluster
  | Some c =>
      _ ← or_deny (authorize_scoped identity Write TCluster (cs_project (c_spec c)));
      if purge then purge_cluster identity id c
      else
        t ← now_unix;
        _ ← set_desired_or_404 t id DTerminated;
        _ ← audited identity Allow None "delete_cluster" id (Some 202);
        mret (respond 202 Empty)
  end.

Inductive LifecycleCommand := CmdSuspend | CmdResume.
Definition cmd_desired (c : LifecycleCommand) : DesiredState :=
  match c with CmdSuspend => DSuspended | CmdResume => DRunning end.
Definition cmd_action (c : LifecycleCommand) : string :=
  match c with CmdSuspend => "suspend_cluster" | CmdResume => "resume_cluster" end.
Definition transitional_state (c : LifecycleCommand) : ClusterState :=
  match c with CmdSuspend => Suspending | CmdResume => Provisioning end.

Definition lifecycle_command (identity : option Identity) (id : string) (cmd : LifecycleCommand)
  : H Response :=
  _ ← or_deny (authorize identity Write TCluster);
  row ← call (get id);
  match row with
  | None => mret no_such_cluster
  | Some cluster =>
      q ← call (queue_assignment_for_project (cs_project (c_spec cluster)));
      match q with
      | Some q =>
          _ ← audited identity Deny (Some "queue_owned_suspend"%string) (cmd_action cmd) id (Some 409);
          mret (respond 409 (Json (JObj [("error"%string, JStr "queue_owned_suspend");
            ("message"%string, JStr ("cluster's project is admitted through queue '"
              +:+ qa_queue_name q +:+ "' — Kueue owns suspend there"))])))
      | None =>
          let to := transitional_state cmd in
          let legal := negb (bool_decide (c_desired cluster = DTerminated))
            && is_some_and (c_observed_state cluster) (fun s => can_transition s to) in
          if negb legal then
            _ ← audited identity Deny (Some "illegal_state_transition"%string) (cmd_action cmd) id (Some 409);
            mret (respond 409 (Json (JObj [("error"%string, JStr "illegal_state_transition");
              ("from"%string, json_opt_str (cluster_state_str <$> c_observed_state cluster));
              ("to"%string, JStr (cluster_state_str to))])))
          else
            t ← now_unix;
            _ ← call (set_desired t id (cmd_desired cmd));
            _ ← audited identity Allow None (cmd_action cmd) id (Some 202);
            mret (respond 202 (Json (JObj [("id"%string, JStr id);
              ("state"%string, JStr (cluster_state_str to));
              ("generation"%string, JNum (c_generation cluster))])))
      end
  end.
End handlers.

(** The answer of a handler, early or not, and the world after it. *)
Definition answer (h : H Response) (w : ApiWorld) : Response * ApiWorld :=
  match h w with (Ok r, w') => (r, w') | (Err r, w') => (r, w') end.
