(* ===== verification/AuthLayer.v ===== *)
(** * The authentication middleware and the ext_authz endpoint
    (crates/mobula-api/src/auth_layer.rs)

    A request passes [require_auth] before its handler runs. The world holds the
    API's store and clock, the OIDC validator's state and the bcrypt counter; a
    handler is any action on the API's world. *)

From S2P Require Import Prelude Float64 Core Policy Store StoreFacts Json Auth Oidc LocalAuth Registry Api.
#[local] Open Scope Z_scope.

(** ** Requests *)

(** [http::HeaderValue::to_str] and [http::Method::from_bytes]. *)
Class Http := {
  header_to_str : list ascii -> option string;
  method_from_bytes : string -> option string;
}.
(** [to_str] answers visible ASCII only. *)
Class HttpLaws `{Http} := header_to_str_ascii : forall v s,
  header_to_str v = Some s -> Forall (fun c => byte_in 0 127 c = true) (bytes_of s).

(** [rq_header] is the first value of a header, by lower-case name. *)
Record Request := {
  rq_method : string;
  rq_path : string;
  rq_header : string -> option (list ascii);
}.

Section layer.
Context `{AuditCodec} `{Jwt} `{Bcrypt} `{Http}.

(** [AuthState]: the OIDC configuration and the token lifetimes of local auth when
    they are enabled, the registry, and whether a store is configured. *)
Record AuthState := {
  st_validator : option AuthConfig;
  st_local : bool;
  st_registry : ClusterRegistry;
  st_store : bool;
}.

Record AuthWorld := {
  aw_api : ApiWorld;
  aw_idp : IdpWorld;
  aw_rng : nat -> Draw;
  aw_draws : nat;
  aw_bcrypts : nat;
}.
Definition set_aw_api (a : ApiWorld) (w : AuthWorld) : AuthWorld := {|
  aw_api := a; aw_idp := aw_idp w; aw_rng := aw_rng w; aw_draws := aw_draws w;
  aw_bcrypts := aw_bcrypts w |}.
Definition set_aw_idp (i : IdpWorld) (w : AuthWorld) : AuthWorld := {|
  aw_api := aw_api w; aw_idp := i; aw_rng := aw_rng w; aw_draws := aw_draws w;
  aw_bcrypts := aw_bcrypts w |}.

(** The local authenticator shares the API's store and clock. *)
Definition local_view (w : AuthWorld) : LocalWorld := {|
  lw_store := api_store (aw_api w); lw_clock := api_clock (aw_api w); lw_reads := api_reads (aw_api w);
  lw_rng := aw_rng w; lw_draws := aw_draws w; lw_bcrypts := aw_bcrypts w |}.
Definition set_local_view (l : LocalWorld) (w : AuthWorld) : AuthWorld := {|
  aw_api := {| api_store := lw_store l; api_clock := lw_clock l; api_reads := lw_reads l |};
  aw_idp := aw_idp w; aw_rng := aw_rng w; aw_draws := lw_draws l; aw_bcrypts := lw_bcrypts l |}.

(** A panic of the local path is the error of the monad. *)
Abbreviation A := (ST AuthWorld Panic).

Definition on_api {X} (m : H X) (dflt : X) : A X := fun w =>
  let '(r, a) := m (aw_api w) in (Ok (match r with Ok x => x | Err _ => dflt end), set_aw_api a w).
Definition on_local {X} (m : ST LocalWorld Panic X) : A X := fun w =>
  let '(r, l) := m (local_view w) in (r, set_local_view l w).
(** [validator.validate], a failure becoming [None]. *)
Definition on_validator (cfg : AuthConfig) (token : string) : A (option Identity) := fun w =>
  let '(r, i) := Oidc.validate cfg token (aw_idp w) in
  (Ok (match r with Ok x => Some x | Err _ => None end), set_aw_idp i w).

(** [emit] with the time of the event; without a store it only traces. *)
Definition emit_now (st : AuthState) (event : Z -> AuditEvent) : A unit :=
  ts ← on_api now_unix 0;
  if st_store st then on_api (emit (event ts)) tt else mret tt.

Definition bearer (req : Request) : option string :=
  v ← rq_header req "authorization"; s ← header_to_str v; strip_prefix "Bearer " s.

Definition is_jwt_shaped (token : string) : bool :=
  Nat.eqb (S (count_byte "." (bytes_of token))) 3.

Definition resolve_identity (st : AuthState) (token : string) : A (option Identity) :=
  let local := if st_local st then on_local (authenticate_token token) else mret None in
  match st_validator st with
  | Some cfg => if is_jwt_shaped token then on_validator cfg token else local
  | None => local
  end.

(** An audit row of the middleware: the request's method and path are in it. *)
Definition request_event (decision : AuditDecision) (subject reason : option string)
    (method path : string) (status : Z) (required : option AuditRequired) (granted : list string)
    (ts : Z) : AuditEvent := {|
  ae_ts := ts; ae_subject := subject; ae_decision := decision; ae_reason := reason;
  ae_action := None; ae_cluster := None; ae_method := Some method; ae_path := Some path;
  ae_status := Some status; ae_latency_ms := None; ae_required := required;
  ae_granted_roles := granted |}.

Definition unauthorized (msg : string) : Response := respond 401 (Text msg).

Definition deny_missing_token (st : AuthState) (method path : string) : A Response :=
  _ ← emit_now st (request_event Deny None (Some "missing_token"%string) method path 401 None []);
  mret (unauthorized "missing bearer token").
Definition deny_invalid_token (st : AuthState) (method path : string) : A Response :=
  _ ← emit_now st (request_event Deny None (Some "invalid_token"%string) method path 401 None []);
  mret (unauthorized "invalid token").
Definition deny_permission (st : AuthState) (i : Identity) (required : PermissionType)
    (target method path : string) : A Response :=
  _ ← emit_now st (request_event Deny (Some (id_subject i)) (Some "insufficient_permission"%string)
        method path 403
        (Some {| ar_action := permission_str required; ar_target := target |})
        (role_str <$> id_roles i));
  mret forbidden.

Definition host_is_cluster (st : AuthState) (req : Request) : bool :=
  is_some_and (rq_header req "host" ≫= header_to_str)
    (fun h => bool_decide (is_Some (by_hostname (st_registry st) h))).

(** [next.run(req)]: the handler, with the identity in the extensions. *)
Definition run_next (next : option Identity -> H Response) (identity : option Identity) : A Response :=
  fun w => let '(r, a) := answer (next identity) (aw_api w) in (Ok r, set_aw_api a w).

Definition auth_disabled (st : AuthState) : bool :=
  bool_decide (st_validator st = None) && negb (st_local st).

(** What the middleware decides before [next]: an answer of its own, or the
    identity the rest of the stack runs with. *)
Definition gate (st : AuthState) (req : Request) : A (Response + option Identity) :=
  if auth_disabled st then mret (inr None)
  else if negb (host_is_cluster st req) && is_public (rq_path req) then mret (inr None)
  else
    match bearer req with
    | None => r ← deny_missing_token st (rq_method req) (rq_path req); mret (inl r)
    | Some token =>
        identity ← resolve_identity st token;
        match identity with
        | None => r ← deny_invalid_token st (rq_method req) (rq_path req); mret (inl r)
        | Some i =>
            let required := required_permission (rq_method req) in
            if host_is_cluster st req && negb (permits i required TJob)
            then r ← deny_permission st i required "job" (rq_method req) (rq_path req); mret (inl r)
            else mret (inr (Some i))
        end
    end.

Definition require_auth (st : AuthState) (req : Request) (next : option Identity -> H Response)
  : A Response :=
  verdict ← gate st req;
  match verdict with inl r => mret r | inr identity => run_next next identity end.

(** The check endpoint answers the caller's subject in a header. *)
Inductive AuthzAnswer := AuthzRefused (r : Response) | AuthzAllowed (subject : string).

Definition authz_check (st : AuthState) (req : Request) : A AuthzAnswer :=
  if auth_disabled st then mret (AuthzRefused (respond 501 (Text "authn not configured")))
  else
    let method := default (rq_method req)
      (v ← rq_header req "x-forwarded-method"; s ← header_to_str v; method_from_bytes s) in
    let path := default (rq_path req) (rq_header req "x-forwarded-uri" ≫= header_to_str) in
    match bearer req with
    | None => r ← deny_missing_token st method path; mret (AuthzRefused r)
    | Some token =>
        identity ← resolve_identity st token;
        match identity with
        | None => r ← deny_invalid_token st method path; mret (AuthzRefused r)
        | Some i =>
            let required := required_permission method in
            let target := target_for_path path in
            if permits i required target then
              _ ← emit_now st (request_event Allow (Some (id_subject i)) None method path 200 None []);
              mret (AuthzAllowed (id_subject i))
            else
              r ← deny_permission st i required (target_str target) method path;
              mret (AuthzRefused r)
        end
    end.
End layer.

(** ** Who gets through *)

Section facts.
Context `{AuditCodec} `{JwtLaws} `{Bcrypt} `{HttpLaws}.

(** Nothing but the last-used stamp of one token. *)
Definition stamped (s s' : InMemoryStore) : Prop :=
  s' = s \/ exists now prefix,
    s' = set_api_tokens (alter (touched_token now) prefix (m_api_tokens s)) s.

(** What makes a bearer somebody: a token signed for this audience by a key of the
    provider, or a live token of an enabled local user. *)
Inductive proves (st : AuthState) (token : string) (w : AuthWorld) (i : Identity) : Prop :=
| by_provider cfg key claims now :
    st_validator st = Some cfg -> is_jwt_shaped token = true ->
    signed_by token key claims -> claims_ok (validation cfg) now claims ->
    i = identity_from_claims cfg claims -> id_subject i <> EmptyString -> proves st token w i
| by_local_token :
    st_local st = true -> authenticates token (local_view w) i -> proves st token w i.

(** A presented header holds ASCII only, so the token parser does not panic on it. *)
Lemma bearer_readable req token :
  bearer req = Some token -> is_ok (token_prefix token) = true.
Proof.
  unfold bearer. intros Hb. apply bind_Some in Hb as (v & _ & Hb).
  apply bind_Some in Hb as (s & Hs & Hb). apply header_to_str_ascii in Hs.
  apply strip_prefix_Some in Hb as ->. rewrite bytes_of_app in Hs.
  apply Forall_app in Hs as [_ Hs]. unfold token_prefix.
  destruct (strip_prefix_bytes (bytes_of "mob_") (bytes_of token)) as [rest|] eqn:Hr; [|done].
  apply strip_prefix_bytes_Some in Hr. rewrite Hr in Hs. apply Forall_app in Hs as [_ Hs].
  destruct (Nat.eqb_spec (length rest) (TOKEN_PREFIX_LEN + 1 + 32)) as [Hl|]; [|done]. cbn [negb].
  assert (is_char_boundary TOKEN_PREFIX_LEN rest = true) as ->.
  { unfold is_char_boundary. destruct (rest !! TOKEN_PREFIX_LEN) as [c|] eqn:Hc.
    - pose proof (Forall_lookup_1 _ _ _ _ Hs Hc) as Hascii. revert Hascii. unfold byte_in.
      destruct (N.leb_spec 128 (N_of_ascii c)); [|done].
      destruct (N.leb_spec (N_of_ascii c) 127); [lia|]. by rewrite andb_false_r.
    - apply lookup_ge_None in Hc. unfold TOKEN_PREFIX_LEN in *. lia. }
  cbn [negb]. destruct (negb _); [done|]. destruct (drop _ _) as [|c hex]; [done|].
  destruct (Ascii.eqb c "_"); [|done]. by destruct (negb _).
Qed.

(** Resolving a bearer: it never panics, it finds only what the bearer proves, and
    it finds everything a local token proves. *)
Lemma resolve_identity_sound st req token w :
  bearer req = Some token ->
  exists o w1, resolve_identity st token w = (Ok o, w1) /\
    (forall i, o = Some i -> proves st token w i) /\
    stamped (api_store (aw_api w)) (api_store (aw_api w1)).
Proof.
  intros Hb. apply bearer_readable in Hb.
  assert (exists o w1, (if st_local st then on_local (authenticate_token token) else mret None) w
    = (Ok o, w1) /\ (forall i, o = Some i -> proves st token w i) /\
    stamped (api_store (aw_api w)) (api_store (aw_api w1))) as Hlocal.
  { destruct (st_local st) eqn:Hl; [|exists None, w; split_and!; try done; by left].
    destruct (authenticate_token_iff token (local_view w) Hb) as (r & l & Ha & Hiff & Hs).
    exists r, (set_local_view l w). unfold on_local. rewrite Ha. split_and!; [done| |exact Hs].
    intros i ->. apply by_local_token; [done|]. by apply Hiff. }
  unfold resolve_identity. destruct (st_validator st) as [cfg|] eqn:Hv; [|exact Hlocal].
  destruct (is_jwt_shaped token) eqn:Hj; [|exact Hlocal].
  unfold on_validator. destruct (Oidc.validate cfg token (aw_idp w)) as [[i|e] w1] eqn:Hval;
    do 2 eexists; (split; [reflexivity|]); (split; [|by left]); [|done].
  intros i' [= <-].
  apply validate_accepts in Hval as (h & kid & key & claims & now & _ & _ & _ & _ & _ & Hsig & Hok & Hi & Hne).
  by eapply by_provider.
Qed.

(** A refusal: 401 or 403, and one deny row naming method, path and status, when
    there is a store. *)
Definition refused (st : AuthState) (method path : string) (w : AuthWorld) (resp : Response)
    (w' : AuthWorld) : Prop :=
  (rs_status resp = 401 \/ rs_status resp = 403) /\
  exists event s1, ae_decision event = Deny /\ ae_method event = Some method /\
    ae_path event = Some path /\ ae_status event = Some (rs_status resp) /\
    stamped (api_store (aw_api w)) s1 /\
    api_store (aw_api w') = if st_store st then snd (record_audit event s1) else s1.

Lemma deny_refuses st method path w v subject reason status required granted body :
  stamped (api_store (aw_api w)) (api_store (aw_api v)) -> status = 401 \/ status = 403 ->
  exists w', ((r ← (_ ← emit_now st (request_event Deny subject reason method path status required granted);
                    mret (respond status body)); mret (inl r))
               : ST AuthWorld Panic (Response + option Identity)) v
             = (Ok (inl (respond status body)), w') /\ refused st method path w (respond status body) w'.
Proof.
  intros Hv Hst. unfold emit_now, on_api, mbind, ST_bind. cbn.
  destruct (st_store st) eqn:E; cbn; eexists; (split; [reflexivity|]); (split; [exact Hst|]);
    exists (request_event Deny subject reason method path status required granted
              (api_clock (aw_api v) (api_reads (aw_api v)))), (api_store (aw_api v));
    split_and!; try done; by rewrite E.
Qed.

(** What the gate lets through, and as whom. *)
Definition passed (st : AuthState) (req : Request) (w w1 : AuthWorld) (identity : option Identity) : Prop :=
  match identity with
  | None =>
      w1 = w /\ (auth_disabled st = true \/ host_is_cluster st req = false /\ is_public (rq_path req) = true)
  | Some i =>
      exists token, bearer req = Some token /\ proves st token w i /\
        (host_is_cluster st req = true -> permits i (required_permission (rq_method req)) TJob = true) /\
        stamped (api_store (aw_api w)) (api_store (aw_api w1))
  end.

Lemma gate_sound st req w :
  exists verdict w1, gate st req w = (Ok verdict, w1) /\
    match verdict with
    | inl resp => refused st (rq_method req) (rq_path req) w resp w1
    | inr identity => passed st req w w1 identity
    end.
Proof.
  unfold gate. destruct (auth_disabled st) eqn:Hoff; [exists (inr None), w; cbn; auto|].
  destruct (negb (host_is_cluster st req) && is_public (rq_path req)) eqn:Hpub.
  { apply andb_true_iff in Hpub as [Hh Hp]. apply negb_true_iff in Hh. exists (inr None), w. cbn. auto 6. }
  destruct (bearer req) as [token|] eqn:Hb.
  - destruct (resolve_identity_sound st req token w Hb) as (o & w1 & Ho & Hp & Hs).
    rewrite ST_bind_eq, Ho. destruct o as [i|].
    + cbv zeta. destruct (host_is_cluster st req && negb _) eqn:Hhost.
      * edestruct deny_refuses as (w' & Hd & Href); [exact Hs|by right|]. eexists _, w'. by split; [exact Hd|].
      * exists (inr (Some i)), w1. split; [done|]. exists token. split_and!; auto.
        intros Hc. rewrite Hc in Hhost. by apply negb_false_iff in Hhost.
    + edestruct deny_refuses as (w' & Hd & Href); [exact Hs|by left|]. eexists _, w'. by split; [exact Hd|].
  - edestruct deny_refuses as (w' & Hd & Href); [left; reflexivity|by left|].
    eexists _, w'. by split; [exact Hd|].
Qed.

Lemma run_next_ok next i v : exists r v', run_next next i v = (Ok r, v').
Proof. unfold run_next. destruct (answer (next i) (aw_api v)) as [r a]. by do 2 eexists. Qed.

(** C10. The gate. A request reaches its handler only when authentication is off, when
    its path is public and its host is no cluster's, or with a bearer that proves
    an identity, which on a cluster host holds the job permission of the method;
    the handler is given exactly that identity. Anything else is answered 401 or
    403 without running the handler, and leaves nothing but one deny row naming
    the method, the path and the status. No bearer makes the gate panic. *)
Theorem require_auth_gate st req next w :
  exists resp w', require_auth st req next w = (Ok resp, w') /\
  ((auth_disabled st = true \/ host_is_cluster st req = false /\ is_public (rq_path req) = true) /\
     run_next next None w = (Ok resp, w')
   \/
   (exists token i w1, bearer req = Some token /\ proves st token w i /\
      (host_is_cluster st req = true -> permits i (required_permission (rq_method req)) TJob = true) /\
      stamped (api_store (aw_api w)) (api_store (aw_api w1)) /\
      run_next next (Some i) w1 = (Ok resp, w'))
   \/ refused st (rq_method req) (rq_path req) w resp w').
Proof.
  unfold require_auth. destruct (gate_sound st req w) as (verdict & w1 & Hg & Hv).
  rewrite ST_bind_eq, Hg. destruct verdict as [resp|[i|]].
  - exists resp, w1. auto.
  - destruct (run_next_ok next (Some i) w1) as (r & w' & Hr). destruct Hv as (token & Hb & Hp & Hperm & Hs).
    exists r, w'. split; [done|]. right; left. exists token, i, w1. auto.
  - destruct Hv as [-> Hv]. destruct (run_next_ok next None w) as (r & w' & Hr). exists r, w'. auto.
Qed.

(** The ext_authz endpoint allows only a bearer whose flat roles hold the verb of
    the forwarded method on the target of the forwarded path. *)
Lemma authz_check_allows st req w subject w' :
  authz_check st req w = (Ok (AuthzAllowed subject), w') ->
  exists token i, bearer req = Some token /\ proves st token w i /\ subject = id_subject i /\
    exists method path, permits i (required_permission method) (target_for_path path) = true.
Proof.
  unfold authz_check. destruct (auth_disabled st); [done|]. cbv zeta.
  destruct (bearer req) as [token|] eqn:Hb.
  - destruct (resolve_identity_sound st req token w Hb) as (o & w1 & Ho & Hp & Hs).
    rewrite ST_bind_eq, Ho. destruct o as [i|].
    + destruct (permits i _ _) eqn:Hperm; intros Hq.
      * apply ST_bind_Ok in Hq as ([] & w2 & _ & [= <- _]). exists token, i. split_and!; eauto.
      * by apply ST_bind_Ok in Hq as (r & w2 & _ & [=]).
    + intros Hq. by apply ST_bind_Ok in Hq as (r & w2 & _ & [=]).
  - intros Hq. by apply ST_bind_Ok in Hq as (r & w2 & _ & [=]).
Qed.

(** The endpoint sees flat roles only: a caller whose developer role is scoped to a
    project is refused a job write that the routes would judge by the project. *)
Lemma authz_check_ignores_scopes st req w i token w1 :
  auth_disabled st = false -> bearer req = Some token ->
  resolve_identity st token w = (Ok (Some i), w1) -> id_roles i = [] ->
  exists r w', authz_check st req w = (Ok (AuthzRefused r), w') /\ rs_status r = 403.
Proof.
  intros Hoff Hb Hr Hroles. unfold authz_check. rewrite Hoff, Hb. cbv zeta. rewrite ST_bind_eq, Hr.
  assert (forall a t, permits i a t = false) as -> by (intros; unfold permits; by rewrite Hroles).
  unfold deny_permission, emit_now, on_api, mbind, ST_bind. cbn. destruct (st_store st); by do 2 eexists.
Qed.
End facts.

(** ** A concrete request *)

#[local] Instance demo_http : Http := {|
  header_to_str := fun v => if forallb (byte_in 32 126) v then Some (str_of v) else None;
  method_from_bytes := Some |}.

#[local] Instance demo_http_laws : HttpLaws.
Proof.
  intros v s. cbn. destruct (forallb _ v) eqn:Hv; [|done]. intros [= <-].
  rewrite bytes_of_str_of. apply forallb_Forall in Hv. eapply Forall_impl; [exact Hv|].
  intros c Hc. cbn in Hc. unfold byte_in in *. apply andb_true_iff in Hc as [_ Hc].
  apply N.leb_le in Hc. apply andb_true_iff. split; apply N.leb_le; lia.
Qed.

#[local] Instance demo_codec : AuditCodec := {|
  sha256_hex := fun s => s; audit_json := fun _ => EmptyString |}.

Definition demo_state : AuthState := {|
  st_validator := Some demo_config; st_local := false; st_registry := [demo_endpoint]; st_store := true |}.
(** A job submission to a cluster host. *)
Definition demo_submission (authorization : string) : Request := {|
  rq_method := "POST"; rq_path := "/api/jobs/";
  rq_header := fun name =>
    if String.eqb name "host" then Some (bytes_of "demo.ray.example.com")
    else if String.eqb name "authorization" then Some (bytes_of authorization) else None |}.
Definition demo_auth_world : AuthWorld := @Build_AuthWorld demo_jwt
  {| api_store := empty_store; api_clock := fun n => 1000 + Z.of_nat n; api_reads := 0 |}
  (snd (@discover demo_jwt demo_config false demo_idp)) (fun _ => demo_draw) 0 0.
Definition demo_next (i : option Identity) : H Response :=
  mret (respond 200 (Text (default EmptyString (id_subject <$> i)))).

Lemma require_auth_gate_witness :
  exists i w1 w', @require_auth demo_codec demo_jwt plain_bcrypt demo_http demo_state
      (demo_submission "Bearer g.o.d") demo_next demo_auth_world
    = (Ok (respond 200 (Text "u-1")), w') /\
    @proves demo_jwt plain_bcrypt demo_state "g.o.d" demo_auth_world i /\
    permits i Write TJob = true /\
    @run_next demo_jwt demo_next (Some i) w1 = (Ok (respond 200 (Text "u-1")), w').
Proof.
  destruct (@require_auth_gate demo_codec demo_jwt demo_jwt_laws plain_bcrypt demo_http demo_http_laws
    demo_state (demo_submission "Bearer g.o.d") demo_next demo_auth_world) as (resp & w' & Hr & Hcase).
  assert (resp = respond 200 (Text "u-1")) as ->.
  { apply (f_equal fst) in Hr. vm_compute in Hr. by injection Hr as <-. }
  destruct Hcase as [[[Hc|[Hc _]] _]|[(token & i & w1 & Hb & Hp & Hperm & _ & Hn)|[[Hc|Hc] _]]];
    try (vm_compute in Hc; discriminate Hc).
  vm_compute in Hb. injection Hb as <-. exists i, w1, w'.
  split; [exact Hr|]. split; [exact Hp|]. split; [by apply Hperm|exact Hn].
Defined.

(** The same request with a bearer of no validator is answered 401 and audited. *)
Example demo_gate_refuses :
  let '(r, w') := @require_auth demo_codec demo_jwt plain_bcrypt demo_http demo_state
      (demo_submission "Bearer nobody") demo_next demo_auth_world in
  (rs_status <$> match r with Ok x => Some x | Err _ => None end) = Some 401 /\
  length (m_audit (api_store (aw_api w'))) = 1%nat.
Proof. vm_compute. by split. Qed.
