(* ===== verification/AdminApi.v ===== *)
(** * Settings, pools and access routes
    (crates/mobula-api/src/settings.rs, pools.rs, access.rs)

    Handlers as in Api.v, with a store configured (without one the assignment
    routes answer 503). *)

From S2P Require Import Kueue Prelude Float64 Core Quantity Policy Store Json Auth Views Api.
#[local] Open Scope Z_scope.

(** Parsing of a stored pool observation; [serde_json]'s. *)
Class ObservationSerde := parse_observation : string -> option PoolObservation.

Section handlers.
Context `{AuditCodec} `{ObservationSerde}.

(** The event of a route that names its action; some routes also set method and
    path. *)
Definition route_event (subject : option string) (decision : AuditDecision)
    (reason : option string) (action : string) (method path : option string) (status : Z) : H unit :=
  ts ← now_unix;
  emit {| ae_ts := ts; ae_subject := subject; ae_decision := decision; ae_reason := reason;
          ae_action := Some action; ae_cluster := None; ae_method := method; ae_path := path;
          ae_status := Some status; ae_latency_ms := None; ae_required := None; ae_granted_roles := [] |}.
Definition admin_event (identity : option Identity) (decision : AuditDecision)
    (reason : option string) (action : string) (method path : option string) (status : Z) : H unit :=
  route_event (subject_of identity) decision reason action method path status.

(** ** Settings *)

Record UpdatePolicy := {
  up_prices : option (option (gmap string f64));
  up_quotas : option (gmap string (gmap string f64));
  up_budgets : option (gmap string StoredBudget);
}.

(** The first bad amount in key order. *)
Definition validate_amounts (m : gmap string f64) (what : AmountKind) : result SettingsError unit :=
  match find (fun kv => negb (f64_is_finite (snd kv)) || f64_ltb (snd kv) f64_zero) (btree_iter m) with
  | Some kv => Err (InvalidAmount what (fst kv))
  | None => Ok tt
  end.

Fixpoint validate_quotas (l : list (string * gmap string f64)) : result SettingsError unit :=
  match l with
  | [] => Ok tt
  | (project, m) :: l' => validate_amounts m (QuotaOf project) ≫= fun _ => validate_quotas l'
  end.
Fixpoint validate_budgets (l : list (string * StoredBudget)) : result SettingsError unit :=
  match l with
  | [] => Ok tt
  | (project, b) :: l' =>
      if Z.eqb (sb_window_secs b) 0 then Err (InvalidWindow project)
      else validate_amounts (sb_limits b) (BudgetOf project) ≫= fun _ => validate_budgets l'
  end.

(** The checks of the incoming sections, in the handler's order. *)
Definition validate_update (body : UpdatePolicy) : result SettingsError unit :=
  (match up_prices body with Some (Some prices) => validate_amounts prices PriceOf | _ => Ok tt end)
  ≫= fun _ => (match up_quotas body with Some q => validate_quotas (btree_iter q) | None => Ok tt end)
  ≫= fun _ => match up_budgets body with Some b => validate_budgets (btree_iter b) | None => Ok tt end.

Definition default_stored_policy : StoredPolicy := {|
  po_prices := None; po_quotas := ∅; po_budgets := ∅; po_from_file_seed := false |}.

(** Present sections replace, absent ones stay. *)
Definition apply_update (body : UpdatePolicy) (p : StoredPolicy) : StoredPolicy := {|
  po_prices := default (po_prices p) (up_prices body);
  po_quotas := default (po_quotas p) (up_quotas body);
  po_budgets := default (po_budgets p) (up_budgets body);
  po_from_file_seed := false |}.

Definition get_policy_route (seed : PolicyConfig) (identity : option Identity) : H Response :=
  _ ← or_deny (authorize identity PAdmin TCluster);
  p ← call (effective_policy seed);
  mret (respond 200 (PolicyBody (match p with
    | Some p => PolicyView_of p (if po_from_file_seed p then "file" else "store")
    | None => PolicyView_of default_stored_policy "none" end))).

Definition update_policy (seed : PolicyConfig) (identity : option Identity) (body : UpdatePolicy)
  : H Response :=
  _ ← or_deny (authorize identity PAdmin TCluster);
  match validate_update body with
  | Err e => mret (respond 400 (InvalidSetting e))
  | Ok _ =>
      p ← call (effective_policy seed);
      let next := apply_update body (default default_stored_policy p) in
      _ ← call (set_policy_row next);
      _ ← admin_event identity Allow None "update_policy" None None 200;
      mret (respond 200 (PolicyBody (PolicyView_of next "store")))
  end.

(** ** Pools *)

Definition no_such_pool : Response := respond 404 (Text "no such pool").

(** The first quantity of the spec that does not parse. *)
Fixpoint resources_parse (flavor : string) (l : list (string * string))
  : result (string * string * QuantityError) unit :=
  match l with
  | [] => Ok tt
  | (k, v) :: l' =>
      map_err (fun e => (flavor, k, e)) (parse_quantity v) ≫= fun _ => resources_parse flavor l'
  end.
Fixpoint validate_quantities (fs : list FlavorSpec) : result (string * string * QuantityError) unit :=
  match fs with
  | [] => Ok tt
  | f :: fs' => resources_parse (f_name f) (f_resources f) ≫= fun _ => validate_quantities fs'
  end.

Definition list_pools_route (identity : option Identity) : H Response :=
  _ ← or_deny (authorize identity Read TPool);
  pools ← call list_pools;
  mret (respond 200 (PoolBodies (pool_from_stored <$> pools))).

Definition create_pool (identity : option Identity) (spec : PoolSpec) : H Response :=
  _ ← or_deny (authorize identity Write TPool);
  match pool_validate spec with
  | Err e => mret (respond 400 (InvalidPool e))
  | Ok _ =>
      match validate_quantities (p_flavors spec) with
      | Err (f, k, e) => mret (respond 400 (InvalidPoolQuantity f k e))
      | Ok _ =>
          let name := p_name spec in
          existing ← call (get_pool name);
          match existing with
          | Some _ => mret (respond 409 (Text ("pool " +:+ name +:+ " already exists")))
          | None =>
              t ← now_unix;
              generation ← call (upsert_pool t name spec);
              _ ← admin_event identity Allow None "create_pool" None None 201;
              mret (respond 201 (Json (JObj [("name"%string, JStr name);
                                             ("generation"%string, JNum generation)])))
          end
      end
  end.

Definition get_pool_route (identity : option Identity) (name : string) : H Response :=
  _ ← or_deny (authorize identity Read TPool);
  p ← call (get_pool name);
  mret (match p with Some p => respond 200 (PoolBody (pool_from_stored p)) | None => no_such_pool end).

(** A store call whose missing-row error, told by its text, answers 404. *)
Definition call_or_404 (needle : string) (missing : Response) (m : M unit) : H unit := fun w =>
  match m (api_store w) with
  | (Ok _, s) => (Ok tt, set_api_store s w)
  | (Err (Backend text), s) =>
      (Err (if str_contains needle text then missing else store_err), set_api_store s w)
  end.

Definition delete_pool_route (identity : option Identity) (name : string) : H Response :=
  _ ← or_deny (authorize identity PDelete TPool);
  _ ← call_or_404 "no such pool" no_such_pool (delete_pool name);
  _ ← admin_event identity Allow None "delete_pool" None None 202;
  mret (respond 202 Empty).

(** The body of a put: the path's pool and project may be repeated in it. *)
Record PutAllocation := {
  pa_pool : option string;
  pa_project : option string;
  pa_namespace : string;
  pa_nominal : list (string * string);
  pa_borrowing_limit : list (string * string);
  pa_lending_limit : list (string * string);
}.

(** Distinct projects of the pool once this one is in. *)
Definition tenants_with (project : string) (existing : list AllocationSpec) : Z :=
  Z.of_nat (size ({[project]} ∪ list_to_set (a_project <$> existing) : gset string)).

Definition put_allocation (seed : PolicyConfig) (identity : option Identity) (name project : string)
    (body : PutAllocation) : H Response :=
  _ ← or_deny (authorize identity Write TPool);
  if is_some_and (pa_pool body) (fun p => negb (String.eqb p name))
     || is_some_and (pa_project body) (fun p => negb (String.eqb p project))
  then mret (respond 400 (Text "body pool/project must match the path (or be omitted)"))
  else
    pool ← call (get_pool name);
    match pool with
    | None => mret no_such_pool
    | Some pool =>
        let alloc := {| a_pool := name; a_project := project; a_namespace := pa_namespace body;
                        a_nominal := pa_nominal body; a_borrowing_limit := pa_borrowing_limit body;
                        a_lending_limit := pa_lending_limit body |} in
        match allocation_validate alloc with
        | Err e => mret (respond 400 (InvalidAllocation e))
        | Ok _ =>
            existing ← call (list_allocations name);
            match check_pool_gpu_isolation (sp_spec pool) (pc_gpu_default_sharing seed)
                    (tenants_with project existing) with
            | Err v =>
                _ ← admin_event identity Deny (Some "gpu_tenant_isolation"%string) "put_allocation"
                      None None 400;
                mret (respond 400 (GpuViolation v))
            | Ok _ =>
                _ ← call (upsert_allocation alloc);
                _ ← admin_event identity Allow None "put_allocation" None None 200;
                mret (respond 200 (Json (JObj [("pool"%string, JStr name);
                                               ("project"%string, JStr project)])))
            end
        end
    end.

Definition list_allocations_route (identity : option Identity) (name : string) : H Response :=
  _ ← or_deny (authorize identity Read TPool);
  allocs ← call (list_allocations name);
  mret (respond 200 (AllocationBodies allocs)).

Definition delete_allocation_route (identity : option Identity) (name project : string) : H Response :=
  _ ← or_deny (authorize identity PDelete TPool);
  _ ← call_or_404 "no such allocation" (respond 404 (Text "no such allocation"))
        (delete_allocation name project);
  _ ← admin_event identity Allow None "delete_allocation" None None 202;
  mret (respond 202 Empty).

Definition pool_usage (identity : option Identity) (name : string) : H Response :=
  _ ← or_deny (authorize identity Read TPool);
  p ← call (get_pool name);
  mret (match p with
        | Some p => respond 200 (PoolUsageBody
                      (pool_usage_view p name (sp_observed_json p ≫= parse_observation)))
        | None => no_such_pool
        end).

(** ** Access *)

Definition identity_route (identity : option Identity) : H Response :=
  mret (respond 200 (IdentityBody (match identity with
    | Some i => identity_response i
    | None => {| ir_subject := "dev"; ir_email := None; ir_groups := []; ir_roles := ["admin"%string] |}
    end))).

Definition list_roles (cfg : option AuthConfig) (identity : option Identity) : H Response :=
  _ ← or_deny (authorize identity PAdmin TCluster);
  mret (respond 200 (RolesBody (match cfg with
    | Some cfg => {| rr_mappings := Some (ac_roles cfg); rr_source := "file"; rr_editable := false |}
    | None => {| rr_mappings := None; rr_source := "local"; rr_editable := false |}
    end))).

Definition list_assignments (identity : option Identity) : H Response :=
  _ ← or_deny (authorize identity PAdmin TCluster);
  rows ← call (list_role_assignments None);
  mret (respond 200 (AssignmentBodies rows)).

Definition assignment_path (principal : string) : string :=
  "/api/v1/access/assignments/" +:+ principal.

Definition upsert_assignment (identity : option Identity) (principal role scope : string) : H Response :=
  _ ← or_deny (authorize identity PAdmin TCluster);
  if is_empty principal then mret (respond 400 (Text "principal must not be empty"))
  else if negb (bool_decide (is_Some (role_parse role)))
  then mret (respond 400 (BadValue "unknown role" role))
  else if negb (valid_scope scope) then mret (respond 400 (BadValue "invalid scope" scope))
  else
    t ← now_unix;
    _ ← call (upsert_role_assignment t principal role scope);
    _ ← admin_event identity Allow None "upsert_assignment" (Some "PUT"%string)
          (Some (assignment_path principal)) 200;
    rows ← call (list_role_assignments (Some principal));
    mret (match find (fun a => String.eqb (ra_role a) role && String.eqb (ra_scope a) scope) rows with
          | Some a => respond 200 (AssignmentBody a)
          | None => store_err
          end).

Definition delete_assignment (identity : option Identity) (principal role scope : string) : H Response :=
  _ ← or_deny (authorize identity PAdmin TCluster);
  _ ← call_or_404 "no such assignment" (respond 404 (Text "no such assignment"))
        (delete_role_assignment principal role scope);
  _ ← admin_event identity Allow None "delete_assignment" (Some "DELETE"%string)
        (Some (assignment_path principal)) 204;
  mret (respond 204 Empty).
End handlers.
