(* ===== verification/AccountApi.v ===== *)
(** * Local login, tokens and users (crates/mobula-api/src/local_auth.rs)

    The handlers run on the local authenticator's world: its store and clock are
    the API's, its random draws and bcrypt evaluations its own. *)

From S2P Require Import Prelude Float64 Core Policy Store Json Auth LocalAuth Views Api AdminApi.
#[local] Open Scope Z_scope.

Section handlers.
Context `{AuditCodec} `{Bcrypt} (login_ttl_secs token_max_days : Z).

(** A handler; an early answer is the error of the monad. *)
Abbreviation R := (ST LocalWorld Response).

Definition api_view (w : LocalWorld) : ApiWorld := {|
  api_store := lw_store w; api_clock := lw_clock w; api_reads := lw_reads w |}.
Definition set_api_view (a : ApiWorld) (w : LocalWorld) : LocalWorld := {|
  lw_store := api_store a; lw_clock := lw_clock w; lw_reads := api_reads a; lw_rng := lw_rng w;
  lw_draws := lw_draws w; lw_bcrypts := lw_bcrypts w |}.
Definition in_api {A} (m : H A) : R A := fun w =>
  let '(r, a) := m (api_view w) in (r, set_api_view a w).
(** [match st.auth.f(..).await]. *)
Definition attempt {A} (m : ST LocalWorld LocalAuthError A) : R (result LocalAuthError A) := fun w =>
  let '(r, w') := m w in (Ok r, w').

Definition event (subject : option string) (decision : AuditDecision) (reason : option string)
    (action method path : string) (status : Z) : R unit :=
  in_api (route_event subject decision reason action (Some method) (Some path) status).

Definition invalid_credentials : Response :=
  respond 401 (Json (JObj [("error"%string, JStr "invalid_credentials")])).

Definition audit_login (username : string) (decision : AuditDecision) (reason : option string)
    (status : Z) : R unit :=
  event (Some username) decision reason "login" "POST" "/api/v1/auth/login" status.

Definition failure_reason (e : LocalAuthError) : string :=
  match e with
  | InvalidCredentials | UnknownUser => "invalid_credentials"
  | Locked => "locked"
  | Disabled => "disabled"
  | LBackend _ | TtlTooLong => "backend_error"
  end.

Definition login_response (o : LoginOutcome) : LoginResponse := {|
  lr_token := mt_token (lo_token o); lr_token_type := "bearer"; lr_expires_at := lo_expires_at o;
  lr_subject := id_subject (lo_identity o); lr_roles := role_str <$> id_roles (lo_identity o) |}.

Definition login_route (username password : string) : R Response :=
  r ← attempt (login login_ttl_secs username password);
  match r with
  | Ok outcome =>
      _ ← audit_login username Allow None 200;
      mret (respond 200 (LoginBody (login_response outcome)))
  | Err e =>
      _ ← audit_login username Deny (Some (failure_reason e)) 401;
      mret invalid_credentials
  end.

Definition authentication_required : Response := respond 401 (Text "authentication required").

Definition create_token (identity : option Identity) (label : string) (expires_in_days : Z) : R Response :=
  match identity with
  | None => mret authentication_required
  | Some i =>
      r ← attempt (issue_token token_max_days (id_subject i) label expires_in_days);
      match r with
      | Ok (minted, record) =>
          _ ← event (Some (id_subject i)) Allow None "issue_token" "POST" "/api/v1/auth/tokens" 201;
          mret (respond 201 (NewTokenBody {| cr_prefix := mt_prefix minted; cr_token := mt_token minted;
                                             cr_expires_at := at_expires_at record |}))
      | Err TtlTooLong =>
          mret (respond 400 (Text "expires_in_days must be between 1 and the server maximum (90)"))
      | Err _ => mret store_err
      end
  end.

Definition list_tokens (identity : option Identity) : R Response :=
  match identity with
  | None => mret authentication_required
  | Some i =>
      tokens ← in_api (call (list_api_tokens (id_subject i)));
      mret (respond 200 (TokenBodies (token_view <$> tokens)))
  end.

(** Whether a store call succeeded; its error is not told apart. *)
Definition succeeds (m : M unit) : R bool := fun w =>
  let '(r, s) := m (lw_store w) in (Ok (is_ok r), set_lw_store s w).

Definition revoke_token (identity : option Identity) (prefix : string) : R Response :=
  match identity with
  | None => mret authentication_required
  | Some i =>
      ok ← succeeds (revoke_api_token prefix (id_subject i));
      if (ok : bool) then
        _ ← event (Some (id_subject i)) Allow None "revoke_token" "DELETE"
              ("/api/v1/auth/tokens/" +:+ prefix) 204;
        mret (respond 204 Empty)
      else mret (respond 404 (Text "no such token"))
  end.

(** [token] is the bearer of the request. A header value is ASCII, on which
    [token_prefix] does not panic (AuthLayer.bearer_readable). *)
Definition presented_prefix (token : option string) : option string :=
  t ← token; match token_prefix t with Ok p => p | Err _ => None end.

Definition logout (identity : option Identity) (token : option string) : R Response :=
  match identity with
  | None => mret authentication_required
  | Some i =>
      _ ← match presented_prefix token with
          | Some prefix => succeeds (revoke_api_token prefix (id_subject i))
          | None => mret true
          end;
      _ ← event (Some (id_subject i)) Allow None "logout" "POST" "/api/v1/auth/logout" 204;
      mret (respond 204 Empty)
  end.

(** ** Users *)

Definition require_admin (identity : option Identity) : R unit :=
  in_api (or_deny (authorize identity PAdmin TCluster)).

(** [str::len] counts bytes. *)
Definition password_ok (password : string) : bool := Nat.leb 8 (String.length password).
Definition short_password : Response := respond 400 (Text "password must be at least 8 characters").
Definition hash_error : Response := respond 500 (Text "hash error").

Definition hash_or_500 (password : string) : R string := fun w =>
  let '(r, w') := hash_password password w in (map_err (fun _ => hash_error) r, w').

Definition list_users (identity : option Identity) : R Response :=
  _ ← require_admin identity;
  users ← in_api (call list_local_users);
  mret (respond 200 (UserBodies (user_view <$> users))).

Definition create_user (identity : option Identity) (username : string) (email : option string)
    (password : string) (role : LocalRole) : R Response :=
  _ ← require_admin identity;
  if negb (is_k8s_name username)
  then mret (respond 400 (Text "username must be a valid Kubernetes name (RFC 1123 subdomain)"))
  else if negb (password_ok password) then mret short_password
  else
    existing ← in_api (call (get_local_user username));
    match existing with
    | Some _ => mret (respond 409 (Text "username already taken"))
    | None =>
        hash ← hash_or_500 password;
        t ← in_api Api.now_unix;
        _ ← in_api (call (create_local_user t username email hash role));
        _ ← event (subject_of identity) Allow None "create_user" "POST" "/api/v1/auth/users" 201;
        created ← in_api Api.now_unix;
        mret (respond 201 (UserBody {| lv_username := username; lv_email := email; lv_role := role;
                                       lv_disabled := false; lv_created_at := created |}))
    end.

Definition when_some {A} (o : option A) (f : A -> R unit) : R unit :=
  match o with Some a => f a | None => mret tt end.

(** Role, disabled flag and password one after the other: an error half way keeps
    the earlier changes. *)
Definition update_user (identity : option Identity) (username : string) (role : option LocalRole)
    (disabled : option bool) (password : option string) : R Response :=
  _ ← require_admin identity;
  if is_some_and password (fun p => negb (password_ok p)) then mret short_password
  else
    user ← in_api (call (get_local_user username));
    match user with
    | None => mret (respond 404 (Text "no such user"))
    | Some user =>
        _ ← when_some role (fun r => in_api (call (set_local_user_role username r)));
        _ ← when_some disabled (fun d => in_api (call (set_local_user_disabled username d)));
        _ ← when_some password (fun p =>
              hash ← hash_or_500 p;
              in_api (call (set_local_user_password username hash)));
        _ ← event (subject_of identity) Allow None "update_user" "PUT"
              ("/api/v1/auth/users/" +:+ username) 200;
        mret (respond 200 (UserBody {| lv_username := lu_username user; lv_email := lu_email user;
          lv_role := default (lu_role user) role; lv_disabled := default (lu_disabled user) disabled;
          lv_created_at := lu_created_at user |}))
    end.
End handlers.

(** The answer of a handler, early or not, and the world after it. *)
Definition account_answer (h : ST LocalWorld Response Response) (w : LocalWorld) : Response * LocalWorld :=
  match h w with (Ok r, w') => (r, w') | (Err r, w') => (r, w') end.
