(* ===== verification/AuditApi.v ===== *)
(** * Audit routes and the CSV export (crates/mobula-api/src/audit.rs) *)

From S2P Require Import Prelude Float64 Core Policy Store Json Auth Views Api AdminApi.
#[local] Open Scope Z_scope.

(** ** RFC 4180 *)

Definition comma : ascii := ","%char.
Definition quote : ascii := ascii_of_nat 34.
Definition lf : ascii := ascii_of_nat 10.
Definition cr : ascii := ascii_of_nat 13.

Definition needs_quotes (c : ascii) : bool :=
  Ascii.eqb c comma || Ascii.eqb c quote || Ascii.eqb c lf || Ascii.eqb c cr.

Definition double_quotes (l : list ascii) : list ascii :=
  l ≫= fun c => if Ascii.eqb c quote then [quote; c] else [c].

Definition csv_field (value : list ascii) : list ascii :=
  if existsb needs_quotes value then quote :: double_quotes value ++ [quote] else value.

(** The cells of a row, separated by commas and ended by a newline. *)
Fixpoint csv_cells (cells : list (list ascii)) : list ascii :=
  match cells with
  | [] => []
  | [c] => csv_field c
  | c :: cells' => csv_field c ++ comma :: csv_cells cells'
  end.
Definition csv_line (cells : list (list ascii)) : list ascii := csv_cells cells ++ [lf].

Definition csv_header : string :=
  "seq,ts,subject,decision,reason,action,cluster,method,path,status,latency_ms,required_action,required_target,granted_roles".

(** [roles.join(";")]. *)
Definition join_roles (roles : list string) : string := String.concat ";" roles.

Definition csv_row (row : Z * AuditEvent) : list string :=
  let '(seq, e) := row in
  [u64_str seq; u64_str (ae_ts e); default EmptyString (ae_subject e);
   audit_decision_str (ae_decision e); default EmptyString (ae_reason e);
   default EmptyString (ae_action e); default EmptyString (ae_cluster e);
   default EmptyString (ae_method e); default EmptyString (ae_path e);
   default EmptyString (u64_str <$> ae_status e); default EmptyString (u64_str <$> ae_latency_ms e);
   default EmptyString (ar_action <$> ae_required e); default EmptyString (ar_target <$> ae_required e);
   join_roles (ae_granted_roles e)].

Definition render_csv (rows : list (Z * AuditEvent)) : string :=
  str_of (bytes_of csv_header ++ lf :: (rows ≫= fun r => csv_line (bytes_of <$> csv_row r))).

(** ** Handlers *)

Record AuditQuery := {
  aq_filter : AuditFilter;
  aq_format : option string;
}.

(** [path] and [query] of the request's URI. *)
Definition audited_uri (path : string) (query : option string) : string :=
  match query with
  | Some q => if is_empty q then path else path +:+ "?" +:+ q
  | None => path
  end.

Definition VERIFY_DEFAULT_LIMIT : Z := 100000.
Definition VERIFY_MAX_LIMIT : Z := 1000000.

Section handlers.
Context `{AuditCodec}.

Definition emit_audit_read (identity : option Identity) (path : string) (query : option string) : H unit :=
  ts ← now_unix;
  emit {| ae_ts := ts; ae_subject := subject_of identity; ae_decision := Allow; ae_reason := None;
          ae_action := Some "audit_read"%string; ae_cluster := None; ae_method := None;
          ae_path := Some (audited_uri path query); ae_status := Some 200; ae_latency_ms := None;
          ae_required := None; ae_granted_roles := [] |}.

Definition list_audit_events (identity : option Identity) (path : string) (query : option string)
    (q : AuditQuery) : H Response :=
  _ ← or_deny (authorize identity Read TAudit);
  let f := aq_filter q in
  if is_some_and (af_from f) (fun from => is_some_and (af_to f) (fun to => Z.ltb to from))
  then mret (respond 400 (Text "from must not be after to"))
  else if is_some_and (aq_format q) (fun fmt => negb (String.eqb fmt "csv"))
  then mret (respond 400 (BadValue "unknown format" (default EmptyString (aq_format q))))
  else
    page ← call (list_audit f);
    _ ← emit_audit_read identity path query;
    mret (respond 200 (match aq_format q with
      | Some _ => Csv (render_csv (fst page))
      | None => AuditPage {| al_items := snd <$> fst page; al_next_cursor := snd page |}
      end)).

Definition verify_audit_trail (identity : option Identity) (path : string) (query : option string)
    (from_seq limit : option Z) : H Response :=
  _ ← or_deny (authorize identity Read TAudit);
  window ← call (audit_chain from_seq
    (Z.min (Z.max (default VERIFY_DEFAULT_LIMIT limit) 1) VERIFY_MAX_LIMIT));
  let v := verify_audit_chain (aw_head window) (aw_rows window) in
  _ ← emit_audit_read identity path query;
  mret (respond 200 (AuditVerdict {| vr_ok := chain_ok v; vr_events_checked := av_events_checked v;
                                     vr_first_broken_seq := av_first_broken_seq v |})).
End handlers.

(** ** Reading the export back *)

(** A reader of the format: where it is in a field. *)
Inductive CsvMode := FieldStart | Bare | Quoted | QuoteSeen.

(** [field] is the field so far and [row] the fields of the line before it. *)
Fixpoint csv_read (mode : CsvMode) (field : list ascii) (row : list (list ascii)) (l : list ascii)
  : option (list (list (list ascii))) :=
  match l with
  | [] => match mode, row with FieldStart, [] => Some [] | _, _ => None end
  | c :: l' =>
      let next_field := csv_read FieldStart [] (row ++ [field]) l' in
      let next_line := rows ← csv_read FieldStart [] [] l'; Some ((row ++ [field]) :: rows) in
      let take mode := csv_read mode (field ++ [c]) row l' in
      match mode with
      | FieldStart =>
          if Ascii.eqb c quote then csv_read Quoted field row l'
          else if Ascii.eqb c comma then next_field
          else if Ascii.eqb c lf then next_line else take Bare
      | Bare =>
          if Ascii.eqb c comma then next_field else if Ascii.eqb c lf then next_line else take Bare
      | Quoted => if Ascii.eqb c quote then csv_read QuoteSeen field row l' else take Quoted
      | QuoteSeen =>
          if Ascii.eqb c quote then take Quoted
          else if Ascii.eqb c comma then next_field else if Ascii.eqb c lf then next_line else None
      end
  end.
Definition parse_csv (s : string) : option (list (list (list ascii))) :=
  csv_read FieldStart [] [] (bytes_of s).

(** Where a field ends: the separator decides between the next field and the next
    line. *)
Definition after_field (sep : ascii) (field : list ascii) (row : list (list ascii)) (rest : list ascii)
  : option (list (list (list ascii))) :=
  if Ascii.eqb sep comma then csv_read FieldStart [] (row ++ [field]) rest
  else rows ← csv_read FieldStart [] [] rest; Some ((row ++ [field]) :: rows).
Definition is_separator (sep : ascii) : Prop := sep = comma \/ sep = lf.

Lemma separator_read mode field row sep rest :
  is_separator sep -> mode <> Quoted ->
  csv_read mode field row (sep :: rest) = after_field sep field row rest.
Proof. intros [-> | ->] Hm; by destruct mode. Qed.

Lemma bare_read v field row sep rest mode :
  existsb needs_quotes v = false -> is_separator sep -> mode = FieldStart \/ mode = Bare ->
  csv_read mode field row (v ++ sep :: rest) = after_field sep (field ++ v) row rest.
Proof.
  revert field mode. induction v as [|c v IH]; intros field mode Hq Hs Hm.
  - rewrite app_nil_r. apply separator_read; [done|]. by destruct Hm as [-> | ->].
  - cbn [existsb] in Hq. apply orb_false_iff in Hq as [Hc Hq]. unfold needs_quotes in Hc.
    rewrite !orb_false_iff in Hc. destruct Hc as (((Hcomma & Hquote) & Hlf) & _).
    cbn [app csv_read]. rewrite Hcomma, Hquote, Hlf.
    rewrite (IH (field ++ [c]) Bare) by auto. rewrite <- app_assoc. by destruct Hm as [-> | ->].
Qed.

Lemma quoted_read v field row sep rest :
  is_separator sep ->
  csv_read Quoted field row (double_quotes v ++ quote :: sep :: rest)
  = after_field sep (field ++ v) row rest.
Proof.
  intros Hs. revert field. induction v as [|c v IH]; intros field.
  - rewrite app_nil_r.
    change (csv_read QuoteSeen field row (sep :: rest) = after_field sep field row rest).
    by apply separator_read.
  - change (double_quotes (c :: v)) with
      ((if Ascii.eqb c quote then [quote; c] else [c]) ++ double_quotes v).
    specialize (IH (field ++ [c])). rewrite <- app_assoc in IH. cbn [app] in IH. rewrite <- IH.
    destruct (Ascii.eqb_spec c quote) as [->|Hne]; [done|]. apply Ascii.eqb_neq in Hne.
    cbn [app csv_read]. by rewrite Hne.
Qed.

Lemma field_read v row sep rest :
  is_separator sep ->
  csv_read FieldStart [] row (csv_field v ++ sep :: rest) = after_field sep v row rest.
Proof.
  intros Hs. unfold csv_field. destruct (existsb needs_quotes v) eqn:Hq.
  - cbn [app csv_read]. rewrite Ascii.eqb_refl, <- app_assoc. cbn [app].
    exact (quoted_read v [] row sep rest Hs).
  - exact (bare_read v [] row sep rest FieldStart Hq Hs (or_introl eq_refl)).
Qed.

Lemma line_read cells row rest :
  cells <> [] ->
  csv_read FieldStart [] row (csv_line cells ++ rest)
  = (rows ← csv_read FieldStart [] [] rest; Some ((row ++ cells) :: rows)).
Proof.
  unfold csv_line. revert row. induction cells as [|c cells IH]; intros row Hne; [done|].
  destruct cells as [|c' cells].
  - cbn [csv_cells]. rewrite <- app_assoc. cbn [app].
    rewrite field_read by (by right). done.
  - change (csv_cells (c :: c' :: cells)) with (csv_field c ++ comma :: csv_cells (c' :: cells)).
    rewrite <- !app_assoc. cbn [app]. rewrite field_read by (by left). unfold after_field.
    rewrite Ascii.eqb_refl. specialize (IH (row ++ [c]) ltac:(done)).
    rewrite <- !app_assoc in IH. exact IH.
Qed.

Lemma lines_read ls :
  Forall (fun cells => cells <> []) ls -> csv_read FieldStart [] [] (ls ≫= csv_line) = Some ls.
Proof.
  induction 1 as [|cells ls Hc _ IH]; [done|].
  change ((cells :: ls) ≫= csv_line) with (csv_line cells ++ (ls ≫= csv_line)).
  rewrite line_read by done. by rewrite IH.
Qed.

Definition csv_columns : list (list ascii) := bytes_of <$>
  ["seq"; "ts"; "subject"; "decision"; "reason"; "action"; "cluster"; "method"; "path"; "status";
   "latency_ms"; "required_action"; "required_target"; "granted_roles"]%string.

(** C36. The CSV export reads back: whatever commas, quotes and line breaks the events
    carry, a reader of the format recovers the header and, row by row, exactly the
    fourteen cells of every event, so no event can forge a row or a column. *)
Theorem csv_reads_back rows :
  parse_csv (render_csv rows) = Some (csv_columns :: ((fun r => bytes_of <$> csv_row r) <$> rows)).
Proof.
  unfold parse_csv, render_csv. rewrite bytes_of_str_of.
  set (lines := csv_columns :: ((fun r => bytes_of <$> csv_row r) <$> rows)).
  assert (bytes_of csv_header ++ lf :: (rows ≫= fun r => csv_line (bytes_of <$> csv_row r))
          = lines ≫= csv_line) as ->.
  { subst lines. change (csv_columns :: ?l) with ([csv_columns] ++ l).
    rewrite bind_app. cbn [mbind list_bind]. rewrite app_nil_r.
    assert (csv_line csv_columns = bytes_of csv_header ++ [lf]) as -> by reflexivity.
    rewrite <- app_assoc. cbn [app]. do 2 f_equal.
    induction rows as [|r rows IH]; [done|]. cbn. by f_equal. }
  apply lines_read. subst lines. constructor; [done|]. apply Forall_fmap, Forall_true.
  intros [seq e]. done.
Qed.
