(* ===== verification/Metering.v ===== *)
(** * Usage metering (crates/mobula-controller/src/metering.rs)

    The loop that appends usage samples: from the Kueue ledger where Kueue is
    served, else from the desired specs of the running clusters. Then what the
    consumption computed from those samples misses. *)

From Stdlib Require Import QArith Qcanon.
From S2P Require Import Prelude Float64 Core Quantity Policy Usage Store StoreFacts StoreQueries Json Provision.
From S2P Require Import Kueue Reconcile Auth Api.
#[local] Open Scope Z_scope.

Record MeterWorld (P : Type) := { mw_store : InMemoryStore; mw_pools : option P }.
Arguments mw_store {P} _.
Arguments mw_pools {P} _.
Arguments Build_MeterWorld {P} _ _.

(** A quantity that does not parse is skipped. *)
Definition parse_or_skip (qty : string) : option f64 :=
  match parse_quantity qty with Ok v => Some v | Err _ => None end.

(** [entry(a.project).or_insert(pool.name)]. *)
Definition or_insert (map : gmap string string) (project pool : string) : gmap string string :=
  match map !! project with Some _ => map | None => <[project := pool]> map end.

Fixpoint project_pools_loop (pools : list StoredPool) (map : gmap string string) : M (gmap string string) :=
  match pools with
  | [] => mret map
  | pool :: pools' =>
      allocs ← list_allocations (sp_name pool);
      project_pools_loop pools' (foldl (fun m a => or_insert m (a_project a) (sp_name pool)) map allocs)
  end.

Definition project_pools : M (gmap string string) :=
  list_pools ≫= fun pools => project_pools_loop pools ∅.

Definition spec_samples (now : Z) (project_pools : gmap string string) (c : StoredCluster) : list UsageSample :=
  if negb (bool_decide (c_desired c = DRunning)) then []
  else
    match cluster_demand (c_spec c) with
    | Err _ => []
    | Ok (mn, _) =>
        let project := cs_project (c_spec c) in
        let pool := default EmptyString (project_pools !! project) in
        (fun rq => {| us_ts := now; us_project := project; us_pool := pool; us_resource := fst rq;
                      us_quantity := snd rq; us_source := ObservedSpec |}) <$> btree_iter mn
    end.

Definition collect_observed_spec (now : Z) : M (list UsageSample) :=
  clusters ← list_clusters;
  pools ← project_pools;
  mret (clusters ≫= spec_samples now pools).

Section kueue.
Context {P : Type} `{PoolProvisioner P}.

Definition ledger_samples (now : Z) (pool project : string) (resources : gmap string string) : list UsageSample :=
  omap (fun rq => (fun quantity => {| us_ts := now; us_project := project; us_pool := pool;
    us_resource := fst rq; us_quantity := quantity; us_source := KueueLedger |})
    <$> parse_or_skip (snd rq)) (btree_iter resources).

Definition pool_samples (now : Z) (pool : string) (obs : PoolObservation) : list UsageSample :=
  (btree_iter (po_flavors_usage obs) ≫= fun fr => ledger_samples now pool EmptyString (snd fr)) ++
  (btree_iter (po_queues_usage obs) ≫= fun qr => ledger_samples now pool (fst qr) (snd qr)).

(** A pool that cannot be observed, or has no queue yet, is skipped. *)
Fixpoint collect_kueue_loop (now : Z) (pools : list StoredPool) (p : P) : list UsageSample * P :=
  match pools with
  | [] => ([], p)
  | pool :: pools' =>
      let '(r, p1) := pp_observe_pool (sp_name pool) p in
      let here := match r with Ok (Some obs) => pool_samples now (sp_name pool) obs | _ => [] end in
      let '(rest, p2) := collect_kueue_loop now pools' p1 in
      (here ++ rest, p2)
  end.

Definition stored_pools (s : InMemoryStore) : list StoredPool :=
  match list_pools s with (Ok pools, _) => pools | (Err _, _) => [] end.

Definition collect (now : Z) (w : MeterWorld P) : list UsageSample * MeterWorld P :=
  let observed w := match collect_observed_spec now (mw_store w) with
                    | (Ok l, s) => (l, {| mw_store := s; mw_pools := mw_pools w |})
                    | (Err _, s) => ([], {| mw_store := s; mw_pools := mw_pools w |})
                    end in
  match mw_pools w with
  | None => observed w
  | Some p =>
      let '(present, p1) := pp_kueue_present p in
      if present : bool then
        let '(l, p2) := collect_kueue_loop now (stored_pools (mw_store w)) p1 in
        (l, {| mw_store := mw_store w; mw_pools := Some p2 |})
      else observed {| mw_store := mw_store w; mw_pools := Some p1 |}
  end.

(** How many samples were recorded. *)
Definition tick (now : Z) (w : MeterWorld P) : nat * MeterWorld P :=
  let '(samples, w1) := collect now w in
  match samples with
  | [] => (0%nat, w1)
  | _ =>
      match record_usage_samples samples (mw_store w1) with
      | (Ok _, s) => (length samples, {| mw_store := s; mw_pools := mw_pools w1 |})
      | (Err _, s) => (0%nat, {| mw_store := s; mw_pools := mw_pools w1 |})
      end
  end.
End kueue.

(** ** What is sampled *)

Lemma project_pools_loop_reads pools m s : exists m', project_pools_loop pools m s = (Ok m', s).
Proof.
  revert m. induction pools as [|p pools IH]; intros m; [by eexists|].
  cbn [project_pools_loop]. rewrite ST_bind_eq. cbn. apply IH.
Qed.

Lemma or_insert_lookup map project pool q :
  or_insert map project pool !! q =
  match map !! q with
  | Some x => Some x
  | None => if decide (q = project) then Some pool else None
  end.
Proof.
  unfold or_insert. destruct (map !! project) as [y|] eqn:E.
  - destruct (map !! q) eqn:Eq; [done|]. case_decide; [congruence|done].
  - destruct (decide (q = project)) as [->|Hne].
    + rewrite lookup_insert_eq, E. done.
    + rewrite lookup_insert_ne by done. by destruct (map !! q).
Qed.

(** Without Kueue a tick samples exactly this: for every cluster desired Running
    whose demand can be computed, one sample per resource of its smallest size, at
    the tick's time, under the cluster's project and the pool of that project. *)
Theorem observed_spec_samples now s :
  exists l pools, collect_observed_spec now s = (Ok l, s) /\
  fst (project_pools s) = Ok pools /\
  forall x, x ∈ l <-> exists id c mn mx,
    m_clusters s !! id = Some c /\ c_desired c = DRunning /\
    cluster_demand (c_spec c) = Ok (mn, mx) /\
    mn !! us_resource x = Some (us_quantity x) /\
    us_ts x = now /\ us_project x = cs_project (c_spec c) /\
    us_pool x = default EmptyString (pools !! cs_project (c_spec c)) /\ us_source x = ObservedSpec.
Proof.
  unfold collect_observed_spec. rewrite ST_bind_eq. cbn [list_clusters st_get].
  rewrite ST_bind_eq. unfold project_pools at 1 2. rewrite !ST_bind_eq. cbn [list_pools st_get].
  destruct (project_pools_loop_reads (map_values (m_pools s)) ∅ s) as [pools ->].
  exists (map_values (m_clusters s) ≫= spec_samples now pools), pools. split_and!; [done..|].
  intros x. rewrite list_elem_of_bind. unfold spec_samples. split.
  - intros (c & Hx & [id Hc]%elem_of_map_values). exists id, c.
    destruct (bool_decide_reflect (c_desired c = DRunning)); [|by apply not_elem_of_nil in Hx].
    destruct (cluster_demand (c_spec c)) as [[mn mx]|]; [|by apply not_elem_of_nil in Hx].
    exists mn, mx. cbn [negb] in Hx. apply list_elem_of_fmap in Hx as ([r q] & -> & Hrq).
    unfold btree_iter in Hrq. rewrite elem_of_sort_stable in Hrq. apply elem_of_map_to_list in Hrq. done.
  - intros (id & c & mn & mx & Hc & Hd & Hdem & Hq & Hts & Hp & Hpool & Hsrc). exists c.
    split; [|apply elem_of_map_values; by exists id].
    rewrite bool_decide_true by done. cbn [negb]. rewrite Hdem. apply list_elem_of_fmap.
    exists (us_resource x, us_quantity x). split.
    + destruct x; cbn in *. congruence.
    + unfold btree_iter. rewrite elem_of_sort_stable. by apply elem_of_map_to_list.
Qed.

(** ** What the consumption misses *)

#[local] Open Scope Qc_scope.

(** Two readings of the same series at the same second do not add up: the first
    holds for no time, so only the last counts. *)
Lemma simultaneous_readings_do_not_add from to pre t (a b : Qc) post level cursor seconds :
  rh_loop from to (pre ++ (t, a) :: (t, b) :: post) level cursor seconds =
  rh_loop from to (pre ++ (t, b) :: post) level cursor seconds.
Proof.
  revert level cursor seconds. induction pre as [|[t0 q0] pre IH]; intros level cursor seconds.
  - cbn [app rh_loop]. destruct (Z.leb t from) eqn:E; [done|].
    destruct (Z.leb to t); [done|]. f_equal.
    cbn [n_add n_mul n_of_Z Qc_numeric]. rewrite Z.sub_diag. change (Q2Qc (inject_Z 0)) with 0. ring.
  - cbn [app rh_loop]. destruct (Z.leb t0 from); [apply IH|]. destruct (Z.leb to t0); [done|]. apply IH.
Qed.

#[local] Open Scope string_scope.
#[local] Open Scope Z_scope.

Definition two_clusters : InMemoryStore :=
  snd (upsert_desired 0 "c2" demo_spec (snd (upsert_desired 0 "c1" demo_spec empty_store))).
Definition one_cluster : InMemoryStore := snd (upsert_desired 0 "c1" demo_spec empty_store).

(** No Kueue. *)
#[local] Instance no_kueue : PoolProvisioner unit := {|
  pp_apply_pool := fun _ _ => mret tt; pp_delete_pool := fun _ => mret tt;
  pp_observe_pool := fun _ => mret None; pp_kueue_present := fun p => (false, p) |}.

Definition metered (now : Z) (s : InMemoryStore) : InMemoryStore :=
  mw_store (snd (tick (P := unit) now {| mw_store := s; mw_pools := None |})).

Definition cpu_hours (s : InMemoryStore) (from to : Z) : option f64 :=
  match windowed_consumption (cs_project demo_spec) from to s with
  | (Ok m, _) => m !! "cpu"
  | _ => None
  end.

(** A project with two running clusters is charged for one: both write the same
    series. *)
Lemma second_cluster_is_free :
  cpu_hours (metered 0 two_clusters) 0 3600 = cpu_hours (metered 0 one_cluster) 0 3600 /\
  is_Some (cpu_hours (metered 0 one_cluster) 0 3600).
Proof. vm_compute. split; [done|by eexists]. Qed.

(** A project whose only cluster stopped is charged on: no sample says zero, so
    the last level holds. *)
Definition stopped (s : InMemoryStore) : InMemoryStore := snd (set_desired 60 "c1" DTerminated s).

Lemma stopped_cluster_is_charged :
  let s := metered 120 (stopped (metered 0 one_cluster)) in
  cpu_hours s 0 36000 = f64_mul (f64_of_Z 10) <$> cpu_hours s 0 3600 /\
  length (m_usage s) = length (m_usage (metered 0 one_cluster)).
Proof. vm_compute. done. Qed.
