(* ===== verification/ApiFacts.v ===== *)
(** * Theorems about authorization and the cluster API *)

From S2P Require Import Prelude Float64 Core Policy Usage Store StoreFacts StoreQueries Json.
From S2P Require Import Reconcile ReaperFacts Auth Api.
#[local] Open Scope Z_scope.

(** ** Handlers that leave the tables alone *)

(** The tables admission reads: everything but policy, audit trail and users. *)
Definition core (s : InMemoryStore) :=
  (m_clusters s, m_intents s, m_pools s, m_allocations s, m_usage s, m_assignments s).
Definition keeps {A} (m : H A) : Prop :=
  forall w, core (api_store (snd (m w))) = core (api_store w).
(** A handler step that always goes on. *)
Definition total {A} (m : H A) : Prop := forall w, is_ok (fst (m w)) = true.

Section keeping.
Context `{AuditCodec}.

Lemma keeps_ret {A} (a : A) : keeps (mret a).
Proof. done. Qed.
Lemma keeps_err {A} r : keeps (A := A) (st_err r).
Proof. done. Qed.
Lemma keeps_now : keeps now_unix.
Proof. done. Qed.
Lemma keeps_world {A} (f : ApiWorld -> A) : keeps (st_get f).
Proof. done. Qed.
Lemma keeps_get {A} (f : InMemoryStore -> A) : keeps (call (st_get f)).
Proof. done. Qed.
Lemma keeps_emit e : keeps (emit e).
Proof. done. Qed.
Lemma keeps_bind {A B} (m : H A) (f : A -> H B) : keeps m -> (forall a, keeps (f a)) -> keeps (m ≫= f).
Proof.
  intros Hm Hf w. unfold mbind, ST_bind. specialize (Hm w).
  destruct (m w) as [[a|e] w1]; cbn in *; [|done]. by rewrite Hf.
Qed.
Lemma keeps_audited i d r a id st : keeps (audited i d r a id st).
Proof. apply keeps_bind; [apply keeps_now|intros; apply keeps_emit]. Qed.
Lemma keeps_deny i a t : keeps (deny i a t).
Proof.
  apply keeps_bind; [apply keeps_now|intros ts]. apply keeps_bind; [apply keeps_emit|done].
Qed.
Lemma keeps_policy seed : keeps (load_policy seed).
Proof.
  apply keeps_bind; [|done]. intros w. unfold call, effective_policy, get_policy, seed_policy. run_store.
  destruct (m_policy (api_store w)) eqn:E; cbn; [done|].
  destruct (seed_from_config seed); cbn; [|done]. by rewrite E.
Qed.
Lemma keeps_usage p a b : keeps (call (windowed_consumption p a b)).
Proof. done. Qed.
Lemma keeps_queue p : keeps (call (queue_assignment_for_project p)).
Proof. intros w. unfold call. by rewrite queue_assignment_eq. Qed.
Lemma keeps_queue_or_none p : keeps (queue_or_none p).
Proof. intros w. unfold queue_or_none. by rewrite queue_assignment_eq. Qed.
End keeping.

Create HintDb keeps.
#[export] Hint Resolve keeps_ret keeps_err keeps_now keeps_world keeps_get keeps_emit keeps_audited
  keeps_deny keeps_policy keeps_usage keeps_queue keeps_queue_or_none : keeps.

(** Follow the control flow, framing each step. *)
Ltac keep_step :=
  repeat (first [apply keeps_bind; [|intros ?] | progress cbn beta iota | case_match];
          try solve [eauto with keeps nocore]).

Section authz.
Context `{AuditCodec}.

(** ** Authorization *)

(** The effective permission of a caller on a project. *)
Definition allowed (s : InMemoryStore) (identity : option Identity) (action : PermissionType)
    (target : Target) (project : string) : bool :=
  match identity with
  | None => true
  | Some i => permits_scoped i action target (effective_assignments (Some s) i) project
  end.

Lemma elem_of_push_new out l a : a ∈ foldl push_new out l <-> a ∈ out \/ a ∈ l.
Proof.
  revert out. induction l as [|x l IH]; intros out; cbn; [set_solver|].
  rewrite IH. unfold push_new. case_bool_decide; set_solver.
Qed.

Lemma elem_of_assignments s subject r scope :
  (r, scope) ∈ assignments_for s subject <->
  exists k a, m_assignments s !! k = Some a /\ ra_principal a = subject /\
    role_parse (ra_role a) = Some r /\ ra_scope a = scope.
Proof.
  unfold assignments_for, list_role_assignments, st_get. cbn [fst].
  rewrite list_elem_of_omap. setoid_rewrite elem_of_sort_stable. setoid_rewrite list_elem_of_filter.
  setoid_rewrite elem_of_map_values. cbn [is_none_or]. setoid_rewrite String.eqb_eq. split.
  - intros (a & (Hp & k & Hk) & Hr). apply bind_Some in Hr as (r' & Hr & [= -> <-]). eauto 10.
  - intros (k & a & Hk & Hp & Hr & <-). exists a. split; [eauto|]. by rewrite Hr.
Qed.

(** A caller may act on a project exactly when one of its global roles grants it,
    or a role its groups imply on that project, or a stored assignment made to
    its subject or its username, at the global scope or for that very project,
    with a role that grants it. Denial is the default. *)
Theorem authorization_spec s i action target project :
  allowed s (Some i) action target project = true <->
  (exists r, r ∈ id_roles i /\ grants r action target = true) \/
  (exists r scope, grants r action target = true /\
     (scope = GLOBAL_SCOPE \/ scope = project_scope project) /\
     ((r, scope) ∈ id_project_roles i \/
      exists k a, m_assignments s !! k = Some a /\
        (ra_principal a = id_subject i \/ id_username i = Some (ra_principal a)) /\
        role_parse (ra_role a) = Some r /\ ra_scope a = scope)).
Proof.
  unfold allowed, permits_scoped, permits. rewrite orb_true_iff, !existsb_elem_of.
  setoid_rewrite andb_true_iff. unfold scope_covers. setoid_rewrite orb_true_iff.
  setoid_rewrite String.eqb_eq.
  assert (forall r scope, (r, scope) ∈ for_identity s i <->
    exists k a, m_assignments s !! k = Some a /\
        (ra_principal a = id_subject i \/ id_username i = Some (ra_principal a)) /\
        role_parse (ra_role a) = Some r /\ ra_scope a = scope) as Hfor.
  { intros r scope. unfold for_identity. destruct (id_username i) as [u|].
    - destruct (String.eqb_spec u (id_subject i)) as [->|Hne].
      + rewrite elem_of_assignments. naive_solver.
      + rewrite elem_of_push_new, !elem_of_assignments. naive_solver.
    - rewrite elem_of_assignments. naive_solver. }
  assert (forall r scope, (r, scope) ∈ effective_assignments (Some s) i <->
    (r, scope) ∈ id_project_roles i \/ (r, scope) ∈ for_identity s i) as Heff.
  { intros r scope. apply elem_of_push_new. }
  split; (intros [Hg|Hs]; [by left|right]).
  - destruct Hs as ([r scope] & Hin & Hc & Hg). exists r, scope.
    rewrite Heff, Hfor in Hin. cbn in *. naive_solver.
  - destruct Hs as (r & scope & Hg & Hc & Hin). exists (r, scope).
    rewrite Heff, Hfor. naive_solver.
Qed.

Lemma or_deny_scoped identity a t project w :
  exists w', or_deny (authorize_scoped identity a t project) w =
    (if allowed (api_store w) identity a t project then Ok tt else Err forbidden, w') /\
  (allowed (api_store w) identity a t project = true -> w' = w) /\
  core (api_store w') = core (api_store w).
Proof.
  unfold or_deny, authorize_scoped, allowed. destruct identity as [i|]; [|by eexists].
  unfold permits_scoped at 2 3. destruct (permits i a t) eqn:Hp; [by eexists|]. cbn [orb].
  unfold mbind, ST_bind, st_get. unfold permits_scoped at 1. rewrite Hp. cbn [orb].
  destruct (existsb _ _); [by eexists|]. by eexists.
Qed.

(** The policy in force. *)
Definition policy_of (seed : PolicyConfig) (s : InMemoryStore) : PolicyConfig :=
  match m_policy s with
  | Some p => config_from_stored p
  | None => match seed_from_config seed with
            | Some p => config_from_stored p
            | None => default_policy
            end
  end.

Lemma load_policy_eq seed w :
  exists w', load_policy seed w = (Ok (policy_of seed (api_store w)), w') /\
    core (api_store w') = core (api_store w) /\
    api_clock w' = api_clock w /\ api_reads w' = api_reads w.
Proof.
  pose proof (keeps_policy seed w) as Hk. revert Hk. unfold load_policy, policy_of, mbind, ST_bind.
  unfold call, effective_policy, get_policy, seed_policy. run_store.
  destruct (m_policy (api_store w)) eqn:E; cbn; [by eexists|].
  destruct (seed_from_config seed); cbn; [|by eexists]. rewrite E. cbn. by eexists.
Qed.

Lemma core_clusters s s' : core s' = core s -> m_clusters s' = m_clusters s.
Proof. by intros [= ->]. Qed.

(** ** Deleting and purging *)

(** C30. Deleting a cluster. Only a caller who may write clusters of the row's project
    changes anything. A plain delete answers 202 and marks the row desired
    Terminated, keeping everything else of it; a purge answers 200 and drops the
    row, and only when it is already desired Terminated and observed gone; any
    other answer leaves every cluster as it was. *)
Theorem delete_cluster_spec identity id purge w :
  let r := fst (answer (delete_cluster identity id purge) w) in
  let w' := snd (answer (delete_cluster identity id purge) w) in
  match m_clusters (api_store w) !! id with
  | None => rs_status r = 404 /\ m_clusters (api_store w') = m_clusters (api_store w)
  | Some c =>
      if negb (allowed (api_store w) identity Write TCluster (cs_project (c_spec c)))
      then rs_status r = 403 /\ m_clusters (api_store w') = m_clusters (api_store w)
      else if purge then
        if bool_decide (c_desired c = DTerminated) && observed_gone (c_observed_state c)
        then rs_status r = 200 /\ m_clusters (api_store w') = delete id (m_clusters (api_store w))
        else rs_status r = 409 /\ m_clusters (api_store w') = m_clusters (api_store w)
      else rs_status r = 202 /\ exists t, m_clusters (api_store w')
             = <[id := with_desired t DTerminated c]> (m_clusters (api_store w))
  end.
Proof.
  cbn zeta. unfold answer, delete_cluster.
  assert (call (get id) w = (Ok (m_clusters (api_store w) !! id), w)) as Hget by (by destruct w).
  rewrite ST_bind_eq, Hget.
  destruct (m_clusters (api_store w) !! id) as [c|] eqn:Hc; [|done].
  destruct (or_deny_scoped identity Write TCluster (cs_project (c_spec c)) w) as (w1 & Hd & Hs & Hcore).
  rewrite ST_bind_eq, Hd.
  destruct (allowed _ _ _ _ _); cbn [negb fst snd]; [|by apply core_clusters in Hcore].
  rewrite Hs by done. clear Hd Hs Hcore w1. destruct purge.
  - unfold purge_cluster. destruct (bool_decide _ && _) eqn:Ht; cbn [negb]; [|done].
    unfold mbind, ST_bind, call, remove_cluster. run_store. cbn. rewrite Hc. done.
  - unfold mbind, ST_bind, now_unix, set_desired_or_404, set_desired. run_store. cbn. rewrite Hc. cbn.
    split; [done|by eexists].
Qed.

(** ** Suspend and resume *)

Definition command_legal (cmd : LifecycleCommand) (c : StoredCluster) : Prop :=
  c_desired c <> DTerminated /\
  exists st, c_observed_state c = Some st /\ can_transition st (transitional_state cmd) = true.

Lemma command_legal_spec cmd c :
  negb (bool_decide (c_desired c = DTerminated))
    && is_some_and (c_observed_state c) (fun s => can_transition s (transitional_state cmd)) = true
  <-> command_legal cmd c.
Proof.
  unfold command_legal. rewrite andb_true_iff, negb_true_iff, bool_decide_eq_false, is_some_and_true.
  done.
Qed.

Lemma call_queue_eq project w :
  call (queue_assignment_for_project project) w = (Ok (queue_of project (api_store w)), w).
Proof. unfold call. rewrite queue_assignment_eq. by destruct w. Qed.

Lemma audited_ok i d rs a id st w :
  exists w', audited i d rs a id st w = (Ok tt, w') /\ core (api_store w') = core (api_store w).
Proof. by eexists. Qed.

Lemma or_deny_global identity a t w :
  let ok := match identity with Some i => permits i a t | None => true end in
  exists w', or_deny (authorize identity a t) w = (if ok then Ok tt else Err forbidden, w') /\
  (ok = true -> w' = w) /\ core (api_store w') = core (api_store w).
Proof.
  cbn zeta. unfold or_deny, authorize. destruct identity as [i|]; [|by eexists].
  unfold mbind, ST_bind. destruct (permits i a t); by eexists.
Qed.

(** C31. Suspend and resume change a cluster's desired state and nothing else, and only
    for a caller with a global cluster-write role, for a cluster that no queue
    admits, that is not on its way out and whose observed state has a legal edge
    into the command's transitional state; the command then answers 202. *)
Theorem lifecycle_command_spec identity id cmd w :
  let r := fst (answer (lifecycle_command identity id cmd) w) in
  let w' := snd (answer (lifecycle_command identity id cmd) w) in
  (rs_status r = 202 <->
     (forall i, identity = Some i -> permits i Write TCluster = true) /\
     exists c, m_clusters (api_store w) !! id = Some c /\
       queue_of (cs_project (c_spec c)) (api_store w) = None /\ command_legal cmd c) /\
  (rs_status r = 202 -> forall c, m_clusters (api_store w) !! id = Some c ->
     exists t, m_clusters (api_store w')
       = <[id := with_desired t (cmd_desired cmd) c]> (m_clusters (api_store w))) /\
  (rs_status r <> 202 -> m_clusters (api_store w') = m_clusters (api_store w)).
Proof.
  cbn zeta. unfold answer, lifecycle_command. rewrite ST_bind_eq.
  destruct (or_deny_global identity Write TCluster w) as (w1 & Hd & Hs & Hcore). rewrite Hd.
  destruct (match identity with Some i => permits i Write TCluster | None => true end) eqn:Hp.
  2:{ cbn [fst snd]. apply core_clusters in Hcore. destruct identity as [i|]; [|done].
      split_and!; try done. split; [done|]. intros [Hi _]. specialize (Hi i eq_refl). congruence. }
  rewrite Hs by done. clear Hd Hs Hcore w1.
  assert (forall i, identity = Some i -> permits i Write TCluster = true) as Hperm by (by intros i ->).
  assert (call (get id) w = (Ok (m_clusters (api_store w) !! id), w)) as Hget by (by destruct w).
  rewrite ST_bind_eq, Hget.
  destruct (m_clusters (api_store w) !! id) as [c|] eqn:Hc.
  2:{ cbn -[queue_of]. split_and!; try done. split; [done|]. by intros (_ & c & ? & _). }
  rewrite ST_bind_eq, call_queue_eq.
  destruct (queue_of (cs_project (c_spec c)) (api_store w)) as [q|] eqn:Hq.
  { rewrite ST_bind_eq.
    destruct (audited_ok identity Deny (Some "queue_owned_suspend"%string) (cmd_action cmd) id (Some 409) w)
      as (w1 & -> & Hk%core_clusters). cbn [fst snd mret ST_ret rs_status respond].
    split_and!; try done. split; [done|]. intros (_ & c' & ? & ? & _). by simplify_eq. }
  pose proof (command_legal_spec cmd c) as Hlegal.
  destruct (negb (bool_decide (c_desired c = DTerminated)) && _) eqn:Hl; cbn [negb].
  - unfold mbind, ST_bind, now_unix, call, set_desired, audited. run_store. cbn -[queue_of]. rewrite Hc. cbn -[queue_of].
    split_and!; [|intros _ c' [= <-]; by eexists|done]. split; [|done]. intros _. split; [done|].
    exists c. split_and!; [done..|]. by apply Hlegal.
  - rewrite ST_bind_eq.
    destruct (audited_ok identity Deny (Some "illegal_state_transition"%string) (cmd_action cmd) id
      (Some 409) w) as (w1 & -> & Hk%core_clusters). cbn [fst snd mret ST_ret rs_status respond].
    split_and!; try done. split; [done|]. intros (_ & c' & ? & _ & Hcl). simplify_eq.
    apply Hlegal in Hcl. done.
Qed.

(** ** Reads *)

(** What the list route shows of a store to a caller. *)
Definition listed (s : InMemoryStore) (identity : option Identity) (c : StoredCluster) : bool :=
  visible identity (fst (read_scope s identity)) (snd (read_scope s identity)) c.

Lemma allowed_empty s i a t p :
  allowed s (Some i) a t p = true -> permits i a t = true \/ effective_assignments (Some s) i <> [].
Proof.
  unfold allowed, permits_scoped. destruct (permits i a t); [by left|]. cbn [orb].
  destruct (effective_assignments (Some s) i); [done|by right].
Qed.

(** The gate of the list route lets through every caller some cluster is open to. *)
Lemma list_gate s identity p :
  allowed s identity Read TCluster p = true ->
  let '(assignments, narrowed) := read_scope s identity in
  match narrowed, identity with
  | None, Some i => negb (permits i Read TCluster) && bool_decide (assignments = []) = false
  | _, _ => True
  end.
Proof.
  intros Ha. unfold read_scope. destruct identity as [i|]; [|done].
  case_bool_decide as Hadm.
  { assert (permits i Read TCluster = true) as ->; [|done].
    apply existsb_elem_of. by exists Admin. }
  destruct (omap _ _); [|done]. destruct (allowed_empty _ _ _ _ _ Ha) as [->|Hne]; [done|].
  rewrite bool_decide_eq_false_2 by done. apply andb_false_r.
Qed.

Lemma list_route_ok seed identity w p :
  allowed (api_store w) identity Read TCluster p = true ->
  exists w', list_clusters_route seed identity w =
    (Ok (respond 200 (Views (from_stored (pc_prices (policy_of seed (api_store w))) <$>
       filter (fun c => listed (api_store w) identity c = true)
         (map_values (m_clusters (api_store w)))))), w').
Proof.
  intros Ha. pose proof (list_gate _ _ _ Ha) as Hgate. unfold list_clusters_route, listed.
  rewrite ST_bind_eq. unfold st_get at 1. cbv beta iota.
  destruct (read_scope (api_store w) identity) as [assignments narrowed]. cbn [fst snd] in *.
  assert (forall f : unit -> H Response, (match narrowed, identity with
      | None, Some i =>
          if negb (permits i Read TCluster) && bool_decide (assignments = [])
          then or_deny (authorize identity Read TCluster) else mret tt
      | _, _ => mret tt
      end ≫= f) w = f tt w) as Hf.
  { intros f. rewrite ST_bind_eq. destruct narrowed, identity as [i|]; try done. by rewrite Hgate. }
  rewrite Hf, ST_bind_eq. unfold call at 1, list_clusters, st_get. cbn [map_err].
  replace (set_api_store (api_store w) w) with w by (by destruct w). rewrite ST_bind_eq.
  destruct (load_policy_eq seed w) as (w' & -> & _). by eexists.
Qed.

Lemma get_route_ok seed identity id w r w' :
  get_cluster seed identity id w = (Ok r, w') -> rs_status r = 200 ->
  exists c, m_clusters (api_store w) !! id = Some c /\
    allowed (api_store w) identity Read TCluster (cs_project (c_spec c)) = true /\
    listed (api_store w) identity c = true /\
    r = respond 200 (OneView (from_stored (pc_prices (policy_of seed (api_store w))) c)).
Proof.
  unfold get_cluster. rewrite ST_bind_eq.
  assert (call (get id) w = (Ok (m_clusters (api_store w) !! id), w)) as -> by (by destruct w).
  destruct (m_clusters (api_store w) !! id) as [c|]; [|by intros [= <- _]].
  rewrite ST_bind_eq. unfold st_get at 1. cbv beta iota. unfold listed.
  destruct (read_scope (api_store w) identity) as [assignments narrowed] eqn:Hs. cbn [fst snd].
  destruct (is_some_and narrowed _) eqn:Hn; [by intros [= <- _]|].
  rewrite ST_bind_eq.
  destruct (or_deny_scoped identity Read TCluster (cs_project (c_spec c)) w) as (w1 & -> & Hsame & _).
  destruct (allowed _ _ _ _ _) eqn:Ha; [|done]. rewrite Hsame by done.
  rewrite ST_bind_eq. destruct (load_policy_eq seed w) as (w2 & -> & _).
  intros [= <- _] _. exists c. split_and!; try done. unfold visible. destruct narrowed as [ps|].
  - cbn in Hn. by apply negb_false_iff in Hn.
  - destruct identity as [i|]; [|done]. unfold read_scope in Hs. case_bool_decide as Hadm.
    + unfold permits_scoped. apply orb_true_iff. left. apply existsb_elem_of. by exists Admin.
    + by injection Hs as <- _.
Qed.

Lemma get_route_err seed identity id w r w' :
  get_cluster seed identity id w = (Err r, w') -> rs_status r <> 200.
Proof.
  unfold get_cluster. rewrite ST_bind_eq.
  assert (call (get id) w = (Ok (m_clusters (api_store w) !! id), w)) as -> by (by destruct w).
  destruct (m_clusters (api_store w) !! id) as [c|]; [|done].
  rewrite ST_bind_eq. unfold st_get at 1. cbv beta iota.
  destruct (read_scope (api_store w) identity) as [assignments narrowed].
  destruct (is_some_and narrowed _); [done|]. rewrite ST_bind_eq.
  destruct (or_deny_scoped identity Read TCluster (cs_project (c_spec c)) w) as (w1 & -> & _).
  destruct (allowed _ _ _ _ _); [|by intros [= <- _]].
  rewrite ST_bind_eq. by destruct (load_policy_eq seed w1) as (w2 & -> & _).
Qed.

(** Reading one cluster never shows more than listing: if a get answers 200, the
    list route answers 200 to the same caller with the very same view among its
    entries. *)
Theorem get_within_list seed identity id w :
  rs_status (fst (answer (get_cluster seed identity id) w)) = 200 ->
  exists v views, fst (answer (get_cluster seed identity id) w) = respond 200 (OneView v) /\
    fst (answer (list_clusters_route seed identity) w) = respond 200 (Views views) /\ v ∈ views.
Proof.
  unfold answer. destruct (get_cluster seed identity id w) as [[r|r] w'] eqn:Hg; cbn [fst]; intros Hr.
  - destruct (get_route_ok _ _ _ _ _ _ Hg Hr) as (c & Hc & Ha & Hl & ->).
    destruct (list_route_ok seed identity w _ Ha) as (w2 & ->). do 2 eexists. split; [done|].
    split; [done|]. apply list_elem_of_fmap. exists c. split; [done|]. apply list_elem_of_filter.
    split; [done|]. apply elem_of_map_values. eauto.
  - exfalso. eapply get_route_err; [exact Hg|done].
Qed.

(** Tenant isolation on reads: a caller who is not a global Admin and holds any
    project-scoped assignment sees exactly the clusters of the projects those
    assignments name, whatever its global roles. *)
Theorem scoped_read_isolation s i c :
  Admin ∉ id_roles i ->
  (exists r p, (r, project_scope p) ∈ effective_assignments (Some s) i) ->
  listed s (Some i) c = true <->
  exists r, (r, project_scope (cs_project (c_spec c))) ∈ effective_assignments (Some s) i.
Proof.
  intros Hadm (r0 & p0 & Hin0). unfold listed, read_scope. rewrite bool_decide_eq_false_2 by done.
  set (projects := omap _ _). cbn [fst snd].
  assert (forall p, p ∈ projects <-> exists r, (r, project_scope p) ∈ effective_assignments (Some s) i)
    as Hp.
  { intros p. unfold projects. rewrite list_elem_of_omap. setoid_rewrite strip_prefix_Some. split.
    - intros ([r scope] & Hin & Hs). cbn in Hs. exists r. unfold project_scope. by rewrite <-Hs.
    - intros (r & Hin). by exists (r, project_scope p). }
  assert (p0 ∈ projects) as Hp0 by (apply Hp; eauto).
  destruct projects as [|q qs] eqn:Hqs; [by apply elem_of_nil in Hp0|].
  cbn [visible]. by rewrite bool_decide_eq_true, Hp.
Qed.
End authz.

(** ** Concrete callers *)

#[local] Instance plain_codec : AuditCodec := {|
  sha256_hex := fun s => s; audit_json := fun _ => EmptyString |}.

(** Cluster [c1] belongs to project [demo]; [ci] is a caller with one scoped role. *)
Definition api_world : ApiWorld := {|
  api_store := snd (upsert_desired 10 "c1" demo_spec empty_store);
  api_clock := fun n => 100 + Z.of_nat n; api_reads := 0 |}.
Definition scoped_caller (r : Role) (project : string) : Identity := {|
  id_subject := "ci"; id_username := None; id_email := None; id_groups := [];
  id_roles := []; id_project_roles := [(r, project_scope project)] |}.

Lemma get_within_list_witness :
  rs_status (fst (answer (get_cluster default_policy None "c1") api_world)) = 200 /\
  exists v views, fst (answer (get_cluster default_policy None "c1") api_world) = respond 200 (OneView v) /\
    fst (answer (list_clusters_route default_policy None) api_world) = respond 200 (Views views) /\
    v ∈ views.
Proof.
  split; [vm_compute; reflexivity|].
  apply (get_within_list default_policy None "c1" api_world). vm_compute. reflexivity.
Defined.

Lemma scoped_read_isolation_witness :
  listed (api_store api_world) (Some (scoped_caller Operator "other"))
    (upsert_record 10 "c1" demo_spec None) = false.
Proof.
  apply not_true_is_false. intros Hl.
  apply (scoped_read_isolation (api_store api_world) (scoped_caller Operator "other")) in Hl.
  - destruct Hl as [r Hr]. vm_compute in Hr. apply list_elem_of_singleton in Hr. discriminate Hr.
  - vm_compute. apply not_elem_of_nil.
  - exists Operator, "other"%string. vm_compute. left.
Defined.

(** A caller whose only role is auditor on a project is narrowed to that project,
    and the list route then shows its clusters without asking for a cluster
    permission; the get route refuses the same caller. *)
Lemma scoped_auditor_lists :
  rs_status (fst (answer (list_clusters_route default_policy
    (Some (scoped_caller Auditor (cs_project demo_spec)))) api_world)) = 200 /\
  listed (api_store api_world) (Some (scoped_caller Auditor (cs_project demo_spec)))
    (upsert_record 10 "c1" demo_spec None) = true /\
  rs_status (fst (answer (get_cluster default_policy
    (Some (scoped_caller Auditor (cs_project demo_spec))) "c1") api_world)) = 403.
Proof. by vm_compute. Qed.
