(* ===== verification/ApiLaws.v ===== *)
(** * The API as a client of the store

    Every handler reaches the store only through its operations. For each request
    [licensed] says which operations it may perform, for which caller and after
    which checks; the handlers are followed once and shown to stay within it,
    whatever they answer. So what holds along licensed operations holds under any
    requests. *)

From S2P Require Import Kueue Prelude Float64 Core Quantity Policy Usage Store StoreFacts StoreQueries.
From S2P Require Import Json Auth LocalAuth Views Api AdminApi AccountApi AuditApi.
#[local] Open Scope Z_scope.

(** ** What a handler does to the store *)

Section laws.
Context `{AuditCodec}.

(** A store call that changes nothing, and one that is an operation. *)
Definition only_reads {A} (m : M A) : Prop := forall s, snd (m s) = s.
Definition performs {A} (m : M A) (op : store_op) : Prop := forall s, snd (m s) = exec op s.

(** A step of a handler, in a world that has a store: its effect is that of allowed
    operations. *)
Definition within {W E A} (store : W -> InMemoryStore) (allowed : store_op -> Prop) (m : ST W E A) (w : W)
  : Prop := exists ops, Forall allowed ops /\ store (snd (m w)) = run_ops ops (store w).

Lemma run_ops_app ops ops' s : run_ops (ops ++ ops') s = run_ops ops' (run_ops ops s).
Proof. apply foldl_app. Qed.

Section any_world.
Context {W E : Type} (store : W -> InMemoryStore) (allowed : store_op -> Prop).

Lemma within_same {A} (m : ST W E A) w : store (snd (m w)) = store w -> within store allowed m w.
Proof. intros Hs. by exists []. Qed.
Lemma within_op {A} op (m : ST W E A) w :
  allowed op -> store (snd (m w)) = exec op (store w) -> within store allowed m w.
Proof. intros Ha Hs. exists [op]. by repeat constructor. Qed.
Lemma within_ret {A} (a : A) w : within store allowed (mret a : ST W E A) w.
Proof. by apply within_same. Qed.
Lemma within_err {A} (e : E) w : within store allowed (st_err e : ST W E A) w.
Proof. by apply within_same. Qed.
Lemma within_get {A} (f : W -> A) w : within store allowed (st_get f : ST W E A) w.
Proof. by apply within_same. Qed.
Lemma within_bind {A B} (m : ST W E A) (f : A -> ST W E B) w :
  within store allowed m w -> (forall a w1, within store allowed (f a) w1) -> within store allowed (m ≫= f) w.
Proof.
  intros (ops & Hc & Ho) Hf. unfold within. rewrite ST_bind_eq.
  destruct (m w) as [[a|e] w1]; cbn [snd] in *; [|by exists ops].
  destruct (Hf a w1) as (ops' & Hc' & Ho'). exists (ops ++ ops').
  split; [by apply Forall_app|]. by rewrite Ho', Ho, run_ops_app.
Qed.
(** A step that always succeeds and leaves the store alone. *)
Lemma within_bind_at {A B} (m : ST W E A) (f : A -> ST W E B) w a w1 :
  m w = (Ok a, w1) -> store w1 = store w -> within store allowed (f a) w1 -> within store allowed (m ≫= f) w.
Proof. intros Hm Hs Hf. unfold within in *. rewrite ST_bind_eq, Hm, <- Hs. exact Hf. Qed.
Lemma within_mono {A} (allowed' : store_op -> Prop) (m : ST W E A) w :
  (forall op, allowed op -> allowed' op) -> within store allowed m w -> within store allowed' m w.
Proof. intros Hi (ops & Hc & Ho). exists ops. split; [by eapply Forall_impl|done]. Qed.
End any_world.

(** ** The store's own calls *)

Lemma reads_get {A} (f : InMemoryStore -> A) : only_reads (st_get f).
Proof. done. Qed.
Lemma reads_queue p : only_reads (queue_assignment_for_project p).
Proof. intros s. by rewrite queue_assignment_eq. Qed.
Lemma reads_usage p a b : only_reads (windowed_consumption p a b). Proof. done. Qed.
Lemma reads_usage_rows p q a b : only_reads (usage_samples p q a b). Proof. done. Qed.
Lemma reads_policy : only_reads get_policy. Proof. done. Qed.
Lemma reads_clusters : only_reads list_clusters. Proof. done. Qed.
Lemma reads_cluster id : only_reads (get id). Proof. done. Qed.
Lemma reads_jobs : only_reads list_jobs. Proof. done. Qed.
Lemma reads_pools : only_reads list_pools. Proof. done. Qed.
Lemma reads_pool n : only_reads (get_pool n). Proof. done. Qed.
Lemma reads_allocations n : only_reads (list_allocations n). Proof. done. Qed.
Lemma reads_assignments p : only_reads (list_role_assignments p). Proof. done. Qed.
Lemma reads_audit f : only_reads (list_audit f).
Proof. intros s. unfold list_audit. run_store. by case_match. Qed.
Lemma reads_chain a b : only_reads (audit_chain a b). Proof. done. Qed.
Lemma reads_tokens u : only_reads (list_api_tokens u). Proof. done. Qed.
Lemma reads_users : only_reads list_local_users. Proof. done. Qed.
Lemma reads_user u : only_reads (get_local_user u). Proof. done. Qed.
Lemma reads_token p : only_reads (get_api_token_by_prefix p). Proof. done. Qed.

Lemma performs_upsert_desired t i sp : performs (upsert_desired t i sp) (OpUpsertDesired t i sp). Proof. done. Qed.
Lemma performs_set_desired t i d : performs (set_desired t i d) (OpSetDesired t i d). Proof. done. Qed.
Lemma performs_remove i : performs (remove_cluster i) (OpRemoveCluster i). Proof. done. Qed.
Lemma performs_upsert_pool t n sp : performs (upsert_pool t n sp) (OpUpsertPool t n sp). Proof. done. Qed.
Lemma performs_delete_pool n : performs (delete_pool n) (OpDeletePool n). Proof. done. Qed.
Lemma performs_upsert_alloc a : performs (upsert_allocation a) (OpUpsertAllocation a). Proof. done. Qed.
Lemma performs_delete_alloc p q : performs (delete_allocation p q) (OpDeleteAllocation p q). Proof. done. Qed.
Lemma performs_set_policy p : performs (set_policy_row p) (OpSetPolicy p). Proof. done. Qed.
Lemma performs_seed_policy p : performs (seed_policy p) (OpSeedPolicy p). Proof. done. Qed.
Lemma performs_create_user t u e h r : performs (create_local_user t u e h r) (OpCreateUser t u e h r).
Proof. done. Qed.
Lemma performs_set_password u h : performs (set_local_user_password u h) (OpSetPassword u h). Proof. done. Qed.
Lemma performs_set_role u r : performs (set_local_user_role u r) (OpSetRole u r). Proof. done. Qed.
Lemma performs_set_disabled u d : performs (set_local_user_disabled u d) (OpSetDisabled u d). Proof. done. Qed.
Lemma performs_failure t u : performs (record_login_failure t u) (OpLoginFailure t u). Proof. done. Qed.
Lemma performs_success u : performs (record_login_success u) (OpLoginSuccess u). Proof. done. Qed.
Lemma performs_create_token r : performs (create_api_token r) (OpCreateToken r). Proof. done. Qed.
Lemma performs_revoke p u : performs (revoke_api_token p u) (OpRevokeToken p u). Proof. done. Qed.
Lemma performs_upsert_assign t p r c : performs (upsert_role_assignment t p r c) (OpUpsertAssignment t p r c).
Proof. done. Qed.
Lemma performs_delete_assign p r c : performs (delete_role_assignment p r c) (OpDeleteAssignment p r c).
Proof. done. Qed.
End laws.

Create HintDb within.
#[export] Hint Resolve within_ret within_err within_get reads_get reads_queue reads_usage reads_usage_rows
  reads_policy reads_clusters reads_cluster reads_jobs reads_pools reads_pool reads_allocations
  reads_assignments reads_audit reads_chain reads_tokens reads_users reads_user reads_token
  performs_upsert_desired performs_set_desired performs_remove performs_upsert_pool performs_delete_pool
  performs_upsert_alloc performs_delete_alloc performs_set_policy performs_seed_policy performs_create_user
  performs_set_password performs_set_role performs_set_disabled performs_failure performs_success
  performs_create_token performs_revoke performs_upsert_assign performs_delete_assign : within.

(** ** Requests, and what they may do *)

Section requests.
Context `{AuditCodec} `{Bcrypt} `{ObservationSerde}.

(** A request the control plane serves on its store, parsed. *)
Inductive ApiRequest :=
| ListClusters
| GetCluster (id : string)
| CreateCluster (id : string) (spec : ClusterSpec)
| DeleteCluster (id : string) (purge : bool)
| Lifecycle (id : string) (cmd : LifecycleCommand)
| GetPolicy
| UpdatePolicyReq (body : UpdatePolicy)
| ListPools
| CreatePool (spec : PoolSpec)
| GetPool (name : string)
| DeletePool (name : string)
| PutAllocationReq (name project : string) (body : PutAllocation)
| ListAllocations (name : string)
| DeleteAllocation (name project : string)
| PoolUsage (name : string)
| WhoAmI
| ListRoles (cfg : option AuthConfig)
| ListAssignments
| UpsertAssignment (principal role scope : string)
| DeleteAssignment (principal role scope : string)
| ListAudit (path : string) (query : option string) (q : AuditQuery)
| VerifyAudit (path : string) (query : option string) (from_seq limit : option Z).

Definition route (seed : PolicyConfig) (i : option Identity) (r : ApiRequest) : H Response :=
  match r with
  | ListClusters => list_clusters_route seed i
  | GetCluster id => get_cluster seed i id
  | CreateCluster id spec => create_cluster seed i id spec
  | DeleteCluster id purge => delete_cluster i id purge
  | Lifecycle id cmd => lifecycle_command i id cmd
  | GetPolicy => get_policy_route seed i
  | UpdatePolicyReq body => update_policy seed i body
  | ListPools => list_pools_route i
  | CreatePool spec => create_pool i spec
  | GetPool name => get_pool_route i name
  | DeletePool name => delete_pool_route i name
  | PutAllocationReq name project body => put_allocation seed i name project body
  | ListAllocations name => list_allocations_route i name
  | DeleteAllocation name project => delete_allocation_route i name project
  | PoolUsage name => pool_usage i name
  | WhoAmI => identity_route i
  | ListRoles cfg => list_roles cfg i
  | ListAssignments => list_assignments i
  | UpsertAssignment p role scope => upsert_assignment i p role scope
  | DeleteAssignment p role scope => delete_assignment i p role scope
  | ListAudit path query q => list_audit_events i path query q
  | VerifyAudit path query from limit => verify_audit_trail i path query from limit
  end.


(** The caller may do this anywhere, or in one project by the assignments of a
    store; without authentication everybody may. *)
Definition may (i : option Identity) (a : PermissionType) (t : Target) : Prop :=
  match i with Some i => permits i a t = true | None => True end.
Definition may_scoped (s : InMemoryStore) (i : option Identity) (a : PermissionType) (t : Target)
    (project : string) : Prop :=
  match i with
  | Some i => permits i a t = true \/ permits_scoped i a t (effective_assignments (Some s) i) project = true
  | None => True
  end.

(** What the API checks of a row before it writes it. *)
Definition pool_checked (p : PoolSpec) : Prop :=
  is_ok (pool_validate p) = true /\ is_ok (validate_quantities (p_flavors p)) = true.
Definition assignment_checked (principal role scope : string) : Prop :=
  is_empty principal = false /\ is_Some (role_parse role) /\ valid_scope scope = true.

(** The operations of a request served on the store [s]. Any request may write audit
    rows and seed the policy. *)
Definition licensed (seed : PolicyConfig) (s : InMemoryStore) (i : option Identity) (r : ApiRequest)
    (op : store_op) : Prop :=
  match op with
  | OpRecordAudit _ => True
  | OpSeedPolicy p => seed_from_config seed = Some p
  | OpUpsertDesired _ id' spec' =>
      match r with
      | CreateCluster id spec =>
          id' = id /\ spec' = owned_spec i spec /\ may_scoped s i Write TCluster (cs_project spec)
      | _ => False
      end
  | OpSetDesired _ id' d =>
      match r with
      | DeleteCluster id _ => id' = id /\ d = DTerminated /\
          exists c, m_clusters s !! id = Some c /\ may_scoped s i Write TCluster (cs_project (c_spec c))
      | Lifecycle id cmd => id' = id /\ d = cmd_desired cmd /\ may i Write TCluster
      | _ => False
      end
  | OpRemoveCluster id' =>
      match r with
      | DeleteCluster id purge => id' = id /\ purge = true /\
          exists c, m_clusters s !! id = Some c /\ may_scoped s i Write TCluster (cs_project (c_spec c))
      | _ => False
      end
  | OpSetPolicy _ => match r with UpdatePolicyReq _ => may i PAdmin TCluster | _ => False end
  | OpUpsertPool _ name spec' =>
      match r with
      | CreatePool spec => name = p_name spec /\ spec' = spec /\ pool_checked spec /\ may i Write TPool
      | _ => False
      end
  | OpDeletePool name' => match r with DeletePool name => name' = name /\ may i PDelete TPool | _ => False end
  | OpUpsertAllocation a =>
      match r with
      | PutAllocationReq name project _ =>
          a_pool a = name /\ a_project a = project /\ is_ok (allocation_validate a) = true /\ may i Write TPool
      | _ => False
      end
  | OpDeleteAllocation name' project' =>
      match r with
      | DeleteAllocation name project => name' = name /\ project' = project /\ may i PDelete TPool
      | _ => False
      end
  | OpUpsertAssignment _ p' role' scope' =>
      match r with
      | UpsertAssignment p role scope => p' = p /\ role' = role /\ scope' = scope /\
          assignment_checked p role scope /\ may i PAdmin TCluster
      | _ => False
      end
  | OpDeleteAssignment p' role' scope' =>
      match r with
      | DeleteAssignment p role scope => p' = p /\ role' = role /\ scope' = scope /\ may i PAdmin TCluster
      | _ => False
      end
  | _ => False
  end.

(** ** The handlers stay within their licence *)

Lemma is_ok_eq {E A} (m : result E A) a : m = Ok a -> is_ok m = true.
Proof. by intros ->. Qed.

Section follow.
Context (allowed : store_op -> Prop) (Haudit : forall e, allowed (OpRecordAudit e)).
Abbreviation withinH m w := (within api_store allowed m w).

Lemma within_call {A} op (m : M A) w : performs m op -> allowed op -> withinH (call m) w.
Proof.
  intros Hm Ha. apply (within_op _ _ op); [done|]. unfold call. rewrite <- Hm.
  by destruct (m (api_store w)) as [[a|e] s].
Qed.
Lemma within_read {A} (m : M A) w : only_reads m -> withinH (call m) w.
Proof.
  intros Hm. apply within_same. unfold call. specialize (Hm (api_store w)).
  by destruct (m (api_store w)) as [[a|e] s].
Qed.
Lemma within_now w : withinH now_unix w.
Proof. by apply within_same. Qed.
Lemma within_emit e w : withinH (emit e) w.
Proof. by apply (within_op _ _ (OpRecordAudit e)). Qed.
Lemma within_call_or_404 op n r m w : performs m op -> allowed op -> withinH (call_or_404 n r m) w.
Proof.
  intros Hm Ha. apply (within_op _ _ op); [done|]. unfold call_or_404. rewrite <- Hm.
  by destruct (m (api_store w)) as [[a|[t]] s].
Qed.
Lemma within_set_desired_or_404 t i d w : allowed (OpSetDesired t i d) -> withinH (set_desired_or_404 t i d) w.
Proof.
  intros Ha. apply (within_op _ _ (OpSetDesired t i d)); [done|]. unfold set_desired_or_404. cbn [exec].
  by destruct (set_desired t i d (api_store w)) as [[a|[m]] s].
Qed.
Lemma within_queue_or_none p w : withinH (queue_or_none p) w.
Proof. apply within_same. unfold queue_or_none. by rewrite queue_assignment_eq. Qed.
#[local] Hint Resolve within_call within_read within_now within_emit within_call_or_404
  within_set_desired_or_404 within_queue_or_none : within.

(** Follow a handler's control flow, one store call at a time. *)
Ltac within_step :=
  try solve [eauto with within nocore];
  repeat (first [apply within_bind; [|intros ? ?] | progress cbn beta iota zeta | case_match];
          try solve [eauto with within nocore]).

Lemma within_deny i a t w : withinH (deny i a t) w.
Proof. unfold deny. within_step. Qed.
Lemma within_event s d r a m p st w : withinH (route_event s d r a m p st) w.
Proof. unfold route_event. within_step. Qed.
Lemma within_audited i d r a c s w : withinH (audited i d r a c s) w.
Proof. unfold audited. within_step. Qed.
Lemma within_audit_read i p q w : withinH (emit_audit_read i p q) w.
Proof. unfold emit_audit_read. within_step. Qed.
#[local] Hint Resolve within_deny within_event within_audited within_audit_read : within.

(** After the gate, the caller may. *)
Lemma within_gate {A} i a t (f : unit -> H A) w :
  (may i a t -> withinH (f tt) w) -> withinH (or_deny (authorize i a t) ≫= f) w.
Proof.
  intros Hf. unfold or_deny, authorize. destruct i as [i|]; [|by apply Hf].
  destruct (permits i a t) eqn:E; [by apply Hf|]. eexists [OpRecordAudit _].
  split; [by repeat constructor|reflexivity].
Qed.
Lemma within_scoped_gate {A} i a t p (f : unit -> H A) w :
  (may_scoped (api_store w) i a t p -> withinH (f tt) w) -> withinH (or_deny (authorize_scoped i a t p) ≫= f) w.
Proof.
  intros Hf. unfold or_deny, authorize_scoped. destruct i as [i|]; [|by apply Hf]. cbn [may_scoped] in Hf.
  destruct (permits i a t) eqn:E; [by apply Hf; left|]. cbv [mbind ST_bind st_get] in *. cbv beta iota.
  unfold within. cbv beta. destruct (permits_scoped i a t _ p) eqn:E'; [by apply Hf; right|].
  eexists [OpRecordAudit _]. split; [by repeat constructor|reflexivity].
Qed.
Lemma within_authorize i a t w : withinH (or_deny (authorize i a t)) w.
Proof. unfold or_deny, authorize. within_step. Qed.
Lemma within_authorize_scoped i a t p w : withinH (or_deny (authorize_scoped i a t p)) w.
Proof. unfold or_deny, authorize_scoped. within_step. Qed.

Context (seed : PolicyConfig) (Hseed : forall p, seed_from_config seed = Some p -> allowed (OpSeedPolicy p)).

Lemma within_policy w : withinH (call (effective_policy seed)) w.
Proof.
  unfold call, effective_policy. destruct (m_policy (api_store w)) as [p|] eqn:Ep.
  { apply within_same. unfold get_policy. run_store. by rewrite Ep. }
  destruct (seed_from_config seed) as [p|] eqn:Es.
  2:{ apply within_same. unfold get_policy. run_store. by rewrite Ep. }
  apply (within_op _ _ (OpSeedPolicy p)); [by apply Hseed|]. unfold get_policy, seed_policy. run_store.
  rewrite Ep. cbn. unfold seed_policy. run_store. by rewrite Ep.
Qed.
Lemma within_load_policy w : withinH (load_policy seed) w.
Proof. unfold load_policy. apply within_bind; [apply within_policy|]. within_step. Qed.
#[local] Hint Resolve within_authorize within_authorize_scoped within_policy within_load_policy : within.

Lemma within_gpu d i id sp pools w : withinH (gpu_admission d i id sp pools) w.
Proof. revert w. induction pools as [|p pools IH]; intros w; cbn [gpu_admission]; within_step. Qed.
Lemma within_quota p i id sp w : withinH (quota_admission p i id sp) w.
Proof. unfold quota_admission. within_step. Qed.
Lemma within_budget p i id sp w : withinH (budget_admission p i id sp) w.
Proof. unfold budget_admission. within_step. Qed.
Lemma within_commit i id sp w :
  (forall t, allowed (OpUpsertDesired t id sp)) -> withinH (commit_cluster i id sp) w.
Proof. intros Ha. unfold commit_cluster. within_step. Qed.
Lemma within_purge i id c w : allowed (OpRemoveCluster id) -> withinH (purge_cluster i id c) w.
Proof. intros Ha. unfold purge_cluster. within_step. Qed.
End follow.

#[local] Hint Resolve within_call within_read within_now within_emit within_call_or_404
  within_set_desired_or_404 within_queue_or_none within_deny within_event within_audited within_audit_read
  within_authorize within_authorize_scoped within_policy within_load_policy within_gpu within_quota
  within_budget within_commit within_purge is_ok_eq : within.
#[local] Hint Extern 2 (licensed _ _ _ _ _) => (cbn [licensed]; unfold pool_checked; split_and?; eauto using is_ok_eq) : within.

Ltac within_step :=
  try solve [eauto with within nocore];
  repeat (first [apply within_gate; [eauto with within nocore|intros ?] | apply within_bind; [|intros ? ?]
                | progress cbn beta iota zeta | case_match];
          try solve [eauto with within nocore]).


Lemma create_licensed seed i id spec w :
  within api_store (licensed seed (api_store w) i (CreateCluster id spec)) (create_cluster seed i id spec) w.
Proof.
  unfold create_cluster. cbv zeta. apply within_scoped_gate; [done|]. intros Hmay. within_step.
Qed.
Lemma delete_licensed seed i id purge w :
  within api_store (licensed seed (api_store w) i (DeleteCluster id purge)) (delete_cluster i id purge) w.
Proof.
  unfold delete_cluster. eapply within_bind_at; [reflexivity|reflexivity|].
  destruct (m_clusters (api_store w) !! id) as [c|] eqn:Hc; [|apply within_ret].
  apply within_scoped_gate; [done|]. intros Hmay. change (may_scoped (api_store w) i Write TCluster (cs_project (c_spec c))) in Hmay.
  destruct purge; within_step; eauto 8 with within.
Qed.

Lemma assign_licensed seed s i t p role scope w :
  is_empty p = false -> negb (bool_decide (is_Some (role_parse role))) = false -> negb (valid_scope scope) = false ->
  may i PAdmin TCluster ->
  within api_store (licensed seed s i (UpsertAssignment p role scope)) (call (upsert_role_assignment t p role scope)) w.
Proof.
  intros Hp Hr%negb_false_iff%bool_decide_eq_true Hs%negb_false_iff Hm.
  eapply within_call; [apply performs_upsert_assign|]. by cbn.
Qed.
#[local] Hint Resolve create_licensed delete_licensed assign_licensed : within.

(** Every handler of the store's routes, for every caller: what it does to the store
    is what its request is licensed to do. *)
Lemma route_licensed seed i r w :
  within api_store (licensed seed (api_store w) i r) (route seed i r) w.
Proof.
  destruct r; cbn [route]; try solve [eauto with within nocore];
  unfold list_clusters_route, get_cluster, lifecycle_command, get_policy_route, update_policy, list_pools_route,
    create_pool, get_pool_route, delete_pool_route, put_allocation, list_allocations_route, delete_allocation_route,
    pool_usage, identity_route, list_roles, list_assignments, upsert_assignment, delete_assignment,
    list_audit_events, verify_audit_trail, admin_event; cbv zeta; within_step.
Qed.
End requests.

(** ** Accounts *)

Section accounts.
Context `{AuditCodec} `{Bcrypt} `{ObservationSerde} (ttl max_days : Z).

Inductive AccountRequest :=
| Login (username password : string)
| CreateToken (label : string) (expires_in_days : Z)
| ListTokens
| RevokeToken (prefix : string)
| Logout (token : option string)
| ListUsers
| CreateUser (username : string) (email : option string) (password : string) (role : LocalRole)
| UpdateUser (username : string) (role : option LocalRole) (disabled : option bool)
    (password : option string).

Definition account_route (i : option Identity) (r : AccountRequest) : ST LocalWorld Response Response :=
  match r with
  | Login u p => login_route ttl u p
  | CreateToken label days => create_token max_days i label days
  | ListTokens => list_tokens i
  | RevokeToken prefix => revoke_token i prefix
  | Logout token => logout i token
  | ListUsers => list_users i
  | CreateUser u email p role => create_user i u email p role
  | UpdateUser u role disabled p => update_user i u role disabled p
  end.


(** Tokens are their caller's or the user's who logs in; users are an
    administrator's. *)
Definition own (i : option Identity) (username : string) : Prop := exists id, i = Some id /\ username = id_subject id.
Definition account_licensed (i : option Identity) (r : AccountRequest) (op : store_op) : Prop :=
  match op with
  | OpRecordAudit _ => True
  | OpLoginFailure _ u' | OpLoginSuccess u' => match r with Login u _ => u' = u | _ => False end
  | OpCreateToken t =>
      match r with
      | Login u _ => at_username t = u
      | CreateToken _ _ => own i (at_username t)
      | _ => False
      end
  | OpRevokeToken _ u => match r with RevokeToken _ | Logout _ => own i u | _ => False end
  | OpCreateUser _ u' _ _ role' =>
      match r with
      | CreateUser u _ _ role => u' = u /\ role' = role /\ is_k8s_name u = true /\ may i PAdmin TCluster
      | _ => False
      end
  | OpSetRole u' _ | OpSetDisabled u' _ | OpSetPassword u' _ =>
      match r with UpdateUser u _ _ _ => u' = u /\ may i PAdmin TCluster | _ => False end
  | _ => False
  end.

Section follow.
Context (allowed : store_op -> Prop) (Haudit : forall e, allowed (OpRecordAudit e)).
Abbreviation withinL m w := (within lw_store allowed m w).

Lemma within_in_api {A} (m : H A) w : within api_store allowed m (api_view w) -> withinL (in_api m) w.
Proof.
  intros (ops & Hc & Ho). exists ops. split; [done|]. unfold in_api. by destruct (m (api_view w)) as [r a].
Qed.
Lemma within_attempt {A} (m : ST LocalWorld LocalAuthError A) w : withinL m w -> withinL (attempt m) w.
Proof. intros (ops & Hc & Ho). exists ops. split; [done|]. unfold attempt. by destruct (m w) as [r w']. Qed.
Lemma within_use_store {A} op (m : M A) w : performs m op -> allowed op -> withinL (use_store m) w.
Proof.
  intros Hm Ha. apply (within_op _ _ op); [done|]. unfold use_store, lstore. rewrite <- Hm.
  by destruct (m (lw_store w)) as [r s].
Qed.
Lemma within_use_read {A} (m : M A) w : only_reads m -> withinL (use_store m) w.
Proof.
  intros Hm. apply within_same. unfold use_store, lstore. specialize (Hm (lw_store w)).
  by destruct (m (lw_store w)) as [r s].
Qed.
Lemma within_succeeds op m w : performs m op -> allowed op -> withinL (succeeds m) w.
Proof.
  intros Hm Ha. apply (within_op _ _ op); [done|]. unfold succeeds. rewrite <- Hm.
  by destruct (m (lw_store w)) as [r s].
Qed.
Lemma within_lw_now {E} w : withinL (LocalAuth.now_unix : ST LocalWorld E Z) w.
Proof. by apply within_same. Qed.
Lemma within_verify {E} p h w : withinL (verify_password p h : ST LocalWorld E bool) w.
Proof. by apply within_same. Qed.
Lemma within_mint w : withinL mint_token_parts w.
Proof. by apply within_same. Qed.
Lemma within_hash p w : withinL (hash_password p) w.
Proof. apply within_same. unfold hash_password. by destruct (bcrypt_hash _ _). Qed.
Lemma within_hash_or_500 p w : withinL (hash_or_500 p) w.
Proof. apply within_same. unfold hash_or_500, hash_password. by destruct (bcrypt_hash _ _). Qed.
Lemma within_when {A} (o : option A) f w : (forall a, withinL (f a) w) -> withinL (when_some o f) w.
Proof. intros Hf. destruct o as [a|]; [apply Hf|]. by apply within_same. Qed.
(** After the gate, the caller is an administrator. *)
Lemma within_admin {A} i (f : unit -> ST LocalWorld Response A) w :
  (may i PAdmin TCluster -> forall w1, withinL (f tt) w1) -> withinL (require_admin i ≫= f) w.
Proof.
  intros Hf. unfold require_admin, or_deny, authorize.
  destruct i as [i|]; [|eapply within_bind_at; [reflexivity|reflexivity|by apply Hf]].
  destruct (permits i PAdmin TCluster) eqn:E.
  - eapply within_bind_at; [reflexivity|reflexivity|by apply Hf].
  - eexists [OpRecordAudit _]. split; [by repeat constructor|reflexivity].
Qed.
#[local] Hint Resolve within_in_api within_attempt within_use_store within_use_read within_succeeds within_lw_now
  within_verify within_mint within_hash within_hash_or_500 within_call within_read within_now within_event : within.
Ltac within_step :=
  try solve [eauto with within nocore];
  repeat (first [apply within_admin; intros ? ? | apply within_bind; [|intros ? ?] | apply within_when; intros ?
                | progress cbn beta iota zeta | case_match];
          try solve [eauto with within nocore]).

Lemma within_account_event s d r a m p st w : withinL (event s d r a m p st) w.
Proof. unfold event. within_step. Qed.
Lemma within_audit_login u d r st w : withinL (audit_login u d r st) w.
Proof. unfold audit_login. apply within_account_event. Qed.
Lemma within_store_token u l e w :
  (forall t, at_username t = u -> allowed (OpCreateToken t)) -> withinL (store_token u l e) w.
Proof.
  intros Ha. unfold store_token. within_step. eapply within_use_store; [apply performs_create_token|by apply Ha].
Qed.
#[local] Hint Resolve within_account_event within_audit_login within_store_token : within.
Lemma within_login u p w :
  (forall t, allowed (OpLoginFailure t u)) -> allowed (OpLoginSuccess u) ->
  (forall t, at_username t = u -> allowed (OpCreateToken t)) -> withinL (login ttl u p) w.
Proof. intros Hf Hs Ht. unfold login. within_step. Qed.
Lemma within_issue u l d w :
  (forall t, at_username t = u -> allowed (OpCreateToken t)) -> withinL (issue_token max_days u l d) w.
Proof. intros Ht. unfold issue_token. within_step. Qed.
End follow.

#[local] Hint Resolve within_in_api within_attempt within_use_store within_use_read within_succeeds within_lw_now
  within_verify within_mint within_hash within_hash_or_500 within_call within_read within_now within_event
  within_account_event within_audit_login within_store_token within_login within_issue : within.
#[local] Hint Extern 2 (account_licensed _ _ _) => (cbn [account_licensed]; unfold own; split_and?; eauto) : within.
Ltac within_step :=
  try solve [eauto 7 with within nocore];
  repeat (first [apply within_admin; [done|]; intros ? ? | apply within_bind; [|intros ? ?]
                | apply within_when; intros ? | progress cbn beta iota zeta | case_match];
          try solve [eauto 7 with within nocore]).

Lemma account_route_licensed i r w : within lw_store (account_licensed i r) (account_route i r) w.
Proof.
  destruct r; cbn [account_route];
  unfold login_route, create_token, list_tokens, revoke_token, logout, list_users, create_user, update_user;
  within_step.
  apply within_in_api. eapply within_call; [apply performs_create_user|]. cbn. by rewrite <- negb_false_iff.
Qed.
End accounts.

(** ** What any requests keep *)

Section served.
Context `{AuditCodec}.

(** The checks behind every licensed write of a row. *)
Definition op_checked (op : store_op) : Prop :=
  match op with
  | OpUpsertPool _ name spec => name = p_name spec /\ pool_checked spec
  | OpUpsertAllocation a => is_ok (allocation_validate a) = true
  | OpCreateUser _ u _ _ _ => is_k8s_name u = true
  | OpUpsertAssignment _ p r sc => assignment_checked p r sc
  | _ => True
  end.
Lemma licensed_checked seed s i r op : licensed seed s i r op -> op_checked op.
Proof. destruct op; try done; destruct r; cbn; try done; intros; destruct_and?; by subst. Qed.
Lemma account_checked i r op : account_licensed i r op -> op_checked op.
Proof. destruct op; try done; destruct r; cbn; try done; intros; destruct_and?; by subst. Qed.

(** Every stored row is one its route accepts. *)
Record rows_valid (s : InMemoryStore) : Prop := {
  rv_pools : map_Forall (fun name p => name = p_name (sp_spec p) /\ pool_checked (sp_spec p)) (m_pools s);
  rv_allocations : map_Forall (fun _ a => is_ok (allocation_validate a) = true) (m_allocations s);
  rv_users : map_Forall (fun name _ => is_k8s_name name = true) (m_local_users s);
  rv_assignments : map_Forall (fun _ a =>
    assignment_checked (ra_principal a) (ra_role a) (ra_scope a)) (m_assignments s);
}.

Lemma rows_valid_same s s' :
  m_pools s' = m_pools s -> m_allocations s' = m_allocations s ->
  m_local_users s' = m_local_users s -> m_assignments s' = m_assignments s ->
  rows_valid s -> rows_valid s'.
Proof. intros Hp Ha Hu Hr [? ? ? ?]. split; by rewrite ?Hp, ?Ha, ?Hu, ?Hr. Qed.

Lemma map_Forall_alter {K} `{Countable K} {V} (P : K -> V -> Prop) (f : V -> V) k (m : gmap K V) :
  (forall v, P k v -> P k (f v)) -> map_Forall P m -> map_Forall P (alter f k m).
Proof.
  intros Hf Hm j v Hj. destruct (decide (k = j)) as [<-|Hne].
  - rewrite lookup_alter_eq in Hj. apply fmap_Some in Hj as (v0 & Hv & ->). by apply Hf, Hm.
  - rewrite lookup_alter_ne in Hj by done. by apply Hm.
Qed.

Lemma modify_user_valid u f s : rows_valid s -> rows_valid (snd (modify_user u f s)).
Proof.
  intros Hs. unfold modify_user. run_store. destruct (m_local_users s !! u) as [r|] eqn:E; [|done].
  destruct Hs as [? ? Hu ?]. split; [done|done| |done]. cbn.
  apply map_Forall_insert_2; [exact (Hu _ _ E)|done].
Qed.

Lemma exec_valid op s : op_checked op -> rows_valid s -> rows_valid (exec op s).
Proof.
  intros Hop Hs. destruct op; cbn [exec op_checked] in *;
    try (apply (rows_valid_same s); try done; unfold upsert_desired, set_desired, remove_cluster,
           begin_intent, seed_policy, create_api_token, revoke_api_token; run_store;
         repeat case_match; done).
  all: try (apply modify_user_valid, Hs).
  - destruct Hs as [Hp ? ? ?]. split; [|done..]. unfold upsert_pool. run_store. cbn.
    destruct Hop as [Hn Hc]. apply map_Forall_insert_2; [|exact Hp]. by destruct (m_pools s !! name).
  - unfold delete_pool. run_store. case_match; [|done]. destruct Hs. split; [|done..]. cbn.
    by apply map_Forall_delete.
  - destruct Hs as [Hp ? ? ?]. split; [|done..]. cbn. by apply map_Forall_alter.
  - destruct Hs as [? Ha ? ?]. split; [done| |done..]. cbn. by apply map_Forall_insert_2.
  - unfold delete_allocation. run_store. case_match; [|done]. destruct Hs. split; [done| |done..]. cbn.
    by apply map_Forall_delete.
  - unfold create_local_user. run_store. case_match; [done|]. destruct Hs as [? ? Hu ?].
    split; [done|done| |done]. cbn. by apply map_Forall_insert_2.
  - unfold record_login_failure, get_local_user. run_store.
    destruct (m_local_users s !! u) as [r|] eqn:E; [|done].
    destruct (next_login_failure_state _ _) as [f l]. apply modify_user_valid, Hs.
  - destruct Hs as [? ? ? Hr]. split; [done..|]. cbn. by apply map_Forall_insert_2.
  - unfold delete_role_assignment. run_store. case_match; [|done]. destruct Hs. split; [done..|]. cbn.
    by apply map_Forall_delete.
Qed.

Lemma run_ops_valid ops s : Forall op_checked ops -> rows_valid s -> rows_valid (run_ops ops s).
Proof.
  intros Hc. revert s. induction Hc as [|op ops Hop _ IH]; intros s Hs; [done|].
  apply IH. by apply exec_valid.
Qed.

(** The audit trail only grows. *)
Lemma exec_audit op s : m_audit s `prefix_of` m_audit (exec op s).
Proof.
  destruct op; cbn [exec]; try done;
    unfold upsert_desired, set_desired, remove_cluster, begin_intent, delete_pool, delete_allocation,
      seed_policy, create_local_user, set_local_user_password, set_local_user_role,
      set_local_user_disabled, record_login_failure, record_login_success, get_local_user,
      set_login_lockout, modify_user, create_api_token, revoke_api_token, delete_role_assignment,
      record_audit; run_store; repeat case_match; cbn; try done; by apply prefix_app_r.
Qed.
Lemma run_ops_audit ops s : m_audit s `prefix_of` m_audit (run_ops ops s).
Proof.
  revert s. induction ops as [|op ops IH]; intros s; [done|].
  etrans; [apply exec_audit|apply IH].
Qed.

Context `{Bcrypt} `{ObservationSerde} (ttl max_days : Z) (seed : PolicyConfig).

(** One request of either bundle, by whatever caller the middleware identified. *)
Inductive AnyRequest := OfApi (r : ApiRequest) | OfAccount (r : AccountRequest).

Definition serve (i : option Identity) (r : AnyRequest) : ST LocalWorld Response Response :=
  match r with
  | OfApi r => in_api (route seed i r)
  | OfAccount r => account_route ttl max_days i r
  end.

Definition serve_all (reqs : list (option Identity * AnyRequest)) (w : LocalWorld) : LocalWorld :=
  foldl (fun w r => snd (serve (fst r) (snd r) w)) w reqs.

Lemma serve_all_lawful reqs w :
  exists ops, Forall op_checked ops /\ lw_store (serve_all reqs w) = run_ops ops (lw_store w).
Proof.
  revert w. induction reqs as [|[i r] reqs IH]; intros w; [by exists []|].
  assert (forall w, within lw_store op_checked (serve i r) w) as Hl.
  { intros v. destruct r as [r|r]; cbn [serve].
    - apply within_in_api. eapply within_mono; [|apply route_licensed]. intros op. apply licensed_checked.
    - eapply within_mono; [|apply account_route_licensed]. intros op. apply account_checked. }
  destruct (Hl w) as (ops & Hc & Ho). destruct (IH (snd (serve i r w))) as (ops' & Hc' & Ho').
  exists (ops ++ ops'). split; [by apply Forall_app|]. rewrite run_ops_app, <- Ho. exact Ho'.
Qed.

End served.
