(* ===== verification/AdminFacts.v ===== *)
(** * Theorems about the administrative and account routes *)

From S2P Require Import Kueue Prelude Float64 Core Quantity Policy Usage Store StoreFacts StoreQueries.
From S2P Require Import Json Auth LocalAuth Views Api AdminApi AccountApi AuditApi ApiFacts ApiLaws.
#[local] Open Scope Z_scope.

Section admin.
Context `{AuditCodec}.

(** ** Authorization of a route *)

Definition permitted (i : option Identity) (a : PermissionType) (t : Target) : bool :=
  match i with None => true | Some i => permits i a t end.

Lemma or_deny_authorize i a t w :
  exists w', or_deny (authorize i a t) w = (if permitted i a t then Ok tt else Err forbidden, w') /\
    (permitted i a t = true -> w' = w) /\ core (api_store w') = core (api_store w) /\
    m_policy (api_store w') = m_policy (api_store w).
Proof.
  unfold or_deny, authorize, permitted. destruct i as [i|]; [|by eexists].
  destruct (permits i a t); by eexists.
Qed.

(** An event writes nothing but the audit trail. *)
Lemma route_event_keeps s d r a m p st w :
  exists w', route_event s d r a m p st w = (Ok tt, w') /\
    core (api_store w') = core (api_store w) /\ m_policy (api_store w') = m_policy (api_store w).
Proof. by eexists. Qed.

(** ** Allocations *)

Lemma tenants_with_one project existing :
  tenants_with project existing <= 1 <-> Forall (fun a => a_project a = project) existing.
Proof.
  unfold tenants_with. split.
  - intros Hs. apply Forall_forall. intros a Ha.
    set (X := {[project]} ∪ list_to_set (a_project <$> existing) : gset string) in Hs.
    assert (project ∈ X) by set_solver.
    assert (a_project a ∈ X).
    { apply elem_of_union_r, elem_of_list_to_set, list_elem_of_fmap. by exists a. }
    assert (size X <> 0)%nat by (apply size_non_empty_iff; set_solver).
    eapply (size_singleton_inv X); [lia|done..].
  - intros Hf. assert ({[project]} ∪ list_to_set (a_project <$> existing) ⊆ ({[project]} : gset string)) as Hsub.
    { intros x Hx. apply elem_of_union in Hx as [Hx|Hx]; [done|].
      apply elem_of_list_to_set, list_elem_of_fmap in Hx as (a & -> & Ha).
      apply elem_of_singleton. by eapply Forall_forall in Hf. }
    apply subseteq_size in Hsub. rewrite size_singleton in Hsub. lia.
Qed.

(** The projects with an allocation in a pool. *)
Definition tenant (s : InMemoryStore) (pool project : string) : Prop :=
  is_Some (m_allocations s !! (pool, project)).

Lemma pool_isolated spec d s pool project :
  map_Forall (fun k a => (a_pool a, a_project a) = k) (m_allocations s) ->
  is_ok (check_pool_gpu_isolation spec d
    (tenants_with project (filter (fun a => a_pool a = pool) (map_values (m_allocations s))))) = true <->
  (effective_gpu_sharing spec d = TimeSlice -> forall other, tenant s pool other -> other = project).
Proof.
  intros Hwf. unfold check_pool_gpu_isolation.
  assert (tenants_with project (filter (fun a => a_pool a = pool) (map_values (m_allocations s))) <= 1 <->
          forall other, tenant s pool other -> other = project) as Hone.
  { rewrite tenants_with_one, Forall_forall. setoid_rewrite list_elem_of_filter.
    setoid_rewrite elem_of_map_values. split.
    - intros Hall other (a & Ha). pose proof (Hwf _ _ Ha) as Hk. injection Hk as Hpool <-.
      apply Hall. split; [done|]. by eexists.
    - intros Hall a [<- (k & Ha)]. apply Hall. pose proof (Hwf _ _ Ha) as <-. by eexists. }
  rewrite <- Hone. rewrite Z.gtb_ltb. destruct (Z.ltb_spec 1 (tenants_with project
    (filter (fun a => a_pool a = pool) (map_values (m_allocations s))))) as [Hlt|Hle]; cbn [andb].
  - case_bool_decide as Ht; cbn; [|naive_solver]. split; [done|]. intros Hall. specialize (Hall Ht). lia.
  - cbn. naive_solver.
Qed.

Lemma call_get {A} (f : InMemoryStore -> A) w : call (st_get f) w = (Ok (f (api_store w)), w).
Proof. by destruct w. Qed.

(** Putting an allocation. It answers 200 exactly when the caller may write pools,
    the body does not contradict the path, the pool exists, the names are valid,
    and the pool is not one that time-slices its GPUs while another project holds
    an allocation in it; then exactly that allocation is stored. Any other answer
    leaves the allocations as they were. So after a 200 a time-sliced pool has the
    one tenant. *)
Theorem put_allocation_spec seed i name project body w :
  store_wf (api_store w) ->
  let r := fst (answer (put_allocation seed i name project body) w) in
  let s := api_store w in
  let s' := api_store (snd (answer (put_allocation seed i name project body) w)) in
  let alloc := {| a_pool := name; a_project := project; a_namespace := pa_namespace body;
                  a_nominal := pa_nominal body; a_borrowing_limit := pa_borrowing_limit body;
                  a_lending_limit := pa_lending_limit body |} in
  (rs_status r = 200 <->
     permitted i Write TPool = true /\
     is_none_or (pa_pool body) (String.eqb name) = true /\
     is_none_or (pa_project body) (String.eqb project) = true /\
     allocation_validate alloc = Ok tt /\
     exists p, m_pools s !! name = Some p /\
       (effective_gpu_sharing (sp_spec p) (pc_gpu_default_sharing seed) = TimeSlice ->
        forall other, tenant s name other -> other = project)) /\
  m_allocations s' = (if bool_decide (rs_status r = 200) then <[(name, project) := alloc]> (m_allocations s)
                      else m_allocations s).
Proof.
  intros Hwf. cbn zeta. unfold answer, put_allocation.
  destruct (or_deny_authorize i Write TPool w) as (w1 & Hd & Hs & Hcore & _).
  rewrite ST_bind_eq, Hd. destruct (permitted i Write TPool) eqn:Hp; cbn [fst snd];
    [|split; [split; [done|by intros []]|by injection Hcore]].
  rewrite Hs by done. clear Hd Hs Hcore w1. set (s := api_store w).
  unfold is_some_and, is_none_or.
  destruct (match pa_pool body with None => false | Some a => negb (String.eqb a name) end
    || match pa_project body with None => false | Some a => negb (String.eqb a project) end) eqn:Hbody.
  { cbn [fst snd mret ST_ret respond rs_status]. split; [|done]. split; [done|].
    intros (_ & Hb1 & Hb2 & _). exfalso.
    destruct (pa_pool body) as [p'|], (pa_project body) as [q'|];
      rewrite ?(String.eqb_sym name), ?(String.eqb_sym project) in *; rewrite ?Hb1, ?Hb2 in Hbody; done. }
  apply orb_false_iff in Hbody as [Hb1 Hb2].
  assert (match pa_pool body with None => true | Some a => String.eqb name a end = true) as Hb1'.
  { destruct (pa_pool body); [|done]. rewrite String.eqb_sym. by apply negb_false_iff. }
  assert (match pa_project body with None => true | Some a => String.eqb project a end = true) as Hb2'.
  { destruct (pa_project body); [|done]. rewrite String.eqb_sym. by apply negb_false_iff. }
  rewrite ST_bind_eq. unfold get_pool. rewrite call_get. fold s.
  destruct (m_pools s !! name) as [pool|] eqn:Hpool.
  2:{ cbn. split; [|done]. split; [done|]. by intros (_ & _ & _ & _ & ? & ? & _). }
  destruct (allocation_validate _) as [[]|e] eqn:Hval.
  2:{ cbn. split; [|done]. split; [done|]. by intros (_ & _ & _ & ? & _). }
  rewrite ST_bind_eq. unfold list_allocations. rewrite call_get. fold s.
  pose proof (pool_isolated (sp_spec pool) (pc_gpu_default_sharing seed) s name project
    (wf_allocations _ Hwf)) as Hiso.
  destruct (check_pool_gpu_isolation _ _ _) as [[]|v]; cbn in Hiso |- *.
  - split; [|done]. split; [|done]. intros _. split_and!; try done. exists pool. split; [done|].
    by apply Hiso.
  - split; [|done]. split; [done|]. intros (_ & _ & _ & _ & p & [= <-] & Hall).
    apply Hiso in Hall. done.
Qed.
End admin.

(** ** The governance policy *)

Section settings.
Context `{AuditCodec}.

Definition amounts_ok (m : gmap string f64) : Prop := map_Forall (fun _ v => f64_nonneg v) m.
Definition update_ok (body : UpdatePolicy) : Prop :=
  (forall prices, up_prices body = Some (Some prices) -> amounts_ok prices) /\
  (forall quotas, up_quotas body = Some quotas -> map_Forall (fun _ => amounts_ok) quotas) /\
  (forall budgets, up_budgets body = Some budgets ->
     map_Forall (fun _ b => sb_window_secs b <> 0 /\ amounts_ok (sb_limits b)) budgets).

Lemma amount_ok v : negb (f64_is_finite v) || f64_ltb v f64_zero = false <-> f64_nonneg v.
Proof. destruct v as [[]| | |[] m e]; cbn; naive_solver. Qed.

Lemma map_Forall_btree {V} (P : string -> V -> Prop) (m : gmap string V) :
  map_Forall P m <-> Forall (fun kv => P (fst kv) (snd kv)) (btree_iter m).
Proof.
  rewrite Forall_forall. split.
  - intros Hm [k v] Hin. by apply Hm, elem_of_btree_iter.
  - intros Hl k v Hk. exact (Hl (k, v) (proj2 (elem_of_btree_iter m k v) Hk)).
Qed.

Lemma validate_amounts_ok m what : is_ok (validate_amounts m what) = true <-> amounts_ok m.
Proof.
  unfold validate_amounts, amounts_ok. rewrite map_Forall_btree.
  induction (btree_iter m) as [|[k v] l IH]; cbn [find]; [by rewrite Forall_nil|].
  rewrite Forall_cons. cbn [fst snd]. rewrite <- amount_ok.
  destruct (_ || _); [split; [done|by intros []]|]. rewrite IH. naive_solver.
Qed.

Lemma validate_quotas_ok l :
  is_ok (validate_quotas l) = true <-> Forall (fun kv => amounts_ok (snd kv)) l.
Proof.
  induction l as [|[p m] l IH]; cbn [validate_quotas]; [by rewrite Forall_nil|].
  rewrite Forall_cons. cbn [snd]. rewrite <- (validate_amounts_ok m (QuotaOf p)), <- IH.
  destruct (validate_amounts m (QuotaOf p)); cbn; naive_solver.
Qed.

Lemma validate_budgets_ok l :
  is_ok (validate_budgets l) = true <->
  Forall (fun kv => sb_window_secs (snd kv) <> 0 /\ amounts_ok (sb_limits (snd kv))) l.
Proof.
  induction l as [|[p b] l IH]; cbn [validate_budgets]; [by rewrite Forall_nil|].
  rewrite Forall_cons. cbn [snd]. rewrite <- (validate_amounts_ok (sb_limits b) (BudgetOf p)), <- IH.
  destruct (Z.eqb_spec (sb_window_secs b) 0); [naive_solver|].
  destruct (validate_amounts (sb_limits b) (BudgetOf p)); cbn; naive_solver.
Qed.

Lemma validate_update_ok body : is_ok (validate_update body) = true <-> update_ok body.
Proof.
  unfold validate_update, update_ok.
  assert (forall (a b c : result SettingsError unit),
    is_ok (a ≫= fun _ => b ≫= fun _ => c) = true <-> is_ok a = true /\ is_ok b = true /\ is_ok c = true)
    as -> by (intros [?|?] [?|?] [?|?]; cbn; naive_solver).
  assert (is_ok (match up_prices body with Some (Some p) => validate_amounts p PriceOf | _ => Ok tt end)
    = true <-> forall prices, up_prices body = Some (Some prices) -> amounts_ok prices) as ->.
  { destruct (up_prices body) as [[p|]|]; [rewrite validate_amounts_ok|..]; naive_solver. }
  assert (is_ok (match up_quotas body with Some q => validate_quotas (btree_iter q) | None => Ok tt end)
    = true <-> forall q, up_quotas body = Some q -> map_Forall (fun _ => amounts_ok) q) as ->.
  { destruct (up_quotas body) as [q|]; [|naive_solver]. rewrite validate_quotas_ok.
    rewrite <- (map_Forall_btree (fun _ => amounts_ok)). naive_solver. }
  destruct (up_budgets body) as [b|]; [|naive_solver]. rewrite validate_budgets_ok.
  rewrite <- (map_Forall_btree (fun _ b => sb_window_secs b <> 0 /\ amounts_ok (sb_limits b))).
  naive_solver.
Qed.

(** What the routes read as the policy: the stored row, or the seed of the boot file. *)
Definition policy_row (seed : PolicyConfig) (s : InMemoryStore) : option StoredPolicy :=
  match m_policy s with Some p => Some p | None => seed_from_config seed end.

Lemma effective_policy_row seed w :
  exists w', call (effective_policy seed) w = (Ok (policy_row seed (api_store w)), w') /\
    m_policy (api_store w') = policy_row seed (api_store w) /\
    core (api_store w') = core (api_store w).
Proof.
  unfold call, effective_policy, policy_row, get_policy, seed_policy. run_store.
  destruct (m_policy (api_store w)) as [p|] eqn:E; cbn; [by eexists|].
  destruct (seed_from_config seed); cbn; [|by eexists]. rewrite E. cbn. by eexists.
Qed.

(** Editing the policy. Only a caller with the admin verb changes it, and only with
    amounts that are finite and not negative and budget windows that are not zero;
    then the answer is 200, the sections the body names are replaced and the
    others keep what was in force (stored, or the boot seed), and the row no longer
    counts as the seed. Any other answer leaves the policy in force as it was. *)
Theorem update_policy_spec seed i body w :
  let '(r, w') := answer (update_policy seed i body) w in
  (rs_status r = 200 <-> permitted i PAdmin TCluster = true /\ update_ok body) /\
  m_policy (api_store w') =
    (if bool_decide (rs_status r = 200)
     then Some (apply_update body (default default_stored_policy (policy_row seed (api_store w))))
     else m_policy (api_store w)) /\
  core (api_store w') = core (api_store w).
Proof.
  unfold answer, update_policy.
  destruct (or_deny_authorize i PAdmin TCluster w) as (w1 & Hd & Hs & Hcore & Hpol).
  rewrite ST_bind_eq, Hd. destruct (permitted i PAdmin TCluster) eqn:Hp;
    [|split_and!; [split; [done|by intros []]|done|done]].
  rewrite Hs by done. clear Hd Hs Hcore Hpol w1.
  pose proof (validate_update_ok body) as Hok.
  destruct (validate_update body) as [[]|e]; [|cbn in Hok |- *; naive_solver].
  destruct (effective_policy_row seed w) as (w1 & He & _ & Hcore). rewrite ST_bind_eq, He.
  cbv zeta. rewrite ST_bind_eq. cbn [call set_policy_row st_put map_err].
  unfold admin_event. rewrite ST_bind_eq.
  match goal with |- context [route_event ?s ?d ?r ?a ?m ?p ?st ?v] =>
    destruct (route_event_keeps s d r a m p st v) as (w2 & Hr & Hc2 & Hp2); rewrite Hr end.
  cbn. rewrite Hc2, Hp2. cbn. split_and!; [naive_solver|done|done].
Qed.
End settings.

(** ** Login over the wire, and who owns a token *)

Section accounts.
Context `{AuditCodec} `{Bcrypt} (ttl max_days : Z).

(** The audit row of a login. *)
Definition login_row (username : string) (r : result LocalAuthError LoginOutcome) (ts : Z) : AuditEvent := {|
  ae_ts := ts; ae_subject := Some username;
  ae_decision := if is_ok r then Allow else Deny;
  ae_reason := match r with Ok _ => None | Err e => Some (failure_reason e) end;
  ae_action := Some "login"%string; ae_cluster := None; ae_method := Some "POST"%string;
  ae_path := Some "/api/v1/auth/login"%string; ae_status := Some (if is_ok r then 200 else 401);
  ae_latency_ms := None; ae_required := None; ae_granted_roles := [] |}.

(** C32. What a failed login tells. Whether the user is unknown, disabled or locked out, the
    password wrong or the store failing, the answer is the same 401 with the same
    body; the reason is only in the audit row, one per login whatever comes of it.
    A login that succeeds hands out the token and the identity of the session. *)
Theorem login_route_spec username password w :
  let r := fst (login ttl username password w) in
  let w1 := snd (login ttl username password w) in
  let '(resp, w') := account_answer (login_route ttl username password) w in
  resp = match r with Ok o => respond 200 (LoginBody (login_response o)) | Err _ => invalid_credentials end /\
  lw_store w' = snd (record_audit (login_row username r (lw_clock w1 (lw_reads w1))) (lw_store w1)).
Proof.
  cbn zeta. unfold account_answer, login_route, attempt. rewrite ST_bind_eq.
  destruct (login ttl username password w) as [[o|e] w1]; cbn [fst snd];
    rewrite ST_bind_eq; unfold audit_login, event, in_api, route_event; rewrite ST_bind_eq; by cbn.
Qed.

(** The account routes that handle tokens. *)
Inductive token_request :=
| TCreate (label : string) (days : Z) | TList | TRevoke (prefix : string) | TLogout (token : option string).
Definition token_route (i : option Identity) (r : token_request) : ST LocalWorld Response Response :=
  match r with
  | TCreate label days => create_token max_days i label days
  | TList => list_tokens i
  | TRevoke prefix => revoke_token i prefix
  | TLogout token => logout i token
  end.

(** Tokens of others stay, and new ones are the caller's. *)
Definition owner_scoped (subject : string) (s s' : InMemoryStore) : Prop :=
  (forall prefix t, m_api_tokens s !! prefix = Some t -> at_username t <> subject ->
     m_api_tokens s' !! prefix = Some t) /\
  (forall prefix t, m_api_tokens s' !! prefix = Some t ->
     m_api_tokens s !! prefix = Some t \/ at_username t = subject).

Lemma owner_scoped_same subject s s' : m_api_tokens s' = m_api_tokens s -> owner_scoped subject s s'.
Proof. intros Heq. split; intros ? ?; rewrite Heq; auto. Qed.

Lemma revoke_scoped subject prefix s : owner_scoped subject s (snd (revoke_api_token prefix subject s)).
Proof.
  unfold revoke_api_token. run_store. destruct (m_api_tokens s !! prefix) as [t|] eqn:E;
    [|by apply owner_scoped_same]. destruct (String.eqb_spec (at_username t) subject) as [Hu|];
    [|by apply owner_scoped_same].
  split; cbn; intros p t' Hp.
  - intros Hne. rewrite lookup_insert_ne; [done|]. intros <-. by simplify_eq.
  - apply lookup_insert_Some in Hp as [[_ <-]|[_ Hp]]; auto.
Qed.

Lemma issue_scoped subject label days w :
  owner_scoped subject (lw_store w) (lw_store (snd (issue_token max_days subject label days w))).
Proof.
  unfold issue_token. destruct (_ || _); [by apply owner_scoped_same|].
  rewrite ST_bind_eq, get_user_eq. destruct (m_local_users (lw_store w) !! subject) as [u|];
    [|by apply owner_scoped_same].
  destruct (lu_disabled u); [by apply owner_scoped_same|].
  rewrite ST_bind_eq. cbn [LocalAuth.now_unix]. cbv zeta. rewrite ST_bind_eq.
  match goal with |- context [store_token _ _ _ ?v] => set (w0 := v) end.
  destruct (store_token subject label _ w0) as [[tok|e] w1] eqn:Hst.
  - apply store_token_Ok in Hst as (rec & _ & _ & _ & _ & Hu & _ & _ & _ & Hnone & Hs).
    assert (owner_scoped subject (lw_store w) (lw_store w1)) as Hown.
    { rewrite Hs. split; cbn; intros p t Hp.
      - intros _. rewrite lookup_insert_ne; [exact Hp|]. intros <-. unfold w0 in Hnone. cbn in Hnone. congruence.
      - apply lookup_insert_Some in Hp as [[_ <-]|[_ Hp]]; auto. }
    rewrite ST_bind_eq. unfold use_store, lstore, get_api_token_by_prefix, st_get. cbn.
    by destruct (m_api_tokens (lw_store w1) !! mt_prefix tok).
  - cbn. revert Hst. unfold store_token, mint_token_parts, hash_password, LocalAuth.now_unix, use_store,
      lstore, create_api_token. unfold mbind, ST_bind, st_get, st_put, st_err, mret, ST_ret. cbn.
    destruct (bcrypt_hash _ _); cbn; [|intros [= _ <-]; by apply owner_scoped_same].
    destruct (m_api_tokens (lw_store w) !! _); cbn; [|done].
    intros [= _ <-]. by apply owner_scoped_same.
Qed.

Lemma owner_scoped_audit subject s s' e :
  owner_scoped subject s s' -> owner_scoped subject s (snd (record_audit e s')).
Proof. done. Qed.

(** C34. Token ownership. Without an identity the token routes answer 401 and change
    nothing. With one they touch the caller's own tokens only: every token of
    another user stays as it is, new ones belong to the caller, and the list shows
    the caller's alone, without hashes; revoking another's token and one that does
    not exist get the same 404. *)
Theorem tokens_are_owner_scoped i r w :
  let '(resp, w') := account_answer (token_route i r) w in
  match i with
  | None => resp = authentication_required /\ w' = w
  | Some id =>
      owner_scoped (id_subject id) (lw_store w) (lw_store w') /\
      (forall l, rs_body resp = TokenBodies l -> Forall (fun v => av_username v = id_subject id) l) /\
      (forall prefix, r = TRevoke prefix ->
         match m_api_tokens (lw_store w) !! prefix with
         | Some t => if String.eqb (at_username t) (id_subject id) then rs_status resp = 204
                     else resp = respond 404 (Text "no such token")
         | None => resp = respond 404 (Text "no such token")
         end)
  end.
Proof.
  destruct i as [id|]; [|by destruct r]. destruct r as [label days| |prefix|token]; cbn [token_route].
  - unfold account_answer, create_token, attempt. rewrite ST_bind_eq.
    pose proof (issue_scoped (id_subject id) label days w) as Hs.
    destruct (issue_token max_days (id_subject id) label days w) as [[[minted record]|e] w1].
    + rewrite ST_bind_eq. unfold event, in_api, route_event. rewrite ST_bind_eq. cbn.
      split_and!; [exact Hs|done|done].
    + destruct e; cbn; split_and!; (exact Hs || done).
  - cbn. split_and!; [by apply owner_scoped_same| |done]. intros l [= <-].
    apply Forall_fmap, Forall_forall. intros t Ht. unfold sort_by_key in Ht.
    apply elem_of_sort_stable, list_elem_of_filter in Ht as [Hu _]. exact Hu.
  - unfold account_answer, revoke_token, succeeds. rewrite ST_bind_eq.
    pose proof (revoke_scoped (id_subject id) prefix (lw_store w)) as Hs. revert Hs.
    unfold revoke_api_token. run_store.
    destruct (m_api_tokens (lw_store w) !! prefix) as [t|] eqn:E;
      [destruct (String.eqb (at_username t) (id_subject id)) eqn:Hu|]; cbn; intros Hs;
      (split_and!; [exact Hs|done|]); intros ? [= <-]; by rewrite E, ?Hu.
  - unfold account_answer, logout. rewrite ST_bind_eq. destruct (presented_prefix token) as [p|].
    + pose proof (revoke_scoped (id_subject id) p (lw_store w)) as Hs. revert Hs.
      unfold succeeds. destruct (revoke_api_token p (id_subject id) (lw_store w)) as [[[]|e] s'];
        cbn; intros Hs; split_and!; (exact Hs || done).
    + cbn. split_and!; [by apply owner_scoped_same|done|done].
Qed.
End accounts.

(** ** Concrete runs *)

#[local] Instance admin_codec : AuditCodec := {|
  sha256_hex := fun s => s; audit_json := fun _ => EmptyString |}.
#[local] Instance no_observation : ObservationSerde := fun _ => None.
#[local] Existing Instance plain_bcrypt.

Definition demo_flavor : FlavorSpec := {|
  f_name := "a100"; f_resources := [("cpu", "64"); ("nvidia.com/gpu", "8")]%string;
  f_node_labels := []; f_taints := [] |}.
Definition demo_pool (sharing : option GpuSharing) : PoolSpec := {|
  p_name := "gpu"; p_flavors := [demo_flavor]; p_cohort := "main"; p_fair_sharing_weight := f64_one;
  p_elastic := true; p_gpu_sharing := sharing |}.
Definition demo_put : PutAllocation := {|
  pa_pool := None; pa_project := Some "team-a"%string; pa_namespace := "team-a";
  pa_nominal := [("cpu", "8")]%string; pa_borrowing_limit := []; pa_lending_limit := [] |}.
Definition put_for (project : string) : PutAllocation := {|
  pa_pool := None; pa_project := None; pa_namespace := project; pa_nominal := [];
  pa_borrowing_limit := []; pa_lending_limit := [] |}.

Definition serve_demo (reqs : list (option Identity * AnyRequest)) (w : LocalWorld) : LocalWorld :=
  serve_all 3600 90 default_policy reqs w.

(** The isolation check is made when an allocation is put, and deleting a pool
    leaves its allocations behind: recreated under the same name with time slicing,
    the pool is shared by two tenants. *)
Lemma recreated_pool_shares_time_slice :
  let w := serve_demo
    [(None, OfApi (CreatePool (demo_pool None)));
     (None, OfApi (PutAllocationReq "gpu" "team-a" (put_for "team-a")));
     (None, OfApi (PutAllocationReq "gpu" "team-b" (put_for "team-b")));
     (None, OfApi (DeletePool "gpu"));
     (None, OfApi (CreatePool (demo_pool (Some TimeSlice))))] demo_local_world in
  (p_gpu_sharing ∘ sp_spec <$> m_pools (lw_store w) !! "gpu"%string) = Some (Some TimeSlice) /\
  tenant (lw_store w) "gpu" "team-a" /\ tenant (lw_store w) "gpu" "team-b".
Proof. vm_compute. split_and!; [done|by eexists..]. Qed.

(** A caller of the identity provider whose subject happens to be a local user's
    name is handed that user's token, with that user's role. *)
Definition provider_alice : Identity := {|
  id_subject := "alice"; id_username := None; id_email := None; id_groups := []; id_roles := [];
  id_project_roles := [] |}.
Lemma subject_of_provider_mints_local_token :
  let '(r, w) := account_answer (create_token 90 (Some provider_alice) "laptop" 30) demo_local_world in
  exists v i w', r = respond 201 (NewTokenBody v) /\
    authenticate_token (cr_token v) w = (Ok (Some i), w') /\ id_roles i = [Operator].
Proof. vm_compute. do 3 eexists. split_and!; reflexivity. Qed.

Lemma put_allocation_spec_witness :
  let w := api_view (serve_demo [(None, OfApi (CreatePool (demo_pool (Some TimeSlice))))] demo_local_world) in
  let w' := snd (answer (put_allocation default_policy None "gpu" "team-a" demo_put) w) in
  rs_status (fst (answer (put_allocation default_policy None "gpu" "team-a" demo_put) w)) = 200 /\
  tenant (api_store w') "gpu" "team-a".
Proof.
  cbn zeta. set (w0 := serve_demo _ _).
  assert (store_wf (api_store (api_view w0))) as Hwf.
  { subst w0. cbn [api_view api_store]. unfold serve_demo.
    destruct (serve_all_lawful 3600 90 default_policy
      [(None, OfApi (CreatePool (demo_pool (Some TimeSlice))))] demo_local_world) as (ops & _ & ->).
    apply run_ops_wf. unfold demo_local_world. cbn [lw_store].
    apply create_user_wf, empty_store_wf. }
  destruct (put_allocation_spec default_policy None "gpu" "team-a" demo_put (api_view w0) Hwf)
    as [Hiff Hall].
  assert (rs_status (fst (answer (put_allocation default_policy None "gpu" "team-a" demo_put)
            (api_view w0))) = 200) as H200.
  { apply Hiff. split_and!; try reflexivity. eexists. split; [vm_compute; reflexivity|].
    intros _ other [a Ha]. exfalso. revert Ha. vm_compute. discriminate. }
  split; [exact H200|]. unfold tenant. rewrite Hall, bool_decide_eq_true_2, lookup_insert_eq by exact H200.
  by eexists.
Defined.


(** A resource that one flavor does not parse is left out of the pool's nominal
    quotas, but not out of its usage once something is allocated: there the sum of
    the other flavors stands as the nominal. *)
Definition half_readable_pool : StoredPool := {|
  sp_name := "gpu";
  sp_spec := {| p_name := "gpu"; p_flavors :=
      [demo_flavor; {| f_name := "h100"; f_resources := [("cpu", "many")]%string;
                       f_node_labels := []; f_taints := [] |}];
    p_cohort := "main"; p_fair_sharing_weight := f64_one; p_elastic := true; p_gpu_sharing := None |};
  sp_generation := 1; sp_observed_json := None; sp_observed_at := Some 7; sp_created_at := 1 |}.
Lemma partial_nominal_is_shown :
  pw_total_nominal (pool_from_stored half_readable_pool) !! "cpu"%string = None /\
  (ru_nominal <$> uv_utilization (pool_usage_view half_readable_pool "gpu" (Some {|
     po_admitted_workloads := 1; po_reserving_workloads := 0; po_pending_workloads := 0;
     po_flavors_usage := {[ "a100"%string := {[ "cpu"%string := "32"%string ]} ]};
     po_queues_usage := ∅ |})) !! "cpu"%string) = Some (f64_of_Z 64).
Proof. vm_compute. by split. Qed.
