(* ===== verification/Admission.v ===== *)
(** * Creating clusters: admission control (crates/mobula-api/src/clusters.rs, create_cluster)

    What the handler's gates promise, stated on the store: authorization, GPU
    tenant isolation, the project's quota over its other running clusters, its
    budget over the trailing window. *)

From S2P Require Import Prelude Float64 Core Policy Usage Store StoreFacts StoreQueries Json.
From S2P Require Import Reconcile Auth Api ApiFacts.
#[local] Open Scope Z_scope.

Section admission.
Context `{AuditCodec}.

(** ** What the gates test *)

(** The allocations of a pool, and the first pool that has one for the project. *)
Definition tenants (s : InMemoryStore) (p : StoredPool) : list AllocationSpec :=
  filter (fun a => a_pool a = sp_name p) (map_values (m_allocations s)).
Definition pool_for (project : string) (s : InMemoryStore) : option StoredPool :=
  find (fun p => existsb (fun a => String.eqb (a_project a) project) (tenants s p))
    (map_values (m_pools s)).

(** The project's running clusters other than [id]. *)
Definition running_elsewhere (s : InMemoryStore) (project id : string) : list StoredCluster :=
  filter (fun c => cs_project (c_spec c) = project /\ c_id c <> id /\ c_desired c = DRunning)
    (map_values (m_clusters s)).

(** The maximum demand of a list of clusters, every one of which has one. *)
Definition usage_of (cs : list StoredCluster) (in_use : ResourceMap) : Prop :=
  exists ds, Forall2 (fun c d => exists mn, cluster_demand (c_spec c) = Ok (mn, d)) cs ds /\
    in_use = foldl rm_add ∅ ds.

(** The clusters [cs] and the request together are within the limit on every
    resource; a resource the limit does not list has limit zero. *)
Definition fits_beside (limit : ResourceMap) (cs : list StoredCluster) (spec : ClusterSpec) : Prop :=
  exists mn requested in_use, cluster_demand spec = Ok (mn, requested) /\ usage_of cs in_use /\
    forall k v, rm_add in_use requested !! k = Some v -> f64_leb v (rm_get limit k) = true.

Definition within_quota (limit : ResourceMap) (s : InMemoryStore) (id : string) (spec : ClusterSpec)
  : Prop := fits_beside limit (running_elsewhere s (cs_project spec) id) spec.

(** No capped resource has reached its cap in the window ending now. *)
Definition within_budget (b : Budget) (w : ApiWorld) (project : string) : Prop :=
  let now := api_clock w (api_reads w) in
  exists consumed,
    fst (windowed_consumption project (sat_sub now (b_window_secs b)) now (api_store w)) = Ok consumed /\
    forall k cap, b_limits b !! k = Some cap -> f64_geb (rm_get consumed k) cap = false.

(** What holds when admission lets a request through. *)
Record admissible (seed : PolicyConfig) (identity : option Identity) (id : string)
    (spec : ClusterSpec) (w : ApiWorld) : Prop := {
  ad_authorized : allowed (api_store w) identity Write TCluster (cs_project spec) = true;
  ad_gpu : forall p, pool_for (cs_project spec) (api_store w) = Some p ->
    check_cluster_gpu_isolation (sp_spec p) (pc_gpu_default_sharing seed)
      (Z.of_nat (length (tenants (api_store w) p))) (owned_spec identity spec) = Ok tt;
  ad_quota : forall limit, pc_quotas (policy_of seed (api_store w)) !! cs_project spec = Some limit ->
    within_quota limit (api_store w) id (owned_spec identity spec);
  ad_budget : forall b, pc_budgets (policy_of seed (api_store w)) !! cs_project spec = Some b ->
    within_budget b w (cs_project spec);
}.

(** ** Gates *)

(** A gate lets a request through exactly when [Q] holds, and then touches
    nothing; else it answers something other than 201 and changes no table
    admission reads. *)
Definition gate (m : H unit) (Q : Prop) (w : ApiWorld) : Prop :=
  match m w with
  | (Ok _, w') => Q /\ core (api_store w') = core (api_store w)
  | (Err r, w') => ~ Q /\ rs_status r <> 201 /\ core (api_store w') = core (api_store w)
  end.
(** A step that leaves no trace when it lets a request through. *)
Definition traceless (m : H unit) : Prop := forall w w', m w = (Ok tt, w') -> w' = w.

Lemma gate_seq m k Q R w :
  traceless m -> gate m Q w -> (Q -> gate k R w) -> gate (m ≫= fun _ => k) (Q /\ R) w.
Proof.
  unfold gate, mbind, ST_bind. intros Ht Hm Hk. destruct (m w) as [[[]|r] w1] eqn:E.
  - apply Ht in E as ->. destruct Hm as [Hq _]. specialize (Hk Hq).
    destruct (k w) as [[[]|r] w2]; tauto.
  - tauto.
Qed.

Lemma gate_iff m Q Q' w : (Q <-> Q') -> gate m Q w -> gate m Q' w.
Proof. unfold gate. destruct (m w) as [[]]; tauto. Qed.

Lemma audited_eq i d r a id st w : exists w', audited i d r a id st w = (Ok tt, w') /\
  core (api_store w') = core (api_store w).
Proof. pose proof (keeps_audited i d r a id st w). by eexists. Qed.

Lemma gate_or_deny identity project w :
  gate (or_deny (authorize_scoped identity Write TCluster project))
    (allowed (api_store w) identity Write TCluster project = true) w.
Proof.
  destruct (or_deny_scoped identity Write TCluster project w) as (w' & Hd & _ & Hc).
  unfold gate. rewrite Hd. by destruct (allowed _ _ _ _ _).
Qed.
Lemma traceless_or_deny identity project :
  traceless (or_deny (authorize_scoped identity Write TCluster project)).
Proof.
  intros w w' Hw. destruct (or_deny_scoped identity Write TCluster project w) as (w1 & Hd & Hs & _).
  rewrite Hd in Hw. destruct (allowed _ _ _ _ _) eqn:E; [|done]. injection Hw as <-. by apply Hs.
Qed.

Lemma call_list_pools w : call list_pools w = (Ok (map_values (m_pools (api_store w))), w).
Proof. by destruct w. Qed.
Lemma call_list_clusters w : call list_clusters w = (Ok (map_values (m_clusters (api_store w))), w).
Proof. by destruct w. Qed.
Lemma call_list_allocations p w :
  call (list_allocations (sp_name p)) w = (Ok (tenants (api_store w) p), w).
Proof. by destruct w. Qed.

Definition gpu_ok (d : GpuSharing) (spec : ClusterSpec) (s : InMemoryStore)
    (pools : list StoredPool) : Prop :=
  forall p, find (fun p => existsb (fun a => String.eqb (a_project a) (cs_project spec)) (tenants s p))
      pools = Some p ->
    check_cluster_gpu_isolation (sp_spec p) d (Z.of_nat (length (tenants s p))) spec = Ok tt.

Lemma refused_gate (i : option Identity) reason action id st r w (Q : Prop) :
  ~ Q -> rs_status r <> 201 ->
  match ((_ ← audited i Deny reason action id st; st_err r) : H unit) w with
  | (Ok _, w') => Q /\ core (api_store w') = core (api_store w)
  | (Err r, w') => ~ Q /\ rs_status r <> 201 /\ core (api_store w') = core (api_store w)
  end.
Proof.
  intros Hq Hr. rewrite ST_bind_eq. by destruct (audited_eq i Deny reason action id st w) as (w' & -> & ?).
Qed.

Lemma gate_gpu d identity id spec pools w :
  gate (gpu_admission d identity id spec pools) (gpu_ok d spec (api_store w) pools) w.
Proof.
  unfold gate, gpu_ok. induction pools as [|p pools IH]; cbn [gpu_admission find]; [done|].
  rewrite ST_bind_eq, call_list_allocations.
  destruct (existsb _ (tenants (api_store w) p)); cbn [negb]; [|exact IH].
  destruct (check_cluster_gpu_isolation _ _ _ _) as [[]|v] eqn:Hc.
  - split; [|done]. by intros p' [= <-].
  - apply refused_gate; [|done]. intros Hq. specialize (Hq _ eq_refl). congruence.
Qed.

Lemma traceless_gpu d identity id spec pools : traceless (gpu_admission d identity id spec pools).
Proof.
  intros w w'. induction pools as [|p pools IH]; cbn [gpu_admission]; [by intros [= <-]|].
  rewrite ST_bind_eq, call_list_allocations. destruct (negb _); [exact IH|].
  destruct (check_cluster_gpu_isolation _ _ _ _); [by intros [= <-]|].
  rewrite ST_bind_eq. by destruct (audited_eq identity Deny (Some "gpu_tenant_isolation"%string)
    "create_cluster" id (Some 400) w) as (w1 & -> & _).
Qed.

(** ** Quota *)

Lemma sum_demand_spec acc cs m :
  sum_demand acc cs = Ok m <->
  exists ds, Forall2 (fun c d => exists mn, cluster_demand (c_spec c) = Ok (mn, d)) cs ds /\
    m = foldl rm_add acc ds.
Proof.
  revert acc. induction cs as [|c cs IH]; intros acc; cbn [sum_demand].
  { split; [intros [= <-]; by exists []|]. intros (ds & ->%Forall2_nil_inv_l & ->). done. }
  destruct (cluster_demand (c_spec c)) as [[mn d]|e] eqn:Hc; cbn.
  - rewrite IH. split.
    + intros (ds & Hds & ->). exists (d :: ds). split; [|done]. constructor; eauto.
    + intros (ds & (d' & ds' & (mn' & Hd) & Hds & ->)%Forall2_cons_inv_l & ->).
      assert (d' = d) as -> by congruence. by exists ds'.
  - split; [done|]. intros (ds & (d' & ds' & (mn' & Hd) & _)%Forall2_cons_inv_l & _). congruence.
Qed.

Lemma counted_filter project id s :
  filter (fun c => counted project id c = true) (map_values (m_clusters s)) =
  running_elsewhere s project id.
Proof.
  unfold running_elsewhere. apply list_filter_iff. intros c. unfold counted.
  rewrite !andb_true_iff, negb_true_iff, String.eqb_eq, String.eqb_neq, bool_decide_eq_true. tauto.
Qed.

Definition quota_ok (policy : PolicyConfig) (s : InMemoryStore) (id : string) (spec : ClusterSpec)
  : Prop :=
  forall limit, pc_quotas policy !! cs_project spec = Some limit -> within_quota limit s id spec.

Lemma gate_quota policy identity id spec w :
  gate (quota_admission policy identity id spec) (quota_ok policy (api_store w) id spec) w.
Proof.
  unfold gate, quota_admission, quota_ok.
  destruct (pc_quotas policy !! cs_project spec) as [limit|]; [|done].
  unfold within_quota, fits_beside. destruct (cluster_demand spec) as [[mn req]|e].
  2:{ split; [|done]. intros Hq. by destruct (Hq _ eq_refl) as (? & ? & ? & ? & _). }
  rewrite ST_bind_eq, call_list_clusters, counted_filter.
  destruct (sum_demand _ _) as [in_use|e] eqn:Hs.
  2:{ split; [|done]. intros Hq. destruct (Hq _ eq_refl) as (? & ? & u & _ & Hu & _).
      apply sum_demand_spec in Hu. congruence. }
  pose proof (fits_within_spec (rm_add in_use req) limit) as Hfits.
  unfold admit_quota. destruct (fits_within _ _); cbn beta iota.
  - split; [|done]. intros limit' [= <-]. exists mn, req, in_use. split_and!; [done| |by apply Hfits].
    by apply sum_demand_spec.
  - apply refused_gate; [|done]. intros Hq.
    destruct (Hq _ eq_refl) as (mn' & req' & u & Hd & Hu%sum_demand_spec & Hle).
    assert (u = in_use) as -> by congruence. simplify_eq. by apply Hfits in Hle.
Qed.

Lemma traceless_quota policy identity id spec : traceless (quota_admission policy identity id spec).
Proof.
  intros w w'. unfold quota_admission. destruct (_ !! _) as [limit|]; [|by intros [= <-]].
  destruct (cluster_demand spec) as [[mn req]|e]; [|done].
  rewrite ST_bind_eq, call_list_clusters. destruct (sum_demand _ _); [|done].
  destruct (admit_quota _ _ _ _); [by intros [= <-]|].
  rewrite ST_bind_eq. by destruct (audited_eq identity Deny (Some "quota_exceeded"%string)
    "create_cluster" id (Some 409) w) as (w1 & -> & _).
Qed.

(** ** Budget *)

Definition budget_ok (policy : PolicyConfig) (w : ApiWorld) (project : string) : Prop :=
  forall b, pc_budgets policy !! project = Some b -> within_budget b w project.

Lemma gate_budget policy identity id spec w :
  gate (budget_admission policy identity id spec) (budget_ok policy w (cs_project spec)) w.
Proof.
  unfold gate, budget_admission, budget_ok, within_budget.
  destruct (pc_budgets policy !! cs_project spec) as [b|]; [|done].
  rewrite ST_bind_eq. unfold now_unix at 1. rewrite ST_bind_eq. unfold call. cbn [api_store].
  unfold windowed_consumption, usage_samples, mbind, ST_bind, st_get. cbn [map_err fst mret ST_ret].
  set (consumed := windowed_resource_hours _ _ _).
  pose proof (admit_budget_ok (cs_project spec) b consumed) as Hb.
  destruct (admit_budget _ _ _) as [[]|e].
  - split; [|done]. intros b' [= <-]. exists consumed. split; [done|by apply Hb].
  - apply (refused_gate identity (Some "budget_exceeded"%string) "create_cluster" id (Some 409)
      (respond 409 (OverBudget e)) {| api_store := api_store w; api_clock := api_clock w;
        api_reads := S (api_reads w) |}); [|done].
    intros Hq. destruct (Hq _ eq_refl) as (c & [= <-] & Hle). by apply Hb in Hle.
Qed.

(** ** The handler *)

Definition create_prefix (seed : PolicyConfig) (identity : option Identity) (id : string)
    (body_spec : ClusterSpec) : H unit :=
  let spec := owned_spec identity body_spec in
  _ ← or_deny (authorize_scoped identity Write TCluster (cs_project body_spec));
  policy ← load_policy seed;
  pools ← call list_pools;
  _ ← gpu_admission (pc_gpu_default_sharing seed) identity id spec pools;
  _ ← quota_admission policy identity id spec;
  budget_admission policy identity id spec.

Lemma create_cluster_split seed identity id spec w :
  create_cluster seed identity id spec w =
  (create_prefix seed identity id spec ≫=
     fun _ => commit_cluster identity id (owned_spec identity spec)) w.
Proof.
  unfold create_cluster, create_prefix. symmetry.
  do 5 (rewrite ST_bind_assoc; apply ST_bind_ext; intros ? ?). done.
Qed.

Lemma budget_ok_frame policy w w' project :
  m_usage (api_store w') = m_usage (api_store w) -> api_clock w' = api_clock w ->
  api_reads w' = api_reads w -> budget_ok policy w' project <-> budget_ok policy w project.
Proof.
  intros Hu Hc Hr. unfold budget_ok, within_budget, windowed_consumption, usage_samples, mbind,
    ST_bind, st_get. by rewrite Hu, Hc, Hr.
Qed.

Lemma gate_prefix seed identity id spec w :
  gate (create_prefix seed identity id spec) (admissible seed identity id spec w) w.
Proof.
  set (osp := owned_spec identity spec).
  set (policy := policy_of seed (api_store w)).
  apply (gate_iff _ (allowed (api_store w) identity Write TCluster (cs_project spec) = true /\
    gpu_ok (pc_gpu_default_sharing seed) osp (api_store w) (map_values (m_pools (api_store w))) /\
    quota_ok policy (api_store w) id osp /\ budget_ok policy w (cs_project spec))).
  { split; [intros (? & ? & ? & ?)|intros []]; by try split_and!. }
  apply gate_seq; [apply traceless_or_deny|apply gate_or_deny|intros _].
  unfold gate. rewrite ST_bind_eq.
  destruct (load_policy_eq seed w) as (w1 & -> & Hcore & Hclock & Hreads).
  pose proof Hcore as [= Hcl Hin Hpo Hal Hus Has].
  rewrite ST_bind_eq, call_list_pools. fold osp policy.
  assert (gate (_ ← gpu_admission (pc_gpu_default_sharing seed) identity id osp
                      (map_values (m_pools (api_store w1)));
                _ ← quota_admission policy identity id osp; budget_admission policy identity id osp)
    (gpu_ok (pc_gpu_default_sharing seed) osp (api_store w1) (map_values (m_pools (api_store w1))) /\
     quota_ok policy (api_store w1) id osp /\ budget_ok policy w1 (cs_project osp)) w1) as Hg.
  { apply gate_seq; [apply traceless_gpu|apply gate_gpu|intros _].
    apply gate_seq; [apply traceless_quota|apply gate_quota|intros _]. apply gate_budget. }
  revert Hg. unfold gpu_ok, tenants, quota_ok, within_quota, running_elsewhere. rewrite Hcl, Hpo, Hal.
  pose proof (budget_ok_frame policy w w1 (cs_project osp) Hus Hclock Hreads) as Hbud.
  intros Hg. eapply gate_iff in Hg; [|apply and_iff_compat_l, and_iff_compat_l, Hbud].
  unfold gate in Hg. rewrite Hcore in Hg. exact Hg.
Qed.

Definition created_event (identity : option Identity) (id : string) (e : AuditEvent) : Prop :=
  ae_decision e = Allow /\ ae_action e = Some "create_cluster"%string /\ ae_cluster e = Some id /\
  ae_subject e = subject_of identity.

Lemma commit_cluster_ok identity id spec w :
  exists t r w', commit_cluster identity id spec w = (Ok r, w') /\ rs_status r = 201 /\
    m_clusters (api_store w') = <[id := upsert_record t id spec (m_clusters (api_store w) !! id)]>
      (m_clusters (api_store w)) /\
    exists row, row ∈ m_audit (api_store w') /\ created_event identity id (row_event row).
Proof.
  unfold commit_cluster, audited, mbind, ST_bind, now_unix, call, emit, upsert_desired, record_audit,
    queue_or_none. run_store. cbn. rewrite queue_assignment_eq.
  destruct (queue_of _ _); cbn; do 3 eexists; (split; [done|]); (split; [done|]); (split; [done|]);
    eexists; (split; [cbn; rewrite !elem_of_app, !list_elem_of_singleton|]).
  - left. right. reflexivity.
  - by split_and!.
  - right. reflexivity.
  - by split_and!.
Qed.

(** C4. Creating a cluster. The answer is 201 exactly when the request is admissible:
    the caller may write clusters of the spec's project, the pool the project is
    allocated to (if any) accepts its GPU requests, the project's quota (if the
    policy in force sets one) holds on every resource for the demand of its other
    running clusters plus this one, and its budget (if any) is not used up. Then
    exactly this row is written, as an upsert of the spec as sent except that its
    owner is the caller, and the audit trail has an allow event for it. Any other
    answer leaves every cluster as it was. *)
Theorem create_cluster_spec seed identity id spec w :
  let r := fst (answer (create_cluster seed identity id spec) w) in
  let w' := snd (answer (create_cluster seed identity id spec) w) in
  (rs_status r = 201 <-> admissible seed identity id spec w) /\
  (rs_status r = 201 ->
     (exists t, m_clusters (api_store w') =
        <[id := upsert_record t id (owned_spec identity spec) (m_clusters (api_store w) !! id)]>
          (m_clusters (api_store w))) /\
     exists row, row ∈ m_audit (api_store w') /\ created_event identity id (row_event row)) /\
  (rs_status r <> 201 -> m_clusters (api_store w') = m_clusters (api_store w)).
Proof.
  cbn zeta. unfold answer. rewrite create_cluster_split, ST_bind_eq.
  pose proof (gate_prefix seed identity id spec w) as Hg. unfold gate in Hg.
  destruct (create_prefix seed identity id spec w) as [[[]|r] w1].
  - destruct Hg as [Hadm Hcore%core_clusters].
    destruct (commit_cluster_ok identity id (owned_spec identity spec) w1)
      as (t & r & w2 & -> & Hst & Hcl & Haud). rewrite Hcore in Hcl. naive_solver.
  - destruct Hg as (Hadm & Hne & Hcore%core_clusters). cbn [fst snd]. tauto.
Qed.
End admission.

(** ** Concrete requests *)

#[local] Existing Instance plain_codec.

Definition with_project (s : ClusterSpec) (p : string) : ClusterSpec := {|
  cs_name := cs_name s; cs_project := p; cs_engine := cs_engine s;
  cs_ray_version := cs_ray_version s; cs_image := cs_image s;
  cs_head_cpu := cs_head_cpu s; cs_head_memory := cs_head_memory s;
  cs_worker_groups := cs_worker_groups s; cs_ttl_seconds := cs_ttl_seconds s;
  cs_idle_timeout_secs := cs_idle_timeout_secs s; cs_owner := cs_owner s |}.

(** Creation checks the project of the request, not of a row already stored under
    the id: an operator of another project takes the cluster over. *)
Lemma create_takes_over :
  let i := scoped_caller Operator "intruders" in
  allowed (api_store api_world) (Some i) Write TCluster (cs_project demo_spec) = false /\
  let '(r, w') := answer (create_cluster default_policy (Some i) "c1"
                            (with_project demo_spec "intruders")) api_world in
  rs_status r = 201 /\
  (cs_project ∘ c_spec) <$> m_clusters (api_store w') !! "c1"%string = Some "intruders"%string.
Proof. by vm_compute. Qed.
