(* ===== verification/Concurrent.v ===== *)
(** * Concurrent creates (crates/mobula-api/src/clusters.rs, ClusterApiState::admit_locks)

    Requests in flight, one state per await point of [create_cluster], sharing
    the store and the per-project admission locks. Steps of different requests
    interleave freely, with one another and with everything else that only stops
    clusters or writes their status. *)

From S2P Require Import Prelude Float64 Core Policy Usage Store StoreFacts StoreQueries Json.
From S2P Require Import Reconcile ReconcileFacts Auth Api ApiFacts Admission.
#[local] Open Scope Z_scope.

Record CreateRequest := {
  cr_identity : option Identity;
  cr_id : string;
  cr_spec : ClusterSpec;
}.

Definition cr_owned (q : CreateRequest) : ClusterSpec := owned_spec (cr_identity q) (cr_spec q).
Definition cr_project (q : CreateRequest) : string := cs_project (cr_spec q).

(** Where a request is: what it has done, and whether it holds its project's lock. *)
Inductive Thread :=
| Arrived (q : CreateRequest)
| Authorized (q : CreateRequest)
| WithPolicy (q : CreateRequest) (p : PolicyConfig)
| Pooled (q : CreateRequest) (p : PolicyConfig)
| Holding (q : CreateRequest) (p : PolicyConfig)
| Checked (q : CreateRequest) (p : PolicyConfig) (locked : bool)
| Cleared (q : CreateRequest) (p : PolicyConfig) (locked : bool)
| Committed (q : CreateRequest) (generation : Z) (locked : bool)
| Answered (r : Response).

Section steps.
Context `{AuditCodec} (seed : PolicyConfig).

(** [commit_cluster] in its two parts: the write, and what follows it. *)
Definition commit_write (q : CreateRequest) : H Z :=
  t ← now_unix; call (upsert_desired t (cr_id q) (cr_owned q)).
Definition commit_answer (q : CreateRequest) (generation : Z) : H Response :=
  _ ← audited (cr_identity q) Allow None "create_cluster" (cr_id q) (Some 201);
  a ← queue_or_none (cr_project q);
  _ ← match a with
      | Some _ => audited (cr_identity q) Allow None "queue_assign" (cr_id q) None
      | None => mret tt
      end;
  mret (respond 201 (Json (JObj [("id"%string, JStr (cr_id q)); ("generation"%string, JNum generation)]))).

(** An early return answers. *)
Definition advance {A} (m : H A) (k : A -> Thread) (w : ApiWorld) : Thread * ApiWorld :=
  match m w with (Ok a, w') => (k a, w') | (Err r, w') => (Answered r, w') end.

(** The guard drops when the handler returns. *)
Definition drop_guard (locked : bool) (project : string) (th : Thread) (held : gset string)
  : gset string :=
  match th with
  | Answered _ => if locked then held ∖ {[project]} else held
  | _ => held
  end.

Definition guarded (q : CreateRequest) (locked : bool) (held : gset string) (x : Thread * ApiWorld)
  : Thread * ApiWorld * gset string :=
  (x, drop_guard locked (cr_project q) (fst x) held).

(** One step of a request; [None] when it has answered, or waits for a lock. *)
Definition step_thread (th : Thread) (w : ApiWorld) (held : gset string)
  : option (Thread * ApiWorld * gset string) :=
  match th with
  | Arrived q =>
      Some (guarded q false held
        (advance (or_deny (authorize_scoped (cr_identity q) Write TCluster (cr_project q)))
          (fun _ => Authorized q) w))
  | Authorized q => Some (guarded q false held (advance (load_policy seed) (WithPolicy q) w))
  | WithPolicy q p =>
      Some (guarded q false held
        (advance (pools ← call list_pools;
                  gpu_admission (pc_gpu_default_sharing seed) (cr_identity q) (cr_id q) (cr_owned q) pools)
          (fun _ => Pooled q p) w))
  | Pooled q p =>
      match pc_quotas p !! cr_project q with
      | None => Some (Checked q p false, w, held)
      | Some _ =>
          if bool_decide (cr_project q ∈ held) then None
          else Some (Holding q p, w, {[cr_project q]} ∪ held)
      end
  | Holding q p =>
      Some (guarded q true held
        (advance (quota_admission p (cr_identity q) (cr_id q) (cr_owned q))
          (fun _ => Checked q p true) w))
  | Checked q p locked =>
      Some (guarded q locked held
        (advance (budget_admission p (cr_identity q) (cr_id q) (cr_owned q))
          (fun _ => Cleared q p locked) w))
  | Cleared q p locked =>
      Some (guarded q locked held
        (advance (commit_write q) (fun generation => Committed q generation locked) w))
  | Committed q generation locked =>
      Some (guarded q locked held (advance (commit_answer q generation) Answered w))
  | Answered _ => None
  end.

(** ** One request alone is the handler *)

Fixpoint alone (fuel : nat) (th : Thread) (w : ApiWorld) (held : gset string)
  : Thread * ApiWorld * gset string :=
  match fuel with
  | O => (th, w, held)
  | S fuel =>
      match step_thread th w held with
      | Some (th', w', held') => alone fuel th' w' held'
      | None => (th, w, held)
      end
  end.

Lemma alone_S fuel th w held :
  alone (S fuel) th w held =
  match step_thread th w held with
  | Some (th', w', held') => alone fuel th' w' held'
  | None => (th, w, held)
  end.
Proof. done. Qed.

Lemma alone_answered fuel r w held : alone fuel (Answered r) w held = (Answered r, w, held).
Proof. by destruct fuel. Qed.

Lemma alone_advance {A} (m : H A) (k : A -> Thread) fuel th q locked w held :
  step_thread th w held = Some (guarded q locked held (advance m k w)) ->
  (forall a, drop_guard locked (cr_project q) (k a) held = held) ->
  alone (S fuel) th w held =
  match m w with
  | (Ok a, w') => alone fuel (k a) w' held
  | (Err r, w') => (Answered r, w', if locked then held ∖ {[cr_project q]} else held)
  end.
Proof.
  intros Hs Hk. cbn [alone]. rewrite Hs. unfold guarded, advance.
  destruct (m w) as [[a|r] w']; cbn [fst snd]; [by rewrite Hk|apply alone_answered].
Qed.

(** How a handler that runs undisturbed ends. *)
Definition handled (h : H Response) (w : ApiWorld) (held : gset string)
  : Thread * ApiWorld * gset string :=
  (Answered (fst (answer h w)), snd (answer h w), held).

Lemma handled_bind {A} (m : H A) f w held :
  handled (m ≫= f) w held =
  match m w with
  | (Ok a, w') => handled (f a) w' held
  | (Err r, w') => (Answered r, w', held)
  end.
Proof. unfold handled, answer. rewrite ST_bind_eq. by destruct (m w) as [[] ?]. Qed.

(** One state of the request against one bind of the handler. *)
Ltac alone_step :=
  rewrite handled_bind; erewrite alone_advance; [|reflexivity|intros; reflexivity];
  match goal with |- match ?m with _ => _ end = _ => destruct m as [[?|?] ?] end; [|done];
  cbn beta iota.

Lemma commit_split q w :
  commit_cluster (cr_identity q) (cr_id q) (cr_owned q) w = (commit_write q ≫= commit_answer q) w.
Proof. unfold commit_write. by rewrite ST_bind_assoc. Qed.

Lemma alone_tail n q p locked w held :
  alone (3 + n) (Checked q p locked) w held =
  handled (_ ← budget_admission p (cr_identity q) (cr_id q) (cr_owned q);
           commit_cluster (cr_identity q) (cr_id q) (cr_owned q)) w
    (if locked then held ∖ {[cr_project q]} else held).
Proof.
  cbn [Nat.add]. alone_step. unfold handled at 1, answer. rewrite !commit_split.
  fold (answer (commit_write q ≫= commit_answer q) a0).
  match goal with |- _ = (_, _, ?h) => fold (handled (commit_write q ≫= commit_answer q) a0 h) end.
  alone_step. cbn [alone step_thread]. unfold guarded, advance, handled, answer.
  destruct (commit_answer q _ _) as [[r|r] w']; cbn [fst snd drop_guard]; by rewrite alone_answered.
Qed.

(** An unguarded request that runs alone answers what the handler answers, leaves
    the world the handler leaves, and the locks as they were. *)
Theorem alone_is_create_cluster q w held :
  cr_project q ∉ held ->
  alone 8 (Arrived q) w held =
  handled (create_cluster seed (cr_identity q) (cr_id q) (cr_spec q)) w held.
Proof.
  intros Hfree. unfold create_cluster. cbn zeta.
  change (owned_spec (cr_identity q) (cr_spec q)) with (cr_owned q).
  change (cs_project (cr_spec q)) with (cr_project q).
  alone_step. alone_step.
  rewrite handled_bind, call_list_pools. 
  erewrite alone_advance; [|reflexivity|intros; reflexivity].
  rewrite ST_bind_eq, call_list_pools, handled_bind.
  match goal with |- match ?m with _ => _ end = _ => destruct m as [[?|?] w1] end; [|done].
  match goal with p : PolicyConfig |- _ => set (policy := p) in * end.
  rewrite alone_S. cbn [step_thread].
  destruct (pc_quotas policy !! cr_project q) as [limit|] eqn:Hlim.
  - rewrite bool_decide_eq_false_2 by done.
    erewrite alone_advance; [|reflexivity|intros; reflexivity].
    rewrite handled_bind.
    assert (({[cr_project q]} ∪ held) ∖ {[cr_project q]} = held) as Hheld.
    { apply set_eq. intros x. rewrite elem_of_difference, elem_of_union, elem_of_singleton.
      destruct (decide (x = cr_project q)) as [->|]; tauto. }
    destruct (quota_admission policy (cr_identity q) (cr_id q) (cr_owned q) w1) as [[[]|r] w2].
    + etransitivity; [apply (alone_tail 0)|]. by rewrite Hheld.
    + by rewrite Hheld.
  - etransitivity; [apply (alone_tail 1)|]. symmetry. rewrite handled_bind. unfold quota_admission.
    cbn zeta. change (cs_project (cr_owned q)) with (cr_project q). by rewrite Hlim.
Qed.

(** ** Requests in flight *)

Record Conf := { cf_world : ApiWorld; cf_held : gset string; cf_threads : gmap nat Thread }.

(** One step of request [t]. *)
Definition sched (t : nat) (c : Conf) : option Conf :=
  match cf_threads c !! t with
  | None => None
  | Some th =>
      match step_thread th (cf_world c) (cf_held c) with
      | None => None
      | Some (th', w', held') =>
          Some {| cf_world := w'; cf_held := held'; cf_threads := <[t := th']> (cf_threads c) |}
      end
  end.

(** What the rest of the control plane does meanwhile: no cluster starts to run
    or changes its spec while running, rows stay under their ids, and the policy
    stays. Reconcile passes, reapers, deletes and suspends are of this kind; a
    resume is not. *)
Record shrinks (s s' : InMemoryStore) : Prop := {
  sh_policy : m_policy s' = m_policy s;
  sh_keyed : map_Forall (fun id c => c_id c = id) (m_clusters s) ->
    map_Forall (fun id c => c_id c = id) (m_clusters s');
  sh_running : forall id c', m_clusters s' !! id = Some c' -> c_desired c' = DRunning ->
    exists c, m_clusters s !! id = Some c /\ c_desired c = DRunning /\ c_spec c = c_spec c';
}.

Inductive step : Conf -> Conf -> Prop :=
| step_request t c c' : sched t c = Some c' -> step c c'
| step_other c w' :
    shrinks (api_store (cf_world c)) (api_store w') ->
    step c {| cf_world := w'; cf_held := cf_held c; cf_threads := cf_threads c |}.

Definition initial (c : Conf) : Prop :=
  map_Forall (fun id c => c_id c = id) (m_clusters (api_store (cf_world c))) /\
  cf_held c = ∅ /\ map_Forall (fun _ th => exists q, th = Arrived q) (cf_threads c).

(** ** The invariant *)

(** The project whose lock a request holds. *)
Definition lock_of (th : Thread) : option string :=
  match th with
  | Holding q _ => Some (cr_project q)
  | Checked q _ true | Cleared q _ true | Committed q _ true => Some (cr_project q)
  | _ => None
  end.

(** Every running cluster of the project other than [id] is one of [cs]. *)
Definition covered (s : InMemoryStore) (project id : string) (cs : list StoredCluster) : Prop :=
  forall c, c ∈ running_elsewhere s project id ->
    exists c', c' ∈ cs /\ c_id c' = c_id c /\ c_spec c' = c_spec c.

Definition checked_ok (s : InMemoryStore) (q : CreateRequest) (p : PolicyConfig) (locked : bool)
  : Prop :=
  p = policy_of seed s /\
  match pc_quotas p !! cr_project q with
  | None => locked = false
  | Some limit => locked = true /\
      exists cs, fits_beside limit cs (cr_owned q) /\ covered s (cr_project q) (cr_id q) cs
  end.

Definition thread_ok (s : InMemoryStore) (th : Thread) : Prop :=
  match th with
  | WithPolicy _ p | Pooled _ p => p = policy_of seed s
  | Holding q p => p = policy_of seed s /\ is_Some (pc_quotas p !! cr_project q)
  | Checked q p locked | Cleared q p locked => checked_ok s q p locked
  | _ => True
  end.

Record conf_ok (c : Conf) : Prop := {
  ok_keyed : map_Forall (fun id c => c_id c = id) (m_clusters (api_store (cf_world c)));
  ok_threads : map_Forall (fun _ th => thread_ok (api_store (cf_world c)) th) (cf_threads c);
  ok_held : forall p, p ∈ cf_held c <->
    exists t th, cf_threads c !! t = Some th /\ lock_of th = Some p;
  ok_exclusive : forall t1 t2 th1 th2 p,
    cf_threads c !! t1 = Some th1 -> cf_threads c !! t2 = Some th2 ->
    lock_of th1 = Some p -> lock_of th2 = Some p -> t1 = t2;
}.

(** ** What one step does to the store *)

(** A step that writes no cluster and leaves the policy in force. *)
Definition calm {A} (m : H A) : Prop := forall w,
  m_clusters (api_store (snd (m w))) = m_clusters (api_store w) /\
  policy_of seed (api_store (snd (m w))) = policy_of seed (api_store w).

Lemma calm_ret {A} (a : A) : calm (mret a).
Proof. done. Qed.
Lemma calm_err {A} r : calm (A := A) (st_err r).
Proof. done. Qed.
Lemma calm_now : calm now_unix.
Proof. done. Qed.
Lemma calm_world {A} (f : ApiWorld -> A) : calm (st_get f).
Proof. done. Qed.
Lemma calm_get {A} (f : InMemoryStore -> A) : calm (call (st_get f)).
Proof. done. Qed.
Lemma calm_emit e : calm (emit e).
Proof. done. Qed.
Lemma calm_audited i d r a id st : calm (audited i d r a id st).
Proof. done. Qed.
Lemma calm_deny i a t : calm (deny i a t).
Proof. done. Qed.
Lemma calm_usage p a b : calm (call (windowed_consumption p a b)).
Proof. done. Qed.
Lemma calm_queue_or_none p : calm (queue_or_none p).
Proof. intros w. unfold queue_or_none. by rewrite queue_assignment_eq. Qed.
Lemma calm_bind {A B} (m : H A) (f : A -> H B) : calm m -> (forall a, calm (f a)) -> calm (m ≫= f).
Proof.
  intros Hm Hf w. rewrite ST_bind_eq. specialize (Hm w).
  destruct (m w) as [[a|e] w1]; cbn in *; [|done].
  destruct (Hf a w1) as [-> ->]. exact Hm.
Qed.
Lemma calm_load : calm (load_policy seed).
Proof.
  intros w. unfold load_policy, policy_of, mbind, ST_bind, call, effective_policy, get_policy,
    seed_policy. run_store.
  destruct (m_policy (api_store w)) eqn:E; cbn; [by rewrite E|].
  destruct (seed_from_config seed) eqn:Hs; cbn; [|by rewrite ?E]. rewrite ?E. cbn. by rewrite ?E.
Qed.

Create HintDb calm.
#[local] Hint Resolve calm_ret calm_err calm_now calm_world calm_get calm_emit calm_audited calm_deny
  calm_usage calm_queue_or_none calm_load : calm.

Ltac calm_step :=
  repeat (first [apply calm_bind; [|intros ?] | progress cbn beta iota | case_match];
          try solve [eauto with calm nocore]).

Lemma calm_authorize i a t p : calm (or_deny (authorize_scoped i a t p)).
Proof. unfold or_deny, authorize_scoped. calm_step. Qed.
Lemma calm_gpu d i id spec pools : calm (gpu_admission d i id spec pools).
Proof.
  induction pools as [|p pools IH]; cbn [gpu_admission]; [apply calm_ret|].
  unfold list_allocations. calm_step; done.
Qed.
Lemma calm_pools q : calm (pools ← call list_pools;
  gpu_admission (pc_gpu_default_sharing seed) (cr_identity q) (cr_id q) (cr_owned q) pools).
Proof. apply calm_bind; [apply calm_get|intros pools; apply calm_gpu]. Qed.
Lemma calm_quota p i id spec : calm (quota_admission p i id spec).
Proof. unfold quota_admission, list_clusters. calm_step. Qed.
Lemma calm_budget p i id spec : calm (budget_admission p i id spec).
Proof. unfold budget_admission. calm_step. Qed.
Lemma calm_answer q g : calm (commit_answer q g).
Proof. unfold commit_answer. calm_step. Qed.

(** A step that does not commit writes no cluster; the commit upserts its row. *)
Lemma step_thread_store th w held th' w' held' :
  step_thread th w held = Some (th', w', held') ->
  policy_of seed (api_store w') = policy_of seed (api_store w) /\
  match th with
  | Cleared q p locked => exists t generation,
      th' = Committed q generation locked /\ held' = held /\
      m_clusters (api_store w') =
        <[cr_id q := upsert_record t (cr_id q) (cr_owned q) (m_clusters (api_store w) !! cr_id q)]>
          (m_clusters (api_store w))
  | _ => m_clusters (api_store w') = m_clusters (api_store w)
  end.
Proof.
  assert (forall A (m : H A) k q locked, calm m ->
    Some (guarded q locked held (advance m k w)) = Some (th', w', held') ->
    policy_of seed (api_store w') = policy_of seed (api_store w) /\
    m_clusters (api_store w') = m_clusters (api_store w)) as Hcalm.
  { intros A m k q locked Hm. specialize (Hm w). unfold guarded, advance.
    destruct (m w) as [[a|r] w1]; intros [= _ <- _]; cbn in *; tauto. }
  destruct th; cbn [step_thread]; intros Hs; try done.
  - by eapply Hcalm; [apply calm_authorize|].
  - by eapply Hcalm; [apply calm_load|].
  - by eapply Hcalm; [apply calm_pools|].
  - destruct (_ !! _); [|by simplify_eq]. destruct (bool_decide _); [done|by simplify_eq].
  - by eapply Hcalm; [apply calm_quota|].
  - by eapply Hcalm; [apply calm_budget|].
  - unfold guarded, advance, commit_write, mbind, ST_bind, now_unix, call, upsert_desired in Hs.
    revert Hs. run_store. cbn. intros [= <- <- <-]. split; [done|]. by do 2 eexists.
  - by eapply Hcalm; [apply calm_answer|].
Qed.

(** A step keeps its lock, takes a free one, or gives its own back. *)
Lemma step_thread_locks th w held th' w' held' :
  step_thread th w held = Some (th', w', held') ->
  (lock_of th' = lock_of th /\ held' = held) \/
  (exists p, lock_of th = None /\ lock_of th' = Some p /\ (p ∉ held) /\ held' = ({[p]} ∪ held)) \/
  (exists p, lock_of th = Some p /\ lock_of th' = None /\ held' = held ∖ {[p]}).
Proof.
  assert (forall A (m : H A) k q locked,
    (forall a, lock_of (k a) = if (locked : bool) then Some (cr_project q) else None) ->
    (forall a r, k a <> Answered r) ->
    Some (guarded q locked held (advance m k w)) = Some (th', w', held') ->
    (lock_of th' = (if locked then Some (cr_project q) else None) /\ held' = held) \/
    (exists r, th' = Answered r /\ held' = (if locked then held ∖ {[cr_project q]} else held))) as Hadv.
  { intros A m k q locked Hk Hna. unfold guarded, advance.
    destruct (m w) as [[a|r] w1]; intros [= <- _ <-]; cbn [fst].
    - left. rewrite Hk. split; [done|]. specialize (Hna a). destruct (k a); try done. by destruct (Hna r).
    - right. by eexists. }
  destruct th; cbn [step_thread]; intros Hs; try done.
  - apply Hadv in Hs as [Hs|(r & -> & ->)]; [by left|by left|done..].
  - apply Hadv in Hs as [Hs|(r & -> & ->)]; [by left|by left|done..].
  - apply Hadv in Hs as [Hs|(r & -> & ->)]; [by left|by left|done..].
  - destruct (_ !! _); [|by simplify_eq; left]. case_bool_decide; [done|]. simplify_eq.
    right. left. by eexists.
  - apply Hadv in Hs as [Hs|(r & -> & ->)]; [by left|right; right; by eexists|done..].
  - apply Hadv in Hs as [Hs|(r & -> & ->)]; [| |by intros; destruct locked|done]; destruct locked.
    + by left.
    + by left.
    + right; right; by eexists.
    + by left.
  - apply Hadv in Hs as [Hs|(r & -> & ->)]; [| |by intros; destruct locked|done]; destruct locked.
    + by left.
    + by left.
    + right; right; by eexists.
    + by left.
  - unfold guarded, advance in Hs. destruct (commit_answer q generation w) as [[r|r] w1];
      injection Hs as <- _ <-; cbn [fst drop_guard]; destruct locked; (by left) || (right; right; by eexists).
Qed.

Lemma elem_of_running s project id c :
  map_Forall (fun id c => c_id c = id) (m_clusters s) ->
  c ∈ running_elsewhere s project id <->
  m_clusters s !! c_id c = Some c /\ cs_project (c_spec c) = project /\ c_id c <> id /\ c_desired c = DRunning.
Proof.
  intros Hk. unfold running_elsewhere. rewrite list_elem_of_filter, elem_of_map_values. split.
  - intros [(? & ? & ?) [k Hc]]. assert (c_id c = k) as Hck by by apply Hk.
    subst k. by split_and!.
  - intros (? & ? & ? & ?). split; [done|by eexists].
Qed.

Lemma covered_shrink s s' project id cs :
  map_Forall (fun id c => c_id c = id) (m_clusters s) -> shrinks s s' ->
  covered s project id cs -> covered s' project id cs.
Proof.
  intros Hk Hsh Hcov c (Hc & Hp & Hid & Hrun)%elem_of_running; [|by apply Hsh].
  destruct (sh_running _ _ Hsh _ _ Hc Hrun) as (c0 & Hc0 & Hrun0 & Hspec).
  assert (c_id c0 = c_id c) as Hid0 by by apply Hk.
  destruct (Hcov c0) as (c' & Hin & Hid' & Hspec').
  - apply elem_of_running; [done|]. rewrite Hid0, Hspec. by split_and!.
  - exists c'. split; [done|]. by rewrite Hid', Hspec'.
Qed.

Lemma covered_commit s s' q t project id cs :
  map_Forall (fun id c => c_id c = id) (m_clusters s) ->
  map_Forall (fun id c => c_id c = id) (m_clusters s') ->
  m_clusters s' = <[cr_id q := upsert_record t (cr_id q) (cr_owned q) (m_clusters s !! cr_id q)]>
    (m_clusters s) ->
  cr_project q <> project -> covered s project id cs -> covered s' project id cs.
Proof.
  intros Hk Hk' Hcl Hne Hcov c (Hc & Hp & Hid & Hrun)%elem_of_running; [|done].
  rewrite Hcl in Hc. destruct (decide (cr_id q = c_id c)) as [E|E].
  - rewrite E, lookup_insert_eq in Hc. injection Hc as Hc. rewrite <-Hc in Hp. by destruct Hne.
  - rewrite lookup_insert_ne in Hc by done. by apply Hcov, elem_of_running.
Qed.

Lemma covered_self s project id : covered s project id (running_elsewhere s project id).
Proof. intros c Hc. by exists c. Qed.

Lemma covered_ext s s' project id cs :
  m_clusters s' = m_clusters s -> covered s project id cs -> covered s' project id cs.
Proof. unfold covered, running_elsewhere. by intros ->. Qed.

(** The project whose clusters a request has counted and still relies on. *)
Definition relies_on (th : Thread) : option string :=
  match th with
  | Checked q _ true | Cleared q _ true => Some (cr_project q)
  | _ => None
  end.

Lemma relies_on_lock th p : relies_on th = Some p -> lock_of th = Some p.
Proof. by destruct th as [| | | | |? ? []|? ? []| |]. Qed.

Lemma relies_on_quota s th p :
  thread_ok s th -> relies_on th = Some p -> is_Some (pc_quotas (policy_of seed s) !! p).
Proof.
  destruct th as [| | | | |q ? []|q ? []| |]; try done; intros [-> Hc] [= <-];
    by destruct (pc_quotas _ !! cr_project q).
Qed.

(** A request that reads the same policy, and whose project gains no running
    cluster while it relies on its count, stays in order. *)
Lemma thread_ok_frame s s' th :
  policy_of seed s' = policy_of seed s ->
  (forall p id cs, relies_on th = Some p -> covered s p id cs -> covered s' p id cs) ->
  thread_ok s th -> thread_ok s' th.
Proof.
  intros Hp Hcov. destruct th as [| | | | |q p l|q p l| |]; cbn [thread_ok relies_on] in *; rewrite ?Hp; try done;
    unfold checked_ok; rewrite Hp; intros [-> Hc]; (split; [done|]);
    destruct (pc_quotas _ !! cr_project q) as [limit|]; try done;
    destruct Hc as (-> & cs & Hfit & Hcs); (split; [done|]); exists cs; split; auto.
Qed.

Lemma step_thread_ok th w held th' w' held' :
  thread_ok (api_store w) th -> step_thread th w held = Some (th', w', held') ->
  thread_ok (api_store w') th'.
Proof.
  intros Hok Hs. pose proof (step_thread_store _ _ _ _ _ _ Hs) as [Hpol Hcl].
  assert (forall A (m : H A) k q locked a w1, m w = (Ok a, w1) ->
    step_thread th w held = Some (guarded q locked held (advance m k w)) ->
    th' = k a /\ w' = w1) as Hadv.
  { intros A m k q locked a w1 Hm Hst. rewrite Hst in Hs. unfold guarded, advance in Hs.
    rewrite Hm in Hs. cbn in Hs. by simplify_eq. }
  assert (forall A (m : H A) k q locked r w1, m w = (Err r, w1) ->
    step_thread th w held = Some (guarded q locked held (advance m k w)) ->
    thread_ok (api_store w') th') as Herr.
  { intros A m k q locked r w1 Hm Hst. rewrite Hst in Hs. unfold guarded, advance in Hs.
    rewrite Hm in Hs. cbn in Hs. by simplify_eq. }
  destruct th as [q|q|q p|q p|q p|q p l|q p l|q g l|r]; [| | | | | | | |done].
  - destruct (or_deny (authorize_scoped (cr_identity q) Write TCluster (cr_project q)) w)
      as [[a|r] w1] eqn:Hm; [|by eapply Herr]. by edestruct Hadv as [-> ->].
  - destruct (load_policy_eq seed w) as (w1 & Hm & _). edestruct Hadv as [? ?]; [done..|]. subst th' w'.
    symmetry. exact Hpol.
  - destruct ((pools ← call list_pools;
      gpu_admission (pc_gpu_default_sharing seed) (cr_identity q) (cr_id q) (cr_owned q) pools) w)
      as [[a|r] w1] eqn:Hm; [|by eapply Herr]. edestruct Hadv as [? ?]; [done..|]. subst th' w'.
    cbn [thread_ok] in *. congruence.
  - cbn [step_thread thread_ok] in *. subst p.
    destruct (pc_quotas _ !! cr_project q) as [limit|] eqn:Hl.
    + destruct (bool_decide _); [done|]. simplify_eq. cbn. by rewrite Hl.
    + simplify_eq. cbn. unfold checked_ok. by rewrite Hl.
  - destruct Hok as [-> [limit Hl]].
    pose proof (gate_quota (policy_of seed (api_store w)) (cr_identity q) (cr_id q) (cr_owned q) w) as Hg.
    destruct (quota_admission (policy_of seed (api_store w)) (cr_identity q) (cr_id q) (cr_owned q) w)
      as [[[]|r] w1] eqn:Hm; [|by eapply Herr]. edestruct Hadv as [? ?]; [done..|]. subst th' w'.
    unfold gate in Hg. rewrite Hm in Hg. destruct Hg as [Hq _].
    cbn. split; [done|]. rewrite Hl. split; [done|]. eexists. split; [by apply Hq|].
    eapply covered_ext; [done|]. apply covered_self.
  - destruct (budget_admission p (cr_identity q) (cr_id q) (cr_owned q) w)
      as [[a|r] w1] eqn:Hm; [|by eapply Herr]. edestruct Hadv as [? ?]; [done..|]. subst th' w'.
    cbn [thread_ok] in *. apply (thread_ok_frame (api_store w) (api_store w1) (Checked q p l)); [done| |done].
    intros ? ? ? _. by apply covered_ext.
  - destruct Hcl as (t & g & -> & _). done.
  - destruct (commit_answer q g w) as [[a|r] w1] eqn:Hm; [|by eapply Herr].
    by edestruct Hadv as [-> ->].
Qed.

Lemma initial_ok c : initial c -> conf_ok c.
Proof.
  intros (Hk & Hheld & Harr). split; [done| | |].
  - intros t th Ht. by destruct (Harr _ _ Ht) as [q ->].
  - intros p. rewrite Hheld. split; [set_solver|]. intros (t & th & Ht & Hl).
    by destruct (Harr _ _ Ht) as [q ->].
  - intros t1 t2 th1 th2 p H1 _ Hl _. by destruct (Harr _ _ H1) as [q ->].
Qed.

(** Locks after a step of [t]: still one holder each. *)
Lemma step_locks t th th' c held' :
  conf_ok c -> cf_threads c !! t = Some th ->
  (lock_of th' = lock_of th /\ held' = cf_held c) \/
  (exists p, lock_of th = None /\ lock_of th' = Some p /\ (p ∉ cf_held c) /\ held' = ({[p]} ∪ cf_held c)) \/
  (exists p, lock_of th = Some p /\ lock_of th' = None /\ held' = cf_held c ∖ {[p]}) ->
  (forall p, p ∈ held' <->
    exists t0 th0, <[t := th']> (cf_threads c) !! t0 = Some th0 /\ lock_of th0 = Some p) /\
  (forall t1 t2 th1 th2 p,
    <[t := th']> (cf_threads c) !! t1 = Some th1 -> <[t := th']> (cf_threads c) !! t2 = Some th2 ->
    lock_of th1 = Some p -> lock_of th2 = Some p -> t1 = t2).
Proof.
  intros Hok Ht Hcase.
  (* a request other than [t] holds [p] exactly when it did *)
  assert (forall p, (exists t0 th0, <[t := th']> (cf_threads c) !! t0 = Some th0 /\ lock_of th0 = Some p) <->
    lock_of th' = Some p \/ exists t0 th0, t0 <> t /\ cf_threads c !! t0 = Some th0 /\ lock_of th0 = Some p)
    as Hex.
  { intros p. split.
    - intros (t0 & th0 & Hl0 & Hlk). destruct (decide (t0 = t)) as [->|Hne].
      + rewrite lookup_insert_eq in Hl0. simplify_eq. by left.
      + rewrite lookup_insert_ne in Hl0 by done. right. eauto.
    - intros [Hlk|(t0 & th0 & Hne & Hl0 & Hlk)].
      + exists t, th'. by rewrite lookup_insert_eq.
      + exists t0, th0. by rewrite lookup_insert_ne. }
  assert (forall p t0 th0, t0 <> t -> cf_threads c !! t0 = Some th0 -> lock_of th0 = Some p ->
    lock_of th <> Some p) as Hother.
  { intros p t0 th0 Hne Hl0 Hlk Hth. by apply Hne, (ok_exclusive _ Hok _ _ _ _ p Hl0 Ht). }
  assert (forall p, lock_of th' = Some p -> lock_of th = Some p \/ (p ∉ cf_held c)) as Hnew.
  { intros p Hp. destruct Hcase as [[<- _]|[(q & ? & Hq & Hfree & _)|(q & _ & Hq & _)]]; [by left| |congruence].
    right. congruence. }
  split.
  - intros p. rewrite Hex. pose proof (ok_held _ Hok p) as Hheld.
    assert (p ∈ cf_held c <-> lock_of th = Some p \/
      exists t0 th0, t0 <> t /\ cf_threads c !! t0 = Some th0 /\ lock_of th0 = Some p) as Hheld'.
    { rewrite Hheld. split.
      - intros (t0 & th0 & Hl0 & Hlk). destruct (decide (t0 = t)) as [->|Hne]; [left; congruence|right; eauto].
      - intros [Hlk|(t0 & th0 & _ & Hl0 & Hlk)]; eauto. }
    destruct Hcase as [[-> ->]|[(q & Hn & Hq & Hfree & ->)|(q & Hq & Hn & ->)]].
    + by rewrite Hheld'.
    + rewrite elem_of_union, elem_of_singleton, Hheld', Hn, Hq. naive_solver.
    + rewrite elem_of_difference, elem_of_singleton, Hheld', Hn. naive_solver.
  - assert (forall t0 th0 p, t0 <> t -> cf_threads c !! t0 = Some th0 -> lock_of th0 = Some p ->
      lock_of th' <> Some p) as Hclash.
    { intros t0 th0 p Hne Hl0 Hlk Hp. destruct (Hnew _ Hp) as [Hth|Hfree].
      - by eapply Hother.
      - apply Hfree, (ok_held _ Hok). eauto. }
    intros t1 t2 th1 th2 p H1 H2 Hl1 Hl2.
    destruct (decide (t1 = t)) as [->|N1], (decide (t2 = t)) as [->|N2]; [done| | |].
    + rewrite lookup_insert_eq in H1. rewrite lookup_insert_ne in H2 by done. simplify_eq.
      by exfalso; eapply Hclash.
    + rewrite lookup_insert_eq in H2. rewrite lookup_insert_ne in H1 by done. simplify_eq.
      by exfalso; eapply Hclash.
    + rewrite lookup_insert_ne in H1, H2 by done. by eapply (ok_exclusive _ Hok).
Qed.

Lemma sched_ok t c c' : conf_ok c -> sched t c = Some c' -> conf_ok c'.
Proof.
  intros Hok. unfold sched. destruct (cf_threads c !! t) as [th|] eqn:Ht; [|done].
  destruct (step_thread th (cf_world c) (cf_held c)) as [[[th' w'] held']|] eqn:Hs; [|done].
  intros [= <-].
  pose proof (step_thread_store _ _ _ _ _ _ Hs) as [Hpol Hcl].
  pose proof (ok_threads _ Hok _ _ Ht) as Hth.
  assert (map_Forall (fun id c => c_id c = id) (m_clusters (api_store w'))) as Hkeyed.
  { pose proof (ok_keyed _ Hok) as Hk. destruct th; rewrite ?Hcl; try done.
    destruct Hcl as (? & ? & _ & _ & ->). apply map_Forall_insert_2; [done|exact Hk]. }
  destruct (step_locks t th th' c held' Hok Ht (step_thread_locks _ _ _ _ _ _ Hs)) as [Hheld Hexc].
  split; cbn [cf_world cf_held cf_threads]; [done| |exact Hheld|exact Hexc].
  intros t2 th2. destruct (decide (t2 = t)) as [->|Hne].
  { rewrite lookup_insert_eq. intros [= <-]. exact (step_thread_ok _ _ _ _ _ _ Hth Hs). }
  rewrite lookup_insert_ne by done. intros Ht2.
  apply (thread_ok_frame (api_store (cf_world c))); [done| |by apply (ok_threads _ Hok _ _ Ht2)].
  intros p id cs Hl2. destruct th; try (apply covered_ext; exact Hcl).
  destruct Hcl as (t' & g & _ & _ & Hcl). eapply covered_commit; [apply Hok|done|exact Hcl|].
  intros <-. destruct Hth as [-> Hchk].
  destruct (relies_on_quota _ _ _ (ok_threads _ Hok _ _ Ht2) Hl2) as [limit Hlim].
  rewrite Hlim in Hchk. destruct Hchk as [-> _].
  by apply Hne, (ok_exclusive _ Hok _ _ _ _ (cr_project q) Ht2 Ht); [apply relies_on_lock|].
Qed.

Lemma step_ok c c' :
  conf_ok c -> step c c' ->
  conf_ok c' /\ policy_of seed (api_store (cf_world c')) = policy_of seed (api_store (cf_world c)).
Proof.
  intros Hok Hstep. destruct Hstep as [t c1 c2 Hs|c1 w' Hsh].
  - split; [exact (sched_ok _ _ _ Hok Hs)|]. unfold sched in Hs.
    destruct (cf_threads c1 !! t) as [th|]; [|done].
    destruct (step_thread th (cf_world c1) (cf_held c1)) as [[[th' w'] held']|] eqn:Hst; [|done].
    injection Hs as <-. by apply step_thread_store in Hst as [Hpol _].
  - assert (policy_of seed (api_store w') = policy_of seed (api_store (cf_world c1))) as Hpol.
    { unfold policy_of. by rewrite (sh_policy _ _ Hsh). }
    split; [|done]. destruct Hok as [Hk Hth Hh He]. split; [by apply Hsh| |done|done].
    intros t th Ht. apply (thread_ok_frame (api_store (cf_world c1))); [done| |exact (Hth _ _ Ht)].
    intros p id cs _. by apply covered_shrink.
Qed.

Lemma reachable_ok c c' :
  conf_ok c -> rtc step c c' ->
  conf_ok c' /\ policy_of seed (api_store (cf_world c')) = policy_of seed (api_store (cf_world c)).
Proof.
  intros Hok Hr. induction Hr as [|c1 c2 c3 Hs _ IH]; [done|].
  destruct (step_ok _ _ Hok Hs) as [Hok2 <-]. by apply IH.
Qed.

(** C11. Quota admission holds under concurrency. Start any number of create requests
    and let them interleave in any way, with one another and with whatever else
    only stops clusters or writes their status. Whenever one of them commits, in a
    project for which the policy sets a limit, it holds the project's lock, and
    right after the commit the project's running clusters are the new one and
    clusters that, together with the new one, were within the limit: no cluster
    that the check did not count has slipped in between check and commit. *)
Theorem no_over_admission c0 c c' t q p locked limit :
  initial c0 -> rtc step c0 c ->
  cf_threads c !! t = Some (Cleared q p locked) -> sched t c = Some c' ->
  pc_quotas (policy_of seed (api_store (cf_world c0))) !! cr_project q = Some limit ->
  cr_project q ∈ cf_held c /\
  exists cs, fits_beside limit cs (cr_owned q) /\
    forall id row, m_clusters (api_store (cf_world c')) !! id = Some row ->
      cs_project (c_spec row) = cr_project q -> c_desired row = DRunning ->
      (id = cr_id q /\ c_spec row = cr_owned q) \/
      exists c1, c1 ∈ cs /\ c_id c1 = id /\ c_spec c1 = c_spec row.
Proof.
  intros Hinit Hr Ht Hs Hlim. destruct (reachable_ok _ _ (initial_ok _ Hinit) Hr) as [Hok Hpol].
  pose proof (ok_threads _ Hok _ _ Ht) as [-> Hchk]. rewrite Hpol, Hlim in Hchk.
  destruct Hchk as (-> & cs & Hfit & Hcov). split; [apply (ok_held _ Hok); eauto|].
  exists cs. split; [exact Hfit|]. intros id row Hrow Hp Hrun.
  unfold sched in Hs. rewrite Ht in Hs.
  destruct (step_thread _ _ _) as [[[th' w'] held']|] eqn:Hst; [|done].
  apply step_thread_store in Hst as [_ (t' & g & _ & _ & Hcl)]. injection Hs as <-.
  cbn [cf_world] in Hrow. rewrite Hcl in Hrow. destruct (decide (cr_id q = id)) as [<-|Hne].
  - rewrite lookup_insert_eq in Hrow. injection Hrow as <-. by left.
  - rewrite lookup_insert_ne in Hrow by done. right.
    assert (c_id row = id) as Hid by exact (ok_keyed _ Hok _ _ Hrow).
    destruct (Hcov row) as (c1 & Hin & Hid1 & Hspec).
    + apply elem_of_running; [apply Hok|]. rewrite Hid. by split_and!.
    + exists c1. split_and!; congruence.
Qed.

(** ** Every request is answered *)

Definition remaining (th : Thread) : nat :=
  match th with
  | Arrived _ => 8 | Authorized _ => 7 | WithPolicy _ _ => 6 | Pooled _ _ => 5
  | Holding _ _ => 4 | Checked _ _ _ => 3 | Cleared _ _ _ => 2 | Committed _ _ _ => 1
  | Answered _ => 0
  end.

Definition work (ths : gmap nat Thread) : nat := map_fold (fun _ th n => remaining th + n)%nat 0%nat ths.

Definition all_answered (c : Conf) : Prop :=
  map_Forall (fun _ th => exists r, th = Answered r) (cf_threads c).

Fixpoint run (ts : list nat) (c : Conf) : option Conf :=
  match ts with
  | [] => Some c
  | t :: ts' => c' ← sched t c; run ts' c'
  end.

Lemma work_insert ths t th th' :
  ths !! t = Some th -> (work (<[t := th']> ths) + remaining th = work ths + remaining th')%nat.
Proof.
  intros Ht. unfold work.
  rewrite (map_fold_delete_L _ _ t th ths) by (first [exact Ht|intros; lia]).
  rewrite (map_fold_delete_L _ _ t th' (<[t := th']> ths)) by (first [apply lookup_insert_eq|intros; lia]).
  rewrite delete_insert_eq. lia.
Qed.

Lemma step_thread_remaining th w held th' w' held' :
  step_thread th w held = Some (th', w', held') -> (remaining th' < remaining th)%nat.
Proof.
  assert (forall A (m : H A) k q locked n, (forall a, (remaining (k a) < n)%nat) -> (0 < n)%nat ->
    Some (guarded q locked held (advance m k w)) = Some (th', w', held') -> (remaining th' < n)%nat) as Hadv.
  { intros A m k q locked n Hk Hn. unfold guarded, advance.
    destruct (m w) as [[a|r] w1]; intros [= <- _ _]; cbn; [apply Hk|done]. }
  destruct th; cbn [step_thread]; intros Hs; try done;
    try (eapply Hadv; [| |exact Hs]; cbn; intros; lia).
  destruct (_ !! _); [destruct (bool_decide _); [done|]|]; simplify_eq; cbn; lia.
Qed.

Lemma sched_work t c c' : sched t c = Some c' -> (work (cf_threads c') < work (cf_threads c))%nat.
Proof.
  unfold sched. destruct (cf_threads c !! t) as [th|] eqn:Ht; [|done].
  destruct (step_thread _ _ _) as [[[th' w'] held']|] eqn:Hst; [|done]. intros [= <-]. cbn.
  apply step_thread_remaining in Hst. pose proof (work_insert _ _ _ th' Ht). lia.
Qed.

Lemma work_bound ths : (work ths <= 8 * size ths)%nat.
Proof.
  induction ths as [|t th ths Hf _ IH] using map_first_key_ind; [done|].
  unfold work in *. rewrite map_size_insert_None by done.
  rewrite (map_fold_insert_L _ _ t th) by (first [done|intros; lia]).
  destruct th; cbn [remaining]; lia.
Qed.

Lemma run_work ts c c' :
  run ts c = Some c' -> (length ts + work (cf_threads c') <= work (cf_threads c))%nat.
Proof.
  revert c. induction ts as [|t ts IH]; intros c; cbn [run length]; [by intros [= ->]|].
  destruct (sched t c) as [c1|] eqn:Hs; [|done]. intros Hr%IH. apply sched_work in Hs. lia.
Qed.

(** A request that holds a lock never waits, so some request can always go on. *)
Lemma progress c : conf_ok c -> all_answered c \/ exists t c', sched t c = Some c'.
Proof.
  intros Hok.
  destruct (decide (map_Forall (fun _ th => remaining th = 0%nat) (cf_threads c))) as [Hall|Hnot].
  { left. intros t th Ht. specialize (Hall _ _ Ht). destruct th; try done. by eexists. }
  right. apply map_not_Forall in Hnot as (t & th & Ht & Hrem); [|apply _].
  assert (forall t0 th0, cf_threads c !! t0 = Some th0 ->
    step_thread th0 (cf_world c) (cf_held c) <> None -> exists t c', sched t c = Some c') as Hgo.
  { intros t0 th0 Ht0 Hn. exists t0. unfold sched. rewrite Ht0.
    destruct (step_thread th0 _ _) as [[[? ?] ?]|]; [by eexists|done]. }
  destruct th as [q|q|q p|q p|q p|q p l|q p l|q g l|r]; try by apply (Hgo t _ Ht).
  destruct (pc_quotas p !! cr_project q) as [limit|] eqn:Hlim.
  2:{ apply (Hgo t _ Ht). cbn. by rewrite Hlim. }
  destruct (decide (cr_project q ∈ cf_held c)) as [Hheld|Hfree].
  - apply (ok_held _ Hok) in Hheld as (t0 & th0 & Ht0 & Hl0). apply (Hgo t0 _ Ht0). by destruct th0.
  - apply (Hgo t _ Ht). cbn. by rewrite Hlim, bool_decide_eq_false_2.
Qed.

(** C17. No deadlock and no livelock: from every reachable configuration some schedule
    of the requests in flight has them all answered, and no schedule takes more
    than eight steps per request. *)
Theorem every_request_answered c0 c :
  initial c0 -> rtc step c0 c ->
  (exists ts c', run ts c = Some c' /\ all_answered c') /\
  (forall ts c', run ts c = Some c' -> (length ts <= 8 * size (cf_threads c))%nat).
Proof.
  intros Hinit Hr. destruct (reachable_ok _ _ (initial_ok _ Hinit) Hr) as [Hok _]. split.
  - remember (work (cf_threads c)) as n eqn:Hn. clear Hr. revert c Hok Hn.
    induction n as [n IH] using lt_wf_ind. intros c Hok ->.
    destruct (progress _ Hok) as [Hall|(t & c1 & Hs)]; [by exists [], c|].
    destruct (IH _ (sched_work _ _ _ Hs) c1 (sched_ok _ _ _ Hok Hs) eq_refl) as (ts & c2 & Hrun & Hall).
    exists (t :: ts), c2. cbn [run]. by rewrite Hs.
  - intros ts c' Hrun%run_work. pose proof (work_bound (cf_threads c)). lia.
Qed.

Lemma run_rtc ts c c' : run ts c = Some c' -> rtc step c c'.
Proof.
  revert c. induction ts as [|t ts IH]; intros c; cbn [run]; [intros [= ->]; constructor|].
  destruct (sched t c) as [c1|] eqn:Hs; [|done]. intros Hr%IH. by eapply rtc_l; [eapply step_request|].
Qed.

(** ** What may happen meanwhile *)

(** A reconcile pass, which writes only status. *)
Lemma status_only_shrinks s s' : status_only s s' -> shrinks s s'.
Proof.
  intros Hso. split; [apply Hso| |].
  - intros Hk id c' Hc'. pose proof (so_rows _ _ Hso id) as Hrow. rewrite Hc' in Hrow.
    inversion Hrow as [c ? (Hid & _) Hc|]; subst. rewrite Hid. by apply Hk.
  - intros id c' Hc' Hrun. pose proof (so_rows _ _ Hso id) as Hrow. rewrite Hc' in Hrow.
    inversion Hrow as [c ? (_ & Hspec & _ & Hdes & _) Hc|]; subst. exists c.
    split; [done|]. split; congruence.
Qed.

(** A delete, a suspend or a reap: the row stops being desired Running. *)
Lemma stop_shrinks s s' id c t d :
  m_policy s' = m_policy s -> d <> DRunning -> m_clusters s !! id = Some c ->
  m_clusters s' = <[id := with_desired t d c]> (m_clusters s) -> shrinks s s'.
Proof.
  intros Hp Hd Hc Hcl. split; [done| |].
  - intros Hk. rewrite Hcl. apply map_Forall_insert_2; [by apply Hk in Hc|done].
  - intros id' c'. rewrite Hcl, lookup_insert_Some. intros [[<- <-]|[Hne Hc']] Hrun; [done|eauto].
Qed.

(** A purge, or the retention sweep: the row goes. *)
Lemma purge_shrinks s s' id :
  m_policy s' = m_policy s -> m_clusters s' = delete id (m_clusters s) -> shrinks s s'.
Proof.
  intros Hp Hcl. split; [done| |]; rewrite Hcl.
  - intros Hk. by apply map_Forall_delete.
  - intros id' c' [Hne Hc']%lookup_delete_Some Hrun. eauto.
Qed.
End steps.

(** ** Two requests in one project *)

#[local] Existing Instance plain_codec.

(** Two anonymous requests for clusters of project [demo], with a quota that fits
    one of them. *)
Definition demo_quota : PolicyConfig := {|
  pc_prices := None; pc_budgets := ∅; pc_gpu_default_sharing := WholeGpu;
  pc_quotas := {[cs_project demo_spec := snd demo_demand]} |}.
Definition demo_request (id : string) : CreateRequest :=
  {| cr_identity := None; cr_id := id; cr_spec := demo_spec |}.
Definition demo_conf : Conf := {|
  cf_world := {| api_store := empty_store; api_clock := fun n => 100 + Z.of_nat n; api_reads := 0 |};
  cf_held := ∅;
  cf_threads := {[0%nat := Arrived (demo_request "c1"); 1%nat := Arrived (demo_request "c2")]} |}.

Lemma demo_initial : initial demo_conf.
Proof.
  split_and!; [done|done|]. intros t th Hth. cbn in Hth.
  apply lookup_insert_Some in Hth as [[_ <-]|[_ Hth]]; [by eexists|].
  apply lookup_singleton_Some in Hth as [_ <-]. by eexists.
Qed.

(** Both are under way, the first about to commit, the second waiting. *)
Definition demo_reached (ts : list nat) : Conf := default demo_conf (run demo_quota ts demo_conf).

(** The one that has the lock commits; the other then finds the quota used up. *)
Lemma demo_race :
  let answers c := (fun th => match th with Answered r => rs_status r | _ => 0 end) <$> cf_threads c in
  answers (demo_reached [0;1;0;1;0;1;0;0;0;0;0;1;1]%nat) =
    {[0%nat := 201; 1%nat := 409]} /\
  sched demo_quota 1 (demo_reached [0;1;0;1;0;1;0;0;0]%nat) = None.
Proof. split; vm_compute; reflexivity. Qed.

Definition demo_schedule : list nat := [0;1;0;1;0;1;0;0;0]%nat.

Lemma demo_reachable : rtc (step demo_quota) demo_conf (demo_reached demo_schedule).
Proof. apply run_rtc with (ts := demo_schedule). vm_compute. reflexivity. Qed.

Lemma no_over_admission_witness :
  cs_project demo_spec ∈ cf_held (demo_reached demo_schedule) /\
  exists cs, fits_beside (snd demo_demand) cs (cr_owned (demo_request "c1")).
Proof.
  destruct (no_over_admission demo_quota demo_conf (demo_reached demo_schedule)
    (default demo_conf (sched demo_quota 0 (demo_reached demo_schedule))) 0 (demo_request "c1")
    (policy_of demo_quota empty_store) true (snd demo_demand) demo_initial demo_reachable)
    as (Hheld & cs & Hfit & _).
  - vm_compute. reflexivity.
  - vm_compute. reflexivity.
  - vm_compute. reflexivity.
  - split; [exact Hheld|by exists cs].
Defined.

Lemma every_request_answered_witness :
  exists ts c', run demo_quota ts demo_conf = Some c' /\ all_answered c'.
Proof.
  destruct (every_request_answered demo_quota demo_conf demo_conf demo_initial (rtc_refl _ _)) as [Hex _].
  exact Hex.
Defined.

Lemma alone_is_create_cluster_witness :
  let q := demo_request "c1" in
  alone demo_quota 8 (Arrived q) (cf_world demo_conf) ∅ =
  handled (create_cluster demo_quota (cr_identity q) (cr_id q) (cr_spec q)) (cf_world demo_conf) ∅.
Proof. apply (alone_is_create_cluster demo_quota (demo_request "c1") (cf_world demo_conf) ∅). set_solver. Defined.

(** ** Resume is not admission *)

(** What a reconcile pass records of a cluster. *)
Definition observed_as (st : ClusterState) (id : string) (w : ApiWorld) : ApiWorld :=
  set_api_store (snd (record_observation id (Some st) 1 (api_store w))) w.

Definition status_of (x : Response * ApiWorld) : Z := rs_status (fst x).

(** Create, suspend, create another, resume: every command is accepted, and the
    project runs two clusters where its quota fits one. *)
Lemma resume_exceeds_quota :
  let create id := answer (create_cluster demo_quota None id demo_spec) in
  let a1 := create "c1"%string (cf_world demo_conf) in
  let a2 := answer (lifecycle_command None "c1" CmdSuspend) (observed_as Running "c1" (snd a1)) in
  let a3 := create "c2"%string (observed_as Suspended "c1" (snd a2)) in
  let a4 := answer (lifecycle_command None "c1" CmdResume) (snd a3) in
  (status_of a1, status_of a2, status_of a3, status_of a4) = (201, 202, 201, 202) /\
  (c_desired <$> m_clusters (api_store (snd a4))) = {["c1"%string := DRunning; "c2"%string := DRunning]}.
Proof. vm_compute. split; reflexivity. Qed.
