(* ===== verification/Sql.v ===== *)
(** * Tables and SQL statements

    The statements the SQL stores issue, over a table as the list of its rows:
    SELECT, UPDATE, DELETE with their affected-row counts, INSERT with a unique
    key and its two ON CONFLICT forms, ORDER BY and LIMIT; the integer casts of
    the bindings; and the representation of a finite map by a table, with a lemma
    for each statement. *)

From S2P Require Import Prelude.
#[local] Open Scope Z_scope.

(** ** The engine (crate [sqlx] and the database)

    A SELECT without ORDER BY returns its rows in an order of the engine's choice.
    [sqlx_error] is the text of a statement's failure. *)
Class SqlEngine := {
  scan : forall {R : Type}, list R -> list R;
  sqlx_error : string;
}.
Class SqlEngineLaws `{SqlEngine} := scan_perm : forall {R : Type} (t : list R), scan t ≡ₚ t.

(** ** Casts between [u64] and the signed 64-bit columns *)

Definition i64_max : Z := 2 ^ 63 - 1.
(** [x as i64] on a [u64], and back; [as u32] and [as u16] truncate. *)
Definition as_i64 (x : Z) : Z := if Z.leb x i64_max then x else x - 2 ^ 64.
Definition as_u64 (x : Z) : Z := x mod 2 ^ 64.
Definition as_u32 (x : Z) : Z := x mod 2 ^ 32.
Definition as_u16 (x : Z) : Z := x mod 2 ^ 16.
(** [x.min(i64::MAX as u64) as i64]. *)
Definition clamp_i64 (x : Z) : Z := Z.min x i64_max.

Lemma as_u64_i64 x : is_u64 x -> as_u64 (as_i64 x) = x.
Proof.
  unfold is_u64, u64_max, as_u64, as_i64, i64_max. intros Hx.
  destruct (Z.leb_spec x (2 ^ 63 - 1)); [apply Z.mod_small; lia|].
  replace (x - 2 ^ 64) with (x + -1 * 2 ^ 64) by lia. rewrite Z_mod_plus_full. apply Z.mod_small. lia.
Qed.

(** A number that a signed column holds and compares as the code means it. *)
Definition in_i64 (x : Z) : Prop := 0 <= x < i64_max.

Lemma in_i64_u64 x : in_i64 x -> is_u64 x.
Proof. unfold in_i64, is_u64, i64_max, u64_max. lia. Qed.
Lemma as_i64_id x : in_i64 x -> as_i64 x = x.
Proof. unfold in_i64, as_i64. destruct (Z.leb_spec x i64_max); lia. Qed.
Lemma clamp_i64_id x : in_i64 x -> clamp_i64 x = x.
Proof. unfold in_i64, clamp_i64. lia. Qed.
Lemma as_u64_id x : is_u64 x -> as_u64 x = x.
Proof. unfold is_u64, u64_max, as_u64. intros. apply Z.mod_small. lia. Qed.
Lemma as_u32_id x : is_u32 x -> as_u32 x = x.
Proof. unfold is_u32, u32_max, as_u32. intros. apply Z.mod_small. lia. Qed.
#[export] Hint Resolve in_i64_u64 : mobula.

(** ** Statements *)

Section statements.
Context {R : Type}.

Definition where_ (p : R -> bool) (t : list R) : list R := filter (fun r => p r = true) t.
Definition rows_affected (p : R -> bool) (t : list R) : Z := Z.of_nat (length (where_ p t)).
Definition update_where (p : R -> bool) (f : R -> R) (t : list R) : list R :=
  (fun r => if p r then f r else r) <$> t.
Definition delete_where (p : R -> bool) (t : list R) : list R := filter (fun r => p r = false) t.

(** INSERT into a table whose unique key makes [same] rows conflict: [None] is
    the constraint violation. *)
Definition insert_unique (same : R -> R -> bool) (new : R) (t : list R) : option (list R) :=
  if existsb (same new) t then None else Some (t ++ [new]).
(** [ON CONFLICT DO UPDATE]: [merge old excluded]. *)
Definition insert_or_update (same : R -> R -> bool) (merge : R -> R -> R) (new : R) (t : list R)
  : list R :=
  if existsb (same new) t
  then update_where (same new) (fun old => merge old new) t
  else t ++ [new].
(** [ON CONFLICT DO NOTHING]. *)
Definition insert_or_ignore (same : R -> R -> bool) (new : R) (t : list R) : list R :=
  if existsb (same new) t then t else t ++ [new].

(** A single-row SELECT ([fetch_optional]), and ORDER BY on an integer column. *)
Definition fetch_one `{SqlEngine} (p : R -> bool) (t : list R) : option R := head (scan (where_ p t)).
Definition order_by `{SqlEngine} (key : R -> Z) (t : list R) : list R := sort_by_key key (scan t).
End statements.

(** ** Statements on arbitrary tables *)

Section table_facts.
Context {R : Type}.
Implicit Types (p : R -> bool) (t : list R).

Lemma elem_of_where p t r : r ∈ where_ p t <-> r ∈ t /\ p r = true.
Proof. unfold where_. rewrite list_elem_of_filter. tauto. Qed.

Lemma where_none p t : (forall r, r ∈ t -> p r = false) -> where_ p t = [].
Proof.
  intros H. unfold where_. induction t as [|r t IH]; [done|].
  rewrite filter_cons_False; [apply IH; set_solver|]. rewrite H; [done|set_solver].
Qed.

Lemma where_every p t : (forall r, r ∈ t -> p r = true) -> where_ p t = t.
Proof.
  intros Hp. unfold where_. induction t as [|r t IH]; [done|].
  rewrite filter_cons_True; [f_equal; apply IH; set_solver|]. apply Hp. set_solver.
Qed.

Lemma where_app p t t' : where_ p (t ++ t') = where_ p t ++ where_ p t'.
Proof. apply filter_app. Qed.

Lemma filter_agree (P Q : R -> Prop) `{!forall x, Decision (P x), !forall x, Decision (Q x)} t :
  (forall x, x ∈ t -> P x <-> Q x) -> filter P t = filter Q t.
Proof.
  induction t as [|x t IH]; intros Hx; [done|]. rewrite !filter_cons.
  rewrite IH by (intros; apply Hx; by right).
  pose proof (Hx x ltac:(by left)). repeat case_decide; tauto.
Qed.

Lemma where_and p p' t : where_ (fun r => p r && p' r) t = where_ p' (where_ p t).
Proof.
  unfold where_. rewrite list_filter_filter. apply filter_agree. intros r _.
  rewrite andb_true_iff. tauto.
Qed.

Lemma where_perm p t t' : t ≡ₚ t' -> where_ p t ≡ₚ where_ p t'.
Proof. unfold where_. by intros ->. Qed.

Lemma where_fmap {V} p (f : V -> R) (l : list V) :
  where_ p (f <$> l) = f <$> filter (fun v => p (f v) = true) l.
Proof.
  induction l as [|v l IH]; [done|]. unfold where_ in *. rewrite fmap_cons, !filter_cons, IH.
  by case_decide.
Qed.

(** A statement that affects no row changes nothing. *)
Lemma update_where_none p f t : rows_affected p t = 0 -> update_where p f t = t.
Proof.
  unfold rows_affected, where_, update_where. induction t as [|r t IH]; cbn [fmap list_fmap]; [done|].
  rewrite filter_cons. case_decide as E; cbn [length]; [lia|]. intros H. rewrite IH by done.
  by destruct (p r).
Qed.
Lemma delete_where_none p t : rows_affected p t = 0 -> delete_where p t = t.
Proof.
  unfold rows_affected, where_, delete_where. induction t as [|r t IH]; [done|].
  rewrite !filter_cons. destruct (p r); repeat case_decide; try done; cbn [length].
  intros Hz. by rewrite IH.
Qed.

Lemma where_split_length p t : (length (where_ p t) + length (delete_where p t) = length t)%nat.
Proof.
  unfold where_, delete_where. induction t as [|r t IH]; [done|].
  rewrite !filter_cons. destruct (p r); repeat case_decide; try done; cbn [length]; lia.
Qed.

Lemma update_where_perm p f t t' : t ≡ₚ t' -> update_where p f t ≡ₚ update_where p f t'.
Proof. unfold update_where. by intros ->. Qed.

Lemma existsb_perm p t t' : t ≡ₚ t' -> existsb p t = existsb p t'.
Proof.
  intros Ht. apply eq_true_iff_eq. rewrite !existsb_elem_of. by setoid_rewrite Ht.
Qed.

(** Sorting by a key that tells the rows apart has one outcome. *)
Lemma sort_by_key_unique (key : R -> Z) t l :
  t ≡ₚ l -> (forall x y, x ∈ t -> y ∈ t -> key x = key y -> x = y) ->
  StronglySorted (fun x y => key x <= key y) l -> sort_by_key key t = l.
Proof.
  intros Hp Hinj Hl. eapply (StronglySorted_unique_strong (fun x y => key x <= key y));
    [|apply sort_by_key_strongly|done|by rewrite <- Hp; apply sort_stable_perm].
  intros x y Hx Hy Hxy Hyx. unfold sort_by_key in Hx. rewrite elem_of_sort_stable in Hx.
  rewrite <- Hp in Hy. apply Hinj; [done|done|lia].
Qed.

(** ORDER BY on a table kept in the order of a key. *)
Definition ascending (key : R -> Z) : list R -> Prop := StronglySorted (fun x y => key x < key y).

Lemma indexed_ascending key n t :
  (forall i r, t !! i = Some r -> key r = n + Z.of_nat i) -> ascending key t.
Proof.
  revert n. induction t as [|r t IH]; intros n Hn; [constructor|]. constructor.
  - apply (IH (n + 1)). intros i r' Hi. rewrite (Hn (S i) r' Hi). lia.
  - apply Forall_forall. intros r' (i & Hi)%list_elem_of_lookup.
    rewrite (Hn 0%nat r eq_refl), (Hn (S i) r' Hi). lia.
Qed.

Lemma ascending_where key p t : ascending key t -> ascending key (where_ p t).
Proof.
  unfold where_. induction 1 as [|r t Ht IH HF]; [constructor|]. rewrite filter_cons.
  case_decide; [|done]. constructor; [done|].
  apply Forall_forall. intros x [_ Hx]%list_elem_of_filter. rewrite Forall_forall in HF. auto.
Qed.

Lemma ascending_inj key t x y : ascending key t -> x ∈ t -> y ∈ t -> key x = key y -> x = y.
Proof.
  induction 1 as [|r t Ht IH HF]; [by rewrite elem_of_nil|]. rewrite Forall_forall in HF.
  intros [->|Hx]%elem_of_cons [->|Hy]%elem_of_cons Hk; [done| | |by apply IH].
  - specialize (HF _ Hy). lia.
  - specialize (HF _ Hx). lia.
Qed.

Lemma ascending_weaken (P Q : relation R) t :
  (forall x y, P x y -> Q x y) -> StronglySorted P t -> StronglySorted Q t.
Proof.
  intros HPQ. induction 1 as [|r t Ht IH HF]; constructor; [done|].
  eapply Forall_impl; [exact HF|]. auto.
Qed.

Lemma order_by_ascending `{SqlEngineLaws} key t : ascending key t -> order_by key t = t.
Proof.
  intros Ht. apply sort_by_key_unique; [apply scan_perm| |].
  - intros x y. rewrite !(scan_perm t). by apply ascending_inj.
  - eapply ascending_weaken; [|exact Ht]. cbn. lia.
Qed.

Lemma StronglySorted_reverse (Rel : relation R) t :
  StronglySorted Rel t -> StronglySorted (flip Rel) (reverse t).
Proof.
  induction 1 as [|r t Ht IH HF]; [constructor|]. rewrite reverse_cons. apply StronglySorted_app.
  split_and!; [|done|by repeat constructor].
  intros x y Hx ->%list_elem_of_singleton. rewrite Forall_forall in HF. apply HF.
  by rewrite <- elem_of_reverse.
Qed.

Lemma order_by_descending `{SqlEngineLaws} key t :
  ascending key t -> order_by (fun r => - key r) t = reverse t.
Proof.
  intros Ht. apply sort_by_key_unique.
  - rewrite (scan_perm t). symmetry. apply reverse_Permutation.
  - intros x y. rewrite !(scan_perm t). intros Hx Hy Hk. eapply ascending_inj; [done..|lia].
  - eapply ascending_weaken; [|apply StronglySorted_reverse, Ht]. cbn. unfold flip. lia.
Qed.
End table_facts.

(** ** A table that represents a map

    Every row encodes the value of its key, and no two rows share a key. [ok] is
    what the stored values satisfy so that a row decodes to what it encodes. *)
Section represents.
Context {K V R : Type} `{Countable K} (key : R -> K) (enc : V -> R) (ok : K -> V -> Prop).

Record rep (t : list R) (m : gmap K V) : Prop := {
  rep_nodup : NoDup (key <$> t);
  rep_in : forall r, r ∈ t <-> exists k v, m !! k = Some v /\ r = enc v;
  rep_ok : map_Forall ok m;
}.

Context (ok_key : forall k v, ok k v -> key (enc v) = k).

Lemma rep_key t m k v : rep t m -> m !! k = Some v -> key (enc v) = k.
Proof. intros Ht Hk. apply ok_key. by eapply (rep_ok _ _ Ht). Qed.

Lemma rep_elem t m r : rep t m -> r ∈ t -> exists v, m !! key r = Some v /\ r = enc v.
Proof.
  intros Ht Hr. apply (rep_in _ _ Ht) in Hr as (k & v & Hk & ->).
  exists v. by rewrite (rep_key _ _ _ _ Ht Hk).
Qed.

Lemma rep_row t m k v : rep t m -> m !! k = Some v -> enc v ∈ t.
Proof. intros Ht Hk. apply (rep_in _ _ Ht). eauto. Qed.

Lemma rep_empty : rep [] ∅.
Proof.
  split; [constructor| |apply map_Forall_empty]. intros r. rewrite elem_of_nil. split; [done|].
  intros (k & v & Hk & _). by rewrite lookup_empty in Hk.
Qed.

Lemma rep_perm t m : rep t m -> t ≡ₚ enc <$> map_values m.
Proof.
  intros Ht. apply NoDup_Permutation.
  - by eapply (NoDup_fmap_1 key), (rep_nodup _ _ Ht).
  - apply (NoDup_fmap_1 key). rewrite <- list_fmap_compose.
    unfold map_values. rewrite <- list_fmap_compose.
    rewrite (list_fmap_ext _ fst); [apply NoDup_fst_map_to_list|].
    intros i [k v] Hi. cbn. eapply rep_key; [done|].
    apply elem_of_map_to_list, list_elem_of_lookup. by exists i.
  - intros r. rewrite (rep_in _ _ Ht), list_elem_of_fmap. setoid_rewrite elem_of_map_values.
    naive_solver.
Qed.

(** The rows a primary-key condition selects. *)
Section by_key.
Context (p : R -> bool) (k : K) (p_key : forall r, p r = true <-> key r = k).

Lemma rep_where t m : rep t m -> where_ p t = option_list (enc <$> m !! k).
Proof.
  intros Ht. pose proof (rep_nodup _ _ Ht) as HND.
  assert (forall r, r ∈ where_ p t <-> r ∈ option_list (enc <$> m !! k)) as Hin.
  { intros r. rewrite elem_of_where, p_key. split.
    - intros [Hr <-]. destruct (rep_elem _ _ _ Ht Hr) as (v & -> & ->). cbn. set_solver.
    - destruct (m !! k) as [v|] eqn:E; cbn; [|set_solver]. intros ->%list_elem_of_singleton.
      split; [by eapply rep_row|by eapply rep_key]. }
  assert (where_ p t ≡ₚ option_list (enc <$> m !! k)) as HP.
  { apply NoDup_Permutation; [|destruct (m !! k); cbn; repeat constructor; set_solver|done].
    unfold where_. apply NoDup_filter. by eapply NoDup_fmap_1. }
  destruct (m !! k); cbn in *; [by apply Permutation_length_1_inv|by apply Permutation_nil].
Qed.

Lemma rep_affected t m :
  rep t m -> rows_affected p t = if decide (is_Some (m !! k)) then 1 else 0.
Proof.
  intros Ht. unfold rows_affected. rewrite (rep_where _ _ Ht).
  destruct (m !! k); case_decide as E; cbn; try done; by destruct E.
Qed.

Lemma rep_untouched t m : rep t m -> m !! k = None -> rows_affected p t = 0.
Proof. intros Ht Hk. rewrite (rep_affected _ _ Ht), Hk. rewrite decide_False; [done|by intros [? ?]]. Qed.

Lemma rep_affected_and p' (q : V -> bool) t m :
  rep t m -> (forall v, m !! k = Some v -> p' (enc v) = q v) ->
  rows_affected (fun r => p r && p' r) t =
  match m !! k with Some v => if q v then 1 else 0 | None => 0 end.
Proof.
  intros Ht Hq. unfold rows_affected. rewrite where_and, (rep_where _ _ Ht).
  destruct (m !! k) as [v|]; [|done].
  change (Z.of_nat (length (filter (fun r => p' r = true) [enc v])) = if q v then 1 else 0).
  rewrite filter_cons, (Hq _ eq_refl). by destruct (q v).
Qed.

Lemma rep_fetch `{SqlEngineLaws} t m : rep t m -> fetch_one p t = enc <$> m !! k.
Proof.
  intros Ht. unfold fetch_one. rewrite (rep_where _ _ Ht). pose proof (scan_perm (option_list (enc <$> m !! k))) as HP.
  destruct (m !! k); cbn in *; [|by apply Permutation_nil_r in HP as ->].
  symmetry in HP. by apply Permutation_length_1_inv in HP as ->.
Qed.

Lemma rep_exists t m : rep t m -> existsb p t = bool_decide (is_Some (m !! k)).
Proof.
  intros Ht. apply eq_true_iff_eq. rewrite existsb_elem_of, bool_decide_eq_true. split.
  - intros (r & Hr & <-%p_key). destruct (rep_elem _ _ _ Ht Hr) as (v & -> & _). eauto.
  - intros [v Hk]. exists (enc v). rewrite p_key. split; [by eapply rep_row|by eapply rep_key].
Qed.
End by_key.

(** UPDATE: [G] is what the statement does to the value of each row. *)
Lemma rep_update_all (p : R -> bool) (f : R -> R) (G : V -> V) t m :
  rep t m ->
  (forall k v, m !! k = Some v -> (if p (enc v) then f (enc v) else enc v) = enc (G v) /\ ok k (G v)) ->
  rep (update_where p f t) (G <$> m).
Proof.
  intros Ht HG. unfold update_where. split.
  - rewrite <- list_fmap_compose. rewrite (Forall_fmap_ext_1 _ key); [by apply (rep_nodup _ _ Ht)|].
    apply Forall_forall. intros r Hr. destruct (rep_elem _ _ _ Ht Hr) as (v & Hk & ->).
    destruct (HG _ _ Hk) as [HE Hok]. cbn. rewrite HE. by apply ok_key.
  - intros r. rewrite list_elem_of_fmap. setoid_rewrite lookup_fmap_Some. split.
    + intros (r' & -> & Hr). destruct (rep_elem _ _ _ Ht Hr) as (v & Hk & ->).
      destruct (HG _ _ Hk) as [HE _]. exists (key (enc v)), (G v). split; [by exists v|done].
    + intros (k & v' & (v & <- & Hk) & ->). exists (enc v). split; [|by eapply rep_row].
      by destruct (HG _ _ Hk).
  - intros k v'. rewrite lookup_fmap_Some. intros (v & <- & Hk). by destruct (HG _ _ Hk).
Qed.

(** UPDATE of the row of one key, possibly under a further condition [q]. *)
Lemma rep_update (p : R -> bool) (q : V -> bool) (f : R -> R) (g : V -> V) k t m :
  rep t m ->
  (forall v, m !! k = Some v -> p (enc v) = q v /\
    (q v = true -> f (enc v) = enc (g v) /\ ok k (g v))) ->
  (forall k' v, m !! k' = Some v -> k' <> k -> p (enc v) = false) ->
  rep (update_where p f t) (alter (fun v => if q v then g v else v) k m).
Proof.
  intros Ht Hk Hne.
  pose (G v := if decide (key (enc v) = k) then if q v then g v else v else v).
  assert (alter (fun v => if q v then g v else v) k m = G <$> m) as ->.
  { apply map_eq. intros k'. rewrite lookup_fmap. destruct (decide (k = k')) as [<-|Hn].
    - rewrite lookup_alter_eq. destruct (m !! k) as [v|] eqn:E; [|done]. cbn. unfold G.
      by rewrite decide_True by (by eapply rep_key).
    - rewrite lookup_alter_ne by done. destruct (m !! k') as [v|] eqn:E; [|done]. cbn. unfold G.
      rewrite decide_False; [done|]. erewrite rep_key by done. done. }
  apply rep_update_all; [done|]. intros k' v Hv. unfold G. rewrite (rep_key _ _ _ _ Ht Hv).
  pose proof (rep_ok _ _ Ht _ _ Hv) as Hok. destruct (decide (k' = k)) as [->|Hn].
  - destruct (Hk _ Hv) as [-> Hq]. destruct (q v); [by apply Hq|done].
  - by rewrite (Hne _ _ Hv Hn).
Qed.

Lemma rep_alter (p : R -> bool) (f : R -> R) (g : V -> V) k t m :
  rep t m -> (forall r, p r = true <-> key r = k) ->
  (forall v, m !! k = Some v -> f (enc v) = enc (g v) /\ ok k (g v)) ->
  rep (update_where p f t) (alter g k m).
Proof.
  intros Ht Hp Hg. apply (rep_update p (fun _ => true) f g); [done| |].
  - intros v Hv. split; [|by auto]. apply Hp. by eapply rep_key.
  - intros k' v Hv Hne. apply not_true_iff_false. rewrite Hp. by rewrite (rep_key _ _ _ _ Ht Hv).
Qed.

Lemma alter_as_insert (g : V -> V) (k : K) (v : V) (m : gmap K V) : m !! k = Some v -> alter g k m = <[k := g v]> m.
Proof.
  intros Hk. apply map_eq. intros i. destruct (decide (k = i)) as [<-|Hn].
  - by rewrite lookup_alter_eq, lookup_insert_eq, Hk.
  - by rewrite lookup_alter_ne, lookup_insert_ne by done.
Qed.

(** INSERT of a new key. *)
Lemma rep_insert_new k v t m : rep t m -> m !! k = None -> ok k v -> rep (t ++ [enc v]) (<[k := v]> m).
Proof.
  intros Ht Hk Hok. split.
  - rewrite fmap_app. apply NoDup_app. split_and!; [by apply (rep_nodup _ _ Ht)| |repeat constructor; set_solver].
    intros k' (r & -> & Hr)%list_elem_of_fmap. cbn. rewrite list_elem_of_singleton, (ok_key _ _ Hok).
    intros E. destruct (rep_elem _ _ _ Ht Hr) as (v' & Hv & _). congruence.
  - intros r. rewrite elem_of_app, (rep_in _ _ Ht), list_elem_of_singleton. split.
    + intros [(k' & v' & Hv & ->)| ->].
      * exists k', v'. split; [|done]. rewrite lookup_insert_ne; [done|congruence].
      * exists k, v. by rewrite lookup_insert_eq.
    + intros (k' & v' & [[<- <-]|[Hne Hv]]%lookup_insert_Some & ->); [by right|left; eauto].
  - apply map_Forall_insert_2; [done|]. by apply (rep_ok _ _ Ht).
Qed.

(** DELETE of the rows whose value satisfies [q]. *)
Lemma rep_delete_where (p : R -> bool) (q : V -> bool) t m :
  rep t m -> (forall k v, m !! k = Some v -> p (enc v) = q v) ->
  rep (delete_where p t) (filter (fun kv => q (snd kv) = false) m).
Proof.
  intros Ht Hq. split.
  - unfold delete_where. eapply sublist_NoDup; [by apply (rep_nodup _ _ Ht)|].
    apply fmap_sublist. apply sublist_filter.
  - intros r. unfold delete_where. rewrite list_elem_of_filter, (rep_in _ _ Ht).
    setoid_rewrite map_lookup_filter_Some. cbn. split.
    + intros [Hp (k & v & Hk & ->)]. exists k, v. by rewrite <- (Hq _ _ Hk).
    + intros (k & v & [Hk Hp] & ->). rewrite (Hq _ _ Hk). eauto.
  - intros k v. rewrite map_lookup_filter_Some. intros [Hk _]. by apply (rep_ok _ _ Ht).
Qed.

Lemma rep_length t m : rep t m -> length t = size m.
Proof.
  intros Ht. rewrite (rep_perm _ _ Ht). unfold map_values. rewrite !length_fmap.
  apply length_map_to_list.
Qed.
Lemma rep_affected_where (p : R -> bool) (q : V -> bool) t m :
  rep t m -> (forall k v, m !! k = Some v -> p (enc v) = q v) ->
  rows_affected p t = Z.of_nat (size m - size (filter (fun kv => q (snd kv) = false) m)).
Proof.
  intros Ht Hq. rewrite <- (rep_length _ _ (rep_delete_where _ _ _ _ Ht Hq)), <- (rep_length _ _ Ht).
  unfold rows_affected. pose proof (where_split_length p t). lia.
Qed.

Lemma rep_delete (p : R -> bool) k t m :
  (forall r, p r = true <-> key r = k) -> rep t m -> rep (delete_where p t) (delete k m).
Proof.
  intros Hp Ht. pose (q v := bool_decide (key (enc v) = k)).
  replace (delete k m) with (filter (fun kv => q (snd kv) = false) m).
  - apply rep_delete_where; [done|]. intros k' v Hv. apply eq_true_iff_eq. unfold q.
    by rewrite Hp, bool_decide_eq_true.
  - apply map_eq. intros k'. apply option_eq. intros v. rewrite map_lookup_filter_Some, lookup_delete_Some.
    unfold q. cbn. rewrite bool_decide_eq_false. split.
    + intros [Hv Hn]. split; [|done]. by rewrite (rep_key _ _ _ _ Ht Hv) in Hn.
    + intros [Hn Hv]. split; [done|]. by rewrite (rep_key _ _ _ _ Ht Hv).
Qed.

(** INSERT ... ON CONFLICT DO UPDATE on the key: [upd] gives the new value from
    the old one. *)
Lemma rep_insert_or_update same merge new k (upd : option V -> V) t m :
  rep t m ->
  (forall r, same new r = true <-> key r = k) ->
  (m !! k = None -> new = enc (upd None)) ->
  (forall old, m !! k = Some old -> merge (enc old) new = enc (upd (Some old))) ->
  ok k (upd (m !! k)) ->
  rep (insert_or_update same merge new t) (<[k := upd (m !! k)]> m).
Proof.
  intros Ht Hk Hnew Hold Hok. unfold insert_or_update. rewrite (rep_exists _ k Hk _ _ Ht).
  destruct (m !! k) as [old|] eqn:E.
  - rewrite bool_decide_true by eauto.
    rewrite <- (alter_as_insert (fun _ => upd (Some old)) _ _ _ E).
    apply rep_alter; [done|done|]. intros v Hv. rewrite E in Hv. injection Hv as <-.
    by rewrite Hold.
  - rewrite bool_decide_false by (intros [? ?]; done). rewrite Hnew by done.
    by apply rep_insert_new.
Qed.

Lemma rep_insert_or_ignore same new k v t m :
  rep t m -> (forall r, same new r = true <-> key r = k) -> new = enc v -> ok k v ->
  rep (insert_or_ignore same new t) (<[k := default v (m !! k)]> m).
Proof.
  intros Ht Hk -> Hok. unfold insert_or_ignore. rewrite (rep_exists _ k Hk _ _ Ht).
  destruct (m !! k) as [old|] eqn:E; cbn [default].
  - rewrite bool_decide_true by eauto. cbn. by rewrite insert_id.
  - rewrite bool_decide_false by (intros [? ?]; done). by apply rep_insert_new.
Qed.

End represents.

(** Decoding rows that encode. *)
Lemma mapM_encoded {E A B} (enc : A -> B) (dec : B -> result E A) (vs : list A) :
  Forall (fun v => dec (enc v) = Ok v) vs -> mapM dec (enc <$> vs) = Ok vs.
Proof. induction 1 as [|v vs Hd HF IH]; cbn in *; [done|]. rewrite Hd. cbn. by rewrite IH. Qed.

(** Rows read back, in whatever order the statement returns them. *)
Section reading.
Context {K V R} `{Countable K} (key : R -> K) (enc : V -> R) (ok : K -> V -> Prop).
Context (ok_key : forall k v, ok k v -> key (enc v) = k).
Lemma rep_read {E} (dec : R -> result E V) p (q : V -> bool) t m l :
  rep key enc ok t m ->
  (forall k v, m !! k = Some v -> dec (enc v) = Ok v /\ p (enc v) = q v) ->
  l ≡ₚ where_ p t ->
  exists vs, l = enc <$> vs /\ mapM dec l = Ok vs /\ vs ≡ₚ filter (fun v => q v = true) (map_values m).
Proof.
  intros Ht Hv Hl.
  assert (where_ p t ≡ₚ enc <$> filter (fun v => q v = true) (map_values m)) as HW.
  { rewrite (where_perm p _ _ (rep_perm _ _ _ ok_key _ _ Ht)). rewrite where_fmap.
    erewrite filter_agree; [done|]. intros v (k & Hk)%elem_of_map_values. cbn.
    by destruct (Hv _ _ Hk) as [_ ->]. }
  rewrite HW in Hl. apply Permutation_map_inv in Hl as (vs & -> & Hvs). symmetry in Hvs.
  exists vs. split_and!; [done| |done].
  apply mapM_encoded, Forall_forall. intros v Hin. rewrite Hvs, list_elem_of_filter in Hin.
  destruct Hin as [_ (k & Hk)%elem_of_map_values]. by apply (Hv _ _ Hk).
Qed.
End reading.
