(* ===== verification/SqliteStore.v ===== *)
(** * The SQLite store (crates/mobula-controller/src/store_sqlite.rs)

    The tables of the schema with a record per row type, the decoding of rows,
    and every operation of the [Store] trait as the statements it issues. A
    statement may fail, in which case it has no effect; one under BEGIN
    IMMEDIATE ... COMMIT is undone by the ROLLBACK of its transaction. *)

From S2P Require Import Prelude Float64 Core Policy Store Sql.
#[local] Open Scope Z_scope.

(** The JSON text of a value (crate [serde_json]). *)
Class SerdeJson (A : Type) := {
  to_string : A -> string;
  from_str : string -> result string A;
}.

Definition json_err (e : string) : StoreError := Backend ("serialization: " +:+ e).

(** ** The schema

    The tables are those of the Postgres store too. The two dialects differ in how a
    row holds a boolean: SQLite as an INTEGER, written 0 or 1 and read as true
    unless it is 0; Postgres as a BOOLEAN. *)
Class BoolColumn := { bool_col : Set; of_bool : bool -> bool_col; to_bool : bool_col -> bool }.
Class BoolColumnLaw `{BoolColumn} := to_of_bool : forall b, to_bool (of_bool b) = b.

Definition sqlite_bool : BoolColumn :=
  {| bool_col := Z; of_bool := Z.b2z; to_bool := fun v => negb (Z.eqb v 0) |}.
Lemma sqlite_bool_law : @BoolColumnLaw sqlite_bool.
Proof. by intros []. Qed.

Record ClusterRow := {
  cr_id : string;
  cr_spec_json : string;
  cr_generation : Z;
  cr_desired : string;
  cr_observed_state : option string;
  cr_observed_generation : Z;
  cr_condition : option string;
  cr_failure_count : Z;
  cr_next_attempt_at : Z;
  cr_created_at : Z;
  cr_terminated_at : option Z;
}.

Record IntentRow := {
  ir_intent_key : string;
  ir_params_fingerprint : string;
  ir_status : string;
  ir_response_json : option string;
  ir_created_at : Z;
  ir_completed_at : option Z;
}.

Record ControlRow := { kr_key : string; kr_value : string }.

Record JobRow := {
  jr_id : string;
  jr_cluster : string;
  jr_submitter : string;
  jr_status : string;
  jr_duration_secs : option Z;
  jr_submitted_at : Z;
}.

Record PoolRow := {
  pr_name : string;
  pr_spec_json : string;
  pr_generation : Z;
  pr_observed_json : option string;
  pr_observed_at : option Z;
  pr_created_at : Z;
}.

Record AllocationRow := { lr_pool : string; lr_project : string; lr_spec_json : string }.

Record UsageRow := {
  ur_ts : Z;
  ur_project : string;
  ur_pool : string;
  ur_resource : string;
  ur_quantity : f64;
  ur_source : string;
}.

Record AuditRow := {
  dr_seq : Z;
  dr_ts : Z;
  dr_subject : option string;
  dr_decision : string;
  dr_reason : option string;
  dr_action : option string;
  dr_cluster : option string;
  dr_method : option string;
  dr_path : option string;
  dr_status : option Z;
  dr_latency_ms : option Z;
  dr_required_json : option string;
  dr_granted_roles : string;
  dr_chain_hash : string;
}.

Section schema.
Context `{BoolColumn}.

Record UserRow := {
  xr_username : string;
  xr_email : option string;
  xr_password_hash : string;
  xr_role : string;
  xr_disabled : bool_col;
  xr_created_at : Z;
  xr_failed_logins : Z;
  xr_locked_until : option Z;
}.

Record TokenRow := {
  tr_prefix : string;
  tr_token_hash : string;
  tr_username : string;
  tr_label : string;
  tr_created_at : Z;
  tr_expires_at : Z;
  tr_revoked : bool_col;
  tr_last_used_at : option Z;
}.

Record AssignmentRow := {
  gr_principal : string;
  gr_role : string;
  gr_scope : string;
  gr_created_at : Z;
}.

(** [d_audit_seq] is the largest [seq] the AUTOINCREMENT column has given out. *)
Record Database := {
  d_clusters : list ClusterRow;
  d_intents : list IntentRow;
  d_control : list ControlRow;
  d_jobs : list JobRow;
  d_pools : list PoolRow;
  d_allocations : list AllocationRow;
  d_usage_samples : list UsageRow;
  d_audit_events : list AuditRow;
  d_audit_seq : Z;
  d_local_users : list UserRow;
  d_api_tokens : list TokenRow;
  d_role_assignments : list AssignmentRow;
}.

Definition empty_db : Database := {|
  d_clusters := []; d_intents := []; d_control := []; d_jobs := []; d_pools := [];
  d_allocations := []; d_usage_samples := []; d_audit_events := []; d_audit_seq := 0;
  d_local_users := []; d_api_tokens := []; d_role_assignments := [] |}.

(** One table of the database. *)
Record Table (R : Type) := { rows : Database -> list R; write : list R -> Database -> Database }.
Arguments rows {R} _ _.
Arguments write {R} _ _ _.

Definition clusters : Table ClusterRow := {| rows := d_clusters; write := fun v d => {|
  d_clusters := v; d_intents := d_intents d; d_control := d_control d; d_jobs := d_jobs d;
  d_pools := d_pools d; d_allocations := d_allocations d; d_usage_samples := d_usage_samples d;
  d_audit_events := d_audit_events d; d_audit_seq := d_audit_seq d; d_local_users :=
  d_local_users d; d_api_tokens := d_api_tokens d; d_role_assignments := d_role_assignments d
  |} |}.
Definition intents : Table IntentRow := {| rows := d_intents; write := fun v d => {|
  d_clusters := d_clusters d; d_intents := v; d_control := d_control d; d_jobs := d_jobs d;
  d_pools := d_pools d; d_allocations := d_allocations d; d_usage_samples := d_usage_samples d;
  d_audit_events := d_audit_events d; d_audit_seq := d_audit_seq d; d_local_users :=
  d_local_users d; d_api_tokens := d_api_tokens d; d_role_assignments := d_role_assignments d
  |} |}.
Definition control : Table ControlRow := {| rows := d_control; write := fun v d => {|
  d_clusters := d_clusters d; d_intents := d_intents d; d_control := v; d_jobs := d_jobs d;
  d_pools := d_pools d; d_allocations := d_allocations d; d_usage_samples := d_usage_samples d;
  d_audit_events := d_audit_events d; d_audit_seq := d_audit_seq d; d_local_users :=
  d_local_users d; d_api_tokens := d_api_tokens d; d_role_assignments := d_role_assignments d
  |} |}.
Definition jobs : Table JobRow := {| rows := d_jobs; write := fun v d => {|
  d_clusters := d_clusters d; d_intents := d_intents d; d_control := d_control d; d_jobs := v;
  d_pools := d_pools d; d_allocations := d_allocations d; d_usage_samples := d_usage_samples d;
  d_audit_events := d_audit_events d; d_audit_seq := d_audit_seq d; d_local_users :=
  d_local_users d; d_api_tokens := d_api_tokens d; d_role_assignments := d_role_assignments d
  |} |}.
Definition pools : Table PoolRow := {| rows := d_pools; write := fun v d => {|
  d_clusters := d_clusters d; d_intents := d_intents d; d_control := d_control d; d_jobs :=
  d_jobs d; d_pools := v; d_allocations := d_allocations d; d_usage_samples := d_usage_samples
  d; d_audit_events := d_audit_events d; d_audit_seq := d_audit_seq d; d_local_users :=
  d_local_users d; d_api_tokens := d_api_tokens d; d_role_assignments := d_role_assignments d
  |} |}.
Definition allocations : Table AllocationRow := {| rows := d_allocations; write := fun v d => {|
  d_clusters := d_clusters d; d_intents := d_intents d; d_control := d_control d; d_jobs :=
  d_jobs d; d_pools := d_pools d; d_allocations := v; d_usage_samples := d_usage_samples d;
  d_audit_events := d_audit_events d; d_audit_seq := d_audit_seq d; d_local_users :=
  d_local_users d; d_api_tokens := d_api_tokens d; d_role_assignments := d_role_assignments d
  |} |}.
Definition usage_table : Table UsageRow := {| rows := d_usage_samples; write := fun v d => {|
  d_clusters := d_clusters d; d_intents := d_intents d; d_control := d_control d; d_jobs :=
  d_jobs d; d_pools := d_pools d; d_allocations := d_allocations d; d_usage_samples := v;
  d_audit_events := d_audit_events d; d_audit_seq := d_audit_seq d; d_local_users :=
  d_local_users d; d_api_tokens := d_api_tokens d; d_role_assignments := d_role_assignments d
  |} |}.
Definition audit_events : Table AuditRow := {| rows := d_audit_events; write := fun v d => {|
  d_clusters := d_clusters d; d_intents := d_intents d; d_control := d_control d; d_jobs :=
  d_jobs d; d_pools := d_pools d; d_allocations := d_allocations d; d_usage_samples :=
  d_usage_samples d; d_audit_events := v; d_audit_seq := d_audit_seq d; d_local_users :=
  d_local_users d; d_api_tokens := d_api_tokens d; d_role_assignments := d_role_assignments d
  |} |}.
Definition write_audit_seq (v : Z) (d : Database) : Database := {|
  d_clusters := d_clusters d; d_intents := d_intents d; d_control := d_control d; d_jobs :=
  d_jobs d; d_pools := d_pools d; d_allocations := d_allocations d; d_usage_samples :=
  d_usage_samples d; d_audit_events := d_audit_events d; d_audit_seq := v; d_local_users :=
  d_local_users d; d_api_tokens := d_api_tokens d; d_role_assignments := d_role_assignments d
  |}.
Definition local_users : Table UserRow := {| rows := d_local_users; write := fun v d => {|
  d_clusters := d_clusters d; d_intents := d_intents d; d_control := d_control d; d_jobs :=
  d_jobs d; d_pools := d_pools d; d_allocations := d_allocations d; d_usage_samples :=
  d_usage_samples d; d_audit_events := d_audit_events d; d_audit_seq := d_audit_seq d;
  d_local_users := v; d_api_tokens := d_api_tokens d; d_role_assignments := d_role_assignments d
  |} |}.
Definition api_tokens : Table TokenRow := {| rows := d_api_tokens; write := fun v d => {|
  d_clusters := d_clusters d; d_intents := d_intents d; d_control := d_control d; d_jobs :=
  d_jobs d; d_pools := d_pools d; d_allocations := d_allocations d; d_usage_samples :=
  d_usage_samples d; d_audit_events := d_audit_events d; d_audit_seq := d_audit_seq d;
  d_local_users := d_local_users d; d_api_tokens := v; d_role_assignments := d_role_assignments
  d |} |}.
Definition role_assignments : Table AssignmentRow := {| rows := d_role_assignments; write := fun v d => {|
  d_clusters := d_clusters d; d_intents := d_intents d; d_control := d_control d; d_jobs :=
  d_jobs d; d_pools := d_pools d; d_allocations := d_allocations d; d_usage_samples :=
  d_usage_samples d; d_audit_events := d_audit_events d; d_audit_seq := d_audit_seq d;
  d_local_users := d_local_users d; d_api_tokens := d_api_tokens d; d_role_assignments := v |} |}.

(** ** Statements and transactions

    [faults] says which of the coming statements fail (a lost connection, a busy
    database, a full disk). *)
Record Conn := { db : Database; faults : list bool }.
End schema.
Arguments rows {_ _} _ _.
Arguments write {_ _} _ _ _.

Abbreviation Q := (ST Conn StoreError).

Section statements.
Context `{SqlEngine} `{BoolColumn}.

Definition statement {A} (f : Database -> result StoreError A * Database) : Q A := fun c =>
  match faults c with
  | true :: fs => (Err (Backend sqlx_error), {| db := db c; faults := fs |})
  | _ => let '(a, d) := f (db c) in (a, {| db := d; faults := tail (faults c) |})
  end.

(** A SELECT. *)
Definition select {A} (f : Database -> A) : Q A := statement (fun d => (Ok (f d), d)).
Definition fetch_optional {R} (t : Table R) (p : R -> bool) : Q (option R) :=
  select (fun d => fetch_one p (rows t d)).
Definition fetch_all {R} (t : Table R) (p : R -> bool) : Q (list R) :=
  select (fun d => scan (where_ p (rows t d))).
Definition fetch_ordered {R} (t : Table R) (p : R -> bool) (key : R -> Z) : Q (list R) :=
  select (fun d => order_by key (where_ p (rows t d))).

(** The writes; UPDATE and DELETE answer the number of affected rows, a plain
    INSERT whether its unique key was free, DO NOTHING whether it inserted. *)
Definition change {R} (t : Table R) (f : list R -> list R) : Q unit :=
  statement (fun d => (Ok tt, write t (f (rows t d)) d)).
Definition update {R} (t : Table R) (p : R -> bool) (f : R -> R) : Q Z :=
  statement (fun d => (Ok (rows_affected p (rows t d)), write t (update_where p f (rows t d)) d)).
Definition delete_from {R} (t : Table R) (p : R -> bool) : Q Z :=
  statement (fun d => (Ok (rows_affected p (rows t d)), write t (delete_where p (rows t d)) d)).
Definition insert_into {R} (t : Table R) (same : R -> R -> bool) (new : R) : Q bool :=
  statement (fun d => match insert_unique same new (rows t d) with
                      | Some l => (Ok true, write t l d)
                      | None => (Ok false, d)
                      end).
Definition insert_ignore {R} (t : Table R) (same : R -> R -> bool) (new : R) : Q bool :=
  statement (fun d => (Ok (negb (existsb (same new) (rows t d))),
                       write t (insert_or_ignore same new (rows t d)) d)).

Definition lift {A} (r : result StoreError A) : Q A := fun c => (r, c).

(** The failure of an UPDATE or DELETE that was to hit a row. *)
Definition affecting (affected : Z) (msg : string) : Q unit :=
  if Z.eqb affected 0 then st_err (Backend msg) else mret tt.

(** BEGIN IMMEDIATE takes the write lock, so the body runs alone; an error of the
    body or of COMMIT leaves what was committed before. ROLLBACK's own failure is
    ignored. *)
Definition transaction {A} (body : Q A) : Q A := fun c =>
  match select (fun _ => tt) c with
  | (Err e, c') => (Err e, c')
  | (Ok _, c1) =>
      match body c1 with
      | (Ok a, c2) =>
          match select (fun _ => tt) c2 with
          | (Ok _, c3) => (Ok a, c3)
          | (Err e, c3) => (Err e, {| db := db c1; faults := faults c3 |})
          end
      | (Err e, c2) => (Err e, {| db := db c1; faults := tail (faults c2) |})
      end
  end.
End statements.

(** ** Rows and values *)

Class StoreJson := {
  json_cluster_spec :: SerdeJson ClusterSpec;
  json_cluster_state :: SerdeJson ClusterState;
  json_condition :: SerdeJson DriftCondition;
  json_pool_spec :: SerdeJson PoolSpec;
  json_allocation :: SerdeJson AllocationSpec;
  json_policy :: SerdeJson StoredPolicy;
  json_required :: SerdeJson AuditRequired;
  json_strings :: SerdeJson (list string);
}.

Definition intent_status_from_str (s : string) : IntentStatus :=
  if String.eqb s "pending" then IPending else IApplied.

Definition desired_to_str (d : DesiredState) : string :=
  match d with DRunning => "running" | DSuspended => "suspended" | DTerminated => "terminated" end.

(** The message quotes the text with [{:?}]; the model keeps the text. *)
Definition desired_from_str (s : string) : result StoreError DesiredState :=
  if String.eqb s "running" then Ok DRunning
  else if String.eqb s "suspended" then Ok DSuspended
  else if String.eqb s "terminated" then Ok DTerminated
  else Err (Backend ("bad desired state " +:+ s)).

(** [serde_json::from_str(&s).map_err(json_err)], and the same of a nullable column. *)
Definition parse {A} `{SerdeJson A} (s : string) : result StoreError A := map_err json_err (from_str s).
Definition parse_opt {A} `{SerdeJson A} (o : option string) : result StoreError (option A) :=
  match o with
  | Some s => v ← parse s; mret (Some v)
  | None => mret None
  end.

Section rows.
Context `{StoreJson} `{BoolColumn}.

Definition row_to_cluster (row : ClusterRow) : result StoreError StoredCluster :=
  spec ← parse (cr_spec_json row);
  observed_state ← parse_opt (cr_observed_state row);
  condition ← parse_opt (cr_condition row);
  desired ← desired_from_str (cr_desired row);
  mret {| c_id := cr_id row; c_spec := spec; c_generation := as_u64 (cr_generation row);
          c_desired := desired; c_observed_state := observed_state;
          c_observed_generation := as_u64 (cr_observed_generation row);
          c_condition := condition; c_failure_count := as_u32 (cr_failure_count row);
          c_next_attempt_at := as_u64 (cr_next_attempt_at row);
          c_created_at := as_u64 (cr_created_at row);
          c_terminated_at := as_u64 <$> cr_terminated_at row |}.

Definition row_to_pool (row : PoolRow) : result StoreError StoredPool :=
  spec ← parse (pr_spec_json row);
  mret {| sp_name := pr_name row; sp_spec := spec; sp_generation := as_u64 (pr_generation row);
          sp_observed_json := pr_observed_json row;
          sp_observed_at := as_u64 <$> pr_observed_at row;
          sp_created_at := as_u64 (pr_created_at row) |}.

Definition row_to_audit_event (row : AuditRow) : result StoreError (Z * AuditEvent) :=
  required ← parse_opt (dr_required_json row);
  granted_roles ← parse (dr_granted_roles row);
  decision ← ok_or (Backend "bad audit decision") (audit_decision_parse (dr_decision row));
  mret (as_u64 (dr_seq row), {|
    ae_ts := as_u64 (dr_ts row); ae_subject := dr_subject row; ae_decision := decision;
    ae_reason := dr_reason row; ae_action := dr_action row; ae_cluster := dr_cluster row;
    ae_method := dr_method row; ae_path := dr_path row;
    ae_status := as_u16 <$> dr_status row; ae_latency_ms := as_u64 <$> dr_latency_ms row;
    ae_required := required; ae_granted_roles := granted_roles |}).

Definition row_to_local_user (row : UserRow) : result StoreError LocalUserRecord :=
  role ← ok_or (Backend ("bad local role " +:+ xr_role row)) (local_role_parse (xr_role row));
  mret {| lu_username := xr_username row; lu_email := xr_email row;
          lu_password_hash := xr_password_hash row; lu_role := role;
          lu_disabled := to_bool (xr_disabled row);
          lu_created_at := as_u64 (xr_created_at row);
          lu_failed_logins := as_u32 (xr_failed_logins row);
          lu_locked_until := as_u64 <$> xr_locked_until row |}.

Definition row_to_api_token (row : TokenRow) : result StoreError ApiTokenRecord :=
  mret {| at_prefix := tr_prefix row; at_token_hash := tr_token_hash row;
          at_username := tr_username row; at_label := tr_label row;
          at_created_at := as_u64 (tr_created_at row); at_expires_at := as_u64 (tr_expires_at row);
          at_revoked := to_bool (tr_revoked row);
          at_last_used_at := as_u64 <$> tr_last_used_at row |}.

(** The rows that [get_intent], [list_jobs], [usage_samples] and
    [list_role_assignments] map inline. *)
Definition row_to_intent (row : IntentRow) : result StoreError IntentRecord :=
  mret {| i_key := ir_intent_key row; i_params_fingerprint := ir_params_fingerprint row;
          i_status := intent_status_from_str (ir_status row);
          i_response_json := ir_response_json row; i_created_at := as_u64 (ir_created_at row);
          i_completed_at := as_u64 <$> ir_completed_at row |}.
Definition row_to_job (row : JobRow) : result StoreError JobRecord :=
  mret {| j_id := jr_id row; j_cluster := jr_cluster row; j_submitter := jr_submitter row;
          j_status := jr_status row; j_duration_secs := as_u64 <$> jr_duration_secs row;
          j_submitted_at := as_u64 (jr_submitted_at row) |}.
Definition row_to_sample (row : UsageRow) : result StoreError UsageSample :=
  source ← usage_source_parse (ur_source row);
  mret {| us_ts := as_u64 (ur_ts row); us_project := ur_project row; us_pool := ur_pool row;
          us_resource := ur_resource row; us_quantity := ur_quantity row; us_source := source |}.
Definition row_to_assignment (row : AssignmentRow) : result StoreError RoleAssignment :=
  mret {| ra_principal := gr_principal row; ra_role := gr_role row; ra_scope := gr_scope row;
          ra_created_at := as_u64 (gr_created_at row) |}.
End rows.

(** ** The operations *)

Section operations.
Context `{SqlEngine} `{BoolColumn} `{StoreJson} `{AuditCodec}.

Definition the_cluster (id : string) (r : ClusterRow) : bool := String.eqb (cr_id r) id.

Definition upsert_desired (now : Z) (id : ClusterId) (spec : ClusterSpec) : Q Z :=
  transaction (
    existing ← fetch_optional clusters (the_cluster id);
    generation ← match existing with
                 | Some row =>
                     cur ← lift (parse (cr_spec_json row));
                     mret (if spec_changed cur spec then u64_add (as_u64 (cr_generation row)) 1
                           else as_u64 (cr_generation row))
                 | None => mret 1
                 end;
    change clusters (insert_or_update (fun new old => String.eqb (cr_id old) (cr_id new))
      (fun old new => {|
        cr_id := cr_id old; cr_spec_json := cr_spec_json new; cr_generation := cr_generation new;
        cr_desired := cr_desired old; cr_observed_state := cr_observed_state old;
        cr_observed_generation := cr_observed_generation old; cr_condition := cr_condition old;
        cr_failure_count := cr_failure_count old; cr_next_attempt_at := cr_next_attempt_at old;
        cr_created_at := cr_created_at old; cr_terminated_at := cr_terminated_at old |})
      {| cr_id := id; cr_spec_json := to_string spec; cr_generation := as_i64 generation;
         cr_desired := "running"; cr_observed_state := None; cr_observed_generation := 0;
         cr_condition := None; cr_failure_count := 0; cr_next_attempt_at := 0;
         cr_created_at := as_i64 now; cr_terminated_at := None |}) ≫= fun _ =>
    mret generation).

Definition get (id : ClusterId) : Q (option StoredCluster) :=
  row ← fetch_optional clusters (the_cluster id);
  match row with
  | Some r => c ← lift (row_to_cluster r); mret (Some c)
  | None => mret None
  end.

Definition list_clusters : Q (list StoredCluster) :=
  l ← fetch_all clusters (fun _ => true);
  lift (mapM row_to_cluster l).

Definition set_desired (now : Z) (id : ClusterId) (desired : DesiredState) : Q unit :=
  let is_terminated := bool_decide (desired = DTerminated) in
  affected ← update clusters (the_cluster id) (fun r => {|
    cr_id := cr_id r; cr_spec_json := cr_spec_json r; cr_generation := cr_generation r;
    cr_desired := desired_to_str desired; cr_observed_state := cr_observed_state r;
    cr_observed_generation := cr_observed_generation r; cr_condition := cr_condition r;
    cr_failure_count := cr_failure_count r; cr_next_attempt_at := cr_next_attempt_at r;
    cr_created_at := cr_created_at r;
    cr_terminated_at := if is_terminated then Some (default (as_i64 now) (cr_terminated_at r))
                        else None |});
  affecting affected ("no such cluster " +:+ id).

Definition remove_cluster (id : ClusterId) : Q bool :=
  affected ← delete_from clusters (the_cluster id);
  mret (Z.ltb 0 affected).

Definition record_observation (id : ClusterId) (observed : option ClusterState)
    (observed_generation : Z) : Q unit :=
  let observed_json := to_string <$> observed in
  update clusters (the_cluster id) (fun r => {|
    cr_id := cr_id r; cr_spec_json := cr_spec_json r; cr_generation := cr_generation r;
    cr_desired := cr_desired r; cr_observed_state := observed_json;
    cr_observed_generation := Z.max (cr_observed_generation r) (as_i64 observed_generation);
    cr_condition := cr_condition r;
    cr_failure_count := cr_failure_count r; cr_next_attempt_at := cr_next_attempt_at r;
    cr_created_at := cr_created_at r; cr_terminated_at := cr_terminated_at r |})
  ≫= fun _ => mret tt.

Definition set_condition (id : ClusterId) (condition : option DriftCondition) : Q unit :=
  let condition_json := to_string <$> condition in
  update clusters (the_cluster id) (fun r => {|
    cr_id := cr_id r; cr_spec_json := cr_spec_json r; cr_generation := cr_generation r;
    cr_desired := cr_desired r; cr_observed_state := cr_observed_state r;
    cr_observed_generation := cr_observed_generation r; cr_condition := condition_json;
    cr_failure_count := cr_failure_count r; cr_next_attempt_at := cr_next_attempt_at r;
    cr_created_at := cr_created_at r; cr_terminated_at := cr_terminated_at r |})
  ≫= fun _ => mret tt.

Definition control_key (key : string) (r : ControlRow) : bool := String.eqb (kr_key r) key.
Definition same_key (new old : ControlRow) : bool := String.eqb (kr_key old) (kr_key new).

Definition is_quarantined : Q bool :=
  v ← fetch_optional control (control_key "quarantine");
  mret (is_some_and (kr_value <$> v) (String.eqb "true")).

Definition set_quarantine (quarantined : bool) : Q unit :=
  change control (insert_or_update same_key
    (fun old new => {| kr_key := kr_key old; kr_value := kr_value new |})
    {| kr_key := "quarantine"; kr_value := if quarantined then "true" else "false" |}).

Definition get_policy : Q (option StoredPolicy) :=
  v ← fetch_optional control (control_key "policy");
  lift (parse_opt (kr_value <$> v)).

Definition set_policy (policy : StoredPolicy) : Q unit :=
  let json := to_string policy in
  change control (insert_or_update same_key
    (fun old new => {| kr_key := kr_key old; kr_value := kr_value new |})
    {| kr_key := "policy"; kr_value := json |}).

Definition seed_policy (policy : StoredPolicy) : Q bool :=
  let json := to_string policy in
  insert_ignore control same_key {| kr_key := "policy"; kr_value := json |}.

Definition record_attempt (id : ClusterId) (failure_count next_attempt_at : Z) : Q unit :=
  update clusters (the_cluster id) (fun r => {|
    cr_id := cr_id r; cr_spec_json := cr_spec_json r; cr_generation := cr_generation r;
    cr_desired := cr_desired r; cr_observed_state := cr_observed_state r;
    cr_observed_generation := cr_observed_generation r; cr_condition := cr_condition r;
    cr_failure_count := failure_count; cr_next_attempt_at := as_i64 next_attempt_at;
    cr_created_at := cr_created_at r; cr_terminated_at := cr_terminated_at r |})
  ≫= fun _ => mret tt.

(** *** Outbox *)

Definition the_intent (key : string) (r : IntentRow) : bool := String.eqb (ir_intent_key r) key.

(** A plain INSERT that meets its primary key fails as a statement. *)
Definition unique_or_error (inserted : bool) : Q unit :=
  if inserted then mret tt else st_err (Backend sqlx_error).

Definition begin_intent (now : Z) (key fingerprint : string) : Q IntentOutcome :=
  transaction (
    existing ← fetch_optional intents (the_intent key);
    match ir_params_fingerprint <$> existing with
    | Some fp => mret (if negb (String.eqb fp fingerprint) then ParamMismatch else Proceed true)
    | None =>
        inserted ← insert_into intents (fun new old => the_intent (ir_intent_key new) old) {|
          ir_intent_key := key; ir_params_fingerprint := fingerprint; ir_status := "pending";
          ir_response_json := None; ir_created_at := as_i64 now; ir_completed_at := None |};
        unique_or_error inserted ≫= fun _ => mret (Proceed false)
    end).

Definition complete_intent (now : Z) (key response_json : string) : Q unit :=
  update intents (the_intent key) (fun r => {|
    ir_intent_key := ir_intent_key r; ir_params_fingerprint := ir_params_fingerprint r;
    ir_status := "applied"; ir_response_json := Some response_json;
    ir_created_at := ir_created_at r; ir_completed_at := Some (as_i64 now) |})
  ≫= fun _ => mret tt.

Definition get_intent (key : string) : Q (option IntentRecord) :=
  row ← fetch_optional intents (the_intent key);
  match row with
  | Some r => i ← lift (row_to_intent r); mret (Some i)
  | None => mret None
  end.

Definition reap_intents (applied_before : Z) : Q Z :=
  delete_from intents (fun r =>
    String.eqb (ir_status r) "applied"
    && is_some_and (ir_completed_at r) (fun c => Z.ltb c (as_i64 applied_before))).

(** *** Jobs *)

Definition record_job (job : JobRecord) : Q unit :=
  change jobs (insert_or_update (fun new old => String.eqb (jr_id old) (jr_id new))
    (fun old new => {|
      jr_id := jr_id old; jr_cluster := jr_cluster old; jr_submitter := jr_submitter old;
      jr_status := jr_status new; jr_duration_secs := jr_duration_secs new;
      jr_submitted_at := jr_submitted_at old |})
    {| jr_id := j_id job; jr_cluster := j_cluster job; jr_submitter := j_submitter job;
       jr_status := j_status job; jr_duration_secs := as_i64 <$> j_duration_secs job;
       jr_submitted_at := as_i64 (j_submitted_at job) |}).

Definition list_jobs : Q (list JobRecord) :=
  l ← fetch_ordered jobs (fun _ => true) (fun r => - jr_submitted_at r);
  lift (mapM row_to_job l).

(** *** Pools and allocations *)

Definition the_pool (name : string) (r : PoolRow) : bool := String.eqb (pr_name r) name.

Definition upsert_pool (now : Z) (name : string) (spec : PoolSpec) : Q Z :=
  transaction (
    existing ← fetch_optional pools (the_pool name);
    generation ← match existing with
                 | Some row =>
                     cur ← lift (parse (pr_spec_json row));
                     mret (if pool_spec_changed cur spec then u64_add (as_u64 (pr_generation row)) 1
                           else as_u64 (pr_generation row))
                 | None => mret 1
                 end;
    change pools (insert_or_update (fun new old => String.eqb (pr_name old) (pr_name new))
      (fun old new => {|
        pr_name := pr_name old; pr_spec_json := pr_spec_json new; pr_generation := pr_generation new;
        pr_observed_json := pr_observed_json old; pr_observed_at := pr_observed_at old;
        pr_created_at := pr_created_at old |})
      {| pr_name := name; pr_spec_json := to_string spec; pr_generation := as_i64 generation;
         pr_observed_json := None; pr_observed_at := None; pr_created_at := as_i64 now |}) ≫= fun _ =>
    mret generation).

Definition get_pool (name : string) : Q (option StoredPool) :=
  row ← fetch_optional pools (the_pool name);
  match row with
  | Some r => p ← lift (row_to_pool r); mret (Some p)
  | None => mret None
  end.

Definition list_pools : Q (list StoredPool) :=
  l ← fetch_all pools (fun _ => true);
  lift (mapM row_to_pool l).

Definition delete_pool (name : string) : Q unit :=
  affected ← delete_from pools (the_pool name);
  affecting affected ("no such pool " +:+ name).

Definition record_pool_observation (now : Z) (name observed_json : string) : Q unit :=
  update pools (the_pool name) (fun r => {|
    pr_name := pr_name r; pr_spec_json := pr_spec_json r; pr_generation := pr_generation r;
    pr_observed_json := Some observed_json; pr_observed_at := Some (as_i64 now);
    pr_created_at := pr_created_at r |})
  ≫= fun _ => mret tt.

Definition the_allocation (pool project : string) (r : AllocationRow) : bool :=
  String.eqb (lr_pool r) pool && String.eqb (lr_project r) project.

Definition upsert_allocation (alloc : AllocationSpec) : Q unit :=
  let spec_json := to_string alloc in
  change allocations (insert_or_update (fun new old => the_allocation (lr_pool new) (lr_project new) old)
    (fun old new => {| lr_pool := lr_pool old; lr_project := lr_project old;
                       lr_spec_json := lr_spec_json new |})
    {| lr_pool := a_pool alloc; lr_project := a_project alloc; lr_spec_json := spec_json |}).

Definition list_allocations (pool : string) : Q (list AllocationSpec) :=
  l ← fetch_all allocations (fun r => String.eqb (lr_pool r) pool);
  lift (mapM (fun r => parse (lr_spec_json r)) l).

Definition delete_allocation (pool project : string) : Q unit :=
  affected ← delete_from allocations (the_allocation pool project);
  affecting affected ("no such allocation " +:+ pool +:+ "/" +:+ project).

(** *** Usage samples *)

Definition sample_row (s : UsageSample) : UsageRow := {|
  ur_ts := as_i64 (us_ts s); ur_project := us_project s; ur_pool := us_pool s;
  ur_resource := us_resource s; ur_quantity := us_quantity s;
  ur_source := usage_source_str (us_source s) |}.

Definition record_usage_samples (samples : list UsageSample) : Q unit :=
  transaction (st_iter (fun s => change usage_table (fun t => t ++ [sample_row s])) samples).

Definition usage_samples (project pool : option string) (from to : Z) : Q (list UsageSample) :=
  l ← fetch_ordered usage_table (fun r =>
        Z.leb (clamp_i64 from) (ur_ts r) && Z.leb (ur_ts r) (clamp_i64 to)
        && is_none_or project (String.eqb (ur_project r))
        && is_none_or pool (String.eqb (ur_pool r))) ur_ts;
  lift (mapM row_to_sample l).

(** *** Audit trail *)

Definition newest_hash (l : list AuditRow) : option string := dr_chain_hash <$> head l.

(** The appended row, without its [seq]. *)
Definition audit_row (event : AuditEvent) (chain_hash : string) (seq : Z) : AuditRow := {|
  dr_seq := seq; dr_ts := clamp_i64 (ae_ts event); dr_subject := ae_subject event;
  dr_decision := audit_decision_str (ae_decision event); dr_reason := ae_reason event;
  dr_action := ae_action event; dr_cluster := ae_cluster event; dr_method := ae_method event;
  dr_path := ae_path event; dr_status := ae_status event;
  dr_latency_ms := clamp_i64 <$> ae_latency_ms event;
  dr_required_json := to_string <$> ae_required event;
  dr_granted_roles := to_string (ae_granted_roles event); dr_chain_hash := chain_hash |}.

(** INSERT ... RETURNING seq: AUTOINCREMENT gives one more than it ever gave, and
    fails once the column is full. *)
Definition insert_audit (row : Z -> AuditRow) : Q Z :=
  statement (fun d =>
    let seq := d_audit_seq d + 1 in
    if Z.ltb i64_max seq then (Err (Backend sqlx_error), d)
    else (Ok seq, write_audit_seq seq (write audit_events (d_audit_events d ++ [row seq]) d))).

(** The mutex is held from the SELECT to the INSERT, so no other append comes
    between them. *)
Definition record_audit (event : AuditEvent) : Q Z :=
  l ← fetch_ordered audit_events (fun _ => true) (fun r => - dr_seq r);
  let chain_hash := audit_chain_hash (default AUDIT_GENESIS_HASH (newest_hash l)) event in
  seq ← insert_audit (audit_row event chain_hash);
  mret (as_u64 seq).

(** [substr(path, 1, length(prefix)) = prefix]; NULL satisfies no condition. *)
Definition path_condition (prefix path : string) : bool :=
  String.eqb (String.substring 0 (String.length prefix) path) prefix.

Definition audit_where (f : AuditFilter) (r : AuditRow) : bool :=
  is_none_or (af_cursor f) (fun c => Z.ltb (dr_seq r) (clamp_i64 c))
  && is_none_or (af_from f) (fun from => Z.leb (clamp_i64 from) (dr_ts r))
  && is_none_or (af_to f) (fun to => Z.leb (dr_ts r) (clamp_i64 to))
  && is_none_or (af_subject f) (fun s => is_some_and (dr_subject r) (String.eqb s))
  && is_none_or (af_cluster f) (fun s => is_some_and (dr_cluster r) (String.eqb s))
  && is_none_or (af_method f) (fun s => is_some_and (dr_method r) (String.eqb s))
  && is_none_or (af_path_prefix f) (fun p => is_some_and (dr_path r) (path_condition p))
  && is_none_or (af_min_status f) (fun m => is_some_and (dr_status r) (Z.leb m))
  && is_none_or (af_decision f) (fun d => String.eqb (dr_decision r) (audit_decision_str d))
  && is_none_or (af_reason f) (fun s => is_some_and (dr_reason r) (String.eqb s)).

Definition list_audit (f : AuditFilter) : Q (list (Z * AuditEvent) * option Z) :=
  let limit := Z.to_nat (effective_limit f) in
  l ← fetch_ordered audit_events (audit_where f) (fun r => - dr_seq r);
  out ← lift (mapM row_to_audit_event (take (limit + 1) l));
  mret (if Nat.ltb limit (length out) then (take limit out, fst <$> last (take limit out))
        else (out, None)).

Definition audit_chain (from_seq : option Z) (limit : Z) : Q AuditChainWindow :=
  head ← match from_seq with
         | Some from =>
             if Z.ltb 1 from
             then l ← fetch_ordered audit_events (fun r => Z.ltb (dr_seq r) (clamp_i64 from))
                        (fun r => - dr_seq r);
                  mret (default AUDIT_GENESIS_HASH (newest_hash l))
             else mret AUDIT_GENESIS_HASH
         | None => mret AUDIT_GENESIS_HASH
         end;
  l ← fetch_ordered audit_events
        (fun r => is_none_or from_seq (fun from => Z.leb (clamp_i64 from) (dr_seq r))) dr_seq;
  rows ← lift (mapM (fun r => e ← row_to_audit_event r; mret (e, dr_chain_hash r))
                 (take (Z.to_nat limit) l));
  mret {| aw_head := head; aw_rows := rows |}.

(** One turn of the loop chains the oldest unchained row; [None] when there is
    none. *)
Definition backfill_step : Q (option unit) :=
  l ← fetch_ordered audit_events (fun r => String.eqb (dr_chain_hash r) "") dr_seq;
  match l with
  | [] => mret None
  | row :: _ =>
      decoded ← lift (row_to_audit_event row);
      let '(seq, event) := decoded in
      before ← fetch_ordered audit_events (fun r => Z.ltb (dr_seq r) (as_i64 seq)) (fun r => - dr_seq r);
      let hash := audit_chain_hash (default AUDIT_GENESIS_HASH (newest_hash before)) event in
      update audit_events (fun r => Z.eqb (dr_seq r) (as_i64 seq)) (fun r => {|
        dr_seq := dr_seq r; dr_ts := dr_ts r; dr_subject := dr_subject r;
        dr_decision := dr_decision r; dr_reason := dr_reason r; dr_action := dr_action r;
        dr_cluster := dr_cluster r; dr_method := dr_method r; dr_path := dr_path r;
        dr_status := dr_status r; dr_latency_ms := dr_latency_ms r;
        dr_required_json := dr_required_json r; dr_granted_roles := dr_granted_roles r;
        dr_chain_hash := hash |}) ≫= fun _ => mret (Some tt)
  end.

(** The loop; [None] is running out of fuel. *)
Fixpoint backfill_loop (fuel : nat) : Q (option unit) :=
  match fuel with
  | O => mret None
  | S fuel' =>
      turn ← backfill_step;
      match turn with
      | None => mret (Some tt)
      | Some _ => backfill_loop fuel'
      end
  end.

Definition backfill_audit_chain : Q (option unit) := fun c =>
  backfill_loop (S (length (where_ (fun r => String.eqb (dr_chain_hash r) "") (d_audit_events (db c))))) c.

(** *** Local users *)

Definition the_user (username : string) (r : UserRow) : bool := String.eqb (xr_username r) username.

Definition create_local_user (now : Z) (username : string) (email : option string)
    (password_hash : string) (role : LocalRole) : Q unit :=
  inserted ← insert_into local_users (fun new old => the_user (xr_username new) old) {|
    xr_username := username; xr_email := email; xr_password_hash := password_hash;
    xr_role := local_role_str role; xr_disabled := of_bool false; xr_created_at := as_i64 now;
    xr_failed_logins := 0; xr_locked_until := None |};
  if (inserted : bool) then mret tt
  else st_err (Backend ("local user " +:+ username +:+ " already exists")).

Definition get_local_user (username : string) : Q (option LocalUserRecord) :=
  row ← fetch_optional local_users (the_user username);
  match row with
  | Some r => u ← lift (row_to_local_user r); mret (Some u)
  | None => mret None
  end.

Definition list_local_users : Q (list LocalUserRecord) :=
  l ← select (fun d => sort_stable (fun a b => str_leb (xr_username a) (xr_username b))
                         (scan (d_local_users d)));
  lift (mapM row_to_local_user l).

Definition set_local_user_password (username password_hash : string) : Q unit :=
  affected ← update local_users (the_user username) (fun r => {|
    xr_username := xr_username r; xr_email := xr_email r; xr_password_hash := password_hash;
    xr_role := xr_role r; xr_disabled := xr_disabled r; xr_created_at := xr_created_at r;
    xr_failed_logins := xr_failed_logins r; xr_locked_until := xr_locked_until r |});
  affecting affected ("no such local user " +:+ username).

Definition set_local_user_role (username : string) (role : LocalRole) : Q unit :=
  affected ← update local_users (the_user username) (fun r => {|
    xr_username := xr_username r; xr_email := xr_email r; xr_password_hash := xr_password_hash r;
    xr_role := local_role_str role; xr_disabled := xr_disabled r; xr_created_at := xr_created_at r;
    xr_failed_logins := xr_failed_logins r; xr_locked_until := xr_locked_until r |});
  affecting affected ("no such local user " +:+ username).

Definition set_local_user_disabled (username : string) (disabled : bool) : Q unit :=
  affected ← update local_users (the_user username) (fun r => {|
    xr_username := xr_username r; xr_email := xr_email r; xr_password_hash := xr_password_hash r;
    xr_role := xr_role r; xr_disabled := of_bool disabled; xr_created_at := xr_created_at r;
    xr_failed_logins := xr_failed_logins r; xr_locked_until := xr_locked_until r |});
  affecting affected ("no such local user " +:+ username).

Definition set_login_lockout (username : string) (failed_logins : Z) (locked_until : option Z) : Q unit :=
  affected ← update local_users (the_user username) (fun r => {|
    xr_username := xr_username r; xr_email := xr_email r; xr_password_hash := xr_password_hash r;
    xr_role := xr_role r; xr_disabled := xr_disabled r; xr_created_at := xr_created_at r;
    xr_failed_logins := failed_logins; xr_locked_until := clamp_i64 <$> locked_until |});
  affecting affected ("no such local user " +:+ username).

(** The trait's default methods, over this store. *)
Definition record_login_failure (now : Z) (username : string) : Q unit :=
  found ← get_local_user username;
  user ← lift (ok_or (Backend ("no such local user " +:+ username)) found);
  let '(failed, locked) := next_login_failure_state (lu_failed_logins user) now in
  set_login_lockout username failed locked.
Definition record_login_success (username : string) : Q unit := set_login_lockout username 0 None.

(** *** API tokens *)

Definition the_token (prefix : string) (r : TokenRow) : bool := String.eqb (tr_prefix r) prefix.

Definition create_api_token (record : ApiTokenRecord) : Q unit :=
  inserted ← insert_into api_tokens (fun new old => the_token (tr_prefix new) old) {|
    tr_prefix := at_prefix record; tr_token_hash := at_token_hash record;
    tr_username := at_username record; tr_label := at_label record;
    tr_created_at := clamp_i64 (at_created_at record);
    tr_expires_at := clamp_i64 (at_expires_at record);
    tr_revoked := of_bool (at_revoked record);
    tr_last_used_at := clamp_i64 <$> at_last_used_at record |};
  if (inserted : bool) then mret tt
  else st_err (Backend ("api token prefix " +:+ at_prefix record +:+ " already exists")).

Definition get_api_token_by_prefix (prefix : string) : Q (option ApiTokenRecord) :=
  row ← fetch_optional api_tokens (the_token prefix);
  match row with
  | Some r => t ← lift (row_to_api_token r); mret (Some t)
  | None => mret None
  end.

Definition list_api_tokens (username : string) : Q (list ApiTokenRecord) :=
  l ← fetch_ordered api_tokens (fun r => String.eqb (tr_username r) username) (fun r => - tr_created_at r);
  lift (mapM row_to_api_token l).

Definition revoke_api_token (prefix username : string) : Q unit :=
  affected ← update api_tokens (fun r => the_token prefix r && String.eqb (tr_username r) username)
    (fun r => {|
      tr_prefix := tr_prefix r; tr_token_hash := tr_token_hash r; tr_username := tr_username r;
      tr_label := tr_label r; tr_created_at := tr_created_at r; tr_expires_at := tr_expires_at r;
      tr_revoked := of_bool true; tr_last_used_at := tr_last_used_at r |});
  affecting affected ("no such api token " +:+ prefix).

Definition touch_api_token (prefix : string) (now : Z) : Q unit :=
  update api_tokens (the_token prefix) (fun r => {|
    tr_prefix := tr_prefix r; tr_token_hash := tr_token_hash r; tr_username := tr_username r;
    tr_label := tr_label r; tr_created_at := tr_created_at r; tr_expires_at := tr_expires_at r;
    tr_revoked := tr_revoked r; tr_last_used_at := Some (clamp_i64 now) |})
  ≫= fun _ => mret tt.

(** *** Role assignments *)

Definition the_assignment (principal role scope : string) (r : AssignmentRow) : bool :=
  String.eqb (gr_principal r) principal && String.eqb (gr_role r) role
  && String.eqb (gr_scope r) scope.

Definition upsert_role_assignment (now : Z) (principal role scope : string) : Q unit :=
  insert_ignore role_assignments
    (fun new old => the_assignment (gr_principal new) (gr_role new) (gr_scope new) old)
    {| gr_principal := principal; gr_role := role; gr_scope := scope; gr_created_at := as_i64 now |}
  ≫= fun _ => mret tt.

(** ORDER BY principal, scope, role. *)
Definition assignment_row_leb (a b : AssignmentRow) : bool :=
  if String.eqb (gr_principal a) (gr_principal b) then
    if String.eqb (gr_scope a) (gr_scope b) then str_leb (gr_role a) (gr_role b)
    else str_leb (gr_scope a) (gr_scope b)
  else str_leb (gr_principal a) (gr_principal b).

Definition list_role_assignments (principal : option string) : Q (list RoleAssignment) :=
  l ← select (fun d => sort_stable assignment_row_leb
        (scan (where_ (fun r => is_none_or principal (String.eqb (gr_principal r)))
          (d_role_assignments d))));
  lift (mapM row_to_assignment l).

Definition delete_role_assignment (principal role scope : string) : Q unit :=
  affected ← delete_from role_assignments (the_assignment principal role scope);
  affecting affected ("no such assignment " +:+ principal +:+ "/" +:+ role +:+ "/" +:+ scope).
End operations.
