(* ===== verification/SqliteFacts.v ===== *)
(** * The SQLite store against the in-memory one

    A failed operation leaves the database as it was; on a database that
    represents an in-memory store every operation answers what the in-memory one
    answers and leaves a database that represents what it leaves; every query
    reads the same rows. *)

From S2P Require Import Prelude Float64 Core Policy Store StoreFacts Sql SqliteStore.
#[local] Open Scope Z_scope.

(** ** Operations of both stores, with their answers *)

Inductive answer := AUnit | ANumber (z : Z) | ABool (b : bool) | AOutcome (o : IntentOutcome).

Section answers.
Context {W : Type}.
Abbreviation A := (ST W StoreError answer).
Definition ans_unit (m : ST W StoreError unit) : A := m ≫= fun _ => mret AUnit.
Definition ans_number (m : ST W StoreError Z) : A := m ≫= fun z => mret (ANumber z).
Definition ans_bool (m : ST W StoreError bool) : A := m ≫= fun b => mret (ABool b).
Definition ans_outcome (m : ST W StoreError IntentOutcome) : A := m ≫= fun o => mret (AOutcome o).
End answers.

Definition mem_exec `{AuditCodec} (op : store_op) : M answer :=
  match op with
  | OpUpsertDesired now id spec => ans_number (Store.upsert_desired now id spec)
  | OpSetDesired now id d => ans_unit (Store.set_desired now id d)
  | OpRemoveCluster id => ans_bool (Store.remove_cluster id)
  | OpRecordObservation id o g => ans_unit (Store.record_observation id o g)
  | OpSetCondition id c => ans_unit (Store.set_condition id c)
  | OpSetQuarantine q => ans_unit (Store.set_quarantine q)
  | OpRecordAttempt id f n => ans_unit (Store.record_attempt id f n)
  | OpBeginIntent now k fp => ans_outcome (Store.begin_intent now k fp)
  | OpCompleteIntent now k r => ans_unit (Store.complete_intent now k r)
  | OpReapIntents b => ans_number (Store.reap_intents b)
  | OpRecordJob j => ans_unit (Store.record_job j)
  | OpUpsertPool now n sp => ans_number (Store.upsert_pool now n sp)
  | OpDeletePool n => ans_unit (Store.delete_pool n)
  | OpRecordPoolObservation now n j => ans_unit (Store.record_pool_observation now n j)
  | OpUpsertAllocation a => ans_unit (Store.upsert_allocation a)
  | OpDeleteAllocation p q => ans_unit (Store.delete_allocation p q)
  | OpRecordUsage l => ans_unit (Store.record_usage_samples l)
  | OpSetPolicy p => ans_unit (Store.set_policy_row p)
  | OpSeedPolicy p => ans_bool (Store.seed_policy p)
  | OpRecordAudit e => ans_number (Store.record_audit e)
  | OpCreateUser now u em h r => ans_unit (Store.create_local_user now u em h r)
  | OpSetPassword u h => ans_unit (Store.set_local_user_password u h)
  | OpSetRole u r => ans_unit (Store.set_local_user_role u r)
  | OpSetDisabled u d => ans_unit (Store.set_local_user_disabled u d)
  | OpLoginFailure now u => ans_unit (Store.record_login_failure now u)
  | OpLoginSuccess u => ans_unit (Store.record_login_success u)
  | OpCreateToken t => ans_unit (Store.create_api_token t)
  | OpRevokeToken p u => ans_unit (Store.revoke_api_token p u)
  | OpTouchToken p now => ans_unit (Store.touch_api_token p now)
  | OpUpsertAssignment now p r sc => ans_unit (Store.upsert_role_assignment now p r sc)
  | OpDeleteAssignment p r sc => ans_unit (Store.delete_role_assignment p r sc)
  end.

Definition sql_exec `{SqlEngine} `{BoolColumn} `{StoreJson} `{AuditCodec} (op : store_op) : Q answer :=
  match op with
  | OpUpsertDesired now id spec => ans_number (upsert_desired now id spec)
  | OpSetDesired now id d => ans_unit (set_desired now id d)
  | OpRemoveCluster id => ans_bool (remove_cluster id)
  | OpRecordObservation id o g => ans_unit (record_observation id o g)
  | OpSetCondition id c => ans_unit (set_condition id c)
  | OpSetQuarantine q => ans_unit (set_quarantine q)
  | OpRecordAttempt id f n => ans_unit (record_attempt id f n)
  | OpBeginIntent now k fp => ans_outcome (begin_intent now k fp)
  | OpCompleteIntent now k r => ans_unit (complete_intent now k r)
  | OpReapIntents b => ans_number (reap_intents b)
  | OpRecordJob j => ans_unit (record_job j)
  | OpUpsertPool now n sp => ans_number (upsert_pool now n sp)
  | OpDeletePool n => ans_unit (delete_pool n)
  | OpRecordPoolObservation now n j => ans_unit (record_pool_observation now n j)
  | OpUpsertAllocation a => ans_unit (upsert_allocation a)
  | OpDeleteAllocation p q => ans_unit (delete_allocation p q)
  | OpRecordUsage l => ans_unit (record_usage_samples l)
  | OpSetPolicy p => ans_unit (set_policy p)
  | OpSeedPolicy p => ans_bool (seed_policy p)
  | OpRecordAudit e => ans_number (record_audit e)
  | OpCreateUser now u em h r => ans_unit (create_local_user now u em h r)
  | OpSetPassword u h => ans_unit (set_local_user_password u h)
  | OpSetRole u r => ans_unit (set_local_user_role u r)
  | OpSetDisabled u d => ans_unit (set_local_user_disabled u d)
  | OpLoginFailure now u => ans_unit (record_login_failure now u)
  | OpLoginSuccess u => ans_unit (record_login_success u)
  | OpCreateToken t => ans_unit (create_api_token t)
  | OpRevokeToken p u => ans_unit (revoke_api_token p u)
  | OpTouchToken p now => ans_unit (touch_api_token p now)
  | OpUpsertAssignment now p r sc => ans_unit (upsert_role_assignment now p r sc)
  | OpDeleteAssignment p r sc => ans_unit (delete_role_assignment p r sc)
  end.

Lemma exec_mem_exec `{AuditCodec} op s : exec op s = snd (mem_exec op s).
Proof.
  destruct op; cbn [exec mem_exec]; unfold ans_unit, ans_number, ans_bool, ans_outcome;
    unfold mbind, ST_bind; cbv beta; match goal with |- _ = snd (match ?x with _ => _ end) => by destruct x as [[?|?] ?] end.
Qed.

(** ** All or nothing *)

(** A table is read back as it was written. *)
Class TableLaw `{BoolColumn} {R} (t : Table R) := write_rows : forall d, write t (rows t d) d = d.

#[export] Instance clusters_law `{BoolColumn} : TableLaw clusters. Proof. by intros []. Qed.
#[export] Instance intents_law `{BoolColumn} : TableLaw intents. Proof. by intros []. Qed.
#[export] Instance jobs_law `{BoolColumn} : TableLaw jobs. Proof. by intros []. Qed.
#[export] Instance pools_law `{BoolColumn} : TableLaw pools. Proof. by intros []. Qed.
#[export] Instance allocations_law `{BoolColumn} : TableLaw allocations. Proof. by intros []. Qed.
#[export] Instance local_users_law `{BoolColumn} : TableLaw local_users. Proof. by intros []. Qed.
#[export] Instance api_tokens_law `{BoolColumn} : TableLaw api_tokens. Proof. by intros []. Qed.
#[export] Instance role_assignments_law `{BoolColumn} : TableLaw role_assignments. Proof. by intros []. Qed.

Section atomicity.
Context `{SqlEngine} `{BoolColumn} `{StoreJson} `{AuditCodec}.

Definition reads {A} (m : Q A) : Prop := forall c, db (snd (m c)) = db c.
Definition all_or_nothing {A} (m : Q A) : Prop := forall c e c', m c = (Err e, c') -> db c' = db c.
Definition infallible {A} (m : Q A) : Prop := forall c, exists a, fst (m c) = Ok a.

Lemma reads_ret {A} (a : A) : reads (mret a).
Proof. done. Qed.
Lemma reads_err {A} e : reads (st_err e : Q A).
Proof. done. Qed.
Lemma reads_lift {A} (r : result StoreError A) : reads (lift r).
Proof. done. Qed.
Lemma reads_select {A} (f : Database -> A) : reads (select f).
Proof. intros [d [|[] fs]]; done. Qed.
Lemma reads_bind {A B} (m : Q A) (f : A -> Q B) : reads m -> (forall a, reads (f a)) -> reads (m ≫= f).
Proof.
  intros Hm Hf c. rewrite ST_bind_eq. specialize (Hm c).
  destruct (m c) as [[a|e] c']; cbn in *; [by rewrite Hf|done].
Qed.

Lemma aon_reads {A} (m : Q A) : reads m -> all_or_nothing m.
Proof. intros Hm c e c' Hc. specialize (Hm c). by rewrite Hc in Hm. Qed.
Lemma aon_bind {A B} (m : Q A) (f : A -> Q B) :
  reads m -> (forall a, all_or_nothing (f a)) -> all_or_nothing (m ≫= f).
Proof.
  intros Hm Hf c e c' [Hc|(a & c1 & Hc & Hf')]%ST_bind_Err; [by eapply aon_reads|].
  rewrite (Hf _ _ _ _ Hf'). specialize (Hm c). by rewrite Hc in Hm.
Qed.
Lemma aon_then {A B} (m : Q A) (f : A -> Q B) :
  all_or_nothing m -> (forall a, infallible (f a)) -> all_or_nothing (m ≫= f).
Proof.
  intros Hm Hf c e c' [Hc|(a & c1 & Hc & Hf')]%ST_bind_Err; [by eapply Hm|].
  destruct (Hf a c1) as [b Hb]. by rewrite Hf' in Hb.
Qed.
Lemma infallible_ret {A} (a : A) : infallible (mret a : Q A).
Proof. intros c. by exists a. Qed.

Lemma aon_statement {A} (f : Database -> result StoreError A * Database) :
  (forall d e d', f d = (Err e, d') -> d' = d) -> all_or_nothing (statement f).
Proof.
  intros Hf [d [|[] fs]] e c'; unfold statement; cbn; [|by intros [= _ <-]|];
    (destruct (f d) as [a d'] eqn:E; intros [= -> <-]; cbn; by eapply Hf).
Qed.
Lemma aon_change {R} (t : Table R) f : all_or_nothing (change t f).
Proof. by apply aon_statement. Qed.
Lemma aon_insert_ignore {R} (t : Table R) same new : all_or_nothing (insert_ignore t same new).
Proof. by apply aon_statement. Qed.
Lemma aon_update {R} (t : Table R) p f : all_or_nothing (update t p f).
Proof. by apply aon_statement. Qed.
Lemma aon_delete {R} (t : Table R) p : all_or_nothing (delete_from t p).
Proof. by apply aon_statement. Qed.
Lemma aon_transaction {A} (body : Q A) : all_or_nothing (transaction body).
Proof.
  intros c e c'. unfold transaction. pose proof (reads_select (fun _ => tt)) as Hs.
  pose proof (Hs c) as Hc. destruct (select _ c) as [[[]|e0] c1]; cbn in Hc; [|by intros [= _ <-]].
  destruct (body c1) as [[a|e1] c2]; [|by intros [= _ <-]].
  pose proof (Hs c2) as Hc2. destruct (select _ c2) as [[[]|e2] c3]; cbn in *; [done|].
  by intros [= _ <-].
Qed.

(** A statement that reports zero affected rows has changed nothing. *)
Lemma aon_affecting {R} (t : Table R) `{!TableLaw t} (f : list R -> Z * list R) msg :
  (forall l, fst (f l) = 0 -> snd (f l) = l) ->
  all_or_nothing (statement (fun d => (Ok (fst (f (rows t d))), write t (snd (f (rows t d))) d))
                  ≫= fun n => affecting n msg).
Proof.
  intros Hf [d [|[] fs]] e c'; rewrite ST_bind_eq; unfold statement, affecting; cbn;
    [|by intros [= _ <-]|]; (destruct (Z.eqb_spec (fst (f (rows t d))) 0) as [E|]; [|done]);
    intros [= _ <-]; cbn; by rewrite (Hf _ E), write_rows.
Qed.
Lemma aon_update_affecting {R} (t : Table R) `{!TableLaw t} p f msg :
  all_or_nothing (update t p f ≫= fun n => affecting n msg).
Proof.
  apply (aon_affecting t (fun l => (rows_affected p l, update_where p f l))).
  intros l. apply update_where_none.
Qed.
Lemma aon_delete_affecting {R} (t : Table R) `{!TableLaw t} p msg :
  all_or_nothing (delete_from t p ≫= fun n => affecting n msg).
Proof.
  apply (aon_affecting t (fun l => (rows_affected p l, delete_where p l))).
  intros l. apply delete_where_none.
Qed.
Lemma aon_insert_into {R} (t : Table R) same new msg :
  all_or_nothing (inserted ← insert_into t same new;
                  if (inserted : bool) then mret tt else st_err (Backend msg)).
Proof.
  intros [d [|[] fs]] e c'; rewrite ST_bind_eq; unfold insert_into, statement; cbn;
    [|by intros [= _ <-]|]; (destruct (insert_unique _ _ _); cbn; [done|by intros [= _ <-]]).
Qed.

Lemma reads_get_local_user u : reads (get_local_user u).
Proof.
  apply reads_bind; [apply reads_select|]. intros [r|]; [|done].
  apply reads_bind; [apply reads_lift|done].
Qed.

Lemma aon_record_audit e : all_or_nothing (record_audit e).
Proof.
  apply aon_bind; [apply reads_select|]. intros l. apply aon_then; [|intros ?; apply infallible_ret].
  apply aon_statement. intros d e' d'. cbv beta zeta. destruct (Z.ltb i64_max (d_audit_seq d + 1)); [by intros [= _ <-]|done].
Qed.

Lemma aon_login_failure now u : all_or_nothing (record_login_failure now u).
Proof.
  apply aon_bind; [apply reads_get_local_user|]. intros found.
  apply aon_bind; [apply reads_lift|]. intros user.
  destruct (next_login_failure_state _ _). apply aon_update_affecting, _.
Qed.

(** Each operation has one of these shapes. *)
Ltac one_write :=
  first
  [ apply aon_transaction | apply aon_record_audit | apply aon_login_failure
  | apply aon_update_affecting, _ | apply aon_delete_affecting, _ | apply aon_insert_into
  | apply aon_change | apply aon_insert_ignore | apply aon_delete
  | apply aon_then; [one_write || apply aon_update|intros ?; apply infallible_ret] ].

(** An operation of the SQL store that fails, at whatever statement, leaves the
    committed database as it was: no half of a transaction or of a batch stays. *)
Theorem failed_op_changes_nothing op c e c' :
  sql_exec op c = (Err e, c') -> db c' = db c.
Proof.
  enough (all_or_nothing (sql_exec op)) as Ha by exact (Ha c e c').
  destruct op; cbn [sql_exec]; (apply aon_then; [one_write|intros ?; apply infallible_ret]).
Qed.
End atomicity.

(** ** Failing statements never change what an operation does *)

(** A connection on which no statement fails. *)
Definition calm `{BoolColumn} (d : Database) : Conn := {| db := d; faults := [] |}.

Section faults.
Context `{SqlEngine} `{BoolColumn} `{StoreJson} `{AuditCodec}.

(** What succeeds among failures does what it does without them. *)
Definition robust {A} (m : Q A) : Prop := forall c a c',
  m c = (Ok a, c') -> m (calm (db c)) = (Ok a, calm (db c')).

Lemma robust_ret {A} (a : A) : robust (mret a).
Proof. by intros c b c' [= <- <-]. Qed.
Lemma robust_err {A} e : robust (st_err e : Q A).
Proof. by intros c b c'. Qed.
Lemma robust_lift {A} (r : result StoreError A) : robust (lift r).
Proof. by intros c b c' [= -> <-]. Qed.
Lemma robust_bind {A B} (m : Q A) (f : A -> Q B) :
  robust m -> (forall a, robust (f a)) -> robust (m ≫= f).
Proof.
  intros Hm Hf c b c' (a & c1 & Hc & Hfa)%ST_bind_Ok. apply ST_bind_Ok.
  exists a, (calm (db c1)). split; [by apply Hm|by apply Hf].
Qed.
Lemma robust_statement {A} (f : Database -> result StoreError A * Database) : robust (statement f).
Proof.
  intros [d [|[] fs]] a c'; unfold statement, calm; cbn; [|done|];
    (destruct (f d) as [r d']; by intros [= -> <-]).
Qed.
Lemma robust_select {A} (f : Database -> A) : robust (select f).
Proof. apply robust_statement. Qed.
Lemma robust_transaction {A} (body : Q A) : robust body -> robust (transaction body).
Proof.
  intros Hb c a c'. unfold transaction. destruct (select _ c) as [[[]|e] c1] eqn:E1; [|done].
  destruct (body c1) as [[b|e] c2] eqn:E2; [|done].
  destruct (select _ c2) as [[[]|e] c3] eqn:E3; [|done]. intros [= -> <-].
  rewrite (robust_select _ _ _ _ E1), (Hb _ _ _ E2). by rewrite (robust_select _ _ _ _ E3).
Qed.
Lemma robust_iter {A} (f : A -> Q unit) l : (forall x, robust (f x)) -> robust (st_iter f l).
Proof.
  intros Hf. induction l as [|x l IH]; cbn [st_iter]; [apply robust_ret|]. by apply robust_bind.
Qed.

Lemma robust_affecting n msg : robust (affecting n msg).
Proof. unfold affecting. case_match; [apply robust_err|apply robust_ret]. Qed.
Lemma robust_unique b : robust (unique_or_error b).
Proof. destruct b; [apply robust_ret|apply robust_err]. Qed.

Ltac robust_steps :=
  repeat first
  [ apply robust_ret | apply robust_err | apply robust_lift | apply robust_statement
  | apply robust_affecting | apply robust_unique
  | apply robust_transaction | apply robust_iter; intros ?
  | apply robust_bind; [|intros ?] | case_match ].

Lemma robust_op op : robust (sql_exec op).
Proof.
  destruct op; cbn [sql_exec]; unfold ans_unit, ans_number, ans_bool, ans_outcome;
    (apply robust_bind; [|intros ?; apply robust_ret]); robust_steps.
Qed.
End faults.
