(* ===== verification/SqliteRefine.v ===== *)
(** * Refinement of the in-memory store by the SQLite store

    How a database represents an in-memory store, that each operation keeps the
    representation and answers alike, under any pattern of failing statements,
    and that the queries read the same rows. *)

From S2P Require Import Prelude Float64 Core Policy Store StoreFacts Sql SqliteStore SqliteFacts.
#[local] Open Scope Z_scope.

(** ** Encoding of values as rows *)

Section encoding.
Context `{BoolColumnLaw} `{StoreJson}.

(** What [serde_json] writes for [a] reads back as [a]. *)
Definition stable {A} `{SerdeJson A} (a : A) : Prop := from_str (to_string a) = Ok a.
Definition opt_holds {A} (P : A -> Prop) (o : option A) : Prop := forall a, o = Some a -> P a.

Definition cluster_row (c : StoredCluster) : ClusterRow := {|
  cr_id := c_id c; cr_spec_json := to_string (c_spec c);
  cr_generation := as_i64 (c_generation c); cr_desired := desired_to_str (c_desired c);
  cr_observed_state := to_string <$> c_observed_state c;
  cr_observed_generation := c_observed_generation c;
  cr_condition := to_string <$> c_condition c; cr_failure_count := c_failure_count c;
  cr_next_attempt_at := c_next_attempt_at c; cr_created_at := c_created_at c;
  cr_terminated_at := c_terminated_at c |}.
Definition cluster_ok (id : string) (c : StoredCluster) : Prop :=
  c_id c = id /\ stable (c_spec c) /\ is_u64 (c_generation c) /\
  opt_holds stable (c_observed_state c) /\ in_i64 (c_observed_generation c) /\
  opt_holds stable (c_condition c) /\ is_u32 (c_failure_count c) /\
  in_i64 (c_next_attempt_at c) /\ in_i64 (c_created_at c) /\ opt_holds in_i64 (c_terminated_at c).

Definition intent_status_str (s : IntentStatus) : string :=
  match s with IPending => "pending" | IApplied => "applied" end.
Definition intent_row (i : IntentRecord) : IntentRow := {|
  ir_intent_key := i_key i; ir_params_fingerprint := i_params_fingerprint i;
  ir_status := intent_status_str (i_status i); ir_response_json := i_response_json i;
  ir_created_at := i_created_at i; ir_completed_at := i_completed_at i |}.
Definition intent_ok (k : string) (i : IntentRecord) : Prop :=
  i_key i = k /\ in_i64 (i_created_at i) /\ opt_holds in_i64 (i_completed_at i).

Definition job_row (j : JobRecord) : JobRow := {|
  jr_id := j_id j; jr_cluster := j_cluster j; jr_submitter := j_submitter j;
  jr_status := j_status j; jr_duration_secs := as_i64 <$> j_duration_secs j;
  jr_submitted_at := j_submitted_at j |}.
Definition job_ok (k : string) (j : JobRecord) : Prop :=
  j_id j = k /\ opt_holds is_u64 (j_duration_secs j) /\ in_i64 (j_submitted_at j).

Definition pool_row (p : StoredPool) : PoolRow := {|
  pr_name := sp_name p; pr_spec_json := to_string (sp_spec p);
  pr_generation := as_i64 (sp_generation p); pr_observed_json := sp_observed_json p;
  pr_observed_at := sp_observed_at p; pr_created_at := sp_created_at p |}.
Definition pool_ok (k : string) (p : StoredPool) : Prop :=
  sp_name p = k /\ stable (sp_spec p) /\ is_u64 (sp_generation p) /\
  opt_holds in_i64 (sp_observed_at p) /\ in_i64 (sp_created_at p).

Definition allocation_row (a : AllocationSpec) : AllocationRow := {|
  lr_pool := a_pool a; lr_project := a_project a; lr_spec_json := to_string a |}.
Definition allocation_ok (k : string * string) (a : AllocationSpec) : Prop :=
  (a_pool a, a_project a) = k /\ stable a.

Definition sample_ok (s : UsageSample) : Prop := in_i64 (us_ts s).

(** The row of a trail entry, and when it reads back. *)
Definition trail_row (r : ChainedAuditRow) : AuditRow := audit_row (row_event r) (row_hash r) (row_seq r).
Definition event_ok (e : AuditEvent) : Prop :=
  in_i64 (ae_ts e) /\ opt_holds (fun s => 0 <= s < 2 ^ 16) (ae_status e) /\
  opt_holds in_i64 (ae_latency_ms e) /\ opt_holds stable (ae_required e) /\
  stable (ae_granted_roles e).

Definition user_row (u : LocalUserRecord) : UserRow := {|
  xr_username := lu_username u; xr_email := lu_email u; xr_password_hash := lu_password_hash u;
  xr_role := local_role_str (lu_role u); xr_disabled := of_bool (lu_disabled u);
  xr_created_at := lu_created_at u; xr_failed_logins := lu_failed_logins u;
  xr_locked_until := lu_locked_until u |}.
Definition user_ok (k : string) (u : LocalUserRecord) : Prop :=
  lu_username u = k /\ in_i64 (lu_created_at u) /\ is_u32 (lu_failed_logins u) /\
  opt_holds in_i64 (lu_locked_until u).

Definition token_row (t : ApiTokenRecord) : TokenRow := {|
  tr_prefix := at_prefix t; tr_token_hash := at_token_hash t; tr_username := at_username t;
  tr_label := at_label t; tr_created_at := at_created_at t; tr_expires_at := at_expires_at t;
  tr_revoked := of_bool (at_revoked t); tr_last_used_at := at_last_used_at t |}.
Definition token_ok (k : string) (t : ApiTokenRecord) : Prop :=
  at_prefix t = k /\ in_i64 (at_created_at t) /\ in_i64 (at_expires_at t) /\
  opt_holds in_i64 (at_last_used_at t).

Definition assignment_row (a : RoleAssignment) : AssignmentRow := {|
  gr_principal := ra_principal a; gr_role := ra_role a; gr_scope := ra_scope a;
  gr_created_at := ra_created_at a |}.
Definition assignment_ok (k : string * string * string) (a : RoleAssignment) : Prop :=
  (ra_principal a, ra_role a, ra_scope a) = k /\ in_i64 (ra_created_at a).

(** ** Decoding what was encoded *)

Lemma parse_stable {A} `{SerdeJson A} (a : A) : stable a -> parse (to_string a) = Ok a.
Proof. unfold stable, parse. by intros ->. Qed.
Lemma parse_opt_stable {A} `{SerdeJson A} (o : option A) :
  opt_holds stable o -> parse_opt (to_string <$> o) = Ok o.
Proof. destruct o as [a|]; cbn; [|done]. intros Ho. by rewrite (parse_stable a) by by apply Ho. Qed.
Lemma opt_as_u64 o : opt_holds in_i64 o -> as_u64 <$> o = o.
Proof. destruct o as [a|]; cbn; [|done]. intros Ho. by rewrite as_u64_id by auto with mobula. Qed.
Lemma desired_roundtrip d : desired_from_str (desired_to_str d) = Ok d.
Proof. by destruct d. Qed.

Lemma cluster_decodes k c : cluster_ok k c -> row_to_cluster (cluster_row c) = Ok c.
Proof.
  intros (<- & Hs & Hg & Ho & Hog & Hc & Hf & Hn & Hcr & Ht). unfold row_to_cluster. cbn -[parse parse_opt].
  rewrite (parse_stable _ Hs). cbn -[parse_opt]. rewrite (parse_opt_stable _ Ho). cbn -[parse_opt].
  rewrite (parse_opt_stable _ Hc). cbn. rewrite desired_roundtrip. cbn.
  rewrite as_u64_i64, as_u32_id, (opt_as_u64 _ Ht), !as_u64_id by auto with mobula.
  by destruct c.
Qed.
Lemma intent_decodes k i : intent_ok k i -> row_to_intent (intent_row i) = Ok i.
Proof.
  intros (<- & Hc & Ho). unfold row_to_intent. cbn.
  rewrite (opt_as_u64 _ Ho), as_u64_id by auto with mobula. by destruct i as [? ? [] ? ? ?].
Qed.
Lemma job_decodes k j : job_ok k j -> row_to_job (job_row j) = Ok j.
Proof.
  intros (<- & Hd & Hs). unfold row_to_job. cbn. rewrite as_u64_id by auto with mobula.
  rewrite <- option_fmap_compose. destruct j as [? ? ? ? [d|] ?]; cbn in *; [|done].
  by rewrite as_u64_i64 by by apply Hd.
Qed.
Lemma pool_decodes k p : pool_ok k p -> row_to_pool (pool_row p) = Ok p.
Proof.
  intros (<- & Hs & Hg & Ho & Hc). unfold row_to_pool. cbn -[parse]. rewrite (parse_stable _ Hs). cbn.
  rewrite as_u64_i64, (opt_as_u64 _ Ho), as_u64_id by auto with mobula. by destruct p.
Qed.
Lemma sample_decodes s : sample_ok s -> row_to_sample (sample_row s) = Ok s.
Proof.
  unfold sample_ok, row_to_sample. intros Hs. destruct s as [ts pr po re qu []]; cbn in *;
    by rewrite as_u64_i64 by auto with mobula.
Qed.
Lemma event_decodes seq e h :
  event_ok e -> in_i64 seq -> row_to_audit_event (audit_row e h seq) = Ok (seq, e).
Proof.
  intros (Ht & Hs & Hl & Hr & Hg) Hq. unfold row_to_audit_event. cbn -[parse parse_opt].
  rewrite (parse_opt_stable _ Hr). cbn -[parse]. rewrite (parse_stable _ Hg). cbn.
  replace (audit_decision_parse (audit_decision_str (ae_decision e))) with (Some (ae_decision e))
    by by destruct (ae_decision e).
  cbn. rewrite clamp_i64_id, !as_u64_id by auto with mobula.
  assert (as_u64 <$> (clamp_i64 <$> ae_latency_ms e) = ae_latency_ms e) as ->.
  { destruct (ae_latency_ms e) as [l|]; cbn; [|done]. specialize (Hl _ eq_refl).
    by rewrite clamp_i64_id, as_u64_id by auto with mobula. }
  assert (as_u16 <$> ae_status e = ae_status e) as ->.
  { destruct (ae_status e) as [l|]; cbn; [|done]. specialize (Hs _ eq_refl). unfold as_u16.
    by rewrite Z.mod_small. }
  by destruct e.
Qed.
Lemma user_decodes k u : user_ok k u -> row_to_local_user (user_row u) = Ok u.
Proof.
  intros (<- & Hc & Hf & Hl). unfold row_to_local_user. cbn.
  replace (local_role_parse (local_role_str (lu_role u))) with (Some (lu_role u))
    by by destruct (lu_role u).
  cbn. rewrite as_u32_id, (opt_as_u64 _ Hl), as_u64_id by auto with mobula.
  rewrite to_of_bool. by destruct u.
Qed.
Lemma token_decodes k t : token_ok k t -> row_to_api_token (token_row t) = Ok t.
Proof.
  intros (<- & Hc & He & Hl). unfold row_to_api_token. cbn.
  rewrite (opt_as_u64 _ Hl), !as_u64_id by auto with mobula. rewrite to_of_bool. by destruct t.
Qed.
Lemma assignment_decodes k a : assignment_ok k a -> row_to_assignment (assignment_row a) = Ok a.
Proof.
  intros (_ & Hc). unfold row_to_assignment. cbn. rewrite as_u64_id by auto with mobula. by destruct a.
Qed.
End encoding.

(** ** Representation of a store *)

Section refinement.
Context `{SqlEngineLaws} `{BoolColumnLaw} `{StoreJson} `{AuditCodec}.
(** A job's cluster, submitter and time, by its id: SQLite keeps those of the
    first record, the in-memory store those of the last, so the two agree on jobs
    whose records do. *)
Context (J : string -> string * string * Z).

Definition job_fixed (j : JobRecord) : string * string * Z :=
  (j_cluster j, j_submitter j, j_submitted_at j).
Definition the_job_ok (k : string) (j : JobRecord) : Prop := job_ok k j /\ job_fixed j = J k.

Definition control_ok (k : string) (r : ControlRow) : Prop := kr_key r = k.
Definition control_rep (t : list ControlRow) (q : bool) (p : option StoredPolicy) : Prop :=
  exists m : gmap string ControlRow, rep kr_key (fun r => r) control_ok t m /\
    is_some_and (kr_value <$> m !! "quarantine"%string) (String.eqb "true") = q /\
    kr_value <$> m !! "policy"%string = to_string <$> p /\ opt_holds stable p.

Record trail_rep (t : list AuditRow) (top : Z) (l : list ChainedAuditRow) (seq : Z) : Prop := {
  trail_rows : t = trail_row <$> l;
  trail_top : top = seq;
  trail_seq : seq = Z.of_nat (length l);
  trail_room : seq < i64_max;
  trail_entries : forall i r, l !! i = Some r -> row_seq r = Z.of_nat i + 1 /\ event_ok (row_event r);
}.

Definition allocation_key (r : AllocationRow) : string * string := (lr_pool r, lr_project r).
Definition assignment_key (r : AssignmentRow) : string * string * string :=
  (gr_principal r, gr_role r, gr_scope r).

Record represents (d : Database) (s : InMemoryStore) : Prop := {
  rep_clusters : rep cr_id cluster_row cluster_ok (d_clusters d) (m_clusters s);
  rep_intents : rep ir_intent_key intent_row intent_ok (d_intents d) (m_intents s);
  rep_control : control_rep (d_control d) (m_quarantined s) (m_policy s);
  rep_jobs : rep jr_id job_row the_job_ok (d_jobs d) (m_jobs s);
  rep_pools : rep pr_name pool_row pool_ok (d_pools d) (m_pools s);
  rep_allocations : rep allocation_key allocation_row allocation_ok (d_allocations d) (m_allocations s);
  rep_usage : d_usage_samples d = sample_row <$> m_usage s /\ Forall sample_ok (m_usage s);
  rep_audit : trail_rep (d_audit_events d) (d_audit_seq d) (m_audit s) (m_audit_seq s);
  rep_users : rep xr_username user_row user_ok (d_local_users d) (m_local_users s);
  rep_tokens : rep tr_prefix token_row token_ok (d_api_tokens d) (m_api_tokens s);
  rep_assignments :
    rep assignment_key assignment_row assignment_ok (d_role_assignments d) (m_assignments s);
}.

Lemma cluster_key k c : cluster_ok k c -> cr_id (cluster_row c) = k.
Proof. by intros [<- _]. Qed.
Lemma intent_row_key k i : intent_ok k i -> ir_intent_key (intent_row i) = k.
Proof. by intros [<- _]. Qed.
Lemma job_key k j : the_job_ok k j -> jr_id (job_row j) = k.
Proof. by intros [[<- _] _]. Qed.
Lemma pool_key k p : pool_ok k p -> pr_name (pool_row p) = k.
Proof. by intros [<- _]. Qed.
Lemma allocation_row_key k a : allocation_ok k a -> allocation_key (allocation_row a) = k.
Proof. by intros [<- _]. Qed.
Lemma user_key k u : user_ok k u -> xr_username (user_row u) = k.
Proof. by intros [<- _]. Qed.
Lemma token_key k t : token_ok k t -> tr_prefix (token_row t) = k.
Proof. by intros [<- _]. Qed.
Lemma assignment_row_key k a : assignment_ok k a -> assignment_key (assignment_row a) = k.
Proof. by intros [<- _]. Qed.
Lemma control_row_key k r : control_ok k r -> kr_key r = k.
Proof. done. Qed.

Lemma empty_represents : represents empty_db empty_store.
Proof.
  split; cbn; try apply rep_empty.
  - exists ∅. rewrite !lookup_empty. by split_and!; [apply rep_empty|..].
  - by repeat constructor.
  - split; try done. 
Qed.

(** One table written. *)
Lemma into_clusters d s t m :
  represents d s -> rep cr_id cluster_row cluster_ok t m -> represents (write clusters t d) (set_clusters m s).
Proof. by intros [] ?; split. Qed.
Lemma into_intents d s t m :
  represents d s -> rep ir_intent_key intent_row intent_ok t m -> represents (write intents t d) (set_intents m s).
Proof. by intros [] ?; split. Qed.
Lemma into_quarantine d s t q :
  represents d s -> control_rep t q (m_policy s) -> represents (write control t d) (set_quarantined q s).
Proof. by intros [] ?; split. Qed.
Lemma into_policy d s t p :
  represents d s -> control_rep t (m_quarantined s) p -> represents (write control t d) (Store.set_policy p s).
Proof. by intros [] ?; split. Qed.
Lemma into_jobs d s t m :
  represents d s -> rep jr_id job_row the_job_ok t m -> represents (write jobs t d) (set_jobs m s).
Proof. by intros [] ?; split. Qed.
Lemma into_pools d s t m :
  represents d s -> rep pr_name pool_row pool_ok t m -> represents (write pools t d) (set_pools m s).
Proof. by intros [] ?; split. Qed.
Lemma into_allocations d s t m :
  represents d s -> rep allocation_key allocation_row allocation_ok t m ->
  represents (write allocations t d) (set_allocations m s).
Proof. by intros [] ?; split. Qed.
Lemma into_users d s t m :
  represents d s -> rep xr_username user_row user_ok t m -> represents (write local_users t d) (set_local_users m s).
Proof. by intros [] ?; split. Qed.
Lemma into_tokens d s t m :
  represents d s -> rep tr_prefix token_row token_ok t m -> represents (write api_tokens t d) (set_api_tokens m s).
Proof. by intros [] ?; split. Qed.
Lemma into_assignments d s t m :
  represents d s -> rep assignment_key assignment_row assignment_ok t m ->
  represents (write role_assignments t d) (set_assignments m s).
Proof. by intros [] ?; split. Qed.

(** ** Simulation *)

(** The operation answers alike and keeps the representation. *)
Definition sim {A} (d : Database) (s : InMemoryStore) (mq : Q A) (mm : M A) : Prop :=
  exists d', mq (calm d) = (fst (mm s), calm d') /\ represents d' (snd (mm s)).

Lemma sim_answer {A} d s (mq : Q A) (mm : M A) (f : A -> answer) :
  sim d s mq mm -> sim d s (mq ≫= fun a => mret (f a)) (mm ≫= fun a => mret (f a)).
Proof.
  intros (d' & Hq & Hr). exists d'. rewrite !ST_bind_eq, Hq.
  by destruct (mm s) as [[a|e] s'].
Qed.

Lemma sim_mem {A} d s (mq : Q A) (mm mm' : M A) : mm s = mm' s -> sim d s mq mm' -> sim d s mq mm.
Proof. unfold sim. by intros ->. Qed.

(** Run both sides. *)
Ltac run_both :=
  unfold ans_unit, affecting, unique_or_error, transaction, fetch_optional, update, delete_from, insert_into, insert_ignore,
    change, select, statement, lift, upd_clusters, mbind, ST_bind, mret, ST_ret, st_get, st_put,
    st_err in *;
  cbn [calm db faults tail fst snd rows clusters intents control jobs pools allocations local_users
    api_tokens role_assignments].

Lemma string_key {R} (key : R -> string) k r : String.eqb (key r) k = true <-> key r = k.
Proof. apply String.eqb_eq. Qed.
#[local] Hint Resolve string_key cluster_key intent_row_key job_key pool_key allocation_row_key
  user_key token_key assignment_row_key control_row_key : core.

(** A table that stands for a map of the store. *)
Record Mapped {K V R} `{Countable K} (tb : Table R) (look : InMemoryStore -> gmap K V)
    (put : gmap K V -> InMemoryStore -> InMemoryStore) (key : R -> K) (enc : V -> R)
    (ok : K -> V -> Prop) : Prop := {
  mapped_law : TableLaw tb;
  mapped_key : forall k v, ok k v -> key (enc v) = k;
  mapped_rep : forall d s, represents d s -> rep key enc ok (rows tb d) (look s);
  mapped_into : forall d s t m, represents d s -> rep key enc ok t m -> represents (write tb t d) (put m s);
}.

Arguments mapped_law {K V R _ _ tb look put key enc ok} _.
Arguments mapped_key {K V R _ _ tb look put key enc ok} _.
Arguments mapped_rep {K V R _ _ tb look put key enc ok} _.
Arguments mapped_into {K V R _ _ tb look put key enc ok} _.

Section mapped.
Context {K V R} `{Countable K} {tb : Table R} {look : InMemoryStore -> gmap K V}
  {put : gmap K V -> InMemoryStore -> InMemoryStore} {key : R -> K} {enc : V -> R} {ok : K -> V -> Prop}.
Context (HM : Mapped tb look put key enc ok) (p : R -> bool) (k : K).
Context (p_key : forall r, p r = true <-> key r = k).
Implicit Types (d : Database) (s : InMemoryStore).

Lemma map_fetch d s : represents d s -> fetch_one p (rows tb d) = enc <$> look s !! k.
Proof. intros Hr. exact (rep_fetch key enc ok (mapped_key HM) p k p_key _ _ (mapped_rep HM _ _ Hr)). Qed.

Lemma map_ok d s v : represents d s -> look s !! k = Some v -> ok k v.
Proof. intros Hr Hk. by apply (rep_ok _ _ _ _ _ (mapped_rep HM _ _ Hr)). Qed.

Lemma map_alter d s f g :
  represents d s ->
  (forall v, look s !! k = Some v -> ok k v -> f (enc v) = enc (g v) /\ ok k (g v)) ->
  represents (write tb (update_where p f (rows tb d)) d) (put (alter g k (look s)) s).
Proof.
  intros Hr Hg. apply (mapped_into HM); [done|].
  eapply (rep_alter _ _ _ (mapped_key HM)); [by apply (mapped_rep HM)|done|].
  intros v Hv. apply Hg; [done|by eapply map_ok].
Qed.

(** UPDATE that reports a missing row. *)
Lemma sim_alter_or_missing d s f g msg :
  represents d s ->
  (forall v, look s !! k = Some v -> ok k v -> f (enc v) = enc (g v) /\ ok k (g v)) ->
  sim d s (update tb p f ≫= fun n => affecting n msg)
    (m ← st_get look;
     match m !! k with
     | None => st_err (Backend msg)
     | Some v => st_put (put (<[k := g v]> m))
     end).
Proof.
  intros Hr Hg. pose proof (mapped_rep HM _ _ Hr) as Ht. unfold sim. run_both.
  rewrite (rep_affected _ _ _ (mapped_key HM) _ _ p_key _ _ Ht).
  destruct (look s !! k) as [v|] eqn:E; cbn.
  - eexists. split; [reflexivity|]. cbn. rewrite <- (alter_as_insert _ _ _ _ E). apply map_alter; [done|]. by rewrite E.
  - eexists. split; [reflexivity|]. cbn. rewrite update_where_none.
    + by rewrite (mapped_law HM).
    + by apply (rep_untouched _ _ _ (mapped_key HM) _ _ p_key _ _ Ht).
Qed.

(** DELETE that reports a missing row. *)
Lemma map_delete d s :
  represents d s -> represents (write tb (delete_where p (rows tb d)) d) (put (delete k (look s)) s).
Proof.
  intros Hr. apply (mapped_into HM); [done|].
  eapply (rep_delete _ _ _ (mapped_key HM)); [done|by apply (mapped_rep HM)].
Qed.
Lemma sim_delete_or_missing d s msg :
  represents d s ->
  sim d s (delete_from tb p ≫= fun n => affecting n msg)
    (m ← st_get look;
     match m !! k with
     | None => st_err (Backend msg)
     | Some v => st_put (put (delete k m))
     end).
Proof.
  intros Hr. pose proof (mapped_rep HM _ _ Hr) as Ht. unfold sim. run_both.
  rewrite (rep_affected _ _ _ (mapped_key HM) _ _ p_key _ _ Ht).
  destruct (look s !! k) as [v|] eqn:E; cbn.
  - eexists. split; [reflexivity|]. by apply map_delete.
  - eexists. split; [reflexivity|]. cbn. rewrite delete_where_none.
    + by rewrite (mapped_law HM).
    + by apply (rep_untouched _ _ _ (mapped_key HM) _ _ p_key _ _ Ht).
Qed.

(** INSERT that reports a taken key. *)
Lemma sim_insert_or_taken d s same v msg :
  represents d s -> (forall r, same (enc v) r = p r) -> ok k v ->
  sim d s (inserted ← insert_into tb same (enc v);
           if (inserted : bool) then mret tt else st_err (Backend msg))
    (m ← st_get look;
     match m !! k with
     | Some _ => st_err (Backend msg)
     | None => st_put (put (<[k := v]> m))
     end).
Proof.
  intros Hr Hs Hok. pose proof (mapped_rep HM _ _ Hr) as Ht. unfold sim. run_both.
  unfold insert_unique.
  assert (forall r, same (enc v) r = true <-> key r = k) as Hk by (intros r; by rewrite Hs).
  rewrite (rep_exists _ _ _ (mapped_key HM) _ _ Hk _ _ Ht).
  destruct (look s !! k) as [v'|] eqn:E; cbn.
  - eexists. by split.
  - eexists. split; [reflexivity|]. cbn.
    apply (mapped_into HM); [done|]. by apply (rep_insert_new _ _ _ (mapped_key HM)).
Qed.

(** INSERT ... ON CONFLICT DO UPDATE. *)
Lemma map_upsert d s same merge new upd :
  represents d s -> (forall r, same new r = p r) ->
  (look s !! k = None -> new = enc (upd None)) ->
  (forall old, look s !! k = Some old -> merge (enc old) new = enc (upd (Some old))) ->
  ok k (upd (look s !! k)) ->
  represents (write tb (insert_or_update same merge new (rows tb d)) d)
    (put (<[k := upd (look s !! k)]> (look s)) s).
Proof.
  intros Hr Hs Hn Ho Hok. apply (mapped_into HM); [done|].
  apply (rep_insert_or_update key enc ok (mapped_key HM) same merge new k upd); try done.
  - by apply (mapped_rep HM).
  - intros r. by rewrite Hs.
Qed.
End mapped.

Lemma clusters_mapped : Mapped clusters m_clusters set_clusters cr_id cluster_row cluster_ok.
Proof. split; [apply _|apply cluster_key|by intros ? ? []|apply into_clusters]. Qed.
Lemma intents_mapped : Mapped intents m_intents set_intents ir_intent_key intent_row intent_ok.
Proof. split; [apply _|apply intent_row_key|by intros ? ? []|apply into_intents]. Qed.
Lemma jobs_mapped : Mapped jobs m_jobs set_jobs jr_id job_row the_job_ok.
Proof. split; [apply _|apply job_key|by intros ? ? []|apply into_jobs]. Qed.
Lemma pools_mapped : Mapped pools m_pools set_pools pr_name pool_row pool_ok.
Proof. split; [apply _|apply pool_key|by intros ? ? []|apply into_pools]. Qed.
Lemma allocations_mapped :
  Mapped allocations m_allocations set_allocations allocation_key allocation_row allocation_ok.
Proof. split; [apply _|apply allocation_row_key|by intros ? ? []|apply into_allocations]. Qed.
Lemma users_mapped : Mapped local_users m_local_users set_local_users xr_username user_row user_ok.
Proof. split; [apply _|apply user_key|by intros ? ? []|apply into_users]. Qed.
Lemma tokens_mapped : Mapped api_tokens m_api_tokens set_api_tokens tr_prefix token_row token_ok.
Proof. split; [apply _|apply token_key|by intros ? ? []|apply into_tokens]. Qed.
Lemma assignments_mapped :
  Mapped role_assignments m_assignments set_assignments assignment_key assignment_row assignment_ok.
Proof. split; [apply _|apply assignment_row_key|by intros ? ? []|apply into_assignments]. Qed.

(** *** Clusters *)

Lemma the_cluster_key id r : the_cluster id r = true <-> cr_id r = id.
Proof. apply string_key. Qed.

Lemma sim_record_observation d s id o g :
  represents d s -> opt_holds stable o -> in_i64 g ->
  sim d s (record_observation id o g) (Store.record_observation id o g).
Proof.
  intros Hr Ho Hg. eexists. split; [reflexivity|].
  apply (map_alter clusters_mapped _ _ (the_cluster_key id)); [done|].
  intros c _ (<- & ? & ? & ? & ? & ? & ? & ? & ? & ?). unfold cluster_row, cluster_ok; cbn.
  rewrite (as_i64_id g) by done. split; [done|]. split_and!; try done. unfold in_i64 in *. lia.
Qed.
Lemma sim_set_condition d s id o :
  represents d s -> opt_holds stable o -> sim d s (set_condition id o) (Store.set_condition id o).
Proof.
  intros Hr Ho. eexists. split; [reflexivity|].
  apply (map_alter clusters_mapped _ _ (the_cluster_key id)); [done|].
  by intros c _ (<- & ? & ? & ? & ? & ? & ? & ? & ? & ?).
Qed.
Lemma sim_record_attempt d s id n t :
  represents d s -> is_u32 n -> in_i64 t -> sim d s (record_attempt id n t) (Store.record_attempt id n t).
Proof.
  intros Hr Hn Ht. eexists. split; [reflexivity|].
  apply (map_alter clusters_mapped _ _ (the_cluster_key id)); [done|].
  intros c _ (<- & ? & ? & ? & ? & ? & ? & ? & ? & ?). unfold cluster_row, cluster_ok; cbn.
  by rewrite (as_i64_id t) by done.
Qed.
Lemma sim_set_desired d s now id des :
  represents d s -> in_i64 now -> sim d s (set_desired now id des) (Store.set_desired now id des).
Proof.
  intros Hr Hnow.
  eapply sim_mem; [|apply (sim_alter_or_missing clusters_mapped _ _ (the_cluster_key id) _ _ _ (with_desired now des)); [done|]].
  { unfold Store.set_desired. run_both. by destruct (m_clusters s !! id). }
  intros c _ (<- & ? & ? & ? & ? & ? & ? & ? & ? & Ht). unfold cluster_row, cluster_ok; cbn.
  rewrite (as_i64_id now) by done. split.
  - f_equal. by destruct des.
  - split_and!; try done. intros t. destruct des; [done|done|]. intros [= <-].
    destruct (c_terminated_at c); cbn; auto.
Qed.
Lemma sim_remove_cluster d s id :
  represents d s -> sim d s (remove_cluster id) (Store.remove_cluster id).
Proof.
  intros Hr. unfold remove_cluster, Store.remove_cluster, sim. run_both.
  rewrite (rep_affected _ _ _ cluster_key _ id (the_cluster_key id) _ _ (rep_clusters _ _ Hr)).
  eexists. split; [|by apply (map_delete clusters_mapped _ _ (the_cluster_key id))].
  by destruct (m_clusters s !! id).
Qed.

Lemma sim_upsert_desired d s now id spec :
  represents d s -> in_i64 now -> stable spec ->
  sim d s (upsert_desired now id spec) (Store.upsert_desired now id spec).
Proof.
  intros Hr Hnow Hs. pose proof (map_fetch clusters_mapped _ _ (the_cluster_key id) _ _ Hr) as Hf.
  cbn [rows clusters] in Hf. unfold upsert_desired, Store.upsert_desired, sim. run_both. rewrite Hf.
  pose proof (map_ok clusters_mapped id d s) as Hok.
  pose proof (fun same merge new => map_upsert clusters_mapped _ _ (the_cluster_key id) d s same merge new
    (upsert_record now id spec) Hr) as Hu.
  destruct (m_clusters s !! id) as [c|] eqn:E; cbn -[parse].
  - destruct (Hok c Hr eq_refl) as (Hid & Hspec & Hg & ? & ? & ? & ? & ? & ? & ?).
    rewrite (parse_stable _ Hspec). cbn. rewrite as_u64_i64 by done.
    eexists. split; [reflexivity|]. apply Hu; [done|done| |].
    + intros ? [= <-]. unfold cluster_row. cbn. by rewrite Hid.
    + split_and!; cbn; try done. by destruct (spec_changed _ _); auto with mobula.
  - eexists. split; [reflexivity|]. apply Hu; [done| |done|].
    + intros _. unfold cluster_row; cbn. by rewrite (as_i64_id now) by done.
    + split_and!; cbn; try done.
Qed.

(** *** Outbox and jobs *)

Lemma the_intent_key k r : the_intent k r = true <-> ir_intent_key r = k.
Proof. apply string_key. Qed.

Lemma sim_begin_intent d s now k fp :
  represents d s -> in_i64 now -> sim d s (begin_intent now k fp) (Store.begin_intent now k fp).
Proof.
  intros Hr Hnow. pose proof (map_fetch intents_mapped _ _ (the_intent_key k) _ _ Hr) as Hf.
  cbn [rows intents] in Hf. unfold begin_intent, Store.begin_intent, sim. run_both. rewrite Hf.
  pose proof (rep_intents _ _ Hr) as Ht. unfold insert_unique.
  pose proof (rep_exists _ _ _ intent_row_key _ k (the_intent_key k) _ _ Ht) as He.
  destruct (m_intents s !! k) as [i|] eqn:E; cbn -[the_intent] in *.
  - eexists. split; [by destruct (String.eqb _ _)|done].
  - change (existsb _ (d_intents d)) with (existsb (the_intent k) (d_intents d)). rewrite He.
    eexists. split; [reflexivity|]. apply into_intents; [done|].
    rewrite (as_i64_id now) by done.
    apply (rep_insert_new _ intent_row _ intent_row_key k {| i_key := k; i_params_fingerprint := fp;
      i_status := IPending; i_response_json := None; i_created_at := now; i_completed_at := None |});
      [done|done|]. by split_and!.
Qed.

Lemma sim_complete_intent d s now k resp :
  represents d s -> in_i64 now -> sim d s (complete_intent now k resp) (Store.complete_intent now k resp).
Proof.
  intros Hr Hnow. eexists. split; [reflexivity|].
  apply (map_alter intents_mapped _ _ (the_intent_key k)); [done|].
  intros i _ (<- & ? & ?). unfold intent_row, intent_ok; cbn. rewrite (as_i64_id now) by done.
  split; [done|]. split_and!; try done. by intros ? [= <-].
Qed.

Lemma reapable_row b k i :
  in_i64 b -> intent_ok k i ->
  String.eqb (ir_status (intent_row i)) "applied"
    && is_some_and (ir_completed_at (intent_row i)) (fun c => Z.ltb c (as_i64 b)) = reapable b i.
Proof. intros Hb _. rewrite as_i64_id by done. by destruct i as [? ? [] ? ? ?]. Qed.

Lemma sim_reap_intents d s b :
  represents d s -> in_i64 b -> sim d s (reap_intents b) (Store.reap_intents b).
Proof.
  intros Hr Hb. pose proof (rep_intents _ _ Hr) as Ht.
  assert (forall k i, m_intents s !! k = Some i ->
    String.eqb (ir_status (intent_row i)) "applied"
      && is_some_and (ir_completed_at (intent_row i)) (fun c => Z.ltb c (as_i64 b)) = reapable b i) as Hq.
  { intros k i Hi. eapply reapable_row; [done|]. by apply (rep_ok _ _ _ _ _ Ht). }
  eexists. split.
  - unfold reap_intents, Store.reap_intents. run_both.
    rewrite (rep_affected_where _ intent_row _ intent_row_key _ (reapable b) _ _ Ht Hq). reflexivity.
  - apply into_intents; [done|]. by apply (rep_delete_where _ intent_row _ _ (reapable b)).
Qed.

Lemma sim_record_job d s j :
  represents d s -> the_job_ok (j_id j) j -> sim d s (record_job j) (Store.record_job j).
Proof.
  intros Hr Hj. pose proof Hj as [(_ & Hd & Hs) HJ]. eexists. split; [reflexivity|].
  apply (map_upsert jobs_mapped (fun r => String.eqb (jr_id r) (j_id j)) (j_id j) (string_key _ _) _ _ _ _ _
    (fun _ => j)); [done|done| | |done].
  - intros _. unfold job_row; cbn. by rewrite (as_i64_id (j_submitted_at j)) by done.
  - intros old Hold. pose proof (map_ok jobs_mapped _ _ _ _ Hr Hold) as [(Hid & _ & _) HJ'].
    unfold job_row, job_fixed in *; cbn. rewrite Hid. rewrite <- HJ in HJ'. by injection HJ' as -> -> ->.
Qed.

(** *** Pools and allocations *)

Lemma the_pool_key n r : the_pool n r = true <-> pr_name r = n.
Proof. apply string_key. Qed.

Lemma sim_upsert_pool d s now name spec :
  represents d s -> in_i64 now -> stable spec ->
  sim d s (upsert_pool now name spec) (Store.upsert_pool now name spec).
Proof.
  intros Hr Hnow Hs. pose proof (map_fetch pools_mapped _ _ (the_pool_key name) _ _ Hr) as Hf.
  cbn [rows pools] in Hf. unfold upsert_pool, Store.upsert_pool, sim. run_both. rewrite Hf.
  pose proof (map_ok pools_mapped name d s) as Hok.
  pose (upd existing := {|
    sp_name := name; sp_spec := spec; sp_generation := upsert_pool_generation existing spec;
    sp_observed_json := existing ≫= sp_observed_json;
    sp_observed_at := existing ≫= sp_observed_at;
    sp_created_at := default now (sp_created_at <$> existing) |}).
  pose proof (fun same merge new => map_upsert pools_mapped _ _ (the_pool_key name) d s same merge new
    upd Hr) as Hu.
  destruct (m_pools s !! name) as [p|] eqn:E; cbn -[parse].
  - destruct (Hok p Hr eq_refl) as (Hid & Hspec & Hg & ? & ?).
    rewrite (parse_stable _ Hspec). cbn. rewrite as_u64_i64 by done.
    eexists. split; [reflexivity|]. apply Hu; [done|done| |].
    + intros ? [= <-]. unfold pool_row. cbn. by rewrite Hid.
    + split_and!; cbn; try done. by destruct (pool_spec_changed _ _); auto with mobula.
  - eexists. split; [reflexivity|]. apply Hu; [done| |done|].
    + intros _. unfold pool_row; cbn. by rewrite (as_i64_id now) by done.
    + by split_and!.
Qed.

Lemma sim_delete_pool d s n : represents d s -> sim d s (delete_pool n) (Store.delete_pool n).
Proof. apply (sim_delete_or_missing pools_mapped _ _ (the_pool_key n)). Qed.

Lemma sim_record_pool_observation d s now n json :
  represents d s -> in_i64 now ->
  sim d s (record_pool_observation now n json) (Store.record_pool_observation now n json).
Proof.
  intros Hr Hnow. eexists. split; [reflexivity|].
  apply (map_alter pools_mapped _ _ (the_pool_key n)); [done|].
  intros p _ (<- & ? & ? & ? & ?). unfold pool_row, pool_ok; cbn. rewrite (as_i64_id now) by done.
  split; [done|]. split_and!; try done. by intros ? [= <-].
Qed.

Lemma the_allocation_key pool project r :
  the_allocation pool project r = true <-> allocation_key r = (pool, project).
Proof.
  unfold the_allocation, allocation_key. rewrite andb_true_iff, !String.eqb_eq. naive_solver.
Qed.

Lemma sim_upsert_allocation d s a :
  represents d s -> stable a -> sim d s (upsert_allocation a) (Store.upsert_allocation a).
Proof.
  intros Hr Hs. eexists. split; [reflexivity|].
  apply (map_upsert allocations_mapped _ _ (the_allocation_key (a_pool a) (a_project a)) _ _ _ _ _
    (fun _ => a)); [done|done|done| |done].
  intros old Hold. pose proof (map_ok allocations_mapped _ _ _ _ Hr Hold) as [Hk _]. injection Hk as Hp Hq.
  unfold allocation_row; cbn. by rewrite Hp, Hq.
Qed.

Lemma sim_delete_allocation d s p q :
  represents d s -> sim d s (delete_allocation p q) (Store.delete_allocation p q).
Proof. apply (sim_delete_or_missing allocations_mapped _ _ (the_allocation_key p q)). Qed.

(** *** Control rows *)

Lemma control_key_eq k r : control_key k r = true <-> kr_key r = k.
Proof. apply string_key. Qed.

Lemma control_put (t : list ControlRow) (m : gmap string ControlRow) k v :
  rep kr_key (fun r => r) control_ok t m ->
  rep kr_key (fun r => r) control_ok
    (insert_or_update same_key (fun old new => {| kr_key := kr_key old; kr_value := kr_value new |})
      {| kr_key := k; kr_value := v |} t)
    (<[k := {| kr_key := k; kr_value := v |}]> m).
Proof.
  intros Ht. apply (rep_insert_or_update kr_key (fun r => r) control_ok control_row_key _ _ _ k
    (fun _ => {| kr_key := k; kr_value := v |})); [done| |done| |done].
  - intros r. apply control_key_eq.
  - intros old Hold. cbn. by rewrite (rep_ok _ _ _ _ _ Ht _ _ Hold).
Qed.

Lemma sim_set_quarantine d s q :
  represents d s -> sim d s (set_quarantine q) (Store.set_quarantine q).
Proof.
  intros Hr. destruct (rep_control _ _ Hr) as (m & Ht & Hq & Hp & Hst). eexists. split; [reflexivity|].
  apply into_quarantine; [done|]. eexists. split; [by apply control_put|].
  rewrite lookup_insert_eq, lookup_insert_ne by done. by destruct q.
Qed.
Lemma sim_set_policy d s p :
  represents d s -> stable p -> sim d s (set_policy p) (Store.set_policy_row p).
Proof.
  intros Hr Hs. destruct (rep_control _ _ Hr) as (m & Ht & Hq & Hp & Hst). eexists. split; [reflexivity|].
  apply into_policy; [done|]. eexists. split; [by apply control_put|].
  rewrite lookup_insert_eq, lookup_insert_ne by done. split_and!; [done|done|]. by intros ? [= <-].
Qed.
Lemma sim_seed_policy d s p :
  represents d s -> stable p -> sim d s (seed_policy p) (Store.seed_policy p).
Proof.
  intros Hr Hs. destruct (rep_control _ _ Hr) as (m & Ht & Hq & Hp & Hst).
  unfold seed_policy, Store.seed_policy, sim. run_both. unfold insert_or_ignore.
  set (new := {| kr_key := "policy"; kr_value := to_string p |}).
  assert (forall r, same_key new r = true <-> kr_key r = "policy"%string) as Hk by (intros r; apply control_key_eq).
  pose proof (rep_exists _ _ _ control_row_key _ _ Hk _ _ Ht) as He. rewrite He.
  destruct (m_policy s) as [p0|] eqn:E; destruct (m !! "policy"%string) as [r|] eqn:Em; try done; cbn.
  - eexists. split; [done|]. by destruct d.
  - eexists. split; [done|]. apply into_policy; [done|]. eexists. split.
    + by apply (rep_insert_new _ _ _ control_row_key "policy" new).
    + rewrite lookup_insert_eq, lookup_insert_ne by done. split_and!; [done|done|]. by intros ? [= <-].
Qed.

(** *** Local users *)

Lemma the_user_key u r : the_user u r = true <-> xr_username r = u.
Proof. apply string_key. Qed.

Lemma sim_create_local_user d s now u em h r :
  represents d s -> in_i64 now ->
  sim d s (create_local_user now u em h r) (Store.create_local_user now u em h r).
Proof.
  intros Hr Hnow. unfold create_local_user. rewrite (as_i64_id now) by done.
  apply (sim_insert_or_taken users_mapped _ _ (the_user_key u) _ _ _ {| lu_username := u; lu_email := em;
    lu_password_hash := h; lu_role := r; lu_disabled := false; lu_created_at := now;
    lu_failed_logins := 0; lu_locked_until := None |}); [done|done|]. by split_and!.
Qed.

Lemma sim_modify_user d s u f g :
  represents d s ->
  (forall v, user_ok u v -> f (user_row v) = user_row (g v) /\ user_ok u (g v)) ->
  sim d s (update local_users (the_user u) f ≫= fun n => affecting n ("no such local user " +:+ u))
    (modify_user u g).
Proof.
  intros Hr Hg. apply (sim_alter_or_missing users_mapped _ _ (the_user_key u)); [done|]. auto.
Qed.

Lemma sim_set_password d s u h :
  represents d s -> sim d s (set_local_user_password u h) (Store.set_local_user_password u h).
Proof. intros Hr. apply sim_modify_user; [done|]. by intros v (<- & ? & ? & ?). Qed.
Lemma sim_set_role d s u r :
  represents d s -> sim d s (set_local_user_role u r) (Store.set_local_user_role u r).
Proof. intros Hr. apply sim_modify_user; [done|]. by intros v (<- & ? & ? & ?). Qed.
Lemma sim_set_disabled d s u b :
  represents d s -> sim d s (set_local_user_disabled u b) (Store.set_local_user_disabled u b).
Proof. intros Hr. apply sim_modify_user; [done|]. by intros v (<- & ? & ? & ?). Qed.

Lemma sim_set_lockout d s u n t :
  represents d s -> is_u32 n -> opt_holds in_i64 t ->
  sim d s (set_login_lockout u n t) (Store.set_login_lockout u n t).
Proof.
  intros Hr Hn Ht. apply sim_modify_user; [done|]. intros v (<- & ? & ? & ?).
  unfold user_row, user_ok; cbn. split; [|done]. f_equal. destruct t as [t|]; cbn; [|done].
  by rewrite clamp_i64_id by by apply Ht.
Qed.

Lemma get_local_user_calm d s u :
  represents d s -> get_local_user u (calm d) = (Ok (m_local_users s !! u), calm d).
Proof.
  intros Hr. pose proof (map_fetch users_mapped _ _ (the_user_key u) _ _ Hr) as Hf.
  cbn [rows local_users] in Hf. unfold get_local_user. run_both. rewrite Hf.
  pose proof (map_ok users_mapped u d s) as Hok.
  destruct (m_local_users s !! u) as [v|] eqn:E; cbn -[row_to_local_user]; [|done].
  by rewrite (user_decodes u) by by apply Hok.
Qed.

Lemma sim_login_failure d s now u :
  represents d s -> 0 <= now -> in_i64 (now + LOCKOUT_SECS) ->
  sim d s (record_login_failure now u) (Store.record_login_failure now u).
Proof.
  intros Hr Hnow Ht. unfold record_login_failure, Store.record_login_failure, sim.
  rewrite !ST_bind_eq, (get_local_user_calm _ _ _ Hr). cbn [Store.get_local_user st_get].
  pose proof (map_ok users_mapped u d s) as Hok.
  destruct (m_local_users s !! u) as [v|] eqn:E; cbn -[set_login_lockout Store.set_login_lockout next_login_failure_state].
  - rewrite ST_bind_eq. unfold lift. unfold next_login_failure_state at 2 3.
    pose proof (u32_add_range (lu_failed_logins v) 1).
    unfold next_login_failure_state. destruct (Z.leb _ _); apply sim_set_lockout; try done.
    intros ? [= <-]. unfold in_i64, LOCKOUT_SECS, i64_max in *. rewrite u64_add_small; unfold u64_max; lia.
  - by exists d.
Qed.
Lemma sim_login_success d s u :
  represents d s -> sim d s (record_login_success u) (Store.record_login_success u).
Proof. intros Hr. by apply sim_set_lockout. Qed.

(** *** API tokens *)

Lemma the_token_key u r : the_token u r = true <-> tr_prefix r = u.
Proof. apply string_key. Qed.

Lemma sim_create_api_token d s t :
  represents d s -> token_ok (at_prefix t) t -> sim d s (create_api_token t) (Store.create_api_token t).
Proof.
  intros Hr Hok. unfold create_api_token. pose proof Hok as (_ & Hc & He & Hl).
  rewrite !clamp_i64_id by done.
  replace (clamp_i64 <$> at_last_used_at t) with (at_last_used_at t).
  - by apply (sim_insert_or_taken tokens_mapped _ _ (the_token_key (at_prefix t)) _ _ _ t).
  - destruct (at_last_used_at t) as [l|]; cbn; [|done]. by rewrite clamp_i64_id by by apply Hl.
Qed.

Lemma sim_revoke_api_token d s p u :
  represents d s -> sim d s (revoke_api_token p u) (Store.revoke_api_token p u).
Proof.
  intros Hr. pose proof (rep_tokens _ _ Hr) as Ht.
  set (q v := String.eqb (at_username v) u).
  set (pr r := the_token p r && String.eqb (tr_username r) u).
  assert (Hp : forall v, m_api_tokens s !! p = Some v -> pr (token_row v) = q v).
  { intros v Hv. unfold pr. replace (the_token p (token_row v)) with true; [done|].
    symmetry. apply the_token_key. by apply token_key, (rep_ok _ _ _ _ _ Ht). }
  assert (Hn : forall k v, m_api_tokens s !! k = Some v -> k <> p -> pr (token_row v) = false).
  { intros k v Hv Hne. unfold pr. replace (the_token p (token_row v)) with false; [done|].
    symmetry. apply not_true_iff_false. rewrite the_token_key.
    by rewrite (token_key k) by by apply (rep_ok _ _ _ _ _ Ht). }
  pose proof (rep_affected_and _ _ _ token_key _ _ (the_token_key p) (fun r => String.eqb (tr_username r) u)
    q _ _ Ht (fun _ _ => eq_refl)) as Ha. change (rows_affected pr (d_api_tokens d) = 
    match m_api_tokens s !! p with Some v => if q v then 1 else 0 | None => 0 end) in Ha.
  unfold revoke_api_token, Store.revoke_api_token, sim. run_both.
  change (fun r => the_token p r && String.eqb (tr_username r) u) with pr. rewrite Ha.
  destruct (m_api_tokens s !! p) as [v|] eqn:E; [unfold q; destruct (String.eqb (at_username v) u) eqn:Eq|]; cbn.
  - eexists. split; [reflexivity|]. apply into_tokens; [done|].
    pose proof (alter_as_insert (fun v => if q v then revoked_token v else v) _ _ _ E) as Ea.
    unfold q in Ea at 2. rewrite Eq in Ea. rewrite <- Ea.
    apply (rep_update _ _ _ token_key pr q); [done| |done].
    intros v' Hv. split; [by apply Hp; rewrite <- E|]. intros _.
    by destruct (rep_ok _ _ _ _ _ Ht _ _ Hv) as (<- & ? & ? & ?).
  - eexists. split; [reflexivity|]. rewrite update_where_none; [by destruct d|]. rewrite Ha. unfold q. by rewrite Eq.
  - eexists. split; [reflexivity|]. rewrite update_where_none; [by destruct d|done].
Qed.

Lemma sim_touch_api_token d s p now :
  represents d s -> in_i64 now -> sim d s (touch_api_token p now) (Store.touch_api_token p now).
Proof.
  intros Hr Hnow. eexists. split; [reflexivity|].
  apply (map_alter tokens_mapped _ _ (the_token_key p)); [done|].
  intros t _ (<- & ? & ? & ?). unfold token_row, token_ok; cbn. rewrite clamp_i64_id by done.
  split; [done|]. split_and!; try done. by intros ? [= <-].
Qed.

(** *** Role assignments *)

Lemma the_assignment_key p r sc row :
  the_assignment p r sc row = true <-> assignment_key row = (p, r, sc).
Proof.
  unfold the_assignment, assignment_key. rewrite !andb_true_iff, !String.eqb_eq. naive_solver.
Qed.

Lemma sim_upsert_role_assignment d s now p r sc :
  represents d s -> in_i64 now ->
  sim d s (upsert_role_assignment now p r sc) (Store.upsert_role_assignment now p r sc).
Proof.
  intros Hr Hnow. unfold upsert_role_assignment. rewrite (as_i64_id now) by done.
  eexists. split; [reflexivity|]. cbn. apply into_assignments; [done|].
  set (new := {| ra_principal := p; ra_role := r; ra_scope := sc; ra_created_at := now |}).
  pose proof (rep_ok _ _ _ _ _ (rep_assignments _ _ Hr)) as Hok.
  replace {| ra_principal := p; ra_role := r; ra_scope := sc;
             ra_created_at := default now (ra_created_at <$> m_assignments s !! (p, r, sc)) |}
    with (default new (m_assignments s !! (p, r, sc))).
  - apply (rep_insert_or_ignore _ assignment_row _ assignment_row_key); [by apply rep_assignments| |done|by split].
    intros row. apply the_assignment_key.
  - destruct (m_assignments s !! (p, r, sc)) as [a|] eqn:E; cbn; [|done].
    destruct (Hok _ _ E) as [[= <- <- <-] _]. by destruct a.
Qed.

Lemma sim_delete_role_assignment d s p r sc :
  represents d s -> sim d s (delete_role_assignment p r sc) (Store.delete_role_assignment p r sc).
Proof. apply (sim_delete_or_missing assignments_mapped _ _ (the_assignment_key p r sc)). Qed.

(** *** Usage samples and the audit trail *)

Lemma into_usage d s t l :
  represents d s -> t = sample_row <$> l -> Forall sample_ok l -> represents (write usage_table t d) (set_usage l s).
Proof. intros [] -> ?. by split. Qed.

Lemma samples_appended l d :
  st_iter (fun s => change usage_table (fun t => t ++ [sample_row s])) l (calm d)
  = (Ok tt, calm (write usage_table (d_usage_samples d ++ (sample_row <$> l)) d)).
Proof.
  revert d. induction l as [|x l IH]; intros d; cbn [st_iter].
  - cbn. rewrite app_nil_r. by destruct d.
  - rewrite ST_bind_eq. cbn [change statement calm faults db]. fold (calm (write usage_table (d_usage_samples d ++ [sample_row x]) d)).
    unfold change, statement at 1. cbn [calm faults db tail rows usage_table].
    change {| db := ?x; faults := [] |} with (calm x). rewrite IH. cbn. by rewrite <- app_assoc.
Qed.

Lemma sim_record_usage_samples d s l :
  represents d s -> Forall sample_ok l ->
  sim d s (record_usage_samples l) (Store.record_usage_samples l).
Proof.
  intros Hr Hl. destruct (rep_usage _ _ Hr) as [Hu HF]. eexists. split.
  - unfold record_usage_samples, transaction, select, statement at 1. cbn [calm faults db tail].
    change {| db := d; faults := [] |} with (calm d). rewrite samples_appended. reflexivity.
  - apply into_usage; [done| |by apply Forall_app]. by rewrite Hu, fmap_app.
Qed.

Lemma trail_ascending t top l seq : trail_rep t top l seq -> ascending dr_seq t.
Proof.
  intros Ht. rewrite (trail_rows _ _ _ _ Ht). apply (indexed_ascending dr_seq 1). intros i r Hi.
  rewrite list_lookup_fmap in Hi. destruct (l !! i) as [x|] eqn:E; [|done]. injection Hi as <-.
  cbn. rewrite (proj1 (trail_entries _ _ _ _ Ht _ _ E)). lia.
Qed.

Lemma where_all {R} (t : list R) : where_ (fun _ => true) t = t.
Proof. unfold where_. induction t as [|r t IH]; [done|]. by rewrite filter_cons, IH. Qed.

Lemma sim_record_audit d s e :
  represents d s -> event_ok e -> m_audit_seq s + 1 < i64_max ->
  sim d s (record_audit e) (Store.record_audit e).
Proof.
  intros Hr He Hroom. pose proof (rep_audit _ _ Hr) as Ht.
  pose proof (trail_seq _ _ _ _ Ht) as Hseq. pose proof (trail_top _ _ _ _ Ht) as Htop.
  assert (u64_add (m_audit_seq s) 1 = m_audit_seq s + 1) as Hadd.
  { apply u64_add_small; unfold i64_max, u64_max in *; lia. }
  assert (newest_hash (reverse (d_audit_events d)) = row_hash <$> last (m_audit s)) as Hh.
  { unfold newest_hash. rewrite head_reverse, (trail_rows _ _ _ _ Ht), fmap_last.
    by destruct (last (m_audit s)). }
  unfold record_audit, insert_audit, Store.record_audit, fetch_ordered, sim. run_both.
  cbn [rows audit_events]. rewrite where_all, order_by_descending by by eapply trail_ascending.
  rewrite Hh, Hadd, Htop.
  destruct (Z.ltb_spec i64_max (m_audit_seq s + 1)); [lia|]. cbn.
  rewrite as_u64_id by (unfold is_u64, u64_max, i64_max in *; lia).
  eexists. split; [reflexivity|].
  destruct Hr. split; try done. cbn.
  split; [| |rewrite length_app, Nat2Z.inj_add; f_equal; exact Hseq|done|].
  - rewrite fmap_app, (trail_rows _ _ _ _ Ht). done.
  - done.
  - intros i r. rewrite lookup_snoc_Some. intros [[_ Hi]|[-> <-]]; [by eapply trail_entries|].
    cbn. split; [lia|done].
Qed.

(** *** Every operation *)

Definition op_fits (op : store_op) : Prop :=
  match op with
  | OpUpsertDesired now _ spec => in_i64 now /\ stable spec
  | OpSetDesired now _ _ => in_i64 now
  | OpRecordObservation _ o g => opt_holds stable o /\ in_i64 g
  | OpSetCondition _ c => opt_holds stable c
  | OpRecordAttempt _ f n => is_u32 f /\ in_i64 n
  | OpBeginIntent now _ _ | OpCompleteIntent now _ _ => in_i64 now
  | OpReapIntents b => in_i64 b
  | OpRecordJob j => the_job_ok (j_id j) j
  | OpUpsertPool now _ spec => in_i64 now /\ stable spec
  | OpRecordPoolObservation now _ _ => in_i64 now
  | OpUpsertAllocation a => stable a
  | OpRecordUsage l => Forall sample_ok l
  | OpSetPolicy p | OpSeedPolicy p => stable p
  | OpRecordAudit e => event_ok e
  | OpCreateUser now _ _ _ _ => in_i64 now
  | OpLoginFailure now _ => 0 <= now /\ in_i64 (now + LOCKOUT_SECS)
  | OpCreateToken t => token_ok (at_prefix t) t
  | OpTouchToken _ now => in_i64 now
  | OpUpsertAssignment now _ _ _ => in_i64 now
  | OpRemoveCluster _ | OpSetQuarantine _ | OpDeletePool _ | OpDeleteAllocation _ _
  | OpSetPassword _ _ | OpSetRole _ _ | OpSetDisabled _ _ | OpLoginSuccess _ | OpRevokeToken _ _
  | OpDeleteAssignment _ _ _ => True
  end.

Lemma sim_op d s op :
  represents d s -> op_fits op -> m_audit_seq s + 1 < i64_max -> sim d s (sql_exec op) (mem_exec op).
Proof.
  intros Hr Hop Hroom. destruct op; cbn [op_fits] in Hop; apply sim_answer;
    eauto using sim_upsert_desired, sim_set_desired, sim_remove_cluster, sim_record_observation,
      sim_set_condition, sim_set_quarantine, sim_record_attempt, sim_begin_intent, sim_complete_intent,
      sim_reap_intents, sim_record_job, sim_upsert_pool, sim_delete_pool, sim_record_pool_observation,
      sim_upsert_allocation, sim_delete_allocation, sim_record_usage_samples, sim_set_policy,
      sim_seed_policy, sim_record_audit, sim_create_local_user, sim_set_password, sim_set_role,
      sim_set_disabled, sim_login_success, sim_create_api_token, sim_revoke_api_token,
      sim_touch_api_token, sim_upsert_role_assignment, sim_delete_role_assignment.
  all: destruct Hop; eauto using sim_upsert_desired, sim_record_observation, sim_record_attempt,
    sim_upsert_pool, sim_login_failure.
Qed.

(** ** Traces *)

Fixpoint run_with (exec : store_op -> Q answer) (ops : list store_op) (c : Conn)
  : list (result StoreError answer) * Conn :=
  match ops with
  | [] => ([], c)
  | op :: ops' =>
      let '(r, c1) := exec op c in
      let '(rs, c2) := run_with exec ops' c1 in (r :: rs, c2)
  end.
Definition sql_run : list store_op -> Conn -> list (result StoreError answer) * Conn := run_with sql_exec.
Fixpoint mem_run (ops : list store_op) (s : InMemoryStore)
  : list (result StoreError answer) * InMemoryStore :=
  match ops with
  | [] => ([], s)
  | op :: ops' =>
      let '(r, s1) := mem_exec op s in
      let '(rs, s2) := mem_run ops' s1 in (r :: rs, s2)
  end.

(** The operations that were answered with success, with their answers. *)
Definition landed (ops : list store_op) (rs : list (result StoreError answer))
  : list (store_op * result StoreError answer) :=
  filter (fun x => is_ok (snd x) = true) (zip ops rs).

Lemma represents_seq d s : represents d s -> m_audit_seq s = Z.of_nat (length (m_audit s)).
Proof. intros Hr. exact (trail_seq _ _ _ _ (rep_audit _ _ Hr)). Qed.

Lemma login_failure_trail now u s :
  m_audit_seq (snd (Store.record_login_failure now u s)) = m_audit_seq s.
Proof.
  unfold Store.record_login_failure, Store.get_local_user, Store.set_login_lockout, modify_user.
  run_store. destruct (m_local_users s !! u) eqn:E; [|done].
  destruct (next_login_failure_state _ _). cbn. by destruct (m_local_users s !! u).
Qed.

(** An operation appends at most one row to the trail. *)
Lemma exec_trail op s :
  m_audit_seq (snd (mem_exec op s)) = m_audit_seq s \/
  m_audit_seq (snd (mem_exec op s)) = u64_add (m_audit_seq s) 1.
Proof.
  rewrite <- exec_mem_exec. destruct op; cbn [exec]; try (left; reflexivity);
    try (left; apply login_failure_trail);
    unfold Store.upsert_desired, Store.set_desired, Store.remove_cluster, Store.record_observation,
      Store.set_condition, Store.set_quarantine, Store.record_attempt, Store.begin_intent,
      Store.complete_intent, Store.reap_intents, Store.record_job, Store.upsert_pool,
      Store.delete_pool, Store.record_pool_observation, Store.upsert_allocation,
      Store.delete_allocation, Store.record_usage_samples, Store.set_policy_row, Store.seed_policy,
      Store.record_audit, Store.create_local_user, Store.set_local_user_password,
      Store.set_local_user_role, Store.set_local_user_disabled,
      Store.record_login_success, Store.set_login_lockout, modify_user,
      Store.create_api_token, Store.revoke_api_token, Store.touch_api_token,
      Store.upsert_role_assignment, Store.delete_role_assignment; run_store;
    repeat case_match; simplify_eq/=; auto.
Qed.

(** A store that answers as [sql_exec] when nothing fails, and of which an operation
    that may fail leaves nothing. *)
Section runs.
Context (exec : store_op -> Q answer) (may_fail : store_op -> Prop).
Context (exec_calm : forall op d, exec op (calm d) = sql_exec op (calm d)).
Context (exec_robust : forall op, robust (exec op)).
Context (exec_fails : forall op, may_fail op -> all_or_nothing (exec op)).

Lemma run_landed ops s c :
  represents (db c) s -> Forall op_fits ops ->
  m_audit_seq s + Z.of_nat (length ops) < i64_max ->
  let '(rs, c') := run_with exec ops c in
  Forall (fun x => is_ok (snd x) = true \/ may_fail (fst x)) (zip ops rs) ->
  let '(rs', s') := mem_run (landed ops rs).*1 s in
  rs' = (landed ops rs).*2 /\ represents (db c') s'.
Proof.
  revert s c. induction ops as [|op ops IH]; intros s c Hr Hf Hlen; cbn [run_with]; [done|].
  apply Forall_cons in Hf as [Hop Hf]. cbn [length] in Hlen.
  destruct (exec op c) as [r c1] eqn:E.
  destruct (sim_op (db c) s op Hr Hop) as (d' & Hq & Hr'); [lia|].
  destruct r as [a|e].
  - pose proof (exec_robust op _ _ _ E) as Hc. rewrite exec_calm, Hq in Hc. injection Hc as Ha Hd. subst d'.
    pose proof (exec_trail op s) as Htr. pose proof (represents_seq _ _ Hr) as Hs.
    pose proof (represents_seq _ _ Hr') as Hs'.
    specialize (IH _ c1 Hr' Hf). destruct (run_with exec ops c1) as [rs c2]. unfold landed in *. cbn [zip zip_with].
    intros [_ Hmay]%Forall_cons.
    rewrite filter_cons_True by done. cbn [fmap list_fmap fst snd mem_run].
    destruct (mem_exec op s) as [r1 s1]. cbn [fst snd] in *. subst r1.
    destruct (mem_run _ s1) as [rs' s']. cbn [fst snd].
    destruct IH as [-> ?]; [|done|done]. destruct Htr as [->| ->]; [lia|].
    rewrite u64_add_small; unfold i64_max, u64_max in *; lia.
  - pose proof (exec_fails op) as Hd. specialize (IH s c1). destruct (run_with exec ops c1) as [rs c2]. unfold landed in *. cbn [zip zip_with].
    intros [Hm Hmay]%Forall_cons. cbn [fst snd is_ok] in Hm.
    rewrite filter_cons_False by done. destruct Hm as [|Hm]; [done|]. apply IH; [|done|lia|done].
    by rewrite (Hd Hm _ _ _ E).
Qed.

Lemma run_calm ops d s :
  represents d s -> Forall op_fits ops -> m_audit_seq s + Z.of_nat (length ops) < i64_max ->
  fst (run_with exec ops (calm d)) = fst (mem_run ops s).
Proof.
  revert d s. induction ops as [|op ops IH]; intros d s Hr Hf Hlen; cbn [run_with mem_run]; [done|].
  apply Forall_cons in Hf as [Hop Hf]. cbn [length] in Hlen.
  destruct (sim_op d s op Hr Hop) as (d' & Hq & Hr'); [lia|]. rewrite exec_calm, Hq.
  pose proof (exec_trail op s) as Htr. pose proof (represents_seq _ _ Hr) as Hs.
  specialize (IH d' _ Hr' Hf). destruct (mem_exec op s) as [r s1]. cbn [fst snd] in *.
  destruct (run_with exec ops (calm d')), (mem_run ops s1). cbn [fst] in *. f_equal. apply IH.
  destruct Htr as [->| ->]; [lia|]. rewrite u64_add_small; unfold i64_max, u64_max in *; lia.
Qed.
End runs.
End refinement.
