(* ===== verification/SqliteReads.v ===== *)
(** * The queries of the SQLite store, and its refinement theorem

    On a database that represents an in-memory store every query reads what the
    in-memory store reads: the same value where the order is fixed, the same rows
    in the order the query asks for where it is not. *)

From S2P Require Import Prelude Float64 Core Policy Store StoreFacts StoreQueries Sql SqliteStore SqliteFacts SqliteRefine.
#[local] Open Scope Z_scope.

(** ** Orders *)

Lemma str_leb_total a b : str_leb a b = true \/ str_leb b a = true.
Proof. apply String.leb_total. Qed.
Lemma str_leb_antisym a b : str_leb a b = true -> str_leb b a = true -> a = b.
Proof. apply String.leb_antisym. Qed.
Lemma str_leb_trans a b c : str_leb a b = true -> str_leb b c = true -> str_leb a c = true.
Proof.
  unfold str_leb. intros Hab Hbc. apply Is_true_true.
  apply (transitivity (R := String.le) (y := b)); by apply Is_true_true.
Qed.

Lemma assignment_leb_total a b : assignment_leb a b = true \/ assignment_leb b a = true.
Proof.
  unfold assignment_leb. rewrite (String.eqb_sym (ra_principal b)), (String.eqb_sym (ra_scope b)).
  destruct (String.eqb _ _); [destruct (String.eqb _ _)|]; apply str_leb_total.
Qed.
Lemma assignment_leb_antisym a b :
  assignment_leb a b = true -> assignment_leb b a = true ->
  ra_principal a = ra_principal b /\ ra_role a = ra_role b /\ ra_scope a = ra_scope b.
Proof.
  unfold assignment_leb. rewrite (String.eqb_sym (ra_principal b)), (String.eqb_sym (ra_scope b)).
  destruct (String.eqb_spec (ra_principal a) (ra_principal b)) as [E|E];
    [destruct (String.eqb_spec (ra_scope a) (ra_scope b)) as [E'|E']|]; intros Hab Hba;
    pose proof (str_leb_antisym _ _ Hab Hba); done.
Qed.
(** An order on texts that tells them apart, and the comparison of a column by it
    before others. *)
Lemma lex_trans (leb : string -> string -> bool) x y z (p q r : bool) :
  (forall a b, leb a b = true -> leb b a = true -> a = b) ->
  (forall a b c, leb a b = true -> leb b c = true -> leb a c = true) ->
  (if String.eqb x y then p else leb x y) = true ->
  (if String.eqb y z then q else leb y z) = true ->
  (p = true -> q = true -> r = true) ->
  (if String.eqb x z then r else leb x z) = true.
Proof.
  intros Hanti Htrans Hxy Hyz Hr. destruct (String.eqb_spec x y) as [->|Hn].
  - destruct (String.eqb y z); auto.
  - destruct (String.eqb_spec y z) as [<-|Hn'].
    + by destruct (String.eqb_spec x y).
    + destruct (String.eqb_spec x z) as [->|]; [|by eapply Htrans].
      by pose proof (Hanti _ _ Hxy Hyz).
Qed.
Lemma assignment_leb_trans a b c :
  assignment_leb a b = true -> assignment_leb b c = true -> assignment_leb a c = true.
Proof.
  pose proof str_leb_antisym as Hanti. pose proof str_leb_trans as Htrans.
  unfold assignment_leb. intros Hab Hbc. eapply (lex_trans str_leb); [done..|]. clear Hab Hbc. intros Hab Hbc.
  eapply (lex_trans str_leb); [done..|]. apply str_leb_trans.
Qed.

(** A sort whose order tells the elements apart has one outcome. *)
Lemma sort_stable_unique {A} (leb : A -> A -> bool) l l' :
  (forall x y, leb x y = true \/ leb y x = true) ->
  (forall x y z, leb x y = true -> leb y z = true -> leb x z = true) ->
  (forall x y, x ∈ l -> y ∈ l -> leb x y = true -> leb y x = true -> x = y) ->
  l ≡ₚ l' -> sort_stable leb l = sort_stable leb l'.
Proof.
  intros Ht Htr Hinj Hp. apply (StronglySorted_unique_strong (fun x y => leb x y = true)).
  - intros x y. rewrite !elem_of_sort_stable, <- Hp. apply Hinj.
  - by apply sort_stable_strongly.
  - by apply sort_stable_strongly.
  - by rewrite !sort_stable_perm.
Qed.

Lemma sort_stable_fmap {A B} (f : A -> B) (lb : B -> B -> bool) (la : A -> A -> bool) l :
  (forall x y, lb (f x) (f y) = la x y) -> sort_stable lb (f <$> l) = f <$> sort_stable la l.
Proof.
  intros Hf. induction l as [|x l IH]; [done|]. cbn. rewrite IH. clear IH.
  induction (sort_stable la l) as [|y k IH]; cbn; [done|]. rewrite Hf. destruct (la x y); [done|].
  cbn. by rewrite IH.
Qed.

Section queries.
Context `{SqlEngineLaws} `{BoolColumnLaw} `{StoreJson} `{AuditCodec} (J : string -> string * string * Z).
Implicit Types (d : Database) (s : InMemoryStore).

(** The query answers [mm]'s answer. *)
Definition reads_same {A} d s (q : Q A) (mm : M A) : Prop := q (calm d) = (fst (mm s), calm d).
(** The query answers the rows of [mm]'s answer, in an order where [R] holds. *)
Definition reads_rows {A} d s (R : relation A) (q : Q (list A)) (mm : M (list A)) : Prop :=
  exists l l', q (calm d) = (Ok l, calm d) /\ fst (mm s) = Ok l' /\ l ≡ₚ l' /\ StronglySorted R l.

Definition any_order {A} : relation A := fun _ _ => True.

Record same_reads d s : Prop := {
  sr_get : forall id, reads_same d s (get id) (Store.get id);
  sr_clusters : reads_rows d s any_order list_clusters Store.list_clusters;
  sr_quarantined : reads_same d s is_quarantined Store.is_quarantined;
  sr_policy : reads_same d s get_policy Store.get_policy;
  sr_intent : forall k, reads_same d s (get_intent k) (Store.get_intent k);
  sr_jobs : reads_rows d s (fun a b => j_submitted_at b <= j_submitted_at a) list_jobs Store.list_jobs;
  sr_pool : forall n, reads_same d s (get_pool n) (Store.get_pool n);
  sr_pools : reads_rows d s any_order list_pools Store.list_pools;
  sr_allocations : forall n, reads_rows d s any_order (list_allocations n) (Store.list_allocations n);
  sr_usage : forall pr po from to,
    reads_rows d s (fun a b => us_ts a <= us_ts b) (usage_samples pr po from to)
      (Store.usage_samples pr po from to);
  sr_audit : forall f, reads_same d s (list_audit f) (Store.list_audit f);
  sr_chain : forall from n, reads_same d s (audit_chain from n) (Store.audit_chain from n);
  sr_user : forall u, reads_same d s (get_local_user u) (Store.get_local_user u);
  sr_users : reads_same d s list_local_users Store.list_local_users;
  sr_token : forall p, reads_same d s (get_api_token_by_prefix p) (Store.get_api_token_by_prefix p);
  sr_tokens : forall u,
    reads_rows d s (fun a b => at_created_at b <= at_created_at a) (list_api_tokens u)
      (Store.list_api_tokens u);
  sr_assignments : forall p,
    reads_same d s (list_role_assignments p) (Store.list_role_assignments p);
}.

Ltac run_query :=
  unfold reads_same, reads_rows, fetch_optional, fetch_all, fetch_ordered, select, statement, lift, mbind, ST_bind, mret, ST_ret,
    st_get in *;
  cbn [calm faults db tail fst snd rows clusters intents control jobs pools allocations usage_table
    audit_events local_users api_tokens role_assignments].

(** A row fetched by its key and decoded. *)
Lemma read_one {K V R} `{Countable K} {tb : Table R} {look put} {key : R -> K} {enc : V -> R} {ok}
    (HM : Mapped J tb look put key enc ok) p k (dec : R -> result StoreError V) d s :
  (forall r, p r = true <-> key r = k) -> (forall v, ok k v -> dec (enc v) = Ok v) ->
  represents J d s ->
  (row ← fetch_optional tb p;
   match row with
   | Some r => v ← lift (dec r); mret (Some v)
   | None => mret None
   end) (calm d) = (Ok (look s !! k), calm d).
Proof.
  intros Hp Hdec Hr. rewrite ST_bind_eq.
  change (fetch_optional tb p (calm d)) with ((Ok (fetch_one p (rows tb d)), calm d) : result StoreError (option R) * Conn).
  rewrite (map_fetch J HM p k Hp d s Hr). pose proof (map_ok J HM k d s) as Hok.
  destruct (look s !! k) as [v|] eqn:E; cbn; [|done]. rewrite ST_bind_eq. unfold lift.
  by rewrite Hdec by by apply Hok.
Qed.

(** Rows selected, in whatever order, and decoded. *)
Lemma read_many {K V R} `{Countable K} {tb : Table R} {look put} {key : R -> K} {enc : V -> R} {ok}
    (HM : Mapped J tb look put key enc ok) p (q : V -> bool) (dec : R -> result StoreError V) d s l :
  (forall k v, ok k v -> dec (enc v) = Ok v /\ p (enc v) = q v) ->
  represents J d s -> l ≡ₚ where_ p (rows tb d) ->
  exists vs, l = enc <$> vs /\ mapM dec l = Ok vs /\
    vs ≡ₚ filter (fun v => q v = true) (map_values (look s)).
Proof.
  intros Hdec Hr Hl. pose proof (mapped_rep J _ _ _ _ _ _ HM _ _ Hr) as Ht.
  apply (rep_read _ _ _ (mapped_key J _ _ _ _ _ _ HM) dec p q _ _ _ Ht); [|done].
  intros k v Hv. apply (Hdec k). by apply (rep_ok _ _ _ _ _ Ht).
Qed.

Lemma any_order_sorted {A} (l : list A) : StronglySorted any_order l.
Proof. induction l; constructor; [done|]. by apply Forall_true. Qed.

Lemma filter_everything {A} (l : list A) : filter (fun _ => true = true) l = l.
Proof. induction l as [|x l IH]; [done|]. by rewrite filter_cons, IH. Qed.

Lemma order_by_perm {R} (key : R -> Z) t : order_by key t ≡ₚ t.
Proof. unfold order_by, sort_by_key. by rewrite sort_stable_perm, scan_perm. Qed.

Lemma order_by_sorted {R} (key : R -> Z) t : StronglySorted (fun x y => key x <= key y) (order_by key t).
Proof. apply sort_by_key_strongly. Qed.

Lemma sorted_fmap {A B} (f : A -> B) (P : relation B) (l : list A) :
  StronglySorted P (f <$> l) -> StronglySorted (fun x y => P (f x) (f y)) l.
Proof.
  induction l as [|x l IH]; cbn; intros Hs; [constructor|].
  apply StronglySorted_cons in Hs as [HF Hs]. constructor; [by apply IH|].
  by rewrite Forall_fmap in HF.
Qed.

Lemma same_get d s id : represents J d s -> reads_same d s (get id) (Store.get id).
Proof. apply (read_one (clusters_mapped J)); [apply the_cluster_key|apply cluster_decodes]. Qed.
Lemma same_intent d s k : represents J d s -> reads_same d s (get_intent k) (Store.get_intent k).
Proof. apply (read_one (intents_mapped J)); [apply the_intent_key|apply intent_decodes]. Qed.
Lemma same_pool d s n : represents J d s -> reads_same d s (get_pool n) (Store.get_pool n).
Proof. apply (read_one (pools_mapped J)); [apply the_pool_key|apply pool_decodes]. Qed.
Lemma same_user d s u : represents J d s -> reads_same d s (get_local_user u) (Store.get_local_user u).
Proof. apply (read_one (users_mapped J)); [apply the_user_key|apply user_decodes]. Qed.
Lemma same_token d s p :
  represents J d s -> reads_same d s (get_api_token_by_prefix p) (Store.get_api_token_by_prefix p).
Proof. apply (read_one (tokens_mapped J)); [apply the_token_key|apply token_decodes]. Qed.

Lemma same_quarantined d s : represents J d s -> reads_same d s is_quarantined Store.is_quarantined.
Proof.
  intros Hr. destruct (rep_control J _ _ Hr) as (m & Ht & Hq & _). unfold is_quarantined, Store.is_quarantined. run_query.
  rewrite (rep_fetch _ _ _ control_row_key _ _ (control_key_eq "quarantine") _ _ Ht).
  rewrite <- Hq. by destruct (m !! _).
Qed.
Lemma same_policy d s : represents J d s -> reads_same d s get_policy Store.get_policy.
Proof.
  intros Hr. destruct (rep_control J _ _ Hr) as (m & Ht & _ & Hp & Hs). unfold get_policy, Store.get_policy. run_query.
  rewrite (rep_fetch _ _ _ control_row_key _ _ (control_key_eq "policy") _ _ Ht).
  replace (kr_value <$> ((fun r : ControlRow => r) <$> m !! "policy"%string)) with (to_string <$> m_policy s).
  - by rewrite (parse_opt_stable _ Hs).
  - rewrite <- Hp. by destruct (m !! _).
Qed.

(** *** Lists *)

Lemma read_all {K V R} `{Countable K} {tb : Table R} {look put} {key : R -> K} {enc : V -> R} {ok}
    (HM : Mapped J tb look put key enc ok) (dec : R -> result StoreError V) d s :
  (forall k v, ok k v -> dec (enc v) = Ok v) -> represents J d s ->
  exists vs, (l ← fetch_all tb (fun _ => true); lift (mapM dec l)) (calm d) = (Ok vs, calm d) /\
    vs ≡ₚ map_values (look s).
Proof.
  intros Hdec Hr.
  destruct (read_many HM (fun _ => true) (fun _ => true) dec d s (scan (where_ (fun _ => true) (rows tb d))))
    as (vs & El & Hm & Hp); [by intros; split; [eapply Hdec|]|done|apply scan_perm|].
  exists vs. rewrite filter_everything in Hp. split; [|done].
  run_query. by rewrite Hm.
Qed.

Lemma rows_clusters d s : represents J d s -> reads_rows d s any_order list_clusters Store.list_clusters.
Proof.
  intros Hr. destruct (read_all (clusters_mapped J) row_to_cluster d s cluster_decodes Hr) as (vs & Hq & Hp).
  exists vs, (map_values (m_clusters s)). split_and!; [done|done|done|apply any_order_sorted].
Qed.
Lemma rows_pools d s : represents J d s -> reads_rows d s any_order list_pools Store.list_pools.
Proof.
  intros Hr. destruct (read_all (pools_mapped J) row_to_pool d s pool_decodes Hr) as (vs & Hq & Hp).
  exists vs, (map_values (m_pools s)). split_and!; [done|done|done|apply any_order_sorted].
Qed.

Lemma rows_allocations d s n :
  represents J d s -> reads_rows d s any_order (list_allocations n) (Store.list_allocations n).
Proof.
  intros Hr. unfold list_allocations, Store.list_allocations. run_query.
  destruct (read_many (allocations_mapped J) (fun r => String.eqb (lr_pool r) n)
    (fun a => String.eqb (a_pool a) n) (fun r => parse (lr_spec_json r)) d s
    (scan (where_ (fun r => String.eqb (lr_pool r) n) (d_allocations d)))) as (vs & _ & Hm & Hp);
    [|done|apply scan_perm|].
  - intros k a [_ Hs]. split; [by apply parse_stable|done].
  - eexists vs, _. rewrite Hm. split_and!; [done|done| |apply any_order_sorted].
    rewrite Hp. erewrite filter_agree; [done|]. intros a _. apply String.eqb_eq.
Qed.

(** Decoding preserves an order on the rows. *)
Lemma rows_sorted {V R} (enc : V -> R) (key : R -> Z) l vs :
  enc <$> vs = order_by key l -> StronglySorted (fun x y => key (enc x) <= key (enc y)) vs.
Proof. intros E. apply (sorted_fmap enc (fun x y => key x <= key y)). rewrite E. apply order_by_sorted. Qed.

Lemma rows_jobs d s :
  represents J d s ->
  reads_rows d s (fun a b => j_submitted_at b <= j_submitted_at a) list_jobs Store.list_jobs.
Proof.
  intros Hr. unfold list_jobs, Store.list_jobs. run_query.
  destruct (read_many (jobs_mapped J) (fun _ => true) (fun _ => true) row_to_job d s
    (order_by (fun r => - jr_submitted_at r) (where_ (fun _ => true) (d_jobs d)))) as (vs & El & Hm & Hp);
    [|done|apply order_by_perm|].
  - intros k j [Hj _]. split; [by eapply job_decodes|done].
  - eexists vs, _. rewrite Hm. rewrite filter_everything in Hp. split_and!; [done|done| |].
    + rewrite Hp. unfold sort_by_key. by rewrite sort_stable_perm.
    + eapply ascending_weaken; [|by eapply rows_sorted]. cbn. lia.
Qed.

Lemma rows_tokens d s u :
  represents J d s ->
  reads_rows d s (fun a b => at_created_at b <= at_created_at a) (list_api_tokens u) (Store.list_api_tokens u).
Proof.
  intros Hr. unfold list_api_tokens, Store.list_api_tokens. run_query.
  destruct (read_many (tokens_mapped J) (fun r => String.eqb (tr_username r) u)
    (fun t => String.eqb (at_username t) u) row_to_api_token d s
    (order_by (fun r => - tr_created_at r) (where_ (fun r => String.eqb (tr_username r) u) (d_api_tokens d))))
    as (vs & El & Hm & Hp); [|done|apply order_by_perm|].
  - intros k t Ht. split; [by eapply token_decodes|done].
  - eexists vs, _. rewrite Hm. split_and!; [done|done| |].
    + rewrite Hp. unfold sort_by_key. rewrite sort_stable_perm.
      erewrite filter_agree; [done|]. intros t _. apply String.eqb_eq.
    + eapply ascending_weaken; [|by eapply rows_sorted]. cbn. lia.
Qed.

Lemma rows_usage d s pr po from to :
  represents J d s ->
  reads_rows d s (fun a b => us_ts a <= us_ts b) (usage_samples pr po from to)
    (Store.usage_samples pr po from to).
Proof.
  intros Hr. destruct (rep_usage J _ _ Hr) as [Hu HF]. rewrite Forall_forall in HF.
  unfold usage_samples, Store.usage_samples. run_query. rewrite Hu, where_fmap.
  rewrite (filter_agree _ (fun x => sample_selected pr po from to x = true)).
  2:{ intros x Hx. specialize (HF _ Hx). unfold sample_ok in HF. unfold sample_selected. cbn.
      rewrite as_i64_id by done. unfold clamp_i64, in_i64 in *.
      replace (Z.leb (Z.min from i64_max) (us_ts x)) with (Z.leb from (us_ts x))
        by (destruct (Z.leb_spec from (us_ts x)), (Z.leb_spec (Z.min from i64_max) (us_ts x)); lia).
      replace (Z.leb (us_ts x) (Z.min to i64_max)) with (Z.leb (us_ts x) to)
        by (destruct (Z.leb_spec (us_ts x) to), (Z.leb_spec (us_ts x) (Z.min to i64_max)); lia).
      done. }
  set (sel := filter _ (m_usage s)).
  pose proof (order_by_perm ur_ts (sample_row <$> sel)) as Hp.
  apply Permutation_map_inv in Hp as (vs & El & Hp). symmetry in Hp.
  assert (Forall sample_ok vs) as Hok.
  { apply Forall_forall. intros x Hx. rewrite Hp in Hx. by apply HF, list_elem_of_filter in Hx as [_ Hx] || (apply list_elem_of_filter in Hx as [_ Hx]; by apply HF). }
  exists vs, (sort_by_key us_ts sel). rewrite El. rewrite (mapM_encoded sample_row).
  2:{ eapply Forall_impl; [exact Hok|]. intros x. apply sample_decodes. }
  split_and!; [done|done| |].
  - rewrite Hp. unfold sort_by_key. by rewrite sort_stable_perm.
  - symmetry in El. apply rows_sorted in El. clear Hp. induction El as [|x vs Hs IH HR]; [constructor|].
    apply Forall_cons in Hok as [Hx Hok]. constructor; [by apply IH|].
    rewrite Forall_forall in Hok, HR |- *. intros y Hy. specialize (HR y Hy). specialize (Hok y Hy). cbn in HR.
    unfold sample_ok in *. by rewrite !as_i64_id in HR by done.
Qed.

(** *** The audit trail *)

Lemma path_condition_eq p path : path_condition p path = starts_with p path.
Proof.
  unfold path_condition. revert path.
  induction p as [|a p IH]; intros [|b path]; [reflexivity|reflexivity|reflexivity|].
  replace (starts_with (String a p) (String b path)) with (Ascii.eqb a b && starts_with p path).
  - rewrite <- IH. cbn [String.length String.substring]. cbn [String.eqb].
    rewrite Ascii.eqb_sym. by destruct (Ascii.eqb a b).
  - unfold starts_with, strip_prefix. cbn. by destruct (Ascii.eqb a b).
Qed.

Lemma clamped_ltb x c : x < i64_max -> Z.ltb x (clamp_i64 c) = Z.ltb x c.
Proof. unfold clamp_i64. intros. destruct (Z.ltb_spec x c), (Z.ltb_spec x (Z.min c i64_max)); lia. Qed.
Lemma clamped_leb_r x c : x < i64_max -> Z.leb x (clamp_i64 c) = Z.leb x c.
Proof. unfold clamp_i64. intros. destruct (Z.leb_spec x c), (Z.leb_spec x (Z.min c i64_max)); lia. Qed.
Lemma clamped_leb_l x c : x < i64_max -> Z.leb (clamp_i64 c) x = Z.leb c x.
Proof. unfold clamp_i64. intros. destruct (Z.leb_spec c x), (Z.leb_spec (Z.min c i64_max) x); lia. Qed.

Lemma decision_eq a b : String.eqb (audit_decision_str a) (audit_decision_str b) = bool_decide (a = b).
Proof. by destruct a, b. Qed.

(** An entry of a represented trail. *)
Definition entry_ok (r : ChainedAuditRow) : Prop :=
  1 <= row_seq r /\ row_seq r < i64_max /\ event_ok (row_event r).

Lemma trail_entries_ok d s : represents J d s -> Forall entry_ok (m_audit s).
Proof.
  intros Hr. pose proof (rep_audit J _ _ Hr) as Ht. apply Forall_forall.
  intros r (i & Hi)%list_elem_of_lookup. destruct (trail_entries _ _ _ _ Ht _ _ Hi) as [Hs He].
  pose proof (trail_seq _ _ _ _ Ht). pose proof (trail_room _ _ _ _ Ht).
  apply lookup_lt_Some in Hi. unfold entry_ok. split_and!; [lia|unfold ChainedAuditRow in *; lia|done].
Qed.

Lemma entry_decodes r : entry_ok r -> row_to_audit_event (trail_row r) = Ok (row_seq r, row_event r).
Proof. intros (Hlo & Hhi & He). apply event_decodes; [done|]. unfold in_i64. lia. Qed.

Lemma audit_where_matches f r :
  entry_ok r ->
  audit_where f (trail_row r)
  = is_none_or (af_cursor f) (fun c => Z.ltb (row_seq r) c) && matches f (row_event r).
Proof.
  intros (_ & Hs & (Ht & _)). unfold in_i64 in Ht. unfold audit_where, matches. rewrite !andb_assoc.
  unfold trail_row, audit_row. cbn [dr_seq dr_ts dr_subject dr_cluster dr_method dr_path dr_status dr_decision dr_reason].
  rewrite clamp_i64_id by done.
  repeat match goal with |- _ && _ = _ && _ => refine (f_equal2 andb _ _) end; try reflexivity.
  all: match goal with |- is_none_or ?o _ = _ => destruct o; [cbn [is_none_or]|done] end.
  all: destruct Ht as [Hlo Hhi]; auto using clamped_ltb, clamped_leb_l, clamped_leb_r, decision_eq.
  destruct (ae_path (row_event r)); [|done]. apply path_condition_eq.
Qed.

(** The selected rows of the trail, newest first or oldest first. *)
Lemma trail_selected d s p (q : ChainedAuditRow -> Prop) `{!forall r, Decision (q r)} :
  represents J d s -> (forall r, entry_ok r -> p (trail_row r) = true <-> q r) ->
  order_by (fun r => - dr_seq r) (where_ p (d_audit_events d)) = trail_row <$> reverse (filter q (m_audit s)) /\
  order_by dr_seq (where_ p (d_audit_events d)) = trail_row <$> filter q (m_audit s).
Proof.
  intros Hr Hq. pose proof (rep_audit J _ _ Hr) as Ht. pose proof (trail_entries_ok _ _ Hr) as Hok.
  rewrite order_by_descending, order_by_ascending by by apply ascending_where; eapply trail_ascending.
  rewrite (trail_rows _ _ _ _ Ht), where_fmap, (filter_agree _ q), fmap_reverse; [done|].
  intros r Hin. apply Hq. by eapply Forall_forall.
Qed.

Lemma decode_entries l :
  Forall entry_ok l ->
  mapM row_to_audit_event (trail_row <$> l) = Ok ((fun r => (row_seq r, row_event r)) <$> l).
Proof.
  induction 1 as [|r l Hr Hl IH]; [done|]. cbn [fmap list_fmap mapM]. rewrite (entry_decodes r Hr).
  cbn. cbn in IH. by rewrite IH.
Qed.

Lemma same_audit d s f : represents J d s -> reads_same d s (list_audit f) (Store.list_audit f).
Proof.
  intros Hr. unfold list_audit, Store.list_audit. run_query.
  destruct (trail_selected d s (audit_where f) (fun r =>
    is_none_or (af_cursor f) (fun c => Z.ltb (row_seq r) c) && matches f (row_event r) = true) Hr) as [-> _].
  { intros r Hin. by rewrite audit_where_matches. }
  set (sel := filter _ (m_audit s)).
  assert (Forall entry_ok (reverse sel)) as Hok.
  { apply Forall_forall. intros r Hr'. rewrite elem_of_reverse in Hr'. apply list_elem_of_filter in Hr' as [_ Hr'].
    eapply Forall_forall; [by eapply trail_entries_ok|done]. }
  set (limit := Z.to_nat (effective_limit f)).
  rewrite <- fmap_reverse. set (rows := (fun r => (row_seq r, row_event r)) <$> reverse sel).
  assert (mapM row_to_audit_event (take (limit + 1) (trail_row <$> reverse sel)) = Ok (take (limit + 1) rows)) as ->.
  { unfold rows. rewrite <- !fmap_take. by apply decode_entries, Forall_take. }
  cbv beta iota zeta. rewrite length_take. destruct (Nat.ltb_spec limit (length rows)) as [Hl|Hl].
  - replace (Nat.ltb limit (Nat.min (limit + 1) (length rows))) with true
      by (symmetry; apply Nat.ltb_lt; lia).
    by rewrite take_take, Nat.min_l by lia.
  - replace (Nat.ltb limit (Nat.min (limit + 1) (length rows))) with false
      by (symmetry; apply Nat.ltb_ge; lia).
    by rewrite take_ge by lia.
Qed.

Lemma decode_chain l :
  Forall entry_ok l ->
  mapM (fun r => e ← row_to_audit_event r; mret (e, dr_chain_hash r)) (trail_row <$> l) = Ok l.
Proof.
  induction 1 as [|r l Hr Hl IH]; [done|]. cbn [fmap list_fmap mapM]. rewrite (entry_decodes r Hr).
  cbn. cbn in IH. rewrite IH. by destruct r as [[? ?] ?].
Qed.

Lemma find_filter {A} (p : A -> bool) l : find p l = head (filter (fun x => p x = true) l).
Proof. induction l as [|x l IH]; [done|]. cbn [find]. rewrite filter_cons, IH. by destruct (p x). Qed.

Lemma newest_below d s f :
  represents J d s ->
  newest_hash (order_by (fun r => - dr_seq r) (where_ (fun r => Z.ltb (dr_seq r) (clamp_i64 f)) (d_audit_events d)))
  = row_hash <$> find (fun r => Z.ltb (row_seq r) f) (reverse (m_audit s)).
Proof.
  intros Hr. destruct (trail_selected d s (fun r => Z.ltb (dr_seq r) (clamp_i64 f))
    (fun r => Z.ltb (row_seq r) f = true) Hr) as [-> _].
  - intros r (_ & Hs & _). by rewrite (clamped_ltb (row_seq r)) by done.
  - rewrite find_filter, filter_rev. unfold newest_hash. 
    by destruct (reverse (filter _ (m_audit s))).
Qed.

(** Nothing precedes the start of the trail. *)
Lemma none_below_one d s f :
  represents J d s -> f <= 1 -> find (fun r => Z.ltb (row_seq r) f) (reverse (m_audit s)) = None.
Proof.
  intros Hr Hf. pose proof (trail_entries_ok _ _ Hr) as Hok. rewrite find_filter.
  destruct (filter _ _) as [|r l] eqn:E; [done|]. exfalso.
  assert (r ∈ filter (fun r => Z.ltb (row_seq r) f = true) (reverse (m_audit s))) as Hin by (rewrite E; by left).
  apply list_elem_of_filter in Hin as [Hlt Hin]. rewrite elem_of_reverse in Hin.
  rewrite Forall_forall in Hok. destruct (Hok _ Hin) as [Hs _]. apply Z.ltb_lt in Hlt. lia.
Qed.

Lemma same_window d s from n :
  represents J d s ->
  mapM (fun r => e ← row_to_audit_event r; mret (e, dr_chain_hash r))
    (take n (order_by dr_seq (where_ (fun r => is_none_or from (fun f => Z.leb (clamp_i64 f) (dr_seq r)))
      (d_audit_events d))))
  = Ok (take n (filter (fun r => default 1 from <= row_seq r) (m_audit s))).
Proof.
  intros Hr. pose proof (trail_entries_ok _ _ Hr) as Hok.
  destruct (trail_selected d s (fun r => is_none_or from (fun f => Z.leb (clamp_i64 f) (dr_seq r)))
    (fun r => default 1 from <= row_seq r) Hr) as [_ ->].
  - intros r (Hlo & Hs & _). destruct from as [f|]; cbn [is_none_or default]; [|done].
    rewrite (clamped_leb_l (row_seq r)) by done. apply Z.leb_le.
  - rewrite <- fmap_take. apply decode_chain, Forall_take, Forall_forall.
    intros r [_ Hin]%list_elem_of_filter. by eapply Forall_forall.
Qed.

Lemma same_chain d s from n : represents J d s -> reads_same d s (audit_chain from n) (Store.audit_chain from n).
Proof.
  intros Hr. pose proof (same_window d s from (Z.to_nat n) Hr) as Hw.
  unfold audit_chain, Store.audit_chain. run_query.
  destruct from as [f|]; [destruct (Z.ltb_spec 1 f)|]; cbv beta iota zeta delta [calm faults db tail];
    rewrite Hw; cbv beta iota zeta; cbn [fst snd default].
  - by rewrite (newest_below _ _ _ Hr).
  - by rewrite (none_below_one _ _ _ Hr) by done.
  - by rewrite (none_below_one _ _ _ Hr) by done.
Qed.

(** *** Users and assignments, in the order of their keys *)

Lemma same_users d s : represents J d s -> reads_same d s list_local_users Store.list_local_users.
Proof.
  intros Hr. unfold list_local_users, Store.list_local_users. run_query.
  destruct (read_many (users_mapped J) (fun _ => true) (fun _ => true) row_to_local_user d s
    (scan (d_local_users d))) as (vs & -> & Hm & Hp);
    [by intros k u Hu; split; [eapply user_decodes|]|done|by rewrite where_all; apply scan_perm|].
  rewrite filter_everything in Hp.
  rewrite (sort_stable_fmap user_row _ (fun a b => str_leb (lu_username a) (lu_username b))) by done.
  rewrite (mapM_encoded user_row).
  - f_equal. f_equal. apply sort_stable_unique; [| | |done].
    + intros a b. apply str_leb_total.
    + intros a b c. apply str_leb_trans.
    + intros a b Ha Hb Hab Hba. rewrite Hp in Ha, Hb.
      apply elem_of_map_values in Ha as [ka Ha], Hb as [kb Hb].
      pose proof (str_leb_antisym _ _ Hab Hba) as Hk.
      pose proof (map_ok J (users_mapped J) ka d s a Hr Ha) as [<- _].
      pose proof (map_ok J (users_mapped J) kb d s b Hr Hb) as [<- _]. rewrite Hk in Ha. congruence.
  - apply Forall_forall. intros u. rewrite elem_of_sort_stable, Hp, elem_of_map_values. intros [k Hk].
    eapply user_decodes. by eapply (map_ok J (users_mapped J)).
Qed.

Lemma same_assignments d s p :
  represents J d s -> reads_same d s (list_role_assignments p) (Store.list_role_assignments p).
Proof.
  intros Hr. unfold list_role_assignments, Store.list_role_assignments. run_query.
  destruct (read_many (assignments_mapped J) (fun r => is_none_or p (String.eqb (gr_principal r)))
    (fun a => is_none_or p (String.eqb (ra_principal a))) row_to_assignment d s
    (scan (where_ (fun r => is_none_or p (String.eqb (gr_principal r))) (d_role_assignments d))))
    as (vs & -> & Hm & Hp);
    [by intros k u Hu; split; [eapply assignment_decodes|]|done|apply scan_perm|].
  rewrite (sort_stable_fmap assignment_row _ assignment_leb) by done.
  rewrite (mapM_encoded assignment_row).
  - f_equal. f_equal. apply sort_stable_unique; [apply assignment_leb_total|apply assignment_leb_trans| |done].
    intros a b Ha Hb Hab Hba. rewrite Hp in Ha, Hb.
    apply list_elem_of_filter in Ha as [_ [ka Ha]%elem_of_map_values], Hb as [_ [kb Hb]%elem_of_map_values].
    pose proof (assignment_leb_antisym _ _ Hab Hba) as (Hk1 & Hk2 & Hk3).
    pose proof (map_ok J (assignments_mapped J) ka d s a Hr Ha) as [<- _].
    pose proof (map_ok J (assignments_mapped J) kb d s b Hr Hb) as [<- _].
    rewrite Hk1, Hk2, Hk3 in Ha. congruence.
  - apply Forall_forall. intros u. rewrite elem_of_sort_stable, Hp, list_elem_of_filter, elem_of_map_values.
    intros [_ [k Hk]]. eapply assignment_decodes. by eapply (map_ok J (assignments_mapped J)).
Qed.

Lemma represents_reads d s : represents J d s -> same_reads d s.
Proof.
  split; intros;
    eauto using same_get, rows_clusters, same_quarantined, same_policy, same_intent, rows_jobs, same_pool,
      rows_pools, rows_allocations, rows_usage, same_audit, same_chain, same_user, same_users, same_token,
      rows_tokens, same_assignments.
Qed.
End queries.
