(* ===== verification/SqliteProps.v ===== *)
(** * What the SQLite store promises

    The refinement theorem with its instance, and the backfill of the audit
    chain. *)

From stdpp Require Import pretty.
From S2P Require Import Prelude Float64 Core Policy Store StoreFacts Sql SqliteStore SqliteFacts.
From S2P Require Import SqliteRefine SqliteReads.
#[local] Open Scope Z_scope.

(** ** Refinement *)

Section refinement.
Context `{SqlEngineLaws} `{StoreJson} `{AuditCodec}.
#[local] Existing Instance sqlite_bool.
#[local] Existing Instance sqlite_bool_law.

End refinement.

(** ** Backfill of the audit chain *)

Section backfill.
Context `{SqlEngineLaws} `{BoolColumnLaw} `{StoreJson} `{AuditCodec}.
Context (hash_nonempty : forall p e, audit_chain_hash p e <> ""%string).

(** A trail whose oldest rows are chained and whose newer ones, written before
    the column existed, are not. *)
Record pending (d : Database) (pre suf : list ChainedAuditRow) : Prop := {
  pd_rows : d_audit_events d = trail_row <$> pre ++ suf;
  pd_ok : Forall entry_ok (pre ++ suf);
  pd_asc : ascending row_seq (pre ++ suf);
  pd_chained : chained AUDIT_GENESIS_HASH pre;
  pd_pre : Forall (fun r => row_hash r <> ""%string) pre;
  pd_suf : Forall (fun r => row_hash r = ""%string) suf;
}.

(** The row [r] chained after [pre]. *)
Definition rechained (pre : list ChainedAuditRow) (r : ChainedAuditRow) : ChainedAuditRow :=
  (row_seq r, row_event r,
   audit_chain_hash (default AUDIT_GENESIS_HASH (row_hash <$> last pre)) (row_event r)).

Lemma ascending_rows l : ascending row_seq l -> ascending dr_seq (trail_row <$> l).
Proof.
  induction 1 as [|r l Hl IH HF]; [constructor|]. cbn. constructor; [done|]. by rewrite Forall_fmap.
Qed.

Lemma where_hash_pending pre suf :
  Forall (fun r => row_hash r <> ""%string) pre -> Forall (fun r => row_hash r = ""%string) suf ->
  where_ (fun r => String.eqb (dr_chain_hash r) "") (trail_row <$> pre ++ suf) = trail_row <$> suf.
Proof.
  intros Hp Hs. rewrite fmap_app, where_app, where_none, where_every; [done|..].
  - intros r (x & -> & Hx)%list_elem_of_fmap. rewrite Forall_forall in Hs. apply String.eqb_eq. by apply Hs.
  - intros r (x & -> & Hx)%list_elem_of_fmap. rewrite Forall_forall in Hp. apply String.eqb_neq. by apply Hp.
Qed.

Lemma where_before pre r suf :
  ascending row_seq (pre ++ r :: suf) ->
  where_ (fun x => Z.ltb (dr_seq x) (row_seq r)) (trail_row <$> pre ++ r :: suf) = trail_row <$> pre.
Proof.
  intros Ha. apply StronglySorted_app in Ha as (Hlt & _ & Hs). apply StronglySorted_cons in Hs as [HF _].
  rewrite fmap_app, where_app, where_every, where_none, app_nil_r; [done|..].
  - intros x (y & -> & [->|Hy]%elem_of_cons)%list_elem_of_fmap; apply Z.ltb_ge; cbn; [lia|].
    rewrite Forall_forall in HF. specialize (HF _ Hy). cbn in HF. lia.
  - intros x (y & -> & Hy)%list_elem_of_fmap. apply Z.ltb_lt. apply (Hlt y r); [done|by left].
Qed.

Lemma update_one pre r suf f :
  ascending row_seq (pre ++ r :: suf) ->
  update_where (fun x => Z.eqb (dr_seq x) (row_seq r)) f (trail_row <$> pre ++ r :: suf)
  = (trail_row <$> pre) ++ f (trail_row r) :: (trail_row <$> suf).
Proof.
  intros Ha. apply StronglySorted_app in Ha as (Hlt & _ & Hs). apply StronglySorted_cons in Hs as [HF _].
  unfold update_where. rewrite !fmap_app, !fmap_cons. cbn [dr_seq trail_row audit_row]. rewrite Z.eqb_refl.
  f_equal; [|f_equal]; rewrite <- list_fmap_compose; apply list_fmap_ext; intros i x Hi; cbn;
    apply list_elem_of_lookup_2 in Hi.
  - specialize (Hlt x r Hi ltac:(by left)). cbn in Hlt. by destruct (Z.eqb_spec (row_seq x) (row_seq r)); [lia|].
  - rewrite Forall_forall in HF. specialize (HF _ Hi). cbn in HF.
    by destruct (Z.eqb_spec (row_seq x) (row_seq r)); [lia|].
Qed.

Lemma newest_reverse l : newest_hash (reverse (trail_row <$> l)) = row_hash <$> last l.
Proof. unfold newest_hash. rewrite head_reverse, fmap_last. by destruct (last l). Qed.

Lemma backfill_step_calm d pre r suf :
  pending d pre (r :: suf) ->
  exists d', backfill_step (calm d) = (Ok (Some tt), calm d') /\
    d' = write audit_events (d_audit_events d') d /\ pending d' (pre ++ [rechained pre r]) suf.
Proof.
  intros [Hrows Hok Ha Hc Hp Hs].
  assert (entry_ok r) as Hr by (apply Forall_app in Hok as [_ Hok]; by apply Forall_cons in Hok as [? _]).
  pose proof Hr as (Hlo & Hhi & He).
  eexists. split; [|split].
  - unfold backfill_step, fetch_ordered, update, select, statement, lift, mbind, ST_bind, mret, ST_ret.
    cbv beta iota zeta delta [calm faults db tail rows audit_events]. rewrite Hrows.
    rewrite where_hash_pending, order_by_ascending by (done || apply ascending_rows; by apply StronglySorted_app in Ha as (_ & _ & ?)).
    rewrite fmap_cons. cbv beta iota zeta. rewrite (entry_decodes r Hr). cbv beta iota zeta.
    rewrite (as_i64_id (row_seq r)) by (unfold in_i64; lia).
    rewrite Hrows, where_before, order_by_descending by (done || apply ascending_rows; by apply StronglySorted_app in Ha as (_ & ? & _)).
    reflexivity.
  - done.
  - cbn [write audit_events d_audit_events]. rewrite update_one by done.
    apply StronglySorted_app in Ha as (Hlt & Hap & [HF Has]%StronglySorted_cons). rewrite Forall_forall in HF.
    split.
    + cbn [d_audit_events]. rewrite <- app_assoc, fmap_app. cbn. f_equal. f_equal.
      unfold trail_row, audit_row, rechained; cbn. by rewrite newest_reverse.
    + rewrite <- app_assoc. apply Forall_app in Hok as [Hok1 [_ Hok2]%Forall_cons].
      apply Forall_app. split; [done|]. by constructor.
    + rewrite <- app_assoc. apply StronglySorted_app. split_and!; [|done|].
      * intros x y Hx [->|Hy]%elem_of_cons; [apply (Hlt x r); [done|by left]|apply Hlt; [done|by right]].
      * constructor; [done|]. by apply Forall_forall.
    + by apply chained_app.
    + apply Forall_app. split; [done|]. constructor; [apply hash_nonempty|constructor].
    + by apply Forall_cons in Hs as [_ ?].
Qed.

Lemma backfill_step_done d pre : pending d pre [] -> backfill_step (calm d) = (Ok None, calm d).
Proof.
  intros [Hrows _ _ _ Hp Hs]. unfold backfill_step, fetch_ordered, select, statement, mbind, ST_bind, mret, ST_ret.
  cbv beta iota zeta delta [calm faults db tail rows audit_events]. rewrite Hrows, where_hash_pending by done.
  rewrite order_by_ascending by constructor. done.
Qed.

(** *** The step among failing statements *)

Lemma robust_backfill_step : robust backfill_step.
Proof.
  apply robust_bind; [apply robust_select|]. intros [|row l]; [apply robust_ret|].
  apply robust_bind; [apply robust_lift|]. intros [seq event].
  apply robust_bind; [apply robust_select|]. intros before.
  apply robust_bind; [apply robust_statement|]. intros n. apply robust_ret.
Qed.
Lemma aon_backfill_step : all_or_nothing backfill_step.
Proof.
  apply aon_bind; [apply reads_select|]. intros [|row l]; [by apply aon_reads|].
  apply aon_bind; [apply reads_lift|]. intros [seq event].
  apply aon_bind; [apply reads_select|]. intros before.
  apply aon_then; [apply aon_update|]. intros n. apply infallible_ret.
Qed.

(** What an entry records, whatever its hash. *)
Definition entry (r : ChainedAuditRow) : Z * AuditEvent := (row_seq r, row_event r).

Lemma backfill_loop_spec fuel c pre suf :
  pending (db c) pre suf -> (length suf < fuel)%nat ->
  let '(r, c') := backfill_loop fuel c in
  exists chained_now rest, pending (db c') (pre ++ chained_now) rest /\
    entry <$> chained_now ++ rest = entry <$> suf /\
    db c' = write audit_events (d_audit_events (db c')) (db c) /\
    (is_ok r = true -> r = Ok (Some tt) /\ rest = []) /\ (faults c = [] -> is_ok r = true).
Proof.
  revert c pre suf. induction fuel as [|fuel IH]; intros c pre suf Hd Hlen; [lia|].
  cbn [backfill_loop]. rewrite ST_bind_eq. pose proof (aon_backfill_step c) as Haon.
  pose proof (robust_backfill_step c) as Hrob.
  assert (Hcalm : faults c = [] -> c = calm (db c)) by (destruct c; by intros [= ->]).
  destruct (backfill_step c) as [[turn|e] c1] eqn:E.
  - specialize (Hrob _ _ eq_refl). destruct suf as [|r suf].
    + rewrite (backfill_step_done _ _ Hd) in Hrob. injection Hrob as <- Hc1. cbn.
      exists [], []. rewrite app_nil_r, <- Hc1. split_and!; try done. by destruct (db c).
    + destruct (backfill_step_calm _ _ _ _ Hd) as (d' & Hq & Hw & Hd'). rewrite Hq in Hrob.
      injection Hrob as <- Hc1. rewrite Hc1 in Hd', Hw. cbn [length] in Hlen.
      specialize (IH c1 _ _ Hd' ltac:(lia)). destruct (backfill_loop fuel c1) as [r2 c2].
      destruct IH as (now & rest & Hp & He & Hdb & Hok & Hf).
      exists (rechained pre r :: now), rest. rewrite <- app_assoc in Hp. split_and!; [done| | |done|].
      * cbn. by rewrite He.
      * rewrite Hdb, Hw. done.
      * intros Hc. apply Hf. rewrite (Hcalm Hc) in E. rewrite Hq in E. by injection E as <-.
  - specialize (Haon _ _ eq_refl). exists [], suf. rewrite app_nil_r, Haon. split_and!; try done.
    + by destruct (db c).
    + intros Hc. exfalso. rewrite (Hcalm Hc) in E. destruct suf as [|r suf].
      * by rewrite (backfill_step_done _ _ Hd) in E.
      * destruct (backfill_step_calm _ _ _ _ Hd) as (d' & Hq & _). by rewrite Hq in E.
Qed.

(** Boot-time backfill on a trail whose older rows are chained and whose newer
    ones have no hash yet: if no statement fails it terminates with the whole
    trail chained from genesis; interrupted by a failure anywhere, it leaves a
    longer chained prefix, from which the next boot continues. Entries and their
    order never change, nor does any other table or row chained before. *)
Theorem backfill_chains_the_trail c pre suf :
  pending (db c) pre suf ->
  let '(r, c') := backfill_audit_chain c in
  exists chained_now rest, pending (db c') (pre ++ chained_now) rest /\
    entry <$> chained_now ++ rest = entry <$> suf /\
    db c' = write audit_events (d_audit_events (db c')) (db c) /\
    (is_ok r = true -> r = Ok (Some tt) /\ rest = []) /\ (faults c = [] -> is_ok r = true).
Proof.
  intros Hd. unfold backfill_audit_chain. apply backfill_loop_spec; [done|].
  rewrite (pd_rows _ _ _ Hd), where_hash_pending by (apply Hd). rewrite length_fmap. lia.
Qed.
End backfill.

(** ** Concrete runs

    An engine that returns rows newest first, and texts for one cluster spec, the
    cluster states' names and lists of role names. *)
Module Toy.
#[local] Existing Instance sqlite_bool.
#[local] Existing Instance sqlite_bool_law.
#[local] Instance codec : AuditCodec := {|
  sha256_hex := fun s => "h" +:+ s;
  audit_json := fun e => u64_str (ae_ts e) |}.

#[local] Instance engine : SqlEngine := {|
  scan := fun _ t => reverse t;
  sqlx_error := "database is locked" |}.

#[local] Instance engine_laws : SqlEngineLaws.
Proof. intros R t. apply reverse_Permutation. Qed.

Definition no_text {A} : SerdeJson A := {| to_string := fun _ => ""%string; from_str := fun _ => Err "EOF"%string |}.

#[local] Instance json : StoreJson := {|
  json_cluster_spec := {| to_string := cs_name; from_str := fun _ => Ok demo_spec |};
  json_cluster_state := {|
    to_string := fun s => match s with Running => "Running"%string | _ => "Pending"%string end;
    from_str := fun s => if String.eqb s "Running" then Ok Running else Ok Pending |};
  json_condition := no_text; json_pool_spec := no_text; json_allocation := no_text;
  json_policy := no_text; json_required := no_text;
  json_strings := {| to_string := String.concat ","; from_str := fun s => if String.eqb s "" then Ok [] else Ok [s] |};
|}.

Definition J (_ : string) : string * string * Z := ("c1"%string, "alice"%string, 7).

Definition ops : list store_op := [
  OpUpsertDesired 10 "c1" demo_spec; OpSetDesired 20 "c1" DTerminated;
  OpRecordObservation "c1" (Some Running) 1; OpSetQuarantine true;
  OpRecordJob {| j_id := "j"; j_cluster := "c1"; j_submitter := "alice"; j_status := "RUNNING";
                 j_duration_secs := None; j_submitted_at := 7 |};
  OpRecordUsage [{| us_ts := 1; us_project := "p"; us_pool := ""; us_resource := "cpu";
                    us_quantity := f64_zero; us_source := ObservedSpec |};
                 {| us_ts := 2; us_project := "p"; us_pool := ""; us_resource := "cpu";
                    us_quantity := f64_zero; us_source := ObservedSpec |}];
  OpCreateUser 5 "alice" None "hash" LViewer; OpLoginFailure 100 "alice";
  OpRecordAudit (demo_event 1); OpRecordAudit (demo_event 2); OpDeletePool "none"].

(** The second INSERT of the batch of samples fails. *)
Definition fs : list bool := replicate 9 false ++ [true].

Definition run : list (result StoreError answer) * Conn := sql_run ops {| db := empty_db; faults := fs |}.

Lemma ops_fit : Forall (op_fits J) ops.
Proof.
  unfold ops. repeat (apply Forall_cons; split); try apply Forall_nil; cbn [op_fits];
    unfold the_job_ok, job_ok, event_ok, stable, opt_holds, in_i64, is_u64, i64_max, LOCKOUT_SECS;
    repeat split; try done; try (intros ? [= <-]); try done; repeat (apply Forall_cons; split);
    try apply Forall_nil; unfold sample_ok, in_i64, i64_max; cbn [us_ts]; lia.
Qed.


(** Recording a job again under its id, as of another cluster: the in-memory store
    replaces the record, this one keeps the first cluster. *)
Definition job (cluster status : string) : JobRecord := {|
  j_id := "j"; j_cluster := cluster; j_submitter := "alice"; j_status := status;
  j_duration_secs := None; j_submitted_at := 7 |}.
Definition two_jobs : list store_op := [OpRecordJob (job "c1" "RUNNING"); OpRecordJob (job "c2" "SUCCEEDED")].

Lemma job_rewrite_differs :
  fst (Store.list_jobs (snd (mem_run two_jobs empty_store))) = Ok [job "c2" "SUCCEEDED"] /\
  fst (list_jobs (snd (sql_run two_jobs (calm empty_db)))) = Ok [job "c1" "SUCCEEDED"].
Proof. split; vm_compute; reflexivity. Qed.

(** Two rows written before the hash column existed. *)
Definition old_rows : list ChainedAuditRow := [(1, demo_event 1, ""%string); (2, demo_event 2, ""%string)].
Definition old_db : Database := write audit_events (trail_row <$> old_rows) empty_db.

Lemma hash_nonempty p e : audit_chain_hash p e <> ""%string.
Proof. done. Qed.

Lemma old_pending : pending old_db [] old_rows.
Proof.
  split; [done| | |done|constructor|by repeat constructor].
  - repeat constructor; cbn; unfold i64_max, opt_holds; cbn; try lia; try done.
  - repeat constructor; cbn; lia.
Qed.

Lemma backfill_chains_the_trail_witness :
  let '(r, c') := backfill_audit_chain (calm old_db) in
  r = Ok (Some tt) /\ exists l, pending (db c') l [] /\ entry <$> l = entry <$> old_rows.
Proof.
  pose proof (backfill_chains_the_trail hash_nonempty (calm old_db) [] old_rows old_pending) as Ht.
  destruct (backfill_audit_chain (calm old_db)) as [r c'].
  destruct Ht as (now & rest & Hp & He & _ & Hok & Hf).
  destruct (Hok (Hf eq_refl)) as [-> ->]. split; [reflexivity|]. exists now.
  rewrite app_nil_r in He. exact (conj Hp He).
Defined.

(** A lost connection in the middle of the batch leaves no sample behind. *)
Definition cut_conn : Conn := {| db := old_db; faults := [false; false; true] |}.
Definition cut_run : result StoreError answer * Conn := sql_exec (nth 5 ops (OpSetQuarantine true)) cut_conn.

Lemma failed_op_changes_nothing_witness :
  fst cut_run = Err (Backend "database is locked") /\ db (snd cut_run) = old_db.
Proof.
  split; [vm_compute; reflexivity|].
  exact (failed_op_changes_nothing (nth 5 ops (OpSetQuarantine true)) cut_conn (Backend "database is locked") (snd cut_run) eq_refl).
Defined.
End Toy.
