(* ===== verification/PostgresStore.v ===== *)
(** * The Postgres store (crates/mobula-controller/src/store_postgres.rs)

    The tables of [SqliteStore] with BOOLEAN columns, and every operation of the
    [Store] trait as the statements it issues. Here several connections, of one
    server or of several, work on the database at once, so an operation is kept as
    a program: a tree of statements whose interleavings [PostgresSchedule] gives.
    Outside a transaction a statement commits by itself. *)

From S2P Require Import Prelude Float64 Core Policy Store Sql SqliteStore.
#[local] Open Scope Z_scope.

(** ** Programs *)

Definition postgres_bool : BoolColumn := {| bool_col := bool; of_bool := fun b => b; to_bool := fun b => b |}.
Lemma postgres_bool_law : @BoolColumnLaw postgres_bool.
Proof. done. Qed.
#[export] Existing Instance postgres_bool.
#[export] Existing Instance postgres_bool_law.

(** The schema: the tables of [SqliteStore] with this store's booleans. *)
Definition Postgres : Type := @Database postgres_bool.

(** A statement reads the database, answers and changes it; an advisory lock is
    waited for and kept to the end of its transaction. *)
Inductive Prog (A : Type) : Type :=
| Ret (r : result StoreError A)
| Lock (key : string) (k : Prog A)
| Stmt (X : Set) (f : Postgres -> result StoreError X * Postgres) (k : X -> Prog A).
Arguments Ret {A} _.
Arguments Lock {A} _ _.
Arguments Stmt {A} _ _ _.

Fixpoint prog_bind {A B} (f : A -> Prog B) (m : Prog A) : Prog B :=
  match m with
  | Ret (Ok a) => f a
  | Ret (Err e) => Ret (Err e)
  | Lock key k => Lock key (prog_bind f k)
  | Stmt X g k => Stmt X g (fun x => prog_bind f (k x))
  end.
#[export] Instance Prog_ret : MRet Prog := fun _ a => Ret (Ok a).
#[export] Instance Prog_bind : MBind Prog := fun _ _ f m => prog_bind f m.

(** [pool.begin()] ... [tx.commit()], with a rollback on an error. *)
Inductive Transaction (A : Type) := Begin (body : Prog A).
Arguments Begin {A} _.

Definition statement {A : Set} (f : Postgres -> result StoreError A * Postgres) : Prog A :=
  Stmt A f (fun a => Ret (Ok a)).
Definition select {A : Set} (f : Postgres -> A) : Prog A := statement (fun d => (Ok (f d), d)).
Definition lift {A} (r : result StoreError A) : Prog A := Ret r.
Definition fail {A} (e : StoreError) : Prog A := Ret (Err e).
Definition pg_advisory_xact_lock (key : string) : Prog unit := Lock key (Ret (Ok tt)).

(** How the database orders text: [ORDER BY] on a TEXT column follows its
    collation, a total order on texts (the default collations are deterministic). *)
Class Collation := collate : string -> string -> bool.
Class CollationLaws `{Collation} := {
  collate_total : forall a b, collate a b = true \/ collate b a = true;
  collate_trans : forall a b c, collate a b = true -> collate b c = true -> collate a c = true;
  collate_antisym : forall a b, collate a b = true -> collate b a = true -> a = b;
}.

Section statements.
Context `{SqlEngine}.

Definition fetch_columns {R C : Set} (t : Table R) (p : R -> bool) (columns : R -> C) : Prog (option C) :=
  select (fun d => (columns <$> fetch_one p (rows t d) : option C)).
Definition fetch_optional {R : Set} (t : Table R) (p : R -> bool) : Prog (option R) :=
  select (fun d => fetch_one p (rows t d)).
Definition fetch_all {R : Set} (t : Table R) (p : R -> bool) : Prog (list R) :=
  select (fun d => scan (where_ p (rows t d))).
Definition fetch_ordered {R : Set} (t : Table R) (p : R -> bool) (key : R -> Z) : Prog (list R) :=
  select (fun d => order_by key (where_ p (rows t d))).
Definition change {R : Set} (t : Table R) (f : list R -> list R) : Prog unit :=
  statement (fun d => (Ok tt, write t (f (rows t d)) d)).
Definition update {R : Set} (t : Table R) (p : R -> bool) (f : R -> R) : Prog Z :=
  statement (fun d => (Ok (rows_affected p (rows t d)), write t (update_where p f (rows t d)) d)).
Definition delete_from {R : Set} (t : Table R) (p : R -> bool) : Prog Z :=
  statement (fun d => (Ok (rows_affected p (rows t d)), write t (delete_where p (rows t d)) d)).
Definition insert_into {R : Set} (t : Table R) (same : R -> R -> bool) (new : R) : Prog bool :=
  statement (fun d => match insert_unique same new (rows t d) with
                      | Some l => (Ok true, write t l d)
                      | None => (Ok false, d)
                      end).
Definition insert_ignore {R : Set} (t : Table R) (same : R -> R -> bool) (new : R) : Prog bool :=
  statement (fun d => (Ok (negb (existsb (same new) (rows t d))),
                       write t (insert_or_ignore same new (rows t d)) d)).
Definition affecting (affected : Z) (msg : string) : Prog unit :=
  if Z.eqb affected 0 then fail (Backend msg) else mret tt.
End statements.

(** ** Rows and values *)

Definition intent_status_from_str (s : string) : IntentStatus :=
  if String.eqb s "pending" then IPending else IApplied.

Definition desired_to_str (d : DesiredState) : string :=
  match d with DRunning => "running" | DSuspended => "suspended" | DTerminated => "terminated" end.

(** The message quotes the text with [{:?}]; the model keeps the text. *)
Definition desired_from_str (s : string) : result StoreError DesiredState :=
  if String.eqb s "running" then Ok DRunning
  else if String.eqb s "suspended" then Ok DSuspended
  else if String.eqb s "terminated" then Ok DTerminated
  else Err (Backend ("bad desired state " +:+ s)).

Section rows.
Context `{StoreJson}.

Definition row_to_cluster (row : ClusterRow) : result StoreError StoredCluster :=
  spec ← parse (cr_spec_json row);
  observed_state ← parse_opt (cr_observed_state row);
  condition ← parse_opt (cr_condition row);
  desired ← desired_from_str (cr_desired row);
  mret {| c_id := cr_id row; c_spec := spec; c_generation := as_u64 (cr_generation row);
          c_desired := desired; c_observed_state := observed_state;
          c_observed_generation := as_u64 (cr_observed_generation row);
          c_condition := condition; c_failure_count := as_u32 (cr_failure_count row);
          c_next_attempt_at := as_u64 (cr_next_attempt_at row);
          c_created_at := as_u64 (cr_created_at row);
          c_terminated_at := as_u64 <$> cr_terminated_at row |}.

Definition row_to_pool (row : PoolRow) : result StoreError StoredPool :=
  spec ← parse (pr_spec_json row);
  mret {| sp_name := pr_name row; sp_spec := spec; sp_generation := as_u64 (pr_generation row);
          sp_observed_json := pr_observed_json row;
          sp_observed_at := as_u64 <$> pr_observed_at row;
          sp_created_at := as_u64 (pr_created_at row) |}.

Definition row_to_audit_event (row : AuditRow) : result StoreError (Z * AuditEvent) :=
  required ← parse_opt (dr_required_json row);
  granted_roles ← parse (dr_granted_roles row);
  decision ← ok_or (Backend "bad audit decision") (audit_decision_parse (dr_decision row));
  mret (as_u64 (dr_seq row), {|
    ae_ts := as_u64 (dr_ts row); ae_subject := dr_subject row; ae_decision := decision;
    ae_reason := dr_reason row; ae_action := dr_action row; ae_cluster := dr_cluster row;
    ae_method := dr_method row; ae_path := dr_path row;
    ae_status := as_u16 <$> dr_status row; ae_latency_ms := as_u64 <$> dr_latency_ms row;
    ae_required := required; ae_granted_roles := granted_roles |}).

Definition row_to_local_user (row : UserRow) : result StoreError LocalUserRecord :=
  role ← ok_or (Backend ("bad local role " +:+ xr_role row)) (local_role_parse (xr_role row));
  mret {| lu_username := xr_username row; lu_email := xr_email row;
          lu_password_hash := xr_password_hash row; lu_role := role;
          lu_disabled := xr_disabled row;
          lu_created_at := as_u64 (xr_created_at row);
          lu_failed_logins := as_u32 (xr_failed_logins row);
          lu_locked_until := as_u64 <$> xr_locked_until row |}.

Definition row_to_api_token (row : TokenRow) : result StoreError ApiTokenRecord :=
  mret {| at_prefix := tr_prefix row; at_token_hash := tr_token_hash row;
          at_username := tr_username row; at_label := tr_label row;
          at_created_at := as_u64 (tr_created_at row); at_expires_at := as_u64 (tr_expires_at row);
          at_revoked := tr_revoked row;
          at_last_used_at := as_u64 <$> tr_last_used_at row |}.

(** The rows that [get_intent], [list_jobs], [usage_samples] and
    [list_role_assignments] map inline. *)
Definition row_to_intent (row : IntentRow) : result StoreError IntentRecord :=
  mret {| i_key := ir_intent_key row; i_params_fingerprint := ir_params_fingerprint row;
          i_status := intent_status_from_str (ir_status row);
          i_response_json := ir_response_json row; i_created_at := as_u64 (ir_created_at row);
          i_completed_at := as_u64 <$> ir_completed_at row |}.
Definition row_to_job (row : JobRow) : result StoreError JobRecord :=
  mret {| j_id := jr_id row; j_cluster := jr_cluster row; j_submitter := jr_submitter row;
          j_status := jr_status row; j_duration_secs := as_u64 <$> jr_duration_secs row;
          j_submitted_at := as_u64 (jr_submitted_at row) |}.
Definition row_to_sample (row : UsageRow) : result StoreError UsageSample :=
  source ← usage_source_parse (ur_source row);
  mret {| us_ts := as_u64 (ur_ts row); us_project := ur_project row; us_pool := ur_pool row;
          us_resource := ur_resource row; us_quantity := ur_quantity row; us_source := source |}.
Definition row_to_assignment (row : AssignmentRow) : result StoreError RoleAssignment :=
  mret {| ra_principal := gr_principal row; ra_role := gr_role row; ra_scope := gr_scope row;
          ra_created_at := as_u64 (gr_created_at row) |}.
End rows.

(** ** The operations *)

Section operations.
Context `{SqlEngine} `{Collation} `{StoreJson} `{AuditCodec}.

Definition the_cluster (id : string) (r : ClusterRow) : bool := String.eqb (cr_id r) id.

Definition upsert_desired (now : Z) (id : ClusterId) (spec : ClusterSpec) : Transaction Z := Begin (
  _ ← pg_advisory_xact_lock id;
  existing ← fetch_columns clusters (the_cluster id) (fun r => (cr_spec_json r, cr_generation r));
  generation ← match existing with
               | Some (cur_json, gen) =>
                   cur ← lift (parse cur_json);
                   mret (if spec_changed cur spec then u64_add (as_u64 gen) 1 else as_u64 gen)
               | None => mret 1
               end;
  _ ← change clusters (insert_or_update (fun new old => String.eqb (cr_id old) (cr_id new))
    (fun old new => {|
      cr_id := cr_id old; cr_spec_json := cr_spec_json new; cr_generation := cr_generation new;
      cr_desired := cr_desired old; cr_observed_state := cr_observed_state old;
      cr_observed_generation := cr_observed_generation old; cr_condition := cr_condition old;
      cr_failure_count := cr_failure_count old; cr_next_attempt_at := cr_next_attempt_at old;
      cr_created_at := cr_created_at old; cr_terminated_at := cr_terminated_at old |})
    {| cr_id := id; cr_spec_json := to_string spec; cr_generation := as_i64 generation;
       cr_desired := "running"; cr_observed_state := None; cr_observed_generation := 0;
       cr_condition := None; cr_failure_count := 0; cr_next_attempt_at := 0;
       cr_created_at := as_i64 now; cr_terminated_at := None |});
  mret generation).

Definition get (id : ClusterId) : Prog (option StoredCluster) :=
  row ← fetch_optional clusters (the_cluster id);
  match row with
  | Some r => c ← lift (row_to_cluster r); mret (Some c)
  | None => mret None
  end.

Definition list_clusters : Prog (list StoredCluster) :=
  l ← fetch_all clusters (fun _ => true);
  lift (mapM row_to_cluster l).

Definition set_desired (now : Z) (id : ClusterId) (desired : DesiredState) : Prog unit :=
  let is_terminated := bool_decide (desired = DTerminated) in
  affected ← update clusters (the_cluster id) (fun r => {|
    cr_id := cr_id r; cr_spec_json := cr_spec_json r; cr_generation := cr_generation r;
    cr_desired := desired_to_str desired; cr_observed_state := cr_observed_state r;
    cr_observed_generation := cr_observed_generation r; cr_condition := cr_condition r;
    cr_failure_count := cr_failure_count r; cr_next_attempt_at := cr_next_attempt_at r;
    cr_created_at := cr_created_at r;
    cr_terminated_at := if is_terminated then Some (default (as_i64 now) (cr_terminated_at r))
                        else None |});
  affecting affected ("no such cluster " +:+ id).

Definition remove_cluster (id : ClusterId) : Prog bool :=
  affected ← delete_from clusters (the_cluster id);
  mret (Z.ltb 0 affected).

Definition record_observation (id : ClusterId) (observed : option ClusterState)
    (observed_generation : Z) : Prog unit :=
  let observed_json := to_string <$> observed in
  update clusters (the_cluster id) (fun r => {|
    cr_id := cr_id r; cr_spec_json := cr_spec_json r; cr_generation := cr_generation r;
    cr_desired := cr_desired r; cr_observed_state := observed_json;
    cr_observed_generation := Z.max (cr_observed_generation r) (as_i64 observed_generation);
    cr_condition := cr_condition r;
    cr_failure_count := cr_failure_count r; cr_next_attempt_at := cr_next_attempt_at r;
    cr_created_at := cr_created_at r; cr_terminated_at := cr_terminated_at r |})
  ≫= fun _ => mret tt.

Definition set_condition (id : ClusterId) (condition : option DriftCondition) : Prog unit :=
  let condition_json := to_string <$> condition in
  update clusters (the_cluster id) (fun r => {|
    cr_id := cr_id r; cr_spec_json := cr_spec_json r; cr_generation := cr_generation r;
    cr_desired := cr_desired r; cr_observed_state := cr_observed_state r;
    cr_observed_generation := cr_observed_generation r; cr_condition := condition_json;
    cr_failure_count := cr_failure_count r; cr_next_attempt_at := cr_next_attempt_at r;
    cr_created_at := cr_created_at r; cr_terminated_at := cr_terminated_at r |})
  ≫= fun _ => mret tt.

Definition control_key (key : string) (r : ControlRow) : bool := String.eqb (kr_key r) key.
Definition same_key (new old : ControlRow) : bool := String.eqb (kr_key old) (kr_key new).

Definition is_quarantined : Prog bool :=
  v ← fetch_optional control (control_key "quarantine");
  mret (is_some_and (kr_value <$> v) (String.eqb "true")).

Definition set_quarantine (quarantined : bool) : Prog unit :=
  change control (insert_or_update same_key
    (fun old new => {| kr_key := kr_key old; kr_value := kr_value new |})
    {| kr_key := "quarantine"; kr_value := if quarantined then "true" else "false" |}).

Definition get_policy : Prog (option StoredPolicy) :=
  v ← fetch_optional control (control_key "policy");
  lift (parse_opt (kr_value <$> v)).

Definition set_policy (policy : StoredPolicy) : Prog unit :=
  let json := to_string policy in
  change control (insert_or_update same_key
    (fun old new => {| kr_key := kr_key old; kr_value := kr_value new |})
    {| kr_key := "policy"; kr_value := json |}).

Definition seed_policy (policy : StoredPolicy) : Prog bool :=
  let json := to_string policy in
  insert_ignore control same_key {| kr_key := "policy"; kr_value := json |}.

Definition record_attempt (id : ClusterId) (failure_count next_attempt_at : Z) : Prog unit :=
  update clusters (the_cluster id) (fun r => {|
    cr_id := cr_id r; cr_spec_json := cr_spec_json r; cr_generation := cr_generation r;
    cr_desired := cr_desired r; cr_observed_state := cr_observed_state r;
    cr_observed_generation := cr_observed_generation r; cr_condition := cr_condition r;
    cr_failure_count := failure_count; cr_next_attempt_at := as_i64 next_attempt_at;
    cr_created_at := cr_created_at r; cr_terminated_at := cr_terminated_at r |})
  ≫= fun _ => mret tt.

(** *** Outbox *)

Definition the_intent (key : string) (r : IntentRow) : bool := String.eqb (ir_intent_key r) key.

(** A plain INSERT that meets its primary key fails as a statement. *)
Definition unique_or_error (inserted : bool) : Prog unit :=
  if inserted then mret tt else fail (Backend sqlx_error).

Definition begin_intent (now : Z) (key fingerprint : string) : Transaction IntentOutcome := Begin (
  _ ← pg_advisory_xact_lock key;
  existing ← fetch_columns intents (the_intent key) ir_params_fingerprint;
  match existing with
  | Some fp => mret (if negb (String.eqb fp fingerprint) then ParamMismatch else Proceed true)
  | None =>
      inserted ← insert_into intents (fun new old => the_intent (ir_intent_key new) old) {|
        ir_intent_key := key; ir_params_fingerprint := fingerprint; ir_status := "pending";
        ir_response_json := None; ir_created_at := as_i64 now; ir_completed_at := None |};
      _ ← unique_or_error inserted;
      mret (Proceed false)
  end).

Definition complete_intent (now : Z) (key response_json : string) : Prog unit :=
  update intents (the_intent key) (fun r => {|
    ir_intent_key := ir_intent_key r; ir_params_fingerprint := ir_params_fingerprint r;
    ir_status := "applied"; ir_response_json := Some response_json;
    ir_created_at := ir_created_at r; ir_completed_at := Some (as_i64 now) |})
  ≫= fun _ => mret tt.

Definition get_intent (key : string) : Prog (option IntentRecord) :=
  row ← fetch_optional intents (the_intent key);
  match row with
  | Some r => i ← lift (row_to_intent r); mret (Some i)
  | None => mret None
  end.

Definition reap_intents (applied_before : Z) : Prog Z :=
  delete_from intents (fun r =>
    String.eqb (ir_status r) "applied"
    && is_some_and (ir_completed_at r) (fun c => Z.ltb c (as_i64 applied_before))).

(** *** Jobs *)

Definition record_job (job : JobRecord) : Prog unit :=
  change jobs (insert_or_update (fun new old => String.eqb (jr_id old) (jr_id new))
    (fun old new => {|
      jr_id := jr_id old; jr_cluster := jr_cluster old; jr_submitter := jr_submitter old;
      jr_status := jr_status new; jr_duration_secs := jr_duration_secs new;
      jr_submitted_at := jr_submitted_at old |})
    {| jr_id := j_id job; jr_cluster := j_cluster job; jr_submitter := j_submitter job;
       jr_status := j_status job; jr_duration_secs := as_i64 <$> j_duration_secs job;
       jr_submitted_at := as_i64 (j_submitted_at job) |}).

Definition list_jobs : Prog (list JobRecord) :=
  l ← fetch_ordered jobs (fun _ => true) (fun r => - jr_submitted_at r);
  lift (mapM row_to_job l).

(** *** Pools and allocations *)

Definition the_pool (name : string) (r : PoolRow) : bool := String.eqb (pr_name r) name.

Definition upsert_pool (now : Z) (name : string) (spec : PoolSpec) : Transaction Z := Begin (
  _ ← pg_advisory_xact_lock ("pool/" +:+ name);
  existing ← fetch_columns pools (the_pool name) (fun r => (pr_spec_json r, pr_generation r));
  generation ← match existing with
               | Some (cur_json, gen) =>
                   cur ← lift (parse cur_json);
                   mret (if pool_spec_changed cur spec then u64_add (as_u64 gen) 1 else as_u64 gen)
               | None => mret 1
               end;
  _ ← change pools (insert_or_update (fun new old => String.eqb (pr_name old) (pr_name new))
    (fun old new => {|
      pr_name := pr_name old; pr_spec_json := pr_spec_json new; pr_generation := pr_generation new;
      pr_observed_json := pr_observed_json old; pr_observed_at := pr_observed_at old;
      pr_created_at := pr_created_at old |})
    {| pr_name := name; pr_spec_json := to_string spec; pr_generation := as_i64 generation;
       pr_observed_json := None; pr_observed_at := None; pr_created_at := as_i64 now |});
  mret generation).

Definition get_pool (name : string) : Prog (option StoredPool) :=
  row ← fetch_optional pools (the_pool name);
  match row with
  | Some r => p ← lift (row_to_pool r); mret (Some p)
  | None => mret None
  end.

Definition list_pools : Prog (list StoredPool) :=
  l ← fetch_all pools (fun _ => true);
  lift (mapM row_to_pool l).

Definition delete_pool (name : string) : Prog unit :=
  affected ← delete_from pools (the_pool name);
  affecting affected ("no such pool " +:+ name).

Definition record_pool_observation (now : Z) (name observed_json : string) : Prog unit :=
  update pools (the_pool name) (fun r => {|
    pr_name := pr_name r; pr_spec_json := pr_spec_json r; pr_generation := pr_generation r;
    pr_observed_json := Some observed_json; pr_observed_at := Some (as_i64 now);
    pr_created_at := pr_created_at r |})
  ≫= fun _ => mret tt.

Definition the_allocation (pool project : string) (r : AllocationRow) : bool :=
  String.eqb (lr_pool r) pool && String.eqb (lr_project r) project.

Definition upsert_allocation (alloc : AllocationSpec) : Prog unit :=
  let spec_json := to_string alloc in
  change allocations (insert_or_update (fun new old => the_allocation (lr_pool new) (lr_project new) old)
    (fun old new => {| lr_pool := lr_pool old; lr_project := lr_project old;
                       lr_spec_json := lr_spec_json new |})
    {| lr_pool := a_pool alloc; lr_project := a_project alloc; lr_spec_json := spec_json |}).

Definition list_allocations (pool : string) : Prog (list AllocationSpec) :=
  l ← fetch_all allocations (fun r => String.eqb (lr_pool r) pool);
  lift (mapM (fun r => parse (lr_spec_json r)) l).

Definition delete_allocation (pool project : string) : Prog unit :=
  affected ← delete_from allocations (the_allocation pool project);
  affecting affected ("no such allocation " +:+ pool +:+ "/" +:+ project).

(** *** Usage samples *)

Definition sample_row (s : UsageSample) : UsageRow := {|
  ur_ts := as_i64 (us_ts s); ur_project := us_project s; ur_pool := us_pool s;
  ur_resource := us_resource s; ur_quantity := us_quantity s;
  ur_source := usage_source_str (us_source s) |}.

Fixpoint insert_samples (samples : list UsageSample) : Prog unit :=
  match samples with
  | [] => mret tt
  | s :: samples' => _ ← change usage_table (fun t => t ++ [sample_row s]); insert_samples samples'
  end.
Definition record_usage_samples (samples : list UsageSample) : Transaction unit := Begin (insert_samples samples).

Definition usage_samples (project pool : option string) (from to : Z) : Prog (list UsageSample) :=
  l ← fetch_ordered usage_table (fun r =>
        Z.leb (clamp_i64 from) (ur_ts r) && Z.leb (ur_ts r) (clamp_i64 to)
        && is_none_or project (String.eqb (ur_project r))
        && is_none_or pool (String.eqb (ur_pool r))) ur_ts;
  lift (mapM row_to_sample l).

(** *** Audit trail *)

Definition newest_hash (l : list AuditRow) : option string := dr_chain_hash <$> head l.

(** The appended row, without its [seq]. *)
Definition audit_row (event : AuditEvent) (chain_hash : string) (seq : Z) : AuditRow := {|
  dr_seq := seq; dr_ts := clamp_i64 (ae_ts event); dr_subject := ae_subject event;
  dr_decision := audit_decision_str (ae_decision event); dr_reason := ae_reason event;
  dr_action := ae_action event; dr_cluster := ae_cluster event; dr_method := ae_method event;
  dr_path := ae_path event; dr_status := ae_status event;
  dr_latency_ms := clamp_i64 <$> ae_latency_ms event;
  dr_required_json := to_string <$> ae_required event;
  dr_granted_roles := to_string (ae_granted_roles event); dr_chain_hash := chain_hash |}.

(** INSERT ... RETURNING seq: the identity column gives one more than it ever gave,
    and fails once it is full. *)
Definition insert_audit (row : Z -> AuditRow) : Prog Z :=
  statement (fun d =>
    let seq := d_audit_seq d + 1 in
    if Z.ltb i64_max seq then (Err (Backend sqlx_error), d)
    else (Ok seq, write_audit_seq seq (write audit_events (d_audit_events d ++ [row seq]) d))).

Definition record_audit (event : AuditEvent) : Transaction Z := Begin (
  _ ← pg_advisory_xact_lock "audit_chain";
  prev ← select (fun d => newest_hash (order_by (fun r => - dr_seq r) (where_ (fun _ => true) (d_audit_events d))));
  let chain_hash := audit_chain_hash (default AUDIT_GENESIS_HASH prev) event in
  seq ← insert_audit (audit_row event chain_hash);
  mret (as_u64 seq)).

(** [substr(path, 1, length(prefix)) = prefix]; NULL satisfies no condition. *)
Definition path_condition (prefix path : string) : bool :=
  String.eqb (String.substring 0 (String.length prefix) path) prefix.

Definition audit_where (f : AuditFilter) (r : AuditRow) : bool :=
  is_none_or (af_cursor f) (fun c => Z.ltb (dr_seq r) (clamp_i64 c))
  && is_none_or (af_from f) (fun from => Z.leb (clamp_i64 from) (dr_ts r))
  && is_none_or (af_to f) (fun to => Z.leb (dr_ts r) (clamp_i64 to))
  && is_none_or (af_subject f) (fun s => is_some_and (dr_subject r) (String.eqb s))
  && is_none_or (af_cluster f) (fun s => is_some_and (dr_cluster r) (String.eqb s))
  && is_none_or (af_method f) (fun s => is_some_and (dr_method r) (String.eqb s))
  && is_none_or (af_path_prefix f) (fun p => is_some_and (dr_path r) (path_condition p))
  && is_none_or (af_min_status f) (fun m => is_some_and (dr_status r) (Z.leb m))
  && is_none_or (af_decision f) (fun d => String.eqb (dr_decision r) (audit_decision_str d))
  && is_none_or (af_reason f) (fun s => is_some_and (dr_reason r) (String.eqb s)).

Definition list_audit (f : AuditFilter) : Prog (list (Z * AuditEvent) * option Z) :=
  let limit := Z.to_nat (effective_limit f) in
  l ← fetch_ordered audit_events (audit_where f) (fun r => - dr_seq r);
  out ← lift (mapM row_to_audit_event (take (limit + 1) l));
  mret (if Nat.ltb limit (length out) then (take limit out, fst <$> last (take limit out))
        else (out, None)).

Definition audit_chain (from_seq : option Z) (limit : Z) : Prog AuditChainWindow :=
  head ← match from_seq with
         | Some from =>
             if Z.ltb 1 from
             then l ← fetch_ordered audit_events (fun r => Z.ltb (dr_seq r) (clamp_i64 from))
                        (fun r => - dr_seq r);
                  mret (default AUDIT_GENESIS_HASH (newest_hash l))
             else mret AUDIT_GENESIS_HASH
         | None => mret AUDIT_GENESIS_HASH
         end;
  l ← fetch_ordered audit_events
        (fun r => is_none_or from_seq (fun from => Z.leb (clamp_i64 from) (dr_seq r))) dr_seq;
  rows ← lift (mapM (fun r => e ← row_to_audit_event r; mret (e, dr_chain_hash r))
                 (take (Z.to_nat limit) l));
  mret {| aw_head := head; aw_rows := rows |}.

(** One turn of the loop chains the oldest unchained row; [None] when there is
    none. *)
Definition backfill_step : Prog (option unit) :=
  l ← fetch_ordered audit_events (fun r => String.eqb (dr_chain_hash r) "") dr_seq;
  match l with
  | [] => mret None
  | row :: _ =>
      decoded ← lift (row_to_audit_event row);
      let '(seq, event) := decoded in
      before ← fetch_ordered audit_events (fun r => Z.ltb (dr_seq r) (as_i64 seq)) (fun r => - dr_seq r);
      let hash := audit_chain_hash (default AUDIT_GENESIS_HASH (newest_hash before)) event in
      update audit_events (fun r => Z.eqb (dr_seq r) (as_i64 seq)) (fun r => {|
        dr_seq := dr_seq r; dr_ts := dr_ts r; dr_subject := dr_subject r;
        dr_decision := dr_decision r; dr_reason := dr_reason r; dr_action := dr_action r;
        dr_cluster := dr_cluster r; dr_method := dr_method r; dr_path := dr_path r;
        dr_status := dr_status r; dr_latency_ms := dr_latency_ms r;
        dr_required_json := dr_required_json r; dr_granted_roles := dr_granted_roles r;
        dr_chain_hash := hash |}) ≫= fun _ => mret (Some tt)
  end.

(** The loop; [None] is running out of fuel, which one turn more than there are
    unchained rows never does. *)
Fixpoint backfill_loop (fuel : nat) : Prog (option unit) :=
  match fuel with
  | O => mret None
  | S fuel' =>
      turn ← backfill_step;
      match turn with
      | None => mret (Some tt)
      | Some _ => backfill_loop fuel'
      end
  end.

(** *** Local users *)

Definition the_user (username : string) (r : UserRow) : bool := String.eqb (xr_username r) username.

Definition create_local_user (now : Z) (username : string) (email : option string)
    (password_hash : string) (role : LocalRole) : Prog unit :=
  inserted ← insert_into local_users (fun new old => the_user (xr_username new) old) {|
    xr_username := username; xr_email := email; xr_password_hash := password_hash;
    xr_role := local_role_str role; xr_disabled := false; xr_created_at := as_i64 now;
    xr_failed_logins := 0; xr_locked_until := None |};
  if (inserted : bool) then mret tt
  else fail (Backend ("local user " +:+ username +:+ " already exists")).

Definition get_local_user (username : string) : Prog (option LocalUserRecord) :=
  row ← fetch_optional local_users (the_user username);
  match row with
  | Some r => u ← lift (row_to_local_user r); mret (Some u)
  | None => mret None
  end.

Definition list_local_users : Prog (list LocalUserRecord) :=
  l ← select (fun d => sort_stable (fun a b => collate (xr_username a) (xr_username b))
                         (scan (d_local_users d)));
  lift (mapM row_to_local_user l).

Definition set_local_user_password (username password_hash : string) : Prog unit :=
  affected ← update local_users (the_user username) (fun r => {|
    xr_username := xr_username r; xr_email := xr_email r; xr_password_hash := password_hash;
    xr_role := xr_role r; xr_disabled := xr_disabled r; xr_created_at := xr_created_at r;
    xr_failed_logins := xr_failed_logins r; xr_locked_until := xr_locked_until r |});
  affecting affected ("no such local user " +:+ username).

Definition set_local_user_role (username : string) (role : LocalRole) : Prog unit :=
  affected ← update local_users (the_user username) (fun r => {|
    xr_username := xr_username r; xr_email := xr_email r; xr_password_hash := xr_password_hash r;
    xr_role := local_role_str role; xr_disabled := xr_disabled r; xr_created_at := xr_created_at r;
    xr_failed_logins := xr_failed_logins r; xr_locked_until := xr_locked_until r |});
  affecting affected ("no such local user " +:+ username).

Definition set_local_user_disabled (username : string) (disabled : bool) : Prog unit :=
  affected ← update local_users (the_user username) (fun r => {|
    xr_username := xr_username r; xr_email := xr_email r; xr_password_hash := xr_password_hash r;
    xr_role := xr_role r; xr_disabled := disabled; xr_created_at := xr_created_at r;
    xr_failed_logins := xr_failed_logins r; xr_locked_until := xr_locked_until r |});
  affecting affected ("no such local user " +:+ username).

Definition set_login_lockout (username : string) (failed_logins : Z) (locked_until : option Z) : Prog unit :=
  affected ← update local_users (the_user username) (fun r => {|
    xr_username := xr_username r; xr_email := xr_email r; xr_password_hash := xr_password_hash r;
    xr_role := xr_role r; xr_disabled := xr_disabled r; xr_created_at := xr_created_at r;
    xr_failed_logins := failed_logins; xr_locked_until := clamp_i64 <$> locked_until |});
  affecting affected ("no such local user " +:+ username).

(** The trait's default methods, over this store. *)
Definition record_login_failure (now : Z) (username : string) : Prog unit :=
  found ← get_local_user username;
  user ← lift (ok_or (Backend ("no such local user " +:+ username)) found);
  let '(failed, locked) := next_login_failure_state (lu_failed_logins user) now in
  set_login_lockout username failed locked.
Definition record_login_success (username : string) : Prog unit := set_login_lockout username 0 None.

(** *** API tokens *)

Definition the_token (prefix : string) (r : TokenRow) : bool := String.eqb (tr_prefix r) prefix.

Definition create_api_token (record : ApiTokenRecord) : Prog unit :=
  inserted ← insert_into api_tokens (fun new old => the_token (tr_prefix new) old) {|
    tr_prefix := at_prefix record; tr_token_hash := at_token_hash record;
    tr_username := at_username record; tr_label := at_label record;
    tr_created_at := clamp_i64 (at_created_at record);
    tr_expires_at := clamp_i64 (at_expires_at record);
    tr_revoked := at_revoked record;
    tr_last_used_at := clamp_i64 <$> at_last_used_at record |};
  if (inserted : bool) then mret tt
  else fail (Backend ("api token prefix " +:+ at_prefix record +:+ " already exists")).

Definition get_api_token_by_prefix (prefix : string) : Prog (option ApiTokenRecord) :=
  row ← fetch_optional api_tokens (the_token prefix);
  match row with
  | Some r => t ← lift (row_to_api_token r); mret (Some t)
  | None => mret None
  end.

Definition list_api_tokens (username : string) : Prog (list ApiTokenRecord) :=
  l ← fetch_ordered api_tokens (fun r => String.eqb (tr_username r) username) (fun r => - tr_created_at r);
  lift (mapM row_to_api_token l).

Definition revoke_api_token (prefix username : string) : Prog unit :=
  affected ← update api_tokens (fun r => the_token prefix r && String.eqb (tr_username r) username)
    (fun r => {|
      tr_prefix := tr_prefix r; tr_token_hash := tr_token_hash r; tr_username := tr_username r;
      tr_label := tr_label r; tr_created_at := tr_created_at r; tr_expires_at := tr_expires_at r;
      tr_revoked := true; tr_last_used_at := tr_last_used_at r |});
  affecting affected ("no such api token " +:+ prefix).

Definition touch_api_token (prefix : string) (now : Z) : Prog unit :=
  update api_tokens (the_token prefix) (fun r => {|
    tr_prefix := tr_prefix r; tr_token_hash := tr_token_hash r; tr_username := tr_username r;
    tr_label := tr_label r; tr_created_at := tr_created_at r; tr_expires_at := tr_expires_at r;
    tr_revoked := tr_revoked r; tr_last_used_at := Some (clamp_i64 now) |})
  ≫= fun _ => mret tt.

(** *** Role assignments *)

Definition the_assignment (principal role scope : string) (r : AssignmentRow) : bool :=
  String.eqb (gr_principal r) principal && String.eqb (gr_role r) role
  && String.eqb (gr_scope r) scope.

Definition upsert_role_assignment (now : Z) (principal role scope : string) : Prog unit :=
  insert_ignore role_assignments
    (fun new old => the_assignment (gr_principal new) (gr_role new) (gr_scope new) old)
    {| gr_principal := principal; gr_role := role; gr_scope := scope; gr_created_at := as_i64 now |}
  ≫= fun _ => mret tt.

(** ORDER BY principal, scope, role. *)
Definition assignment_row_leb (a b : AssignmentRow) : bool :=
  if String.eqb (gr_principal a) (gr_principal b) then
    if String.eqb (gr_scope a) (gr_scope b) then collate (gr_role a) (gr_role b)
    else collate (gr_scope a) (gr_scope b)
  else collate (gr_principal a) (gr_principal b).

Definition list_role_assignments (principal : option string) : Prog (list RoleAssignment) :=
  l ← select (fun d => sort_stable assignment_row_leb
        (scan (where_ (fun r => is_none_or principal (String.eqb (gr_principal r)))
          (d_role_assignments d))));
  lift (mapM row_to_assignment l).

Definition delete_role_assignment (principal role scope : string) : Prog unit :=
  affected ← delete_from role_assignments (the_assignment principal role scope);
  affecting affected ("no such assignment " +:+ principal +:+ "/" +:+ role +:+ "/" +:+ scope).
End operations.
