(* ===== verification/PostgresSchedule.v ===== *)
(** * Connections at work on one Postgres database

    Any number of calls of the store, on connections of their own, statement by
    statement under READ COMMITTED. A statement of a transaction sees what was
    committed when it runs and what its own transaction has written; the
    transaction's writes land when it commits. An advisory lock is exclusive and
    kept to the end of the transaction. Any statement, lock or commit may fail,
    which ends the call without an effect, except that the identity column does
    not take a number back. The row locks of the database are left out: they
    exclude schedules, so what holds of these holds of those. *)

From S2P Require Import Prelude Float64 Core Policy Store StoreFacts Sql SqliteStore SqliteFacts.
From S2P Require Import SqliteRefine SqliteReads PostgresStore.
#[local] Open Scope Z_scope.

(** ** Calls *)

(** A call commits statement by statement, or as one transaction. *)
Inductive Call := Auto (p : Prog answer) | InTx (p : Prog answer).

Definition auto {A} (f : A -> answer) (p : Prog A) : Call := Auto (a ← p; mret (f a)).
Definition in_tx {A} (f : A -> answer) (t : Transaction A) : Call :=
  match t with Begin p => InTx (a ← p; mret (f a)) end.
Definition unit_answer (u : unit) : answer := AUnit.

Section schedule.
Context `{SqlEngine} `{Collation} `{StoreJson} `{AuditCodec} (hashtext : string -> Z).

Definition pg_call (op : store_op) : Call :=
  match op with
  | OpUpsertDesired now id spec => in_tx ANumber (upsert_desired now id spec)
  | OpSetDesired now id d => auto unit_answer (set_desired now id d)
  | OpRemoveCluster id => auto ABool (remove_cluster id)
  | OpRecordObservation id o g => auto unit_answer (record_observation id o g)
  | OpSetCondition id c => auto unit_answer (set_condition id c)
  | OpSetQuarantine q => auto unit_answer (set_quarantine q)
  | OpRecordAttempt id f n => auto unit_answer (record_attempt id f n)
  | OpBeginIntent now k fp => in_tx AOutcome (begin_intent now k fp)
  | OpCompleteIntent now k r => auto unit_answer (complete_intent now k r)
  | OpReapIntents b => auto ANumber (reap_intents b)
  | OpRecordJob j => auto unit_answer (record_job j)
  | OpUpsertPool now n sp => in_tx ANumber (upsert_pool now n sp)
  | OpDeletePool n => auto unit_answer (delete_pool n)
  | OpRecordPoolObservation now n j => auto unit_answer (record_pool_observation now n j)
  | OpUpsertAllocation a => auto unit_answer (upsert_allocation a)
  | OpDeleteAllocation p q => auto unit_answer (delete_allocation p q)
  | OpRecordUsage l => in_tx unit_answer (record_usage_samples l)
  | OpSetPolicy p => auto unit_answer (set_policy p)
  | OpSeedPolicy p => auto ABool (seed_policy p)
  | OpRecordAudit e => in_tx ANumber (record_audit e)
  | OpCreateUser now u em h r => auto unit_answer (create_local_user now u em h r)
  | OpSetPassword u h => auto unit_answer (set_local_user_password u h)
  | OpSetRole u r => auto unit_answer (set_local_user_role u r)
  | OpSetDisabled u d => auto unit_answer (set_local_user_disabled u d)
  | OpLoginFailure now u => auto unit_answer (record_login_failure now u)
  | OpLoginSuccess u => auto unit_answer (record_login_success u)
  | OpCreateToken t => auto unit_answer (create_api_token t)
  | OpRevokeToken p u => auto unit_answer (revoke_api_token p u)
  | OpTouchToken p now => auto unit_answer (touch_api_token p now)
  | OpUpsertAssignment now p r sc => auto unit_answer (upsert_role_assignment now p r sc)
  | OpDeleteAssignment p r sc => auto unit_answer (delete_role_assignment p r sc)
  end.

(** ** Sessions and their steps *)

(** [Open] is a transaction: the advisory lock it holds, what is left of its
    program, and what it has written so far. *)
Inductive Session :=
| Waiting (op : store_op)
| Between (op : store_op) (p : Prog answer)
| Open (op : store_op) (held : option Z) (p : Prog answer) (own : Postgres -> Postgres)
| Answered (op : store_op) (r : result StoreError answer)
| Failed (op : store_op).

(** [w_log] lists the calls answered, in the order their effects landed;
    [w_gap] says whether a number of the audit trail was lost with a transaction. *)
Record World := {
  w_db : Postgres;
  w_sessions : list Session;
  w_log : list (store_op * result StoreError answer);
  w_gap : bool;
}.

Definition put_session (i : nat) (x : Session) (w : World) : World := {|
  w_db := w_db w; w_sessions := <[i := x]> (w_sessions w); w_log := w_log w; w_gap := w_gap w |}.
Definition landing (i : nat) (op : store_op) (r : result StoreError answer) (d : Postgres) (w : World) : World := {|
  w_db := d; w_sessions := <[i := Answered op r]> (w_sessions w); w_log := w_log w ++ [(op, r)];
  w_gap := w_gap w |}.
Definition holds (h : Z) (x : Session) : bool :=
  match x with Open _ (Some h') _ _ => Z.eqb h' h | _ => false end.

(** After an autocommitted statement: the last one ends the call. *)
Definition settled (i : nat) (op : store_op) (p : Prog answer) (d : Postgres) (w : World) : World :=
  match p with
  | Ret r => landing i op r d w
  | _ => {| w_db := d; w_sessions := <[i := Between op p]> (w_sessions w); w_log := w_log w; w_gap := w_gap w |}
  end.

(** A transaction undone: the identity column stays where it got. *)
Definition undone (i : nat) (op : store_op) (own : Postgres -> Postgres) (w : World) : World := {|
  w_db := write_audit_seq (d_audit_seq (own (w_db w))) (w_db w);
  w_sessions := <[i := Failed op]> (w_sessions w); w_log := w_log w;
  w_gap := w_gap w || negb (Z.eqb (d_audit_seq (own (w_db w))) (d_audit_seq (w_db w))) |}.

Definition opening (ops : list store_op) : World := {|
  w_db := empty_db; w_sessions := Waiting <$> ops; w_log := []; w_gap := false |}.

Inductive pg_step (w : World) : World -> Prop :=
| step_begin i op p :
    w_sessions w !! i = Some (Waiting op) -> pg_call op = InTx p ->
    pg_step w (put_session i (Open op None p (fun d => d)) w)
| step_lock i op held key k own :
    w_sessions w !! i = Some (Open op held (Lock key k) own) ->
    (forall j x, w_sessions w !! j = Some x -> j <> i -> holds (hashtext key) x = false) ->
    pg_step w (put_session i (Open op (Some (hashtext key)) k own) w)
| step_run i op held X f k own x d' :
    w_sessions w !! i = Some (Open op held (Stmt X f k) own) -> f (own (w_db w)) = (Ok x, d') ->
    pg_step w (put_session i (Open op held (k x) (fun d => snd (f (own d)))) w)
| step_commit i op held a own :
    w_sessions w !! i = Some (Open op held (Ret (Ok a)) own) ->
    pg_step w (landing i op (Ok a) (own (w_db w)) w)
| step_undo i op held p own :
    w_sessions w !! i = Some (Open op held p own) -> pg_step w (undone i op own w)
| step_first i op X f k x d' :
    w_sessions w !! i = Some (Waiting op) -> pg_call op = Auto (Stmt X f k) -> f (w_db w) = (Ok x, d') ->
    pg_step w (settled i op (k x) d' w)
| step_next i op X f k x d' :
    w_sessions w !! i = Some (Between op (Stmt X f k)) -> f (w_db w) = (Ok x, d') ->
    pg_step w (settled i op (k x) d' w)
| step_fail i op :
    w_sessions w !! i = Some (Waiting op) \/ (exists p, w_sessions w !! i = Some (Between op p)) ->
    pg_step w (put_session i (Failed op) w).
End schedule.

(** ** One call alone *)

Fixpoint solo {A} (p : Prog A) (d : Postgres) : result StoreError A * Postgres :=
  match p with
  | Ret r => (r, d)
  | Lock _ k => solo k d
  | Stmt X f k => match f d with
                  | (Ok x, d') => solo (k x) d'
                  | (Err e, d') => (Err e, d')
                  end
  end.

Lemma solo_bind {A B} (f : A -> Prog B) (p : Prog A) d :
  solo (prog_bind f p) d =
  match solo p d with (Ok a, d') => solo (f a) d' | (Err e, d') => (Err e, d') end.
Proof.
  revert d. induction p as [[a|e]|key k IH|X g k IH]; intros d; cbn; [done|done|apply IH|].
  destruct (g d) as [[x|e] d']; [apply IH|done].
Qed.

Section alone.
Context `{SqlEngine}.

(** A program that answers what an operation over [SqliteStore]'s connection does
    when nothing fails, and leaves what it leaves; of a transaction that answers an
    error only the answer, since it is undone. *)
Definition alike {A} (p : Prog A) (q : Q A) : Prop := forall d,
  let '(r, c) := q (calm d) in c = calm (db c) /\ solo p d = (r, db c).
Definition alike_tx {A} (p : Prog A) (q : Q A) : Prop := forall d,
  match q (calm d) with
  | (Ok a, c) => c = calm (db c) /\ solo p d = (Ok a, db c)
  | (Err e, _) => fst (solo p d) = Err e
  end.

Lemma alike_ret {A} (a : A) : alike (mret a) (mret a).
Proof. intros d. by split. Qed.
Lemma alike_fail {A} e : alike (fail e : Prog A) (st_err e).
Proof. intros d. by split. Qed.
Lemma alike_lift {A} (r : result StoreError A) : alike (lift r) (SqliteStore.lift r).
Proof. intros d. by split. Qed.
Lemma alike_statement {A : Set} (f : Postgres -> result StoreError A * Postgres) :
  alike (statement f) (SqliteStore.statement f).
Proof.
  intros d. unfold statement, SqliteStore.statement. cbn.
  by destruct (f d) as [[a|e] d'].
Qed.
Lemma alike_bind {A B} (p : Prog A) (q : Q A) (f : A -> Prog B) (g : A -> Q B) :
  alike p q -> (forall a, alike (f a) (g a)) -> alike (p ≫= f) (q ≫= g).
Proof.
  intros Hp Hf d. rewrite ST_bind_eq. unfold mbind, Prog_bind. rewrite solo_bind.
  specialize (Hp d). destruct (q (calm d)) as [[a|e] c]; destruct Hp as [-> ->]; [apply Hf|done].
Qed.
Lemma alike_columns {R C : Set} {A} (t : Table R) sel (columns : R -> C) (f : option C -> Prog A) (g : option R -> Q A) :
  (forall o, alike (f (columns <$> o)) (g o)) ->
  alike (fetch_columns t sel columns ≫= f) (SqliteStore.fetch_optional t sel ≫= g).
Proof. intros Hf d. exact (Hf (fetch_one sel (rows t d)) d). Qed.

Lemma alike_alone {A} (p : Prog A) (q : Q A) : alike p q -> alike_tx p q.
Proof.
  intros Hp d. specialize (Hp d). destruct (q (calm d)) as [[a|e] c]; destruct Hp as [-> ->]; [done|done].
Qed.
Lemma alike_transaction {A} (p : Prog A) (q : Q A) : alike p q -> alike_tx p (transaction q).
Proof.
  intros Hp d. specialize (Hp d). unfold transaction, SqliteStore.select, SqliteStore.statement.
  cbn [calm faults db tail]. change {| db := d; faults := [] |} with (calm d).
  destruct (q (calm d)) as [[a|e] c]; destruct Hp as [-> Hp]; [by split|by rewrite Hp].
Qed.
Lemma alike_locked {A} key (p : Prog A) (q : Q A) :
  alike p q -> alike_tx (pg_advisory_xact_lock key ≫= fun _ => p) (transaction q).
Proof. intros Hp. exact (alike_transaction p q Hp). Qed.
Lemma alike_answer {A} (p : Prog A) (q : Q A) (f : A -> answer) :
  alike_tx p q -> alike_tx (p ≫= fun a => mret (f a)) (q ≫= fun a => mret (f a)).
Proof.
  intros Hp d. specialize (Hp d). rewrite ST_bind_eq. unfold mbind, Prog_bind. rewrite solo_bind.
  destruct (q (calm d)) as [[a|e] c]; [by destruct Hp as [-> ->]|].
  destruct (solo p d) as [r d']. cbn in Hp |- *. by subst r.
Qed.

Lemma alike_affecting n msg : alike (affecting n msg) (SqliteStore.affecting n msg).
Proof. unfold affecting, SqliteStore.affecting. case_match; [apply alike_fail|apply alike_ret]. Qed.
Lemma alike_unique b : alike (unique_or_error b) (SqliteStore.unique_or_error b).
Proof. destruct b; [apply alike_ret|apply alike_fail]. Qed.
End alone.

Ltac alike_steps :=
  repeat first
  [ apply alike_ret | apply alike_fail | apply alike_affecting | apply alike_unique | apply alike_lift
  | apply alike_statement
  | apply alike_bind; [|intros ?]
  | match goal with |- alike (if ?b then _ else _) (if ?b then _ else _) => destruct b end
  | match goal with |- alike (match ?b with _ => _ end) (match ?b with _ => _ end) => destruct b end ].

Section calls.
Context `{SqlEngine} `{Collation} `{StoreJson} `{AuditCodec}.

Definition program (op : store_op) : Prog answer := match pg_call op with Auto p | InTx p => p end.

Definition body {A} (t : Transaction A) : Prog A := match t with Begin p => p end.

Lemma alike_upsert_desired now id spec :
  alike_tx (body (upsert_desired now id spec)) (SqliteStore.upsert_desired now id spec).
Proof.
  apply (alike_locked id). apply alike_columns. intros o. apply alike_bind; [|intros g; alike_steps].
  destruct o as [r|]; cbn [fmap option_fmap option_map]; alike_steps.
Qed.
Lemma alike_upsert_pool now name spec :
  alike_tx (body (upsert_pool now name spec)) (SqliteStore.upsert_pool now name spec).
Proof.
  apply (alike_locked ("pool/" +:+ name)). apply alike_columns. intros o.
  apply alike_bind; [|intros g; alike_steps].
  destruct o as [r|]; cbn [fmap option_fmap option_map]; alike_steps.
Qed.
Lemma alike_begin_intent now key fp :
  alike_tx (body (begin_intent now key fp)) (SqliteStore.begin_intent now key fp).
Proof.
  apply (alike_locked key). apply alike_columns. intros [r|]; cbn [fmap option_fmap option_map]; alike_steps.
Qed.
Lemma alike_samples l :
  alike_tx (body (record_usage_samples l)) (SqliteStore.record_usage_samples l).
Proof.
  apply alike_transaction. cbn. induction l as [|s l IH]; cbn [insert_samples st_iter]; alike_steps. exact IH.
Qed.
Lemma alike_record_audit e : alike_tx (body (record_audit e)) (SqliteStore.record_audit e).
Proof.
  apply alike_alone. intros d. cbn. set (l := order_by _ _).
  pose proof (alike_bind _ _ _ _ (alike_statement (fun d => let seq := d_audit_seq d + 1 in
    if Z.ltb i64_max seq then (Err (Backend sqlx_error), d)
    else (Ok seq, write_audit_seq seq (write audit_events (d_audit_events d ++
      [audit_row e (audit_chain_hash (default AUDIT_GENESIS_HASH (newest_hash l)) e) seq]) d))))
    (fun a => alike_ret (as_u64 a)) d) as Ha. exact Ha.
Qed.

(** Run alone, a call does what the operation of [SqliteStore] does. *)
Lemma call_alike op :
  match pg_call op with
  | Auto p => alike p (sql_exec op)
  | InTx p => alike_tx p (sql_exec op)
  end.
Proof.
  destruct op; cbn [sql_exec pg_call]; unfold ans_unit, ans_number, ans_bool, ans_outcome, auto;
    first
    [ apply (alike_answer _ _ ANumber), alike_upsert_desired
    | apply (alike_answer _ _ AOutcome), alike_begin_intent
    | apply (alike_answer _ _ ANumber), alike_upsert_pool
    | apply (alike_answer _ _ unit_answer), alike_samples
    | apply (alike_answer _ _ ANumber), alike_record_audit
    | apply alike_bind; [|intros ?; apply alike_ret]; alike_steps ].
Qed.
End calls.
