(* ===== verification/PostgresReads.v ===== *)
(** * What the queries of the Postgres store read *)

From S2P Require Import Prelude Float64 Core Policy Store StoreFacts Sql SqliteStore SqliteFacts.
From S2P Require Import SqliteRefine SqliteReads PostgresStore PostgresSchedule.
#[local] Open Scope Z_scope.

Section queries.
Context `{SqlEngineLaws} `{CollationLaws} `{StoreJson} `{AuditCodec} (J : string -> string * string * Z).
Implicit Types (d : Postgres) (s : InMemoryStore).

(** The query answers [mm]'s answer, or its rows in an order where [R] holds. *)
Definition pg_same {A} d s (q : Prog A) (mm : M A) : Prop := solo q d = (fst (mm s), d).
Definition pg_rows {A} d s (R : relation A) (q : Prog (list A)) (mm : M (list A)) : Prop :=
  exists l l', solo q d = (Ok l, d) /\ fst (mm s) = Ok l' /\ l ≡ₚ l' /\ StronglySorted R l.

(** ORDER BY principal, scope, role, of the values. *)
Definition assignment_before (a b : RoleAssignment) : Prop :=
  assignment_row_leb (assignment_row a) (assignment_row b) = true.

Record pg_reads d s : Prop := {
  pr_get : forall id, pg_same d s (get id) (Store.get id);
  pr_clusters : pg_rows d s any_order list_clusters Store.list_clusters;
  pr_quarantined : pg_same d s is_quarantined Store.is_quarantined;
  pr_policy : pg_same d s get_policy Store.get_policy;
  pr_intent : forall k, pg_same d s (get_intent k) (Store.get_intent k);
  pr_jobs : pg_rows d s (fun a b => j_submitted_at b <= j_submitted_at a) list_jobs Store.list_jobs;
  pr_pool : forall n, pg_same d s (get_pool n) (Store.get_pool n);
  pr_pools : pg_rows d s any_order list_pools Store.list_pools;
  pr_allocations : forall n, pg_rows d s any_order (list_allocations n) (Store.list_allocations n);
  pr_usage : forall pr po from to,
    pg_rows d s (fun a b => us_ts a <= us_ts b) (usage_samples pr po from to)
      (Store.usage_samples pr po from to);
  pr_audit : forall f, pg_same d s (list_audit f) (Store.list_audit f);
  pr_chain : forall from n, pg_same d s (audit_chain from n) (Store.audit_chain from n);
  pr_user : forall u, pg_same d s (get_local_user u) (Store.get_local_user u);
  pr_users : pg_rows d s (fun a b => collate (lu_username a) (lu_username b) = true)
    list_local_users Store.list_local_users;
  pr_token : forall p, pg_same d s (get_api_token_by_prefix p) (Store.get_api_token_by_prefix p);
  pr_tokens : forall u,
    pg_rows d s (fun a b => at_created_at b <= at_created_at a) (list_api_tokens u)
      (Store.list_api_tokens u);
  pr_assignments : forall p,
    pg_rows d s assignment_before (list_role_assignments p) (Store.list_role_assignments p);
}.

Lemma alike_same {A} (q : Prog A) (q' : Q A) d s mm :
  alike q q' -> reads_same d s q' mm -> pg_same d s q mm.
Proof. intros Ha Hr. specialize (Ha d). rewrite Hr in Ha. by destruct Ha. Qed.
Lemma alike_rows {A} (q : Prog (list A)) (q' : Q (list A)) d s R mm :
  alike q q' -> reads_rows d s R q' mm -> pg_rows d s R q mm.
Proof.
  intros Ha (l & l' & Hq & Hl). specialize (Ha d). rewrite Hq in Ha. destruct Ha as [_ Ha]. by exists l, l'.
Qed.

Lemma collated_users d s :
  represents J d s ->
  pg_rows d s (fun a b => collate (lu_username a) (lu_username b) = true) list_local_users Store.list_local_users.
Proof.
  intros Hr. set (leb := fun a b => collate (xr_username a) (xr_username b)).
  pose proof (sort_stable_strongly leb ltac:(intros; apply collate_total) ltac:(intros ???; apply collate_trans)
    (scan (d_local_users d))) as Hs.
  destruct (read_many J (users_mapped J) (fun _ => true) (fun _ => true) row_to_local_user d s
    (sort_stable leb (scan (d_local_users d)))) as (vs & Hl & Hm & Hp);
    [by intros k u Hu; split; [exact (user_decodes k u Hu)|]|done|by rewrite where_all, sort_stable_perm; apply scan_perm|].
  rewrite filter_everything in Hp. exists vs, (sort_stable (fun a b => str_leb (lu_username a) (lu_username b))
    (map_values (m_local_users s))). split_and!; [|done|by rewrite sort_stable_perm|].
  - cbn. fold leb. by rewrite Hm.
  - rewrite Hl in Hs. by apply (sorted_fmap user_row) in Hs.
Qed.

Lemma collate_lex_total x y (p q : bool) :
  p = true \/ q = true ->
  (if String.eqb x y then p else collate x y) = true \/ (if String.eqb y x then q else collate y x) = true.
Proof. rewrite (String.eqb_sym y). destruct (String.eqb x y); [done|]. intros _. apply collate_total. Qed.

Lemma assignment_row_total a b : assignment_row_leb a b = true \/ assignment_row_leb b a = true.
Proof. unfold assignment_row_leb. by do 2 apply collate_lex_total; apply collate_total. Qed.
Lemma assignment_row_trans a b c :
  assignment_row_leb a b = true -> assignment_row_leb b c = true -> assignment_row_leb a c = true.
Proof.
  pose proof collate_antisym as Hanti. pose proof collate_trans as Htrans. unfold assignment_row_leb.
  intros Hab Hbc. eapply (lex_trans collate); [done..|]. clear Hab Hbc. intros Hab Hbc.
  eapply (lex_trans collate); [done..|]. apply collate_trans.
Qed.

Lemma collated_assignments d s p :
  represents J d s ->
  pg_rows d s assignment_before (list_role_assignments p) (Store.list_role_assignments p).
Proof.
  intros Hr. set (sel := fun r => is_none_or p (String.eqb (gr_principal r))).
  pose proof (sort_stable_strongly _ assignment_row_total assignment_row_trans
    (scan (where_ sel (d_role_assignments d)))) as Hs.
  destruct (read_many J (assignments_mapped J) sel
    (fun a => is_none_or p (String.eqb (ra_principal a))) row_to_assignment d s
    (sort_stable assignment_row_leb (scan (where_ sel (d_role_assignments d))))) as (vs & Hl & Hm & Hp);
    [by intros k u Hu; split; [exact (assignment_decodes k u Hu)|]|done|by rewrite sort_stable_perm; apply scan_perm|].
  eexists vs, _. split_and!; [cbn; fold sel; by rewrite Hm|reflexivity|by rewrite sort_stable_perm|].
  rewrite Hl in Hs. by apply (sorted_fmap assignment_row) in Hs.
Qed.

(** On a database that represents a store every query reads what the store's
    reads. *)
Lemma represents_pg_reads d s : represents J d s -> pg_reads d s.
Proof.
  intros Hr. destruct (represents_reads J d s Hr).
  split; intros;
    first
    [ by apply collated_users | by apply collated_assignments
    | eapply alike_same; [|by eauto]; alike_steps
    | eapply alike_rows; [|by eauto]; alike_steps ].
Qed.
End queries.
