(* ===== verification/PostgresProps.v ===== *)
(** * What the Postgres store promises

    Calls on many connections leave what the in-memory store leaves when it is
    given them one after the other. *)

From S2P Require Import Prelude Float64 Core Policy Store StoreFacts Sql SqliteStore SqliteFacts.
From S2P Require Import SqliteRefine SqliteReads SqliteProps PostgresStore PostgresSchedule PostgresReads Sample.
#[local] Open Scope Z_scope.

(** ** Where a transaction stands *)

(** What is left of a program, and what it has written, after [n] of its steps on
    the database [d]. *)
Fixpoint after {A} (n : nat) (p : Prog A) (own : Postgres -> Postgres) (d : Postgres)
  : option (Prog A * (Postgres -> Postgres)) :=
  match n with
  | O => Some (p, own)
  | S n' =>
      match p with
      | Ret _ => None
      | Lock _ k => after n' k own d
      | Stmt X f k =>
          match fst (f (own d)) with
          | Ok x => after n' (k x) (fun d => snd (f (own d))) d
          | Err _ => None
          end
      end
  end.

Section positions.
Context {A : Type}.
Implicit Types p q : Prog A.

Lemma after_solo n p own d q own' :
  after n p own d = Some (q, own') -> solo p (own d) = solo q (own' d).
Proof.
  revert p own. induction n as [|n IH]; intros p own; cbn; [by intros [= <- <-]|].
  destruct p as [r|key k|X f k]; [done|exact (IH k own)|]. cbn.
  destruct (f (own d)) as [[x|e] d'] eqn:E; [|done]. intros Hn.
  specialize (IH _ _ Hn). cbn in IH. by rewrite E in IH.
Qed.
Lemma after_lock n p own d key k own' :
  after n p own d = Some (Lock key k, own') -> after (S n) p own d = Some (k, own').
Proof.
  revert p own. induction n as [|n IH]; intros p own; [by intros [= -> ->]|].
  destruct p as [r|key' k'|X f k']; [done|exact (IH k' own)|].
  cbn [after]. destruct (fst (f (own d))); [apply IH|done].
Qed.
Lemma after_run n p own d X f k own' x :
  after n p own d = Some (Stmt X f k, own') -> fst (f (own' d)) = Ok x ->
  after (S n) p own d = Some (k x, fun d => snd (f (own' d))).
Proof.
  revert p own. induction n as [|n IH]; intros p own.
  - intros [= -> ->] Hf. cbn. by rewrite Hf.
  - destruct p as [r|key' k'|X' f' k']; [done|exact (IH k' own)|].
    cbn [after]. destruct (fst (f' (own d))); [apply IH|done].
Qed.

(** Programs that ask for no lock. *)
Fixpoint lockless p : Prop :=
  match p with Ret _ => True | Lock _ _ => False | Stmt X f k => forall x, lockless (k x) end.
Lemma after_lockless n p own d q own' : lockless p -> after n p own d = Some (q, own') -> lockless q.
Proof.
  revert p own. induction n as [|n IH]; intros p own Hp; cbn; [by intros [= <- _]|].
  destruct p as [r|key k|X f k]; [done|done|]. destruct (fst (f (own d))); [by apply IH|done].
Qed.

(** Two databases between which no statement of a program tells. *)
Definition blind p (own : Postgres -> Postgres) (d1 d2 : Postgres) : Prop :=
  forall n, after n p own d1 = after n p own d2.
Lemma blind_ret r own d1 d2 : blind (Ret r) own d1 d2.
Proof. by intros [|n]. Qed.
Lemma blind_lock key k own d1 d2 : blind k own d1 d2 -> blind (Lock key k) own d1 d2.
Proof. by intros Hk [|n]; [|apply Hk]. Qed.
Lemma blind_stmt X f k own d1 d2 :
  fst (f (own d1)) = fst (f (own d2)) ->
  (forall x, fst (f (own d1)) = Ok x -> blind (k x) (fun d => snd (f (own d))) d1 d2) ->
  blind (Stmt X f k) own d1 d2.
Proof.
  intros Hf Hk [|n]; [done|]. cbn [after]. rewrite <- Hf.
  destruct (fst (f (own d1))) as [x|e]; [by apply Hk|done].
Qed.
End positions.

Lemma lockless_bind {A B} (f : A -> Prog B) (p : Prog A) :
  lockless p -> (forall a, lockless (f a)) -> lockless (prog_bind f p).
Proof. intros Hp Hf. induction p as [[a|e]|key k IH|X g k IH]; cbn in *; auto. Qed.

(** ** What a transaction depends on *)

Section serial.
Context `{SqlEngineLaws} `{CollationLaws} `{StoreJson} `{AuditCodec}.
Context (J : string -> string * string * Z) (hashtext : string -> Z).

(** The calls that neither delete rows which others read before they write, nor
    read and write in two statements without a lock. *)
Definition serializable (op : store_op) : Prop :=
  match op with
  | OpRemoveCluster _ | OpDeletePool _ | OpReapIntents _ | OpLoginFailure _ _ => False
  | _ => True
  end.

Definition lock_of (op : store_op) : option string :=
  match op with
  | OpUpsertDesired _ id _ => Some id
  | OpBeginIntent _ key _ => Some key
  | OpUpsertPool _ name _ => Some ("pool/" +:+ name)
  | OpRecordAudit _ => Some "audit_chain"%string
  | _ => None
  end.

(** The columns a transaction reads, of the rows that stand for a store. *)
Inductive View :=
| VRow (o : option (string * Z))
| VText (o : option string)
| VTrail (o : option string) (seq : Z)
| VNothing.

Definition cluster_columns (c : StoredCluster) : string * Z :=
  (cr_spec_json (cluster_row c), cr_generation (cluster_row c)).
Definition pool_columns (p : StoredPool) : string * Z :=
  (pr_spec_json (pool_row p), pr_generation (pool_row p)).

Definition view (op : store_op) (s : InMemoryStore) : View :=
  match op with
  | OpUpsertDesired _ id _ => VRow (cluster_columns <$> m_clusters s !! id)
  | OpBeginIntent _ key _ => VText (i_params_fingerprint <$> m_intents s !! key)
  | OpUpsertPool _ name _ => VRow (pool_columns <$> m_pools s !! name)
  | OpRecordAudit _ => VTrail (row_hash <$> last (m_audit s)) (m_audit_seq s)
  | _ => VNothing
  end.

Lemma fetch_cluster d s id :
  represents J d s ->
  (fun r => (cr_spec_json r, cr_generation r)) <$> fetch_one (the_cluster id) (rows clusters d)
  = cluster_columns <$> m_clusters s !! id.
Proof.
  intros Hr. rewrite (map_fetch J (clusters_mapped J) (the_cluster id) id ltac:(intros r; apply String.eqb_eq) d s Hr).
  by destruct (m_clusters s !! id).
Qed.
Lemma fetch_pool d s name :
  represents J d s ->
  (fun r => (pr_spec_json r, pr_generation r)) <$> fetch_one (the_pool name) (rows pools d)
  = pool_columns <$> m_pools s !! name.
Proof.
  intros Hr. rewrite (map_fetch J (pools_mapped J) (the_pool name) name ltac:(intros r; apply String.eqb_eq) d s Hr).
  by destruct (m_pools s !! name).
Qed.
Lemma fetch_intent d s key :
  represents J d s ->
  ir_params_fingerprint <$> fetch_one (the_intent key) (rows intents d)
  = i_params_fingerprint <$> m_intents s !! key.
Proof.
  intros Hr. rewrite (map_fetch J (intents_mapped J) (the_intent key) key ltac:(intros r; apply String.eqb_eq) d s Hr).
  by destruct (m_intents s !! key).
Qed.
Lemma absent_intent d s key new :
  represents J d s -> m_intents s !! key = None -> ir_intent_key new = key ->
  existsb (fun old => the_intent (ir_intent_key new) old) (d_intents d) = false.
Proof.
  intros Hr Hk <-. rewrite (rep_exists _ _ _ intent_row_key
    (fun old => the_intent (ir_intent_key new) old) (ir_intent_key new) ltac:(intros r; apply String.eqb_eq) _ _ (rep_intents J _ _ Hr)).
  rewrite Hk. by apply bool_decide_eq_false_2; intros [? ?].
Qed.
Lemma fetch_newest d s :
  represents J d s ->
  newest_hash (order_by (fun r => - dr_seq r) (where_ (fun _ => true) (d_audit_events d)))
  = row_hash <$> last (m_audit s) /\ d_audit_seq d = m_audit_seq s.
Proof.
  intros Hr. pose proof (rep_audit J _ _ Hr) as Ht. split; [|exact (trail_top _ _ _ _ Ht)].
  rewrite where_all, order_by_descending by by eapply trail_ascending. unfold newest_hash.
  rewrite head_reverse, (trail_rows _ _ _ _ Ht), fmap_last. by destruct (last (m_audit s)).
Qed.

Lemma blind_samples l (F : unit -> Prog answer) own d1 d2 :
  (forall own', blind (F tt) own' d1 d2) -> blind (prog_bind F (insert_samples l)) own d1 d2.
Proof.
  intros HF. revert own. induction l as [|x l IH]; intros own; [apply HF|].
  apply blind_stmt; [done|]. intros [] _. apply IH.
Qed.

(** A transaction does the same on databases that agree on what it reads. *)
Lemma blind_call op p d1 d2 s1 s2 :
  pg_call op = InTx p -> represents J d1 s1 -> represents J d2 s2 -> view op s1 = view op s2 ->
  blind p (fun d => d) d1 d2.
Proof.
  intros Hp Hr1 Hr2 Hv. destruct op; cbn in Hp; try done; injection Hp as <-; cbn [view] in Hv.
  - injection Hv as Hv. apply blind_lock, blind_stmt; cbn -[fetch_one parse].
    + by rewrite (fetch_cluster _ _ _ Hr1), (fetch_cluster _ _ _ Hr2), Hv.
    + intros x _. destruct x as [[json gen]|]; cbn -[parse]; [destruct (parse json)|]; cbn;
        [|apply blind_ret|]; (apply blind_stmt; [done|]; intros [] _; apply blind_ret).
  - injection Hv as Hv. apply blind_lock, blind_stmt; cbn -[fetch_one].
    + by rewrite (fetch_intent _ _ _ Hr1), (fetch_intent _ _ _ Hr2), Hv.
    + rewrite (fetch_intent _ _ _ Hr1). intros x [= <-].
      destruct (m_intents s1 !! key) as [i|] eqn:E1; cbn; [apply blind_ret|].
      destruct (m_intents s2 !! key) as [i|] eqn:E2; [done|].
      apply blind_stmt; cbn.
      * unfold insert_unique.
        by rewrite (absent_intent _ _ _ _ Hr1 E1), (absent_intent _ _ _ _ Hr2 E2) by done.
      * intros [] _; apply blind_ret.
  - injection Hv as Hv. apply blind_lock, blind_stmt; cbn -[fetch_one parse].
    + by rewrite (fetch_pool _ _ _ Hr1), (fetch_pool _ _ _ Hr2), Hv.
    + intros x _. destruct x as [[json gen]|]; cbn -[parse]; [destruct (parse json)|]; cbn;
        [|apply blind_ret|]; (apply blind_stmt; [done|]; intros [] _; apply blind_ret).
  - apply blind_samples. intros own'. apply blind_ret.
  - injection Hv as Hh Hq. destruct (fetch_newest _ _ Hr1) as [Hn1 Hs1], (fetch_newest _ _ Hr2) as [Hn2 Hs2].
    apply blind_lock, blind_stmt; cbn -[order_by].
    + by rewrite Hn1, Hn2, Hh.
    + intros x _. apply blind_stmt; cbn.
      * rewrite Hs1, Hs2, Hq. by case_match.
      * intros q _. apply blind_ret.
Qed.

(** Its lock comes first, and it takes no other. *)
Lemma call_locks op p :
  pg_call op = InTx p ->
  match lock_of op with
  | Some key => exists k, p = Lock key k /\ lockless k
  | None => lockless p
  end.
Proof.
  intros Hp. destruct op; cbn in Hp; try done; injection Hp as <-; cbn [lock_of];
    try (eexists; split; [reflexivity|]).
  - intros o. destruct o as [[json gen]|]; cbn -[parse]; [destruct (parse json)|]; done.
  - by intros [fp'|]; cbn; [|intros []].
  - intros o. destruct o as [[json gen]|]; cbn -[parse]; [destruct (parse json)|]; done.
  - cbn. apply lockless_bind; [|done]. induction samples as [|x l IH]; [done|]. by intros [].
  - done.
Qed.

(** ** What other calls leave of it *)

Ltac run_exec :=
  unfold Store.upsert_desired, Store.set_desired, Store.record_observation, Store.set_condition,
    Store.set_quarantine, Store.record_attempt, Store.begin_intent, Store.complete_intent,
    Store.record_job, Store.upsert_pool, Store.record_pool_observation, Store.upsert_allocation,
    Store.delete_allocation, Store.record_usage_samples, Store.set_policy_row, Store.seed_policy,
    Store.record_audit, Store.create_local_user, Store.set_local_user_password,
    Store.set_local_user_role, Store.set_local_user_disabled, Store.record_login_success,
    Store.set_login_lockout, modify_user, Store.create_api_token, Store.revoke_api_token,
    Store.touch_api_token, Store.upsert_role_assignment, Store.delete_role_assignment; run_store.

Lemma cluster_kept op s id :
  serializable op -> (forall now spec, op <> OpUpsertDesired now id spec) ->
  cluster_columns <$> m_clusters (exec op s) !! id = cluster_columns <$> m_clusters s !! id.
Proof.
  intros Hs Hop. destruct op; cbn in Hs |- *; try done; run_exec; try (repeat case_match; done).
  all: cbn; try (rewrite lookup_insert_ne; [done|intros ->; by eapply Hop]).
  - destruct (m_clusters s !! id0) as [c|] eqn:E; [|done]. cbn. destruct (decide (id0 = id)) as [->|Hn].
    + by rewrite lookup_insert_eq, E.
    + by rewrite lookup_insert_ne.
  - destruct (decide (id0 = id)) as [->|Hn]; [|by rewrite lookup_alter_ne].
    rewrite lookup_alter_eq. by destruct (m_clusters s !! id).
  - destruct (decide (id0 = id)) as [->|Hn]; [|by rewrite lookup_alter_ne].
    rewrite lookup_alter_eq. by destruct (m_clusters s !! id).
  - destruct (decide (id0 = id)) as [->|Hn]; [|by rewrite lookup_alter_ne].
    rewrite lookup_alter_eq. by destruct (m_clusters s !! id).
Qed.

Lemma intent_kept op s key :
  serializable op -> (forall now fp, op <> OpBeginIntent now key fp) ->
  i_params_fingerprint <$> m_intents (exec op s) !! key = i_params_fingerprint <$> m_intents s !! key.
Proof.
  intros Hs Hop. destruct op; cbn in Hs |- *; try done; run_exec; try (repeat case_match; done).
  all: cbn.
  - destruct (m_intents s !! key0) as [i|] eqn:E; cbn; [by repeat case_match|].
    rewrite lookup_insert_ne; [done|intros ->; by eapply Hop].
  - destruct (decide (key0 = key)) as [->|Hn]; [|by rewrite lookup_alter_ne].
    rewrite lookup_alter_eq. by destruct (m_intents s !! key).
Qed.

Lemma pool_kept op s name :
  serializable op -> (forall now spec, op <> OpUpsertPool now name spec) ->
  pool_columns <$> m_pools (exec op s) !! name = pool_columns <$> m_pools s !! name.
Proof.
  intros Hs Hop. destruct op; cbn in Hs |- *; try done; run_exec; try (repeat case_match; done).
  all: cbn.
  - rewrite lookup_insert_ne; [done|intros ->; by eapply Hop].
  - destruct (decide (name0 = name)) as [->|Hn]; [|by rewrite lookup_alter_ne].
    rewrite lookup_alter_eq. by destruct (m_pools s !! name).
Qed.

Lemma trail_kept op s :
  serializable op -> (forall e, op <> OpRecordAudit e) ->
  m_audit (exec op s) = m_audit s /\ m_audit_seq (exec op s) = m_audit_seq s.
Proof.
  intros Hs Hop. destruct op; cbn in Hs |- *; try done; run_exec; try (repeat case_match; done).
  by edestruct Hop.
Qed.

(** A call under another lock, or under none, leaves what a transaction reads. *)
Lemma view_kept op op2 s :
  serializable op2 -> (forall k k2, lock_of op = Some k -> lock_of op2 = Some k2 -> k <> k2) ->
  view op (snd (mem_exec op2 s)) = view op s.
Proof.
  intros Hs Hl. rewrite <- exec_mem_exec.
  destruct op; cbn [view lock_of] in *; try done; f_equal.
  - apply cluster_kept; [done|]. intros n sp ->. by eapply Hl.
  - apply intent_kept; [done|]. intros n sp ->. by eapply Hl.
  - apply pool_kept; [done|]. intros n sp ->. by eapply Hl.
  - destruct (trail_kept op2 s) as [-> _]; [done| |done]. intros ev ->. by eapply Hl.
  - destruct (trail_kept op2 s) as [_ ->]; [done| |done]. intros ev ->. by eapply Hl.
Qed.

(** ** The serial order *)

Lemma auto_single op p :
  pg_call op = Auto p -> serializable op ->
  lock_of op = None /\ match p with Stmt X f k => forall x, exists r, k x = Ret r | _ => False end.
Proof.
  intros Hp Hs. destruct op; cbn in Hp, Hs; try done; injection Hp as <-; (split; [done|]); intros x;
    first [by eexists|cbn; unfold affecting; repeat case_match; by eexists].
Qed.

Definition session_op (x : Session) : store_op :=
  match x with Waiting op | Between op _ | Open op _ _ _ | Answered op _ | Failed op => op end.

Definition held_at (op : store_op) (n : nat) : option Z :=
  match n with O => None | S _ => hashtext <$> lock_of op end.

(** An open transaction stands where it would stand if it had run on any database
    that represents the store as it is now. *)
Definition standing (s : InMemoryStore) (x : Session) : Prop :=
  match x with
  | Open op held p own => exists n body, pg_call op = InTx body /\ held = held_at op n /\
      forall d, represents J d s -> after n body (fun d => d) d = Some (p, own)
  | Between _ _ => False
  | _ => True
  end.

Definition exclusive (l : list Session) : Prop := forall i j x y h,
  l !! i = Some x -> l !! j = Some y -> holds h x = true -> holds h y = true -> i = j.

Record serial_inv (w : World) (s : InMemoryStore) : Prop := {
  si_run : mem_run (w_log w).*1 empty_store = ((w_log w).*2, s);
  si_db : represents J (w_db w) s;
  si_seq : 0 <= m_audit_seq s <= Z.of_nat (length (w_log w));
  si_standing : Forall (standing s) (w_sessions w);
  si_exclusive : exclusive (w_sessions w);
  si_ops : Forall (fun x => op_fits J (session_op x) /\ serializable (session_op x)) (w_sessions w);
  si_answers : forall i op r, w_sessions w !! i = Some (Answered op r) -> (op, r) ∈ w_log w;
}.

Lemma mem_run_snoc ops op s :
  mem_run (ops ++ [op]) s =
  let '(rs, s1) := mem_run ops s in let '(r, s2) := mem_exec op s1 in (rs ++ [r], s2).
Proof.
  revert s. induction ops as [|o ops IH]; intros s; cbn [mem_run app].
  - by destruct (mem_exec op s).
  - destruct (mem_exec o s) as [r s1]. rewrite IH. destruct (mem_run ops s1) as [rs s2].
    by destruct (mem_exec op s2).
Qed.

Lemma exclusive_insert l i x :
  exclusive l -> (forall h j y, holds h x = true -> l !! j = Some y -> j <> i -> holds h y = false) ->
  exclusive (<[i := x]> l).
Proof.
  intros Hl Hx j k y z h Hj Hk Hy Hz.
  apply list_lookup_insert_Some in Hj as [(<- & -> & _)|[Hne Hj]],
    Hk as [(<- & -> & _)|[Hne' Hk]]; [done| | |by eapply Hl].
  - rewrite (Hx h k z Hy Hk) in Hz by congruence. done.
  - rewrite (Hx h j y Hz Hj) in Hy by congruence. done.
Qed.

(** A session that does not hold a lock, or keeps the one it held. *)
Lemma exclusive_free l i x : exclusive l -> (forall h, holds h x = false) -> exclusive (<[i := x]> l).
Proof. intros Hl Hx. apply exclusive_insert; [done|]. intros h j y Hh. by rewrite Hx in Hh. Qed.

(** A session moves; the store stays. *)
Lemma moves w s i x x' :
  serial_inv w s -> w_sessions w !! i = Some x -> session_op x' = session_op x -> standing s x' ->
  exclusive (<[i := x']> (w_sessions w)) -> (forall op r, x' <> Answered op r) ->
  serial_inv (put_session i x' w) s.
Proof.
  intros [Hrun Hdb Hseq Hst Hex0 Hops Hans] Hi Hop Hx Hex Hna. split; cbn; try done.
  - by apply Forall_insert.
  - apply Forall_insert; [done|]. rewrite Hop. exact (Forall_lookup_1 _ _ _ _ Hops Hi).
  - intros j op r [(_ & -> & _)|[_ Hj]]%list_lookup_insert_Some; [by edestruct Hna|eauto].
Qed.

(** What the others read stays when a call lands. *)
Lemma standing_kept d0 s op y :
  represents J d0 s -> serializable op -> (forall k, lock_of op = Some k -> holds (hashtext k) y = false) ->
  standing s y -> standing (snd (mem_exec op s)) y.
Proof.
  intros Hd Hs Hl Hy. destruct y as [|op' p|op' held p own| |]; try done.
  destruct Hy as (n & body & Hb & -> & Ha). exists n, body. split_and!; [done|done|].
  intros d Hrd. destruct n as [|n]; [exact (Ha _ Hd)|].
  assert (view op' (snd (mem_exec op s)) = view op' s) as Hv.
  { apply view_kept; [done|]. intros k k2 Hk Hk2 <-. specialize (Hl _ Hk2). cbn in Hl.
    rewrite Hk in Hl. cbn in Hl. by rewrite Z.eqb_refl in Hl. }
  rewrite (blind_call op' body d d0 _ _ Hb Hrd Hd Hv (S n)). exact (Ha _ Hd).
Qed.

(** A call lands: the in-memory store answers the same. *)
Lemma lands w s i x op r d' :
  serial_inv w s -> w_sessions w !! i = Some x -> session_op x = op ->
  Z.of_nat (length (w_log w)) + 1 < i64_max ->
  sql_exec op (calm (w_db w)) = (r, calm d') ->
  (forall k j y, lock_of op = Some k -> w_sessions w !! j = Some y -> j <> i -> holds (hashtext k) y = false) ->
  exists s', serial_inv (landing i op r d' w) s'.
Proof.
  intros Hinv Hi <- Hroom Hq Hl. pose proof Hinv as [Hrun Hdb Hseq Hst Hex Hops Hans].
  destruct (Forall_lookup_1 _ _ _ _ Hops Hi) as [Hf Hs].
  assert (m_audit_seq s + 1 < i64_max) as Hr1 by lia.
  destruct (sim_op J _ s _ Hdb Hf Hr1) as (d2 & Hq2 & Hr'). rewrite Hq in Hq2. injection Hq2 as Hr2 <-.
  exists (snd (mem_exec (session_op x) s)). split; cbn.
  - rewrite !fmap_app. cbn. rewrite mem_run_snoc, Hrun.
    destruct (mem_exec (session_op x) s) as [r1 s1]. cbn in Hr2. by subst r1.
  - done.
  - rewrite length_app, Nat2Z.inj_add. cbn.
    destruct (exec_trail (session_op x) s) as [->| ->]; [lia|].
    rewrite u64_add_small; unfold i64_max, u64_max in *; lia.
  - apply Forall_lookup. intros j y [(_ & <- & _)|[Hne Hj]]%list_lookup_insert_Some; [done|].
    eapply standing_kept; try done; [|by eapply Forall_lookup_1]. intros k Hk. eapply Hl; [done..|congruence].
  - by apply exclusive_free.
  - by apply Forall_insert.
  - intros j op' r' [(_ & [= <- <-] & _)|[_ Hj]]%list_lookup_insert_Some; [set_solver|].
    apply elem_of_app. left. eauto.
Qed.

Lemma step_serial w w' s :
  pg_step hashtext w w' -> serial_inv w s -> w_gap w' = false ->
  Z.of_nat (length (w_log w')) < i64_max -> exists s', serial_inv w' s'.
Proof.
  intros Hstep Hinv Hgap Hlen. pose proof Hinv as [Hrun Hdb Hseq Hst Hex Hops Hans].
  destruct Hstep as [i op p Hi Hp|i op held key k own Hi Hfree|i op held X f k own x d' Hi Hf|i op held a own Hi
    |i op held p own Hi|i op X f k x d' Hi Hp Hf|i op X f k x d' Hi Hf|i op Hi].
  - exists s. eapply moves; [done|done|done| |by apply exclusive_free|done].
    exists 0%nat, p. by split_and!.
  - destruct (Forall_lookup_1 _ _ _ _ Hst Hi) as (n & body & Hb & -> & Ha).
    pose proof (call_locks _ _ Hb) as Hl. pose proof (Ha _ Hdb) as Hn.
    assert (n = 0%nat /\ lock_of op = Some key) as [-> Hk].
    { destruct (lock_of op) as [key'|] eqn:E.
      - destruct Hl as (k' & -> & Hless). destruct n as [|n]; [by injection Hn as -> -> _|].
        by pose proof (after_lockless n k' _ _ _ _ Hless Hn).
      - by pose proof (after_lockless n body _ _ _ _ Hl Hn). }
    exists s. eapply moves; [done|done|done| | |done].
    + exists 1%nat, body. split_and!; [done|cbn; by rewrite Hk|]. intros d Hd.
      by eapply (after_lock 0), Ha.
    + apply exclusive_insert; [done|]. cbn. intros h j y [=]%Z.eqb_eq Hj Hne. subst h. by eapply Hfree.
  - destruct (Forall_lookup_1 _ _ _ _ Hst Hi) as (n & body & Hb & -> & Ha).
    assert (fst (f (own (w_db w))) = Ok x) as Hx by by rewrite Hf.
    exists s. eapply moves; [done|done|done| | |done].
    + exists (S n), body. split_and!; [done| |].
      * destruct n; [|done]. pose proof (Ha _ Hdb) as [= -> _]. pose proof (call_locks _ _ Hb) as Hl.
        cbn. destruct (lock_of op); [by destruct Hl as (? & ? & _)|done].
      * intros d Hd. rewrite (blind_call op body d (w_db w) s s Hb Hd Hdb eq_refl (S n)).
        by eapply after_run; [apply Ha|].
    + apply exclusive_insert; [done|]. intros h j y Hh Hj Hne. apply not_true_iff_false. intros Hy.
      apply Hne. by eapply (Hex j i).
  - destruct (Forall_lookup_1 _ _ _ _ Hst Hi) as (n & body & Hb & -> & Ha). cbn in Hlen.
    rewrite length_app in Hlen. cbn in Hlen.
    eapply lands; [done|done|done|lia| |].
    + pose proof (after_solo _ _ _ _ _ _ (Ha _ Hdb)) as Hsolo. cbn in Hsolo.
      pose proof (call_alike op) as Hal. rewrite Hb in Hal. specialize (Hal (w_db w)).
      destruct (sql_exec op (calm (w_db w))) as [[b|e] c]; [|by rewrite Hsolo in Hal].
      destruct Hal as [-> Hal]. rewrite Hsolo in Hal. by injection Hal as -> ->.
    + intros key j y Hk Hj Hne. apply not_true_iff_false. intros Hy. apply Hne.
      eapply (Hex j i); [done|done|exact Hy|]. cbn.
      pose proof (call_locks _ _ Hb) as Hl. rewrite Hk in Hl. destruct Hl as (k' & -> & _).
      destruct n; [by pose proof (Ha _ Hdb)|]. cbn. rewrite Hk. cbn. apply Z.eqb_refl.
  - cbn in Hgap. apply orb_false_iff in Hgap as [Hgap Heq]. apply negb_false_iff, Z.eqb_eq in Heq.
    exists s. replace (undone i op own w) with (put_session i (Failed op) w).
    + eapply moves; [done|done|done|done|by apply exclusive_free|done].
    + unfold undone, put_session. rewrite Heq, Z.eqb_refl, orb_false_r. by destruct w as [[] ? ? ?].
  - destruct (Forall_lookup_1 _ _ _ _ Hops Hi) as [Hfit Hs]. cbn in Hfit, Hs.
    destruct (auto_single _ _ Hp Hs) as [Hl Hone]. destruct (Hone x) as [r Hr]. rewrite Hr in *. cbn in *.
    rewrite length_app in Hlen. cbn in Hlen.
    eapply lands; [done|done|done|lia| |by rewrite Hl].
    pose proof (call_alike op) as Hal. rewrite Hp in Hal. specialize (Hal (w_db w)). cbn in Hal.
    rewrite Hf, Hr in Hal. cbn in Hal. destruct (sql_exec op (calm (w_db w))) as [r' c].
    destruct Hal as [-> Hal]. by injection Hal as -> ->.
  - by destruct (Forall_lookup_1 _ _ _ _ Hst Hi).
  - exists s. destruct Hi as [Hi|[p Hi]];
      (eapply moves; [done|done|done|done|by apply exclusive_free|done]).
Qed.

(** ** Every schedule is serial *)

Lemma opening_serial ops :
  Forall (op_fits J) ops -> Forall serializable ops -> serial_inv (opening ops) empty_store.
Proof.
  intros Hf Hs. split; cbn.
  - done.
  - apply empty_represents.
  - done.
  - by apply Forall_fmap, Forall_true.
  - intros i j x y h Hi _ Hx. apply list_lookup_fmap_Some in Hi as (op & -> & _). done.
  - apply Forall_fmap. cbn. by apply Forall_and.
  - intros i op r Hi. by apply list_lookup_fmap_Some in Hi as (? & ? & _).
Qed.

(** Answers are given for good: the order only grows, so a call that was answered
    before another began comes before it. *)
Lemma log_grows w w' : pg_step hashtext w w' -> w_log w `prefix_of` w_log w' /\ (w_gap w' = false -> w_gap w = false).
Proof.
  intros []; unfold settled; repeat case_match; cbn; (split; [try done; by eexists|try done]).
  by intros [? _]%orb_false_iff.
Qed.

Lemma schedule_serial w0 w s0 :
  rtc (pg_step hashtext) w0 w -> serial_inv w0 s0 -> w_gap w = false ->
  Z.of_nat (length (w_log w)) < i64_max -> exists s, serial_inv w s.
Proof.
  intros Hrtc Hinv. refine (rtc_ind_r (fun w => w_gap w = false -> Z.of_nat (length (w_log w)) < i64_max ->
    exists s, serial_inv w s) w0 _ _ w Hrtc); [by eexists|].
  intros w1 w' _ Hstep IH Hgap Hlen. destruct (log_grows _ _ Hstep) as [[l Hl] Hg].
  rewrite Hl, length_app in Hlen. destruct IH as [s Hs]; [by auto|lia|].
  eapply step_serial; [done..|]. rewrite Hl, length_app. lia.
Qed.

End serial.

(** ** Concrete schedules *)

(** The next step of a session, when it can take one and nothing fails. *)
Section turns.
Context `{SqlEngine} `{Collation} `{StoreJson} `{AuditCodec} (hashtext : string -> Z).

Definition lock_free (h : Z) (i : nat) (l : list Session) : bool :=
  forallb (fun j => Nat.eqb j i || match l !! j with Some x => negb (holds h x) | None => true end)
    (seq 0 (length l)).

Definition turn (i : nat) (w : World) : option World :=
  match w_sessions w !! i with
  | Some (Waiting op) =>
      match pg_call op with
      | InTx p => Some (put_session i (Open op None p (fun d => d)) w)
      | Auto (Stmt X f k) =>
          match f (w_db w) with (Ok x, d') => Some (settled i op (k x) d' w) | (Err _, _) => None end
      | Auto _ => None
      end
  | Some (Between op (Stmt X f k)) =>
      match f (w_db w) with (Ok x, d') => Some (settled i op (k x) d' w) | (Err _, _) => None end
  | Some (Open op held (Lock key k) own) =>
      if lock_free (hashtext key) i (w_sessions w)
      then Some (put_session i (Open op (Some (hashtext key)) k own) w) else None
  | Some (Open op held (Stmt X f k) own) =>
      match f (own (w_db w)) with
      | (Ok x, _) => Some (put_session i (Open op held (k x) (fun d => snd (f (own d)))) w)
      | (Err _, _) => None
      end
  | Some (Open op held (Ret (Ok a)) own) => Some (landing i op (Ok a) (own (w_db w)) w)
  | _ => None
  end.

(** Turns in the order given; a session that cannot move waits. *)
Definition turns (l : list nat) (w : World) : World := foldl (fun w i => default w (turn i w)) w l.

Lemma lock_free_spec h i l j x :
  lock_free h i l = true -> l !! j = Some x -> j <> i -> holds h x = false.
Proof.
  unfold lock_free. intros Hl Hj Hne. rewrite forallb_forall in Hl.
  specialize (Hl j). rewrite Hj, (proj2 (Nat.eqb_neq j i) Hne) in Hl. cbn in Hl. apply negb_true_iff, Hl.
  apply in_seq. apply lookup_lt_Some in Hj. lia.
Qed.

Lemma turn_step i w w' : turn i w = Some w' -> pg_step hashtext w w'.
Proof.
  unfold turn. destruct (w_sessions w !! i) as [[op|op p|op held p own|op r|op]|] eqn:Hi; [..|done].
  - destruct (pg_call op) as [[r|key k|X f k]|p] eqn:Hp; [done|done| |].
    + destruct (f (w_db w)) as [[x|e] d'] eqn:Hf; [|done]. intros [= <-]. by eapply step_first.
    + intros [= <-]. by eapply step_begin.
  - destruct p as [r|key k|X f k]; [done|done|].
    destruct (f (w_db w)) as [[x|e] d'] eqn:Hf; [|done]. intros [= <-]. by eapply step_next.
  - destruct p as [[a|e]|key k|X f k]; [|done| |].
    + intros [= <-]. by eapply step_commit.
    + destruct (lock_free _ _ _) eqn:Hl; [|done]. intros [= <-]. eapply step_lock; [done|].
      intros j x Hj Hne. by eapply lock_free_spec.
    + destruct (f (own (w_db w))) as [[x|e] d'] eqn:Hf; [|done]. intros [= <-]. by eapply step_run.
  - done.
  - done.
Qed.

Lemma turns_steps l w : rtc (pg_step hashtext) w (turns l w).
Proof.
  revert w. induction l as [|i l IH]; intros w; [apply rtc_refl|]. cbn.
  destruct (turn i w) as [w'|] eqn:E; cbn; [|apply IH].
  eapply rtc_l; [by eapply turn_step|apply IH].
Qed.
End turns.

Module PgRuns.
Import Toy.
#[local] Existing Instance Toy.codec.
#[local] Existing Instance Toy.engine.
#[local] Existing Instance Toy.engine_laws.
#[local] Existing Instance Toy.json.
#[local] Instance bytes : Collation := str_leb.
#[local] Instance bytes_laws : CollationLaws.
Proof. split; [apply str_leb_total|apply str_leb_trans|apply str_leb_antisym]. Qed.

Definition hash (s : string) : Z := Z.of_nat (String.length s).

(** Three servers: two create the same cluster, both write the trail, one opens an
    intent, one flips the desired state; statement by statement in turn. *)
Definition calls : list store_op := [
  OpUpsertDesired 10 "c1" demo_spec; OpUpsertDesired 11 "c1" demo_spec;
  OpRecordAudit (demo_event 1); OpRecordAudit (demo_event 2);
  OpBeginIntent 12 "c1/1" "fp"; OpSetDesired 20 "c1" DTerminated].
Definition busy : World := turns hash (List.concat (replicate 12 [0; 1; 2; 3; 4; 5]%nat)) (opening calls).


(** Failed logins are counted in two statements without a lock: two at once count
    as one. *)
Definition logins : list store_op := [
  OpCreateUser 5 "alice" None "hash" LViewer; OpLoginFailure 100 "alice"; OpLoginFailure 100 "alice"].
Example parallel_failures_count_once :
  fst (solo (get_local_user "alice") (w_db (turns hash [0; 1; 2; 1; 2]%nat (opening logins))))
  = fst (solo (get_local_user "alice") (w_db (turns hash [0; 1; 1]%nat (opening logins)))).
Proof. vm_compute. reflexivity. Qed.

(** A row removed between the SELECT and the INSERT of an upsert comes back with
    the generation it had, not with the first. *)
Definition aged : World := turns hash [0; 0; 0; 0; 0]%nat (opening [OpUpsertDesired 10 "c1" demo_spec]).
Definition race : World := {|
  w_db := write clusters (update_where (fun _ => true) (fun r => {|
    cr_id := cr_id r; cr_spec_json := cr_spec_json r; cr_generation := 7; cr_desired := cr_desired r;
    cr_observed_state := cr_observed_state r; cr_observed_generation := 7; cr_condition := cr_condition r;
    cr_failure_count := cr_failure_count r; cr_next_attempt_at := cr_next_attempt_at r;
    cr_created_at := cr_created_at r; cr_terminated_at := cr_terminated_at r |})
    (d_clusters (w_db aged))) (w_db aged);
  w_sessions := [Waiting (OpUpsertDesired 30 "c1" demo_spec); Waiting (OpRemoveCluster "c1")];
  w_log := []; w_gap := false |}.
Example removed_row_keeps_its_generation :
  let w := turns hash [0; 0; 0; 1; 0; 0]%nat race in
  (snd <$> w_log w) = [Ok (ABool true); Ok (ANumber 7)] /\
  ((fun r => (cr_generation r, cr_observed_generation r)) <$> d_clusters (w_db w)) = [(7, 0)].
Proof. vm_compute. by split. Qed.

(** An append whose commit fails leaves a gap in the numbers, not in the chain. *)
Definition torn : World :=
  let w := turns hash [0; 0; 0; 0]%nat (opening [OpRecordAudit (demo_event 1); OpRecordAudit (demo_event 2)]) in
  match w_sessions w !! 0%nat with
  | Some (Open op _ _ own) => turns hash [1; 1; 1; 1; 1]%nat (undone 0 op own w)
  | _ => w
  end.
Example failed_append_leaves_a_gap :
  w_gap torn = true /\ (snd <$> w_log torn) = [Ok (ANumber 2)] /\
  (dr_chain_hash <$> d_audit_events (w_db torn)) = [audit_chain_hash AUDIT_GENESIS_HASH (demo_event 2)].
Proof. vm_compute. by split_and!. Qed.
End PgRuns.
