(* ===== verification/Schema.v ===== *)
(** * Opening a database (store_sqlite.rs and store_postgres.rs, [init])

    The catalog of a database as the server keeps it: tables by name, with their
    columns and with rows of cells, and indexes. On it the statements of the two
    schemas, SQLite's column migrations and what [init] does with them at every
    boot, down to the backfill of the audit chain. [view] reads a catalog as the
    typed tables of [SqliteStore]. *)

From S2P Require Import Prelude Float64 Core Store Sql SqliteStore PostgresStore.
#[local] Open Scope Z_scope.
#[local] Open Scope string_scope.

(** ** Catalogs *)

Inductive Value := VNull | VText (s : string) | VInt (z : Z) | VReal (x : f64) | VBool (b : bool).
(** BIGINT of Postgres is INTEGER here, DOUBLE PRECISION is REAL. *)
Inductive ColType := TEXT | INTEGER | REAL | BOOLEAN.
Record Column := { col_type : ColType; col_not_null : bool; col_default : Value }.

Abbreviation Cells := (gmap string Value).
Record CatTable := { tb_columns : gmap string Column; tb_key : list string; tb_rows : list Cells }.
(** [cat_seq] is the last number the identity column of [audit_events] gave out. *)
Record Catalog := {
  cat_tables : gmap string CatTable;
  cat_indexes : gmap string (string * list string);
  cat_seq : Z;
}.
Definition empty_catalog : Catalog := {| cat_tables := ∅; cat_indexes := ∅; cat_seq := 0 |}.
Definition put_table (name : string) (t : CatTable) (cat : Catalog) : Catalog := {|
  cat_tables := <[name := t]> (cat_tables cat); cat_indexes := cat_indexes cat; cat_seq := cat_seq cat |}.

(** ** Statements on the catalog *)

Inductive Ddl :=
| CreateTable (name : string) (columns : list (string * Column)) (key : list string)
| CreateIndex (name table : string) (columns : list string).
Record AddColumn := { ac_table : string; ac_name : string; ac_column : Column }.

(** [CREATE TABLE IF NOT EXISTS] and [CREATE INDEX IF NOT EXISTS]; the error is
    the database's message. *)
Definition new_table (columns : list (string * Column)) (key : list string) : CatTable := {|
  tb_columns := list_to_map columns; tb_key := key; tb_rows := [] |}.
Definition has_columns (columns : list string) (t : CatTable) : bool :=
  forallb (fun c => bool_decide (is_Some (tb_columns t !! c))) columns.

Definition create (st : Ddl) (cat : Catalog) : result string Catalog :=
  match st with
  | CreateTable name columns key =>
      match cat_tables cat !! name with
      | Some _ => Ok cat
      | None => Ok (put_table name (new_table columns key) cat)
      end
  | CreateIndex name table columns =>
      match cat_indexes cat !! name, cat_tables cat !! table with
      | Some _, _ => Ok cat
      | None, None => Err ("no such table: " +:+ table)
      | None, Some t =>
          if has_columns columns t
          then Ok {| cat_tables := cat_tables cat;
                     cat_indexes := <[name := (table, columns)]> (cat_indexes cat);
                     cat_seq := cat_seq cat |}
          else Err ("no such column in " +:+ table)
      end
  end.

(** A table with further columns: in every row the cells hold the defaults. *)
Definition widen (new : gmap string Column) (t : CatTable) : CatTable := {|
  tb_columns := tb_columns t ∪ new; tb_key := tb_key t;
  tb_rows := (fun row => row ∪ (col_default <$> new)) <$> tb_rows t |}.

(** [ALTER TABLE .. ADD COLUMN]: a column that is there is a duplicate, and one
    that may not be null needs a default (Postgres asks for it only when there are
    rows; none of the statements below comes to that). *)
Definition is_null (v : Value) : bool := match v with VNull => true | _ => false end.
Definition add_column (m : AddColumn) (cat : Catalog) : result string Catalog :=
  match cat_tables cat !! ac_table m with
  | None => Err ("no such table: " +:+ ac_table m)
  | Some t =>
      match tb_columns t !! ac_name m with
      | Some _ => Err ("duplicate column name: " +:+ ac_name m)
      | None =>
          if col_not_null (ac_column m) && is_null (col_default (ac_column m))
          then Err "Cannot add a NOT NULL column with default value NULL"
          else Ok (put_table (ac_table m) (widen {[ac_name m := ac_column m]} t) cat)
      end
  end.
(** With [IF NOT EXISTS], which only Postgres has. *)
Definition add_column_if_absent (m : AddColumn) (cat : Catalog) : result string Catalog :=
  match cat_tables cat !! ac_table m with
  | Some t => match tb_columns t !! ac_name m with
              | Some _ => Ok cat
              | None => add_column m cat
              end
  | None => add_column m cat
  end.

(** ** The schemas *)

Definition text : Column := {| col_type := TEXT; col_not_null := false; col_default := VNull |}.
Definition integer : Column := {| col_type := INTEGER; col_not_null := false; col_default := VNull |}.
Definition not_null (c : Column) : Column := {|
  col_type := col_type c; col_not_null := true; col_default := col_default c |}.
Definition default_ (c : Column) (v : Value) : Column := {|
  col_type := col_type c; col_not_null := true; col_default := v |}.
Definition real : Column := {| col_type := REAL; col_not_null := true; col_default := VNull |}.

(** The tables of both databases: they differ in the booleans of [local_users] and
    [api_tokens] and in [pools.observed_at], which SQLite's schema leaves to the
    migrations. *)
Section tables.
Context (flag : Column) (observed_at : list (string * Column)).

Definition schema_tables : list Ddl := [
  CreateTable "clusters" [
    ("id", text); ("spec_json", not_null text); ("generation", not_null integer);
    ("desired", not_null text); ("observed_state", text);
    ("observed_generation", default_ integer (VInt 0)); ("condition", text);
    ("failure_count", default_ integer (VInt 0)); ("next_attempt_at", default_ integer (VInt 0));
    ("created_at", default_ integer (VInt 0)); ("terminated_at", integer)] ["id"];
  CreateTable "intents" [
    ("intent_key", text); ("params_fingerprint", default_ text (VText ""));
    ("status", default_ text (VText "applied")); ("response_json", text);
    ("created_at", default_ integer (VInt 0)); ("completed_at", integer)] ["intent_key"];
  CreateTable "control" [("key", text); ("value", not_null text)] ["key"];
  CreateTable "jobs" [
    ("id", text); ("cluster", not_null text); ("submitter", not_null text);
    ("status", not_null text); ("duration_secs", integer); ("submitted_at", not_null integer)] ["id"];
  CreateTable "pools" ([
    ("name", text); ("spec_json", not_null text); ("generation", not_null integer);
    ("observed_json", text)] ++ observed_at ++ [("created_at", default_ integer (VInt 0))]) ["name"];
  CreateTable "allocations" [
    ("pool", not_null text); ("project", not_null text); ("spec_json", not_null text)] ["pool"; "project"];
  CreateTable "usage_samples" [
    ("ts", not_null integer); ("project", not_null text); ("pool", not_null text);
    ("resource", not_null text); ("quantity", real); ("source", not_null text)] [];
  CreateIndex "usage_samples_project_ts" "usage_samples" ["project"; "ts"];
  CreateTable "audit_events" [
    ("seq", integer); ("ts", not_null integer); ("subject", text); ("decision", not_null text);
    ("reason", text); ("action", text); ("cluster", text); ("method", text); ("path", text);
    ("status", integer); ("latency_ms", integer); ("required_json", text);
    ("granted_roles", default_ text (VText "[]")); ("chain_hash", default_ text (VText ""))] ["seq"];
  CreateIndex "audit_events_ts" "audit_events" ["ts"];
  CreateTable "local_users" [
    ("username", text); ("email", text); ("password_hash", not_null text); ("role", not_null text);
    ("disabled", flag); ("created_at", default_ integer (VInt 0));
    ("failed_logins", default_ integer (VInt 0)); ("locked_until", integer)] ["username"];
  CreateTable "api_tokens" [
    ("prefix", text); ("token_hash", not_null text); ("username", not_null text);
    ("label", not_null text); ("created_at", default_ integer (VInt 0));
    ("expires_at", not_null integer); ("revoked", flag); ("last_used_at", integer)] ["prefix"];
  CreateIndex "api_tokens_username" "api_tokens" ["username"];
  CreateTable "role_assignments" [
    ("principal", not_null text); ("role", not_null text); ("scope", not_null text);
    ("created_at", default_ integer (VInt 0))] ["principal"; "role"; "scope"]].
End tables.

Module SqliteSchema.
Definition SCHEMA : list Ddl := schema_tables (default_ integer (VInt 0)) [].

Definition COLUMN_MIGRATIONS : list AddColumn := [
  {| ac_table := "intents"; ac_name := "params_fingerprint"; ac_column := default_ text (VText "") |};
  {| ac_table := "intents"; ac_name := "status"; ac_column := default_ text (VText "applied") |};
  {| ac_table := "intents"; ac_name := "response_json"; ac_column := text |};
  {| ac_table := "intents"; ac_name := "created_at"; ac_column := default_ integer (VInt 0) |};
  {| ac_table := "intents"; ac_name := "completed_at"; ac_column := integer |};
  {| ac_table := "clusters"; ac_name := "condition"; ac_column := text |};
  {| ac_table := "clusters"; ac_name := "failure_count"; ac_column := default_ integer (VInt 0) |};
  {| ac_table := "clusters"; ac_name := "next_attempt_at"; ac_column := default_ integer (VInt 0) |};
  {| ac_table := "clusters"; ac_name := "terminated_at"; ac_column := integer |};
  {| ac_table := "pools"; ac_name := "observed_json"; ac_column := text |};
  {| ac_table := "pools"; ac_name := "observed_at"; ac_column := integer |};
  {| ac_table := "audit_events"; ac_name := "chain_hash"; ac_column := default_ text (VText "") |}].
End SqliteSchema.

Module PostgresSchema.
Definition SCHEMA : list Ddl :=
  schema_tables {| col_type := BOOLEAN; col_not_null := true; col_default := VBool false |}
    [("observed_at", integer)].

(** The two ALTERs of [init]. *)
Definition ALTERS : list AddColumn := [
  {| ac_table := "audit_events"; ac_name := "chain_hash"; ac_column := default_ text (VText "") |};
  {| ac_table := "clusters"; ac_name := "terminated_at"; ac_column := integer |}].
End PostgresSchema.

(** ** Reading cells ([row.try_get]) *)

Definition get_text (row : Cells) (name : string) : option string :=
  match row !! name with Some (VText s) => Some s | _ => None end.
Definition get_text_opt (row : Cells) (name : string) : option (option string) :=
  match row !! name with Some (VText s) => Some (Some s) | Some VNull => Some None | _ => None end.
Definition get_int (row : Cells) (name : string) : option Z :=
  match row !! name with Some (VInt z) => Some z | _ => None end.
Definition get_int_opt (row : Cells) (name : string) : option (option Z) :=
  match row !! name with Some (VInt z) => Some (Some z) | Some VNull => Some None | _ => None end.
Definition get_real (row : Cells) (name : string) : option f64 :=
  match row !! name with Some (VReal x) => Some x | _ => None end.

(** How a database reads its boolean cells. *)
Class BoolCell `{BoolColumn} := get_bool : Value -> option bool_col.
#[export] Instance sqlite_cell : @BoolCell sqlite_bool :=
  fun v => match v with VInt z => Some z | _ => None end.
#[export] Instance postgres_cell : @BoolCell postgres_bool :=
  fun v => match v with VBool b => Some b | _ => None end.

(** The rows of the typed tables. *)
Section readers.
Context `{BoolCell}.

Definition cluster_cells (c : Cells) : option ClusterRow :=
  id ← get_text c "id"; spec_json ← get_text c "spec_json"; generation ← get_int c "generation";
  desired ← get_text c "desired"; observed_state ← get_text_opt c "observed_state";
  observed_generation ← get_int c "observed_generation"; condition ← get_text_opt c "condition";
  failure_count ← get_int c "failure_count"; next_attempt_at ← get_int c "next_attempt_at";
  created_at ← get_int c "created_at"; terminated_at ← get_int_opt c "terminated_at";
  mret {| cr_id := id; cr_spec_json := spec_json; cr_generation := generation; cr_desired := desired;
          cr_observed_state := observed_state; cr_observed_generation := observed_generation;
          cr_condition := condition; cr_failure_count := failure_count;
          cr_next_attempt_at := next_attempt_at; cr_created_at := created_at;
          cr_terminated_at := terminated_at |}.

Definition intent_cells (c : Cells) : option IntentRow :=
  intent_key ← get_text c "intent_key"; params_fingerprint ← get_text c "params_fingerprint";
  status ← get_text c "status"; response_json ← get_text_opt c "response_json";
  created_at ← get_int c "created_at"; completed_at ← get_int_opt c "completed_at";
  mret {| ir_intent_key := intent_key; ir_params_fingerprint := params_fingerprint; ir_status := status;
          ir_response_json := response_json; ir_created_at := created_at; ir_completed_at := completed_at |}.

Definition control_cells (c : Cells) : option ControlRow :=
  key ← get_text c "key"; value ← get_text c "value"; mret {| kr_key := key; kr_value := value |}.

Definition job_cells (c : Cells) : option JobRow :=
  id ← get_text c "id"; cluster ← get_text c "cluster"; submitter ← get_text c "submitter";
  status ← get_text c "status"; duration_secs ← get_int_opt c "duration_secs";
  submitted_at ← get_int c "submitted_at";
  mret {| jr_id := id; jr_cluster := cluster; jr_submitter := submitter; jr_status := status;
          jr_duration_secs := duration_secs; jr_submitted_at := submitted_at |}.

Definition pool_cells (c : Cells) : option PoolRow :=
  name ← get_text c "name"; spec_json ← get_text c "spec_json"; generation ← get_int c "generation";
  observed_json ← get_text_opt c "observed_json"; observed_at ← get_int_opt c "observed_at";
  created_at ← get_int c "created_at";
  mret {| pr_name := name; pr_spec_json := spec_json; pr_generation := generation;
          pr_observed_json := observed_json; pr_observed_at := observed_at; pr_created_at := created_at |}.

Definition allocation_cells (c : Cells) : option AllocationRow :=
  pool ← get_text c "pool"; project ← get_text c "project"; spec_json ← get_text c "spec_json";
  mret {| lr_pool := pool; lr_project := project; lr_spec_json := spec_json |}.

Definition usage_cells (c : Cells) : option UsageRow :=
  ts ← get_int c "ts"; project ← get_text c "project"; pool ← get_text c "pool";
  resource ← get_text c "resource"; quantity ← get_real c "quantity"; source ← get_text c "source";
  mret {| ur_ts := ts; ur_project := project; ur_pool := pool; ur_resource := resource;
          ur_quantity := quantity; ur_source := source |}.

Definition audit_cells (c : Cells) : option AuditRow :=
  seq ← get_int c "seq"; ts ← get_int c "ts"; subject ← get_text_opt c "subject";
  decision ← get_text c "decision"; reason ← get_text_opt c "reason"; action ← get_text_opt c "action";
  cluster ← get_text_opt c "cluster"; method ← get_text_opt c "method"; path ← get_text_opt c "path";
  status ← get_int_opt c "status"; latency_ms ← get_int_opt c "latency_ms";
  required_json ← get_text_opt c "required_json"; granted_roles ← get_text c "granted_roles";
  chain_hash ← get_text c "chain_hash";
  mret {| dr_seq := seq; dr_ts := ts; dr_subject := subject; dr_decision := decision; dr_reason := reason;
          dr_action := action; dr_cluster := cluster; dr_method := method; dr_path := path;
          dr_status := status; dr_latency_ms := latency_ms; dr_required_json := required_json;
          dr_granted_roles := granted_roles; dr_chain_hash := chain_hash |}.

Definition user_cells (c : Cells) : option UserRow :=
  username ← get_text c "username"; email ← get_text_opt c "email";
  password_hash ← get_text c "password_hash"; role ← get_text c "role";
  disabled ← (c !! "disabled" ≫= get_bool); created_at ← get_int c "created_at";
  failed_logins ← get_int c "failed_logins"; locked_until ← get_int_opt c "locked_until";
  mret {| xr_username := username; xr_email := email; xr_password_hash := password_hash; xr_role := role;
          xr_disabled := disabled; xr_created_at := created_at; xr_failed_logins := failed_logins;
          xr_locked_until := locked_until |}.

Definition token_cells (c : Cells) : option TokenRow :=
  prefix ← get_text c "prefix"; token_hash ← get_text c "token_hash"; username ← get_text c "username";
  label ← get_text c "label"; created_at ← get_int c "created_at"; expires_at ← get_int c "expires_at";
  revoked ← (c !! "revoked" ≫= get_bool); last_used_at ← get_int_opt c "last_used_at";
  mret {| tr_prefix := prefix; tr_token_hash := token_hash; tr_username := username; tr_label := label;
          tr_created_at := created_at; tr_expires_at := expires_at; tr_revoked := revoked;
          tr_last_used_at := last_used_at |}.

Definition assignment_cells (c : Cells) : option AssignmentRow :=
  principal ← get_text c "principal"; role ← get_text c "role"; scope ← get_text c "scope";
  created_at ← get_int c "created_at";
  mret {| gr_principal := principal; gr_role := role; gr_scope := scope; gr_created_at := created_at |}.

(** The rows of a table, if it is there and every row has the cells. *)
Definition table_rows {R} (read : Cells -> option R) (name : string) (cat : Catalog) : option (list R) :=
  cat_tables cat !! name ≫= fun t => mapM read (tb_rows t).

(** A catalog as the typed database the store's statements work on. *)
Definition view (cat : Catalog) : option Database :=
  clusters ← table_rows cluster_cells "clusters" cat;
  intents ← table_rows intent_cells "intents" cat;
  control ← table_rows control_cells "control" cat;
  jobs ← table_rows job_cells "jobs" cat;
  pools ← table_rows pool_cells "pools" cat;
  allocations ← table_rows allocation_cells "allocations" cat;
  samples ← table_rows usage_cells "usage_samples" cat;
  audit ← table_rows audit_cells "audit_events" cat;
  users ← table_rows user_cells "local_users" cat;
  tokens ← table_rows token_cells "api_tokens" cat;
  assignments ← table_rows assignment_cells "role_assignments" cat;
  mret {| d_clusters := clusters; d_intents := intents; d_control := control; d_jobs := jobs;
          d_pools := pools; d_allocations := allocations; d_usage_samples := samples;
          d_audit_events := audit; d_audit_seq := cat_seq cat; d_local_users := users;
          d_api_tokens := tokens; d_role_assignments := assignments |}.
End readers.

(** ** Booting *)

(** The database and which of the coming statements fail. *)
Record Boot := { bt_cat : Catalog; bt_faults : list bool }.

Section boot.
Context `{SqlEngine}.

(** One statement; the error is its text ([e.to_string()]). *)
Definition execute (f : Catalog -> result string Catalog) : ST Boot string unit := fun b =>
  match bt_faults b with
  | true :: fs => (Err sqlx_error, {| bt_cat := bt_cat b; bt_faults := fs |})
  | _ =>
      let rest := tail (bt_faults b) in
      match f (bt_cat b) with
      | Ok cat => (Ok tt, {| bt_cat := cat; bt_faults := rest |})
      | Err msg => (Err ("error returned from database: " +:+ msg), {| bt_cat := bt_cat b; bt_faults := rest |})
      end
  end.

(** [?] on a statement: [StoreError::from]. *)
Definition into {A} (m : ST Boot string A) : ST Boot StoreError A := fun b =>
  let '(r, b') := m b in (map_err Backend r, b').

(** Several statements in one call. SQLite runs them one by one and stops at an
    error; Postgres, over the simple query protocol, as one transaction. *)
Fixpoint run_script (l : list Ddl) : ST Boot string unit :=
  match l with
  | [] => mret tt
  | st :: l => _ ← execute (create st); run_script l
  end.
Fixpoint create_all (l : list Ddl) (cat : Catalog) : result string Catalog :=
  match l with
  | [] => Ok cat
  | st :: l => cat ← create st cat; create_all l cat
  end.

(** The migrations, in order: a duplicate column is passed over. *)
Fixpoint migrate (l : list AddColumn) : ST Boot StoreError unit := fun b =>
  match l with
  | [] => (Ok tt, b)
  | m :: l =>
      match execute (add_column m) b with
      | (Ok _, b') => migrate l b'
      | (Err msg, b') =>
          if negb (str_contains "duplicate column name" msg) then (Err (Backend msg), b') else migrate l b'
      end
  end.

(** The backfill reads the rows of [audit_events] and writes their [chain_hash]
    cells only. *)
Definition put_hashes (l : list AuditRow) (cat : Catalog) : Catalog :=
  match cat_tables cat !! "audit_events" with
  | Some t => put_table "audit_events" {|
      tb_columns := tb_columns t; tb_key := tb_key t;
      tb_rows := zip_with (fun r c => <["chain_hash" := VText (dr_chain_hash r)]> c) l (tb_rows t) |} cat
  | None => cat
  end.
Definition on_trail `{BoolColumn} {A} (q : Q A) : ST Boot StoreError A := fun b =>
  match table_rows audit_cells "audit_events" (bt_cat b) with
  | None => (Err (Backend "error occurred while decoding column"), b)
  | Some l =>
      let '(r, c) := q {| db := write audit_events l empty_db; faults := bt_faults b |} in
      (r, {| bt_cat := put_hashes (d_audit_events (db c)) (bt_cat b); bt_faults := faults c |})
  end.

(** A Postgres program on a connection of its own, before the store serves. *)
Fixpoint run_alone {A} (p : Prog A) : @ST (@Conn postgres_bool) StoreError A :=
  match p with
  | Ret r => SqliteStore.lift r
  | Lock _ k => _ ← SqliteStore.select (fun _ => tt); run_alone k
  | Stmt X f k => x ← SqliteStore.statement f; run_alone (k x)
  end.

(** [init] of the two stores; the PRAGMA changes nothing here. The answer [None]
    is the backfill running out of fuel. *)
Context `{StoreJson} `{AuditCodec}.

Definition sqlite_init : ST Boot StoreError (option unit) :=
  _ ← into (execute Ok);
  _ ← into (run_script SqliteSchema.SCHEMA);
  _ ← migrate SqliteSchema.COLUMN_MIGRATIONS;
  @on_trail sqlite_bool _ (@backfill_audit_chain _ sqlite_bool _ _).

Definition unchained (d : Postgres) : nat :=
  length (where_ (fun r => String.eqb (dr_chain_hash r) "") (d_audit_events d)).
Fixpoint run_alters (l : list AddColumn) : ST Boot string unit :=
  match l with
  | [] => mret tt
  | m :: l => _ ← execute (add_column_if_absent m); run_alters l
  end.

Definition postgres_init : ST Boot StoreError (option unit) :=
  _ ← into (execute (create_all PostgresSchema.SCHEMA));
  _ ← into (run_alters PostgresSchema.ALTERS);
  on_trail (fun c => run_alone (PostgresStore.backfill_loop (S (unchained (db c)))) c).

(** [connect]: a connection, then [init]; [in_memory] begins with nothing. *)
Definition sqlite_connect : ST Boot StoreError (option unit) := _ ← into (execute Ok); sqlite_init.
Definition postgres_connect : ST Boot StoreError (option unit) := _ ← into (execute Ok); postgres_init.
Definition sqlite_in_memory (faults : list bool) : result StoreError (option unit) * Boot :=
  sqlite_connect {| bt_cat := empty_catalog; bt_faults := faults |}.
End boot.
