(* ===== verification/SchemaFacts.v ===== *)
(** * What booting does to a database

    [upgraded] is the catalog an older one is meant to become: the tables and
    indexes it lacks, and in its own tables the columns they lack, every row with
    the cells it had and defaults in the new ones. Booting gets there, whatever was
    there before and wherever an earlier boot was cut short, and ends with a
    chained audit trail. *)

From S2P Require Import Prelude Float64 Core Store StoreFacts Sql SqliteStore SqliteFacts SqliteRefine SqliteReads SqliteProps.
From S2P Require Import PostgresStore Schema Sample.
#[local] Open Scope Z_scope.
#[local] Open Scope string_scope.
#[local] Open Scope list_scope.

Lemma map_union_dom_absorb {V} (m new : gmap string V) : dom new ⊆ dom m -> m ∪ new = m.
Proof.
  intros Hd. apply map_eq. intros k. rewrite lookup_union.
  destruct (m !! k) eqn:E; [by destruct (new !! k)|]. destruct (new !! k) eqn:En; [|done].
  apply not_elem_of_dom in E. apply elem_of_dom_2 in En. set_solver.
Qed.

(** ** The catalog at its newest *)

Section upgrade.
Context (schema : list Ddl) (alters : list AddColumn).

Definition created : gmap string CatTable :=
  list_to_map (omap (fun st => match st with
                               | CreateTable name columns key => Some (name, new_table columns key)
                               | _ => None
                               end) schema).
Definition indexed : gmap string (string * list string) :=
  list_to_map (omap (fun st => match st with
                               | CreateIndex name table columns => Some (name, (table, columns))
                               | _ => None
                               end) schema).
Definition added (table : string) : gmap string Column :=
  list_to_map ((fun m => (ac_name m, ac_column m)) <$> filter (fun m => ac_table m = table) alters).

Definition upgraded (cat : Catalog) : Catalog := {|
  cat_tables := map_imap (fun name t => Some (widen (added name) t)) (cat_tables cat ∪ created);
  cat_indexes := cat_indexes cat ∪ indexed;
  cat_seq := cat_seq cat |}.

(** What an index is on: a table made before it, with its columns. *)
Fixpoint tables_first (seen : list string) (l : list Ddl) : bool :=
  match l with
  | [] => true
  | CreateTable name _ _ :: l => tables_first (name :: seen) l
  | CreateIndex _ table _ :: l => bool_decide (table ∈ seen) && tables_first seen l
  end.

(** Statements that do not contradict one another. *)
Definition table_names : list string :=
  omap (fun st => match st with CreateTable name _ _ => Some name | _ => None end) schema.
Definition index_names : list string :=
  omap (fun st => match st with CreateIndex name _ _ => Some name | _ => None end) schema.

Record sound : Prop := {
  sd_order : tables_first [] schema = true;
  sd_tables : NoDup table_names;
  sd_indexes : NoDup index_names;
  sd_index : Forall (fun st => match st with
    | CreateTable _ _ _ => True
    | CreateIndex _ table columns => has_columns columns <$> created !! table = Some true
    end) schema;
  sd_columns : NoDup ((fun m => (ac_table m, ac_name m)) <$> alters);
  sd_alter : Forall (fun m => ac_table m ∈ table_names /\
    col_not_null (ac_column m) && is_null (col_default (ac_column m)) = false) alters;
}.

Lemma created_lookup name columns key :
  sound -> CreateTable name columns key ∈ schema -> created !! name = Some (new_table columns key).
Proof.
  intros Hs Hin. apply elem_of_list_to_map_1.
  - replace (fst <$> _) with table_names; [apply Hs|]. unfold table_names. clear.
    induction schema as [|[] l IH]; cbn; [done|by rewrite <- IH|done].
  - apply list_elem_of_omap. eauto.
Qed.
Lemma indexed_lookup name table columns :
  sound -> CreateIndex name table columns ∈ schema -> indexed !! name = Some (table, columns).
Proof.
  intros Hs Hin. apply elem_of_list_to_map_1.
  - replace (fst <$> _) with index_names; [apply Hs|]. unfold index_names. clear.
    induction schema as [|[] l IH]; cbn; [done|done|by rewrite <- IH].
  - apply list_elem_of_omap. eauto.
Qed.
Lemma added_lookup m : sound -> m ∈ alters -> added (ac_table m) !! ac_name m = Some (ac_column m).
Proof.
  intros Hs Hin. apply elem_of_list_to_map_1; [|apply list_elem_of_fmap; exists m; by rewrite list_elem_of_filter].
  pose proof (sd_columns Hs) as Hd. clear -Hd. induction alters as [|m' l IH]; [constructor|].
  rewrite fmap_cons in Hd. apply NoDup_cons in Hd as [Hnot Hd]. rewrite filter_cons.
  case_decide as E; [|by apply IH]. cbn. constructor; [|by apply IH].
  intros (p & Hp & (m2 & -> & [Ht Hm2]%list_elem_of_filter)%list_elem_of_fmap)%list_elem_of_fmap.
  apply Hnot. apply list_elem_of_fmap. exists m2. cbn in Hp. split; [congruence|done].
Qed.

(** An older database: its rows have their cells, and the indexed columns were
    always there. *)
Record older (cat : Catalog) : Prop := {
  od_cells : forall name t row, cat_tables cat !! name = Some t -> row ∈ tb_rows t ->
    dom (tb_columns t) ⊆ dom row;
  od_index : forall name table columns t, CreateIndex name table columns ∈ schema ->
    cat_tables cat !! table = Some t -> has_columns columns t = true;
}.

(** What a statement leaves behind. *)
Definition made (cat : Catalog) (st : Ddl) : Prop :=
  match st with
  | CreateTable name _ _ => is_Some (cat_tables cat !! name)
  | CreateIndex name _ _ => is_Some (cat_indexes cat !! name)
  end.
Definition has_added (cat : Catalog) (m : AddColumn) : Prop :=
  exists t, cat_tables cat !! ac_table m = Some t /\ is_Some (tb_columns t !! ac_name m).

(** Progress towards [upgraded]. *)
Record grows (cat cat' : Catalog) : Prop := {
  gw_upgraded : upgraded cat' = upgraded cat;
  gw_older : older cat -> older cat';
  gw_made : forall st, made cat st -> made cat' st;
  gw_added : forall m, has_added cat m -> has_added cat' m;
}.

Lemma grows_refl cat : grows cat cat.
Proof. by split. Qed.
Lemma grows_trans a b c : grows a b -> grows b c -> grows a c.
Proof. intros [U1 O1 M1 A1] [U2 O2 M2 A2]. split; [congruence|auto..]. Qed.

Lemma lookup_upgraded cat name :
  cat_tables (upgraded cat) !! name = widen (added name) <$> (cat_tables cat ∪ created) !! name.
Proof. cbn. rewrite map_lookup_imap. by destruct (_ !! name). Qed.

Lemma upgraded_eq cat cat' :
  (forall name, widen (added name) <$> (cat_tables cat' ∪ created) !! name
                = widen (added name) <$> (cat_tables cat ∪ created) !! name) ->
  cat_indexes cat' ∪ indexed = cat_indexes cat ∪ indexed -> cat_seq cat' = cat_seq cat ->
  upgraded cat' = upgraded cat.
Proof.
  intros Ht Hi Hs. unfold upgraded. rewrite Hi, Hs. f_equal. apply map_eq. intros name.
  rewrite !map_lookup_imap. specialize (Ht name). destruct ((_ ∪ _) !! name), ((_ ∪ _) !! name); cbn in *; congruence.
Qed.

(** ** Columns *)

Lemma widen_twice (new all : gmap string Column) t :
  new ⊆ all -> widen all (widen new t) = widen all t.
Proof.
  intros Hsub. unfold widen. cbn. f_equal.
  - rewrite <- (assoc_L (∪)), (map_subseteq_union new all) by done. done.
  - rewrite <- list_fmap_compose. apply list_fmap_ext. intros i row _. cbn.
    rewrite <- (assoc_L (∪)), (map_subseteq_union (_ <$> new)) by (by apply map_fmap_mono). done.
Qed.

Lemma widen_full (new : gmap string Column) t :
  dom new ⊆ dom (tb_columns t) -> (forall row, row ∈ tb_rows t -> dom (tb_columns t) ⊆ dom row) ->
  widen new t = t.
Proof.
  intros Hd Hrows. destruct t as [columns key rows]. unfold widen. cbn in *. f_equal.
  - by apply map_union_dom_absorb.
  - rewrite <- (list_fmap_id rows) at 2. apply list_fmap_ext. intros i row Hi. cbn.
    apply map_union_dom_absorb. rewrite dom_fmap_L. apply list_elem_of_lookup_2 in Hi. set_solver.
Qed.

(** ** Single statements *)

Context (Hsound : sound).

Lemma put_table_union name t cat :
  cat_tables (put_table name t cat) ∪ created = <[name := t]> (cat_tables cat ∪ created).
Proof. cbn. by rewrite insert_union_l. Qed.

Lemma new_table_grows name columns key cat :
  CreateTable name columns key ∈ schema -> cat_tables cat !! name = None ->
  grows cat (put_table name (new_table columns key) cat).
Proof.
  intros Hin Hnone. pose proof (created_lookup _ _ _ Hsound Hin) as Hnew.
  pose proof (sd_index Hsound) as Hc. rewrite Forall_forall in Hc. split.
  - apply upgraded_eq; [|done..]. intros n. rewrite put_table_union.
    destruct (decide (n = name)) as [->|Hn]; [|by rewrite lookup_insert_ne].
    by rewrite lookup_insert_eq, lookup_union_r, Hnew.
  - intros [Hcells Hindex]. split; cbn.
    + intros n t row [[<- <-]|[_ Ht]]%lookup_insert_Some; [by intros ?%elem_of_nil|eauto].
    + intros i table cols t Hi [[<- <-]|[_ Ht]]%lookup_insert_Some; [|eauto].
      pose proof (Hc _ Hi) as Hhas. cbn in Hhas. rewrite Hnew in Hhas. cbn in Hhas. congruence.
  - intros [] Hm; cbn in *; [|done]. apply lookup_insert_is_Some. destruct (decide (name = name0)); auto.
  - intros m (t & Ht & Hm). exists t. split; [|done]. cbn. rewrite lookup_insert_ne; congruence.
Qed.

Lemma new_index_grows name table columns cat :
  CreateIndex name table columns ∈ schema -> cat_indexes cat !! name = None ->
  grows cat {| cat_tables := cat_tables cat; cat_indexes := <[name := (table, columns)]> (cat_indexes cat);
               cat_seq := cat_seq cat |}.
Proof.
  intros Hin Hnone. pose proof (indexed_lookup _ _ _ Hsound Hin) as Hi. split.
  - apply upgraded_eq; [done| |done]. cbn. rewrite <- insert_union_l. apply insert_id. by rewrite lookup_union_r.
  - intros []. by split.
  - intros [] Hm; cbn in *; [done|]. apply lookup_insert_is_Some. destruct (decide (name = name0)); auto.
  - done.
Qed.

Lemma create_grows st cat :
  st ∈ schema -> older cat ->
  match st with CreateIndex _ table _ => is_Some (cat_tables cat !! table) | _ => True end ->
  exists cat', create st cat = Ok cat' /\ grows cat cat' /\ made cat' st.
Proof.
  intros Hin Hold Ht. destruct st as [name columns key|name table columns]; cbn.
  - destruct (cat_tables cat !! name) eqn:E; [eauto using grows_refl|].
    eexists. split; [done|]. split; [by apply new_table_grows|]. cbn. rewrite lookup_insert_eq. eauto.
  - destruct (cat_indexes cat !! name) eqn:E; [eauto using grows_refl|]. destruct Ht as [t Ht]. rewrite Ht.
    rewrite (od_index _ Hold _ _ _ _ Hin Ht). eexists. split; [done|].
    split; [by apply new_index_grows|]. cbn. rewrite lookup_insert_eq. eauto.
Qed.

Lemma has_columns_mono columns (new : gmap string Column) t :
  has_columns columns t = true -> has_columns columns (widen new t) = true.
Proof.
  unfold has_columns. rewrite !forallb_forall. intros Hc c Hin. specialize (Hc c Hin).
  rewrite bool_decide_eq_true in *. cbn. apply lookup_union_is_Some. auto.
Qed.

Lemma new_column_grows m t cat :
  m ∈ alters -> cat_tables cat !! ac_table m = Some t -> tb_columns t !! ac_name m = None ->
  grows cat (put_table (ac_table m) (widen {[ac_name m := ac_column m]} t) cat).
Proof.
  intros Hin Ht Hnone. pose proof (added_lookup _ Hsound Hin) as Hadd. split.
  - apply upgraded_eq; [|done..]. intros n. rewrite put_table_union.
    destruct (decide (n = ac_table m)) as [->|Hn]; [|by rewrite lookup_insert_ne].
    rewrite lookup_insert_eq, (lookup_union_Some_l _ _ _ _ Ht). cbn. f_equal. apply widen_twice.
    by apply map_singleton_subseteq_l.
  - intros [Hcells Hindex]. split; cbn.
    + intros n t' row [[<- <-]|[_ Ht']]%lookup_insert_Some Hrow; [|eauto].
      cbn in *. apply list_elem_of_fmap in Hrow as (row0 & -> & Hrow). specialize (Hcells _ _ _ Ht Hrow).
      rewrite !dom_union_L, dom_fmap_L. set_solver.
    + intros i table cols t' Hi [[<- <-]|[_ Ht']]%lookup_insert_Some; [|eauto].
      apply has_columns_mono. eauto.
  - intros [] Hm; cbn in *; [|done]. apply lookup_insert_is_Some. destruct (decide (ac_table m = name)); auto.
  - intros m' (t' & Ht' & Hm'). unfold has_added. cbn. destruct (decide (ac_table m' = ac_table m)) as [E|E].
    + rewrite E in *. rewrite lookup_insert_eq. eexists. split; [done|]. cbn. apply lookup_union_is_Some. left. congruence.
    + rewrite lookup_insert_ne by congruence. eauto.
Qed.

Lemma add_column_grows m cat :
  m ∈ alters -> is_Some (cat_tables cat !! ac_table m) ->
  (exists cat', add_column m cat = Ok cat' /\ grows cat cat' /\ has_added cat' m) \/
  add_column m cat = Err ("duplicate column name: " +:+ ac_name m) /\ has_added cat m.
Proof.
  intros Hin [t Ht]. unfold add_column, has_added. rewrite Ht.
  destruct (tb_columns t !! ac_name m) eqn:E; [right; split; [done|]; exists t; rewrite E; eauto|left].
  pose proof (sd_alter Hsound) as Ha. rewrite Forall_forall in Ha. destruct (Ha _ Hin) as [_ ->].
  eexists. split; [done|]. split; [by apply new_column_grows|]. cbn. rewrite lookup_insert_eq.
  eexists. split; [done|]. cbn. rewrite lookup_union_r, lookup_singleton_eq by done. eauto.
Qed.

(** Everything there: nothing left to do. *)
Lemma upgraded_complete cat :
  older cat -> Forall (made cat) schema -> Forall (has_added cat) alters -> upgraded cat = cat.
Proof.
  intros Hold Hm Ha. destruct cat as [tables indexes seq]. unfold upgraded. cbn. f_equal.
  - apply map_eq. intros name. rewrite map_lookup_imap.
    assert (tables ∪ created = tables) as ->.
    { apply map_union_dom_absorb. intros n Hn. apply elem_of_dom in Hn as [t Ht].
      unfold created in Ht. apply elem_of_list_to_map_2 in Ht. apply list_elem_of_omap in Ht as ([] & Hst & Hx); [|done].
      injection Hx as <- <-. rewrite Forall_forall in Hm. apply elem_of_dom. exact (Hm _ Hst). }
    destruct (tables !! name) as [t|] eqn:Ht; [|done]. cbn. f_equal. apply widen_full.
    + intros c Hc. apply elem_of_dom in Hc as [col Hc]. unfold added in Hc. apply elem_of_list_to_map_2 in Hc.
      apply list_elem_of_fmap in Hc as (m & [= -> ->] & [Htab Hin]%list_elem_of_filter).
      rewrite Forall_forall in Ha. destruct (Ha _ Hin) as (t' & Ht' & Hcol). cbn in Ht'. apply elem_of_dom. congruence.
    + intros row Hrow. exact (od_cells _ Hold name t row Ht Hrow).
  - apply map_union_dom_absorb. intros n Hn. apply elem_of_dom in Hn as [t Ht].
    unfold indexed in Ht. apply elem_of_list_to_map_2 in Ht. apply list_elem_of_omap in Ht as ([] & Hst & Hx); [done|].
    injection Hx as <- <-. rewrite Forall_forall in Hm. apply elem_of_dom. exact (Hm _ Hst).
Qed.

Lemma altered_made cat m :
  Forall (made cat) schema -> m ∈ alters -> is_Some (cat_tables cat !! ac_table m).
Proof.
  intros Hm Hin. pose proof (sd_alter Hsound) as Ha. rewrite Forall_forall in Ha. rewrite Forall_forall in Hm.
  destruct (Ha _ Hin) as [Ht _]. apply list_elem_of_omap in Ht as ([] & Hst & [= ->]). exact (Hm _ Hst).
Qed.

(** ** Runs

    A run makes progress, is done with [P] if it ends well, and does end well if no
    statement fails. *)
Context `{SqlEngine}.

Record advances {E A} (b : Boot) (r : result E A) (b' : Boot) (P : Catalog -> Prop) : Prop := {
  av_grows : grows (bt_cat b) (bt_cat b');
  av_ok : is_ok r = true -> P (bt_cat b');
  av_calm : bt_faults b = [] -> is_ok r = true /\ bt_faults b' = [];
}.

Lemma advances_ok {E A} b (a : A) (P : Catalog -> Prop) : P (bt_cat b) -> advances b (Ok a : result E A) b P.
Proof. intros HP. split; auto using grows_refl. Qed.

(** A statement that may fail, then the rest. *)
Lemma advances_step {E A} b b1 (r : result E A) b' (P : Catalog -> Prop) :
  grows (bt_cat b) (bt_cat b1) -> (bt_faults b = [] -> bt_faults b1 = []) ->
  advances b1 r b' P -> advances b r b' P.
Proof. intros Hg Hf [Hg' HP Hc]. split; [by eapply grows_trans|done|]. auto. Qed.

Lemma advances_cut {E A} b b1 (e : E) (P : Catalog -> Prop) :
  bt_cat b1 = bt_cat b -> bt_faults b <> [] -> advances b (Err e : result E A) b1 P.
Proof. intros Hb Hf. split; [rewrite Hb; apply grows_refl|done|done]. Qed.

Lemma advances_weaken {E A} b (r : result E A) b' (P P' : Catalog -> Prop) :
  advances b r b' P -> (P (bt_cat b') -> P' (bt_cat b')) -> advances b r b' P'.
Proof. intros [Hg HP Hc] Himp. split; auto. Qed.

Lemma execute_cases f b cat' :
  f (bt_cat b) = Ok cat' ->
  bt_faults b <> [] /\ execute f b = (Err sqlx_error, {| bt_cat := bt_cat b; bt_faults := tail (bt_faults b) |}) \/
  execute f b = (Ok tt, {| bt_cat := cat'; bt_faults := tail (bt_faults b) |}).
Proof.
  intros Hf. unfold execute. rewrite Hf. destruct (bt_faults b) as [|[] fs]; cbn; auto.
Qed.

Lemma run_script_advances l : forall seen b,
  (forall st, st ∈ l -> st ∈ schema) -> tables_first seen l = true ->
  (forall n, n ∈ seen -> is_Some (cat_tables (bt_cat b) !! n)) -> older (bt_cat b) ->
  let '(r, b') := run_script l b in advances b r b' (fun cat => Forall (made cat) l).
Proof.
  induction l as [|st l IH]; intros seen b Hin Hfirst Hseen Hold; [by apply advances_ok|].
  cbn [run_script]. rewrite ST_bind_eq.
  destruct (create_grows st (bt_cat b)) as (cat' & Hst & Hg & Hmade); [apply Hin; left|done| |].
  { destruct st; [done|]. cbn in Hfirst. apply andb_true_iff in Hfirst as [Ht _].
    apply Hseen. by apply bool_decide_eq_true in Ht. }
  destruct (execute_cases (create st) b cat' Hst) as [[Hf ->]| ->]; [by apply advances_cut|].
  specialize (IH (match st with CreateTable n _ _ => n :: seen | _ => seen end)
                {| bt_cat := cat'; bt_faults := tail (bt_faults b) |}).
  destruct (run_script l _) as [r b'].
  assert (advances {| bt_cat := cat'; bt_faults := tail (bt_faults b) |} r b' (fun cat => Forall (made cat) l)) as Hrest.
  { apply IH; [intros; apply Hin; by right| | |by apply (gw_older _ _ Hg)].
    - destruct st; cbn in Hfirst; [done|]. by apply andb_true_iff in Hfirst as [_ ?].
    - cbn. intros n Hn. assert (is_Some (cat_tables (bt_cat b) !! n) \/ exists c k, st = CreateTable n c k) as [Hs|(c & k & ->)].
      { destruct st; [|auto]. apply elem_of_cons in Hn as [->|Hn]; eauto. }
      + exact (gw_made _ _ Hg (CreateTable n [] []) Hs).
      + exact Hmade. }
  apply (advances_step b {| bt_cat := cat'; bt_faults := tail (bt_faults b) |} r b' _ Hg); [cbn; by intros ->|]. destruct Hrest as [Hg' HP Hc].
  split; [done| |done]. intros Hok. constructor; [|auto]. exact (gw_made _ _ Hg' st Hmade).
Qed.

Lemma create_all_grows l : forall seen cat,
  (forall st, st ∈ l -> st ∈ schema) -> tables_first seen l = true ->
  (forall n, n ∈ seen -> is_Some (cat_tables cat !! n)) -> older cat ->
  exists cat', create_all l cat = Ok cat' /\ grows cat cat' /\ Forall (made cat') l.
Proof.
  intros seen cat Hin Hfirst Hseen Hold.
  pose proof (run_script_advances l seen {| bt_cat := cat; bt_faults := [] |} Hin Hfirst Hseen Hold) as Hr.
  assert (forall b, bt_faults b = [] -> match run_script l b with
    | (Ok _, b') => create_all l (bt_cat b) = Ok (bt_cat b') | _ => True end) as Hsame.
  { clear. induction l as [|st l IH]; intros [c fs] Hf; cbn in Hf; subst; [done|]. cbn [run_script create_all].
    rewrite ST_bind_eq. unfold execute. cbn. destruct (create st c) as [c'|e]; [|done]. by apply IH. }
  specialize (Hsame {| bt_cat := cat; bt_faults := [] |} eq_refl).
  destruct (run_script l _) as [r b']. destruct Hr as [Hg HP Hc]. destruct (Hc eq_refl) as [Hok _].
  destruct r; [|done]. eauto.
Qed.

Lemma duplicate_ignored name :
  str_contains "duplicate column name" ("error returned from database: " +:+ ("duplicate column name: " +:+ name)) = true.
Proof. vm_compute. reflexivity. Qed.

Lemma migrate_advances l (quiet : str_contains "duplicate column name" sqlx_error = false) : forall b,
  (forall m, m ∈ l -> m ∈ alters /\ is_Some (cat_tables (bt_cat b) !! ac_table m)) ->
  let '(r, b') := migrate l b in advances b r b' (fun cat => Forall (has_added cat) l).
Proof.
  induction l as [|m l IH]; intros b Hin; [by apply advances_ok|]. cbn [migrate].
  destruct (Hin m ltac:(left)) as [Hm Htab].
  destruct (add_column_grows m (bt_cat b) Hm Htab) as [(cat' & Hst & Hg & Hadded)|[Hdup Hadded]].
  - destruct (execute_cases (add_column m) b cat' Hst) as [[Hf ->]| ->].
    { rewrite quiet. by apply advances_cut. }
    specialize (IH {| bt_cat := cat'; bt_faults := tail (bt_faults b) |}). destruct (migrate l _) as [r b'].
    apply (advances_step b {| bt_cat := cat'; bt_faults := tail (bt_faults b) |} r b' _ Hg); [cbn; by intros ->|].
    destruct IH as [Hg' HP Hc].
    { intros x Hx. destruct (Hin x ltac:(by right)) as [Hx1 Hx2]. split; [done|].
      exact (gw_made _ _ Hg (CreateTable (ac_table x) [] []) Hx2). }
    split; [done| |done]. intros Hok. constructor; [exact (gw_added _ _ Hg' m Hadded)|auto].
  - assert (execute (add_column m) b = (Err sqlx_error, {| bt_cat := bt_cat b; bt_faults := tail (bt_faults b) |}) /\ bt_faults b <> [] \/
            execute (add_column m) b = (Err ("error returned from database: " +:+ ("duplicate column name: " +:+ ac_name m)),
              {| bt_cat := bt_cat b; bt_faults := tail (bt_faults b) |})) as [[-> Hf]| ->].
    { unfold execute. rewrite Hdup. destruct (bt_faults b) as [|[] fs]; cbn; auto. }
    { rewrite quiet. by apply advances_cut. }
    rewrite duplicate_ignored. specialize (IH {| bt_cat := bt_cat b; bt_faults := tail (bt_faults b) |}).
    cbn [negb]. destruct (migrate l _) as [r b'].
    apply (advances_step b {| bt_cat := bt_cat b; bt_faults := tail (bt_faults b) |});
      [apply grows_refl|cbn; by intros ->|].
    destruct IH as [Hg' HP Hc]; [intros; apply Hin; by right|].
    split; [done| |done]. intros Hok. constructor; [exact (gw_added _ _ Hg' m Hadded)|auto].
Qed.
End upgrade.

(** ** The backfill, on cells *)

Definition with_hash (h : string) (r : AuditRow) : AuditRow := {|
  dr_seq := dr_seq r; dr_ts := dr_ts r; dr_subject := dr_subject r; dr_decision := dr_decision r;
  dr_reason := dr_reason r; dr_action := dr_action r; dr_cluster := dr_cluster r;
  dr_method := dr_method r; dr_path := dr_path r; dr_status := dr_status r;
  dr_latency_ms := dr_latency_ms r; dr_required_json := dr_required_json r;
  dr_granted_roles := dr_granted_roles r; dr_chain_hash := h |}.

Lemma audit_cells_hash c r h :
  audit_cells c = Some r -> audit_cells (<["chain_hash" := VText h]> c) = Some (with_hash h r).
Proof.
  unfold audit_cells, get_int, get_int_opt, get_text, get_text_opt.
  rewrite !lookup_insert_eq, !lookup_insert_ne by done. intros Hr.
  repeat (apply bind_Some in Hr as (? & -> & Hr); cbn [mbind option_bind]).
  apply bind_Some in Hr as (? & _ & Hr). by injection Hr as <-.
Qed.

Definition rehash (l : list AuditRow) (rows : list Cells) : list Cells :=
  zip_with (fun r c => <["chain_hash" := VText (dr_chain_hash r)]> c) l rows.

Lemma rehash_read rows l l' :
  mapM audit_cells rows = Some l -> Forall2 (fun r r' => r' = with_hash (dr_chain_hash r') r) l l' ->
  mapM audit_cells (rehash l' rows) = Some l'.
Proof.
  rewrite !mapM_Some. intros Hl. revert l'.
  induction Hl as [|c r rows l Hc Hl IH]; intros l' Hl'; inversion Hl' as [|? r' ? l2 Hr H2]; subst; [constructor|].
  cbn. constructor; [|by apply IH]. rewrite Hr at 2. by apply audit_cells_hash.
Qed.

Lemma rehash_cells l rows row : row ∈ rehash l rows -> exists row0, row0 ∈ rows /\ dom row0 ⊆ dom row.
Proof.
  unfold rehash. intros (i & Hi)%list_elem_of_lookup. apply lookup_zip_with_Some in Hi as (r & c & -> & _ & Hc).
  exists c. split; [by eapply list_elem_of_lookup_2|]. rewrite dom_insert_L. set_solver.
Qed.

Lemma put_hashes_eq l cat t :
  cat_tables cat !! "audit_events" = Some t ->
  put_hashes l cat = put_table "audit_events" {| tb_columns := tb_columns t; tb_key := tb_key t; tb_rows := rehash l (tb_rows t) |} cat.
Proof. intros Ht. unfold put_hashes. by rewrite Ht. Qed.

Lemma table_rows_put {R} (read : Cells -> option R) n name t cat :
  n <> name -> table_rows read n (put_table name t cat) = table_rows read n cat.
Proof. intros Hn. unfold table_rows. cbn. by rewrite lookup_insert_ne. Qed.

Lemma older_put_hashes schema l cat : older schema cat -> older schema (put_hashes l cat).
Proof.
  intros [Hcells Hindex]. destruct (cat_tables cat !! "audit_events") as [t|] eqn:Ht;
    [rewrite (put_hashes_eq _ _ _ Ht)|unfold put_hashes; rewrite Ht; by split].
  split; cbn.
  - intros n t' row [[<- <-]|[_ Ht']]%lookup_insert_Some Hrow; [|eauto]. cbn in *.
    apply rehash_cells in Hrow as (row0 & Hrow & Hd). specialize (Hcells _ _ _ Ht Hrow). set_solver.
  - intros i table cols t' Hi [[<- <-]|[_ Ht']]%lookup_insert_Some; [|eauto]. exact (Hindex _ _ _ _ Hi Ht).
Qed.

Lemma made_put_hashes l cat st : made cat st -> made (put_hashes l cat) st.
Proof.
  unfold put_hashes. destruct (cat_tables cat !! "audit_events"); [|done].
  destruct st; [|done]. cbn. intros Hm. apply lookup_insert_is_Some.
  destruct (decide ("audit_events" = name)); auto.
Qed.

Lemma added_put_hashes l cat m : has_added cat m -> has_added (put_hashes l cat) m.
Proof.
  unfold put_hashes, has_added. destruct (cat_tables cat !! "audit_events") as [t|] eqn:Ht; [|done].
  intros (t' & Ht' & Hm). cbn. destruct (decide (ac_table m = "audit_events")) as [E|E].
  - rewrite E in *. rewrite lookup_insert_eq. eexists. split; [done|]. cbn. congruence.
  - rewrite lookup_insert_ne by done. eauto.
Qed.

Lemma same_entries (l l' : list ChainedAuditRow) `{StoreJson} :
  entry <$> l' = entry <$> l ->
  Forall2 (fun r r' => r' = with_hash (dr_chain_hash r') r) (trail_row <$> l) (trail_row <$> l').
Proof.
  revert l'. induction l as [|[[s e] h] l IH]; intros [|[[s' e'] h'] l'] Heq; try discriminate; [constructor|].
  rewrite !fmap_cons in Heq. injection Heq as Hs He Heq. cbn in Hs, He. subst. constructor; [done|]. by apply IH.
Qed.

Section view.
Context `{BoolCell}.

Lemma view_trail cat d : view cat = Some d -> table_rows audit_cells "audit_events" cat = Some (d_audit_events d).
Proof. unfold view. intros Hv. repeat (apply bind_Some in Hv as (? & ? & Hv)). by injection Hv as <-. Qed.

Lemma view_put_hashes cat d l :
  view cat = Some d -> Forall2 (fun r r' => r' = with_hash (dr_chain_hash r') r) (d_audit_events d) l ->
  view (put_hashes l cat) = Some (write audit_events l d).
Proof.
  intros Hv Hl. pose proof (view_trail _ _ Hv) as Ha. unfold table_rows in Ha.
  apply bind_Some in Ha as (t & Ht & Ha). rewrite (put_hashes_eq _ _ _ Ht).
  assert (table_rows audit_cells "audit_events" (put_table "audit_events"
    {| tb_columns := tb_columns t; tb_key := tb_key t; tb_rows := rehash l (tb_rows t) |} cat) = Some l) as Hnew.
  { unfold table_rows. cbn. rewrite lookup_insert_eq. cbn. by eapply rehash_read. }
  unfold view in *. rewrite Hnew, !table_rows_put by done.
  repeat (apply bind_Some in Hv as (? & -> & Hv); cbn [mbind option_bind]).
  apply bind_Some in Hv as (? & _ & Hv). cbn [mbind option_bind].
  repeat (apply bind_Some in Hv as (? & -> & Hv); cbn [mbind option_bind]). by injection Hv as <-.
Qed.
End view.

(** ** Booting an older database *)

(** What a boot from [b] does, when the catalog completed reads as [d] with the
    trail [pre], chained, and [suf], not yet: the rows and cells stay, the trail is
    chained further, and it can be booted again; a boot that ends well has every
    column and the whole chain. *)
Section outcome.
Context (schema : list Ddl) (alters : list AddColumn).
Context `{BC : BoolColumn} `{!BoolCell} `{StoreJson} `{AuditCodec}.

Record boots (b : Boot) (r : result StoreError (option unit)) (b' : Boot)
    (d : Database) (pre suf : list ChainedAuditRow) : Prop := {
  bo_older : older schema (bt_cat b');
  bo_trail : exists now rest d',
    view (upgraded schema alters (bt_cat b')) = Some d' /\ d' = write audit_events (d_audit_events d') d /\
    pending d' (pre ++ now) rest /\ entry <$> now ++ rest = entry <$> suf /\
    (is_ok r = true -> rest = []);
  bo_done : is_ok r = true -> r = Ok (Some tt) /\ upgraded schema alters (bt_cat b') = bt_cat b';
  bo_calm : bt_faults b = [] -> is_ok r = true;
}.

Lemma boots_cut b e b' d pre suf :
  older schema (bt_cat b) -> grows schema alters (bt_cat b) (bt_cat b') -> bt_faults b <> [] ->
  view (upgraded schema alters (bt_cat b)) = Some d -> pending d pre suf -> boots b (Err e) b' d pre suf.
Proof.
  intros Hold Hg Hf Hv Hp. split; [by apply (gw_older _ _ _ _ Hg)| |done|done].
  exists [], suf, d. rewrite (gw_upgraded _ _ _ _ Hg), app_nil_r. split_and!; [done|by destruct d|done..].
Qed.

Lemma boots_step b b1 r b' d pre suf :
  (bt_faults b = [] -> bt_faults b1 = []) -> boots b1 r b' d pre suf -> boots b r b' d pre suf.
Proof. intros Hf [? ? ? ?]. split; auto. Qed.

Context `{SqlEngineLaws} `{!BoolColumnLaw}.
Context (hash_nonempty : forall p e, audit_chain_hash p e <> "").

Lemma trail_boots b d pre suf :
  older schema (bt_cat b) -> Forall (made (bt_cat b)) schema -> Forall (has_added (bt_cat b)) alters ->
  view (upgraded schema alters (bt_cat b)) = Some d -> pending d pre suf ->
  let '(r, b') := on_trail backfill_audit_chain b in boots b r b' d pre suf.
Proof.
  intros Hold Hm Ha Hv Hp. rewrite (upgraded_complete schema alters) in Hv by done.
  unfold on_trail. rewrite (view_trail _ _ Hv).
  set (c0 := {| db := write audit_events (d_audit_events d) empty_db; faults := bt_faults b |}).
  assert (pending (db c0) pre suf) as Hp0 by (by destruct Hp; split).
  pose proof (backfill_chains_the_trail hash_nonempty c0 pre suf Hp0) as Hb.
  destruct (backfill_audit_chain c0) as [r c]. destruct Hb as (now & rest & Hp' & He & _ & Hok & Hcalm).
  set (l := d_audit_events (db c)).
  assert (Forall2 (fun x x' => x' = with_hash (dr_chain_hash x') x) (d_audit_events d) l) as Hl.
  { unfold l. rewrite (pd_rows _ _ _ Hp), (pd_rows _ _ _ Hp'). apply same_entries. rewrite <- app_assoc, !fmap_app.
    f_equal. by rewrite <- fmap_app. }
  assert (older schema (put_hashes l (bt_cat b))) as Hold' by by apply older_put_hashes.
  assert (upgraded schema alters (put_hashes l (bt_cat b)) = put_hashes l (bt_cat b)) as Hup.
  { apply upgraded_complete; [done| |].
    - eapply Forall_impl; [exact Hm|]. intros st. apply made_put_hashes.
    - eapply Forall_impl; [exact Ha|]. intros m. apply added_put_hashes. }
  split; cbn [bt_cat bt_faults]; [done| | |exact Hcalm].
  - exists now, rest, (write audit_events l d). rewrite Hup. split_and!; [by apply view_put_hashes|done| |done|].
    + destruct Hp'. by split.
    + intros Hr. by apply Hok in Hr as [_ ?].
  - intros Hr. split; [by apply Hok in Hr as [? _]|done].
Qed.
End outcome.

(** ** The two databases *)

Ltac sound_script :=
  split; [reflexivity|by apply (bool_decide_unpack _)|by apply (bool_decide_unpack _)| |by apply (bool_decide_unpack _)|];
  repeat (apply Forall_cons; split); try apply Forall_nil; cbn beta iota;
  try exact I; try (split; [apply (bool_decide_unpack _)|]); vm_compute; reflexivity.

Lemma sqlite_sound : sound SqliteSchema.SCHEMA SqliteSchema.COLUMN_MIGRATIONS.
Proof. sound_script. Qed.
Lemma postgres_sound : sound PostgresSchema.SCHEMA PostgresSchema.ALTERS.
Proof. sound_script. Qed.

Section boots.
Context `{SqlEngineLaws} `{StoreJson} `{AuditCodec}.

(** Run alone, the backfill of Postgres is that of SQLite over its own booleans. *)
Lemma run_alone_bind {A B} (p : Prog A) (f : A -> Prog B) c :
  run_alone (p ≫= f) c = (run_alone p ≫= (fun a => run_alone (f a))) c.
Proof.
  rewrite ST_bind_eq. revert c. induction p as [[a|e]|key p IH|X g k IH]; intros c; [done|done|..].
  - change (Lock key p ≫= f) with (Lock key (p ≫= f)). cbn [run_alone]. rewrite !ST_bind_eq.
    destruct (SqliteStore.select _ c) as [[]]; [apply IH|done].
  - change (Stmt X g k ≫= f) with (Stmt X g (fun x => k x ≫= f)). cbn [run_alone]. rewrite !ST_bind_eq.
    destruct (SqliteStore.statement _ c) as [[]]; [apply IH|done].
Qed.

Lemma backfill_step_alone c :
  run_alone PostgresStore.backfill_step c = @SqliteStore.backfill_step _ postgres_bool _ _ c.
Proof.
  unfold PostgresStore.backfill_step, SqliteStore.backfill_step.
  unfold PostgresStore.fetch_ordered, PostgresStore.select, PostgresStore.statement.
  unfold SqliteStore.fetch_ordered, SqliteStore.select.
  rewrite run_alone_bind, !ST_bind_eq. cbn [run_alone]. rewrite ST_bind_eq.
  destruct (SqliteStore.statement _ c) as [[[|row l]|e] c1]; [done| |done].
  cbn [SqliteStore.lift]. change (PostgresStore.row_to_audit_event row) with (SqliteStore.row_to_audit_event row).
  unfold SqliteStore.lift at 1. rewrite run_alone_bind, !ST_bind_eq. cbn [run_alone PostgresStore.lift].
  unfold SqliteStore.lift. destruct (SqliteStore.row_to_audit_event row) as [[seq event]|e]; [|done].
  rewrite run_alone_bind, !ST_bind_eq. cbn [run_alone]. rewrite ST_bind_eq.
  destruct (SqliteStore.statement _ c1) as [[before|e] c2]; [|done]. unfold SqliteStore.lift.
  unfold PostgresStore.update, PostgresStore.statement, SqliteStore.update.
  rewrite run_alone_bind, !ST_bind_eq. cbn [run_alone]. rewrite ST_bind_eq.
  by destruct (SqliteStore.statement _ c2) as [[n|e] c3].
Qed.

Lemma backfill_loop_alone fuel : forall c,
  run_alone (PostgresStore.backfill_loop fuel) c = @SqliteStore.backfill_loop _ postgres_bool _ _ fuel c.
Proof.
  induction fuel as [|fuel IH]; intros c; [done|]. cbn [PostgresStore.backfill_loop SqliteStore.backfill_loop].
  rewrite run_alone_bind, !ST_bind_eq, backfill_step_alone.
  destruct (SqliteStore.backfill_step c) as [[[]|e] c1]; [apply IH|done|done].
Qed.

Context (hash_nonempty : forall p e, audit_chain_hash p e <> "").
Context (quiet : str_contains "duplicate column name" sqlx_error = false).

Lemma into_advances schema alters {A} (m : ST Boot string A) b P :
  (let '(r, b') := m b in advances schema alters b r b' P) ->
  let '(r, b') := into m b in advances schema alters b r b' P.
Proof.
  unfold into. destruct (m b) as [r b']. intros [Hg HP Hc]. split; [done|..].
  - intros Hok. apply HP. by destruct r.
  - intros Hf. destruct (Hc Hf). by destruct r.
Qed.

Lemma ping_advances schema alters b :
  let '(r, b') := into (execute Ok) b in advances schema alters b r b' (fun _ => True).
Proof.
  apply into_advances. unfold execute. destruct (bt_faults b) as [|[] fs] eqn:E; split; cbn;
    auto using grows_refl; rewrite E; try done.
Qed.

(** A first stage that advances, then the rest of the boot. *)
Lemma advances_boots schema alters `{BC : BoolColumn} `{!BoolCell} {A} (m : ST Boot StoreError A)
    (k : A -> ST Boot StoreError (option unit)) b d pre suf P :
  older schema (bt_cat b) -> view (upgraded schema alters (bt_cat b)) = Some d -> pending d pre suf ->
  (let '(r, b') := m b in advances schema alters b r b' P) ->
  (forall a b', older schema (bt_cat b') -> P (bt_cat b') -> view (upgraded schema alters (bt_cat b')) = Some d ->
     grows schema alters (bt_cat b) (bt_cat b') ->
     let '(r, b2) := k a b' in boots schema alters b' r b2 d pre suf) ->
  let '(r, b') := (m ≫= k) b in boots schema alters b r b' d pre suf.
Proof.
  intros Hold Hv Hp Hm Hk. rewrite ST_bind_eq. destruct (m b) as [[a|e] b1]; destruct Hm as [Hg HP Hc].
  - specialize (Hk a b1 (gw_older _ _ _ _ Hg Hold) (HP eq_refl)). rewrite (gw_upgraded _ _ _ _ Hg) in Hk.
    specialize (Hk Hv Hg). destruct (k a b1) as [r b2]. eapply boots_step; [|exact Hk]. intros Hf. by apply Hc.
  - apply boots_cut; [done..| |done|done]. intros Hf. by destruct (Hc Hf).
Qed.

Lemma sqlite_boots b d pre suf :
  older SqliteSchema.SCHEMA (bt_cat b) ->
  @view sqlite_bool _ (upgraded SqliteSchema.SCHEMA SqliteSchema.COLUMN_MIGRATIONS (bt_cat b)) = Some d ->
  pending d pre suf ->
  let '(r, b') := sqlite_init b in
  boots SqliteSchema.SCHEMA SqliteSchema.COLUMN_MIGRATIONS b r b' d pre suf.
Proof.
  intros Hold Hv Hp. unfold sqlite_init. pose proof sqlite_sound as Hs.
  eapply advances_boots; [done..|apply ping_advances|]. intros _ b1 Hold1 _ Hv1 _. clear b Hold Hv.
  eapply advances_boots; [done..|apply into_advances, run_script_advances with (seen := []); [done|done|apply Hs|set_solver|done]|].
  intros _ b2 Hold2 Hm Hv2 _.
  eapply advances_boots; [done..|apply (migrate_advances _ _ Hs _ quiet); intros m Hin; split; [done|by apply (altered_made _ _ Hs)]|].
  intros _ b' Hold' Ha Hv' Hg. apply trail_boots; try done.
  eapply Forall_impl; [exact Hm|]. intros st. apply (gw_made _ _ _ _ Hg).
Qed.

Lemma run_alters_advances l : forall b,
  (forall m, m ∈ l -> m ∈ PostgresSchema.ALTERS /\ is_Some (cat_tables (bt_cat b) !! ac_table m)) ->
  let '(r, b') := run_alters l b in
  advances PostgresSchema.SCHEMA PostgresSchema.ALTERS b r b' (fun cat => Forall (has_added cat) l).
Proof.
  induction l as [|m l IH]; intros b Hin; [by apply advances_ok|]. cbn [run_alters]. rewrite ST_bind_eq.
  destruct (Hin m ltac:(left)) as [Hm Htab].
  assert (exists cat', add_column_if_absent m (bt_cat b) = Ok cat' /\
    grows PostgresSchema.SCHEMA PostgresSchema.ALTERS (bt_cat b) cat' /\ has_added cat' m) as (cat' & Hst & Hg & Hadded).
  { unfold add_column_if_absent. destruct (add_column_grows _ _ postgres_sound m (bt_cat b) Hm Htab)
      as [(cat' & Hst & Hg & Hadded)|[Hdup (t & Ht & Hcol)]].
    - destruct (cat_tables (bt_cat b) !! ac_table m) as [t|] eqn:Ht; [|eauto].
      destruct (tb_columns t !! ac_name m) eqn:Hc; [|eauto]. unfold add_column in Hst. rewrite Ht, Hc in Hst. done.
    - rewrite Ht. destruct Hcol as [c Hc]. rewrite Hc. exists (bt_cat b). split; [done|]. split; [apply grows_refl|].
      exists t. rewrite Hc. eauto. }
  destruct (execute_cases (add_column_if_absent m) b cat' Hst) as [[Hf ->]| ->]; [by apply advances_cut|].
  specialize (IH {| bt_cat := cat'; bt_faults := tail (bt_faults b) |}). destruct (run_alters l _) as [r b'].
  apply (advances_step _ _ b {| bt_cat := cat'; bt_faults := tail (bt_faults b) |} r b' _ Hg); [cbn; by intros ->|].
  destruct IH as [Hg' HP Hc].
  { intros x Hx. destruct (Hin x ltac:(by right)) as [Hx1 Hx2]. split; [done|].
    exact (gw_made _ _ _ _ Hg (CreateTable (ac_table x) [] []) Hx2). }
  split; [done| |done]. intros Hok. constructor; [exact (gw_added _ _ _ _ Hg' m Hadded)|auto].
Qed.

Lemma script_advances b :
  older PostgresSchema.SCHEMA (bt_cat b) ->
  let '(r, b') := execute (create_all PostgresSchema.SCHEMA) b in
  advances PostgresSchema.SCHEMA PostgresSchema.ALTERS b r b' (fun cat => Forall (made cat) PostgresSchema.SCHEMA).
Proof.
  intros Hold. pose proof postgres_sound as Hs.
  destruct (create_all_grows _ _ Hs PostgresSchema.SCHEMA [] (bt_cat b)) as (cat' & Hst & Hg & Hm);
    [done|apply Hs|set_solver|done|].
  destruct (execute_cases _ b cat' Hst) as [[Hf ->]| ->]; [by apply advances_cut|].
  split; [done|done|]. cbn. by intros ->.
Qed.

Lemma postgres_boots b d pre suf :
  older PostgresSchema.SCHEMA (bt_cat b) ->
  @view postgres_bool _ (upgraded PostgresSchema.SCHEMA PostgresSchema.ALTERS (bt_cat b)) = Some d ->
  pending d pre suf ->
  let '(r, b') := postgres_init b in boots PostgresSchema.SCHEMA PostgresSchema.ALTERS b r b' d pre suf.
Proof.
  intros Hold Hv Hp. unfold postgres_init. pose proof postgres_sound as Hs.
  eapply advances_boots; [done..|apply into_advances; by apply script_advances|].
  intros _ b2 Hold2 Hm Hv2 _.
  eapply advances_boots; [done..|apply into_advances, run_alters_advances; intros m Hin; split; [done|by apply (altered_made _ _ Hs)]|].
  intros _ b' Hold' Ha Hv' Hg.
  replace (on_trail _ b') with (on_trail (@backfill_audit_chain _ postgres_bool _ _) b').
  - apply trail_boots; try done. eapply Forall_impl; [exact Hm|]. intros st. apply (gw_made _ _ _ _ Hg).
  - unfold on_trail. destruct (table_rows _ _ _); [|done]. by rewrite backfill_loop_alone.
Qed.

End boots.

(** ** Concrete runs

    A database from before the hash column and the tombstones, with a cluster and
    two audit rows, on the engine of [SqliteProps.Toy]. *)
Module BootRuns.
#[local] Existing Instance Toy.codec.
#[local] Existing Instance Toy.engine.
#[local] Existing Instance Toy.engine_laws.
#[local] Existing Instance Toy.json.

Definition txt (o : option string) : Value := match o with Some s => VText s | None => VNull end.
Definition int (o : option Z) : Value := match o with Some z => VInt z | None => VNull end.
Definition old_audit_cells (r : AuditRow) : Cells := list_to_map [
  ("seq", VInt (dr_seq r)); ("ts", VInt (dr_ts r)); ("subject", txt (dr_subject r));
  ("decision", VText (dr_decision r)); ("reason", txt (dr_reason r)); ("action", txt (dr_action r));
  ("cluster", txt (dr_cluster r)); ("method", txt (dr_method r)); ("path", txt (dr_path r));
  ("status", int (dr_status r)); ("latency_ms", int (dr_latency_ms r));
  ("required_json", txt (dr_required_json r)); ("granted_roles", VText (dr_granted_roles r))].
Definition old_cluster_cells : Cells := list_to_map [
  ("id", VText "c1"); ("spec_json", VText "{}"); ("generation", VInt 3); ("desired", VText "running");
  ("observed_state", VNull); ("observed_generation", VInt 2); ("condition", VNull);
  ("failure_count", VInt 0); ("next_attempt_at", VInt 0); ("created_at", VInt 7)].

Definition columns_of (table : string) : gmap string Column :=
  default ∅ (tb_columns <$> created SqliteSchema.SCHEMA !! table).
Definition old_catalog : Catalog := {|
  cat_tables := {[
    "clusters" := {| tb_columns := delete "terminated_at" (columns_of "clusters"); tb_key := ["id"];
                     tb_rows := [old_cluster_cells] |};
    "audit_events" := {| tb_columns := delete "chain_hash" (columns_of "audit_events"); tb_key := ["seq"];
                         tb_rows := old_audit_cells <$> (trail_row <$> Toy.old_rows) |} ]};
  cat_indexes := ∅; cat_seq := 2 |}.
Definition old_boot (faults : list bool) : Boot := {| bt_cat := old_catalog; bt_faults := faults |}.

Definition old_view `{BC : BoolColumn} : Database := write clusters [{|
  cr_id := "c1"; cr_spec_json := "{}"; cr_generation := 3; cr_desired := "running";
  cr_observed_state := None; cr_observed_generation := 2; cr_condition := None; cr_failure_count := 0;
  cr_next_attempt_at := 0; cr_created_at := 7; cr_terminated_at := None |}]
  (write_audit_seq 2 (write audit_events (trail_row <$> Toy.old_rows) empty_db)).

Lemma sqlite_old_view :
  @view sqlite_bool _ (upgraded SqliteSchema.SCHEMA SqliteSchema.COLUMN_MIGRATIONS old_catalog) = Some (@old_view sqlite_bool).
Proof. vm_compute. reflexivity. Qed.
Lemma postgres_old_view :
  @view postgres_bool _ (upgraded PostgresSchema.SCHEMA PostgresSchema.ALTERS old_catalog) = Some old_view.
Proof. vm_compute. reflexivity. Qed.

Lemma old_older schema :
  Forall (fun st => match st with
    | CreateIndex _ table columns => has_columns columns <$> cat_tables old_catalog !! table <> Some false
    | _ => True end) schema -> older schema old_catalog.
Proof.
  intros Hidx. split.
  - intros name t row Ht Hrow. unfold old_catalog in Ht. cbn [cat_tables] in Ht.
    apply lookup_insert_Some in Ht as [[<- <-]|[_ [<- <-]%lookup_singleton_Some]]; cbn [tb_rows] in Hrow;
      repeat (apply elem_of_cons in Hrow as [->|Hrow]; [apply (bool_decide_unpack _); vm_compute; exact I|]);
      by apply elem_of_nil in Hrow.
  - intros name table columns t Hin Ht. rewrite Forall_forall in Hidx. specialize (Hidx _ Hin). cbn beta iota in Hidx.
    rewrite Ht in Hidx. cbn in Hidx. by destruct (has_columns columns t).
Qed.
Lemma sqlite_old_older : older SqliteSchema.SCHEMA old_catalog.
Proof. apply old_older. repeat (apply Forall_cons; split); try apply Forall_nil; try exact I; vm_compute; discriminate. Qed.
Lemma postgres_old_older : older PostgresSchema.SCHEMA old_catalog.
Proof. apply old_older. repeat (apply Forall_cons; split); try apply Forall_nil; try exact I; vm_compute; discriminate. Qed.

Lemma old_view_pending `{BC : BoolColumn} : pending old_view [] Toy.old_rows.
Proof. destruct Toy.old_pending. by split. Qed.

(** After the boot the whole trail is chained, its entries the old ones. *)
Definition chained_now `{BC : BoolColumn} `{!BoolCell} (cat : Catalog) : Prop :=
  exists d l, view cat = Some d /\ pending d l [] /\ entry <$> l = entry <$> Toy.old_rows.


(** A boot cut short reports the failure, with the hash column still to come, and
    the next one reads as an undisturbed one does. *)
Definition cut : list bool := replicate 20 false ++ [true].
Definition after_cut : Catalog := bt_cat (snd (sqlite_init (old_boot cut))).
Example cut_boot_recovers :
  fst (sqlite_init (old_boot cut)) = Err (Backend "database is locked") /\
  has_columns ["chain_hash"] <$> cat_tables after_cut !! "audit_events" = Some false /\
  @view sqlite_bool _ (bt_cat (snd (sqlite_init {| bt_cat := after_cut; bt_faults := [] |})))
  = @view sqlite_bool _ (bt_cat (snd (sqlite_init (old_boot [])))).
Proof. split_and!; vm_compute; reflexivity. Qed.

(** On a fresh SQLite database the migrations are not all duplicates: [observed_at]
    of the pools is in no CREATE TABLE. *)
Definition fresh (column : string) : option bool :=
  match create_all SqliteSchema.SCHEMA empty_catalog with
  | Ok cat => has_columns [column] <$> cat_tables cat !! "pools"
  | Err _ => None
  end.
Example fresh_schema_lacks_observed_at :
  fresh "observed_json" = Some true /\ fresh "observed_at" = Some false /\
  has_columns ["observed_at"] <$> cat_tables (bt_cat (snd (sqlite_in_memory []))) !! "pools" = Some true.
Proof. split_and!; vm_compute; reflexivity. Qed.
End BootRuns.
