(* ===== verification/Http.v ===== *)
(** * HTTP messages of the proxies

    Header maps, body streams and the southbound client, shared by the gateway
    (mobula-api/src/gateway.rs), the inline proxy (mobula-proxy) and the
    observability routes (cluster_obs.rs). The header filters of gateway.rs are
    here because mobula-proxy repeats them. *)

From S2P Require Import Prelude Float64 Core Store Registry AuthLayer.
#[local] Open Scope Z_scope.

(** ** [http::HeaderMap]

    Names are lower case; a name may have several values, kept in order. *)

Abbreviation Bytes := (list ascii).
Abbreviation HeaderMap := (list (string * Bytes)).

Definition hm_get_all (name : string) (h : HeaderMap) : list Bytes :=
  snd <$> filter (fun kv => kv.1 = name) h.
Definition hm_get (name : string) (h : HeaderMap) : option Bytes := head (hm_get_all name h).
Definition hm_contains_key (name : string) (h : HeaderMap) : bool := bool_decide (is_Some (hm_get name h)).
(** [append] keeps what the name has, [insert] replaces it. *)
Definition hm_append (h : HeaderMap) (name : string) (value : Bytes) : HeaderMap := h ++ [(name, value)].
Definition hm_insert (h : HeaderMap) (name : string) (value : Bytes) : HeaderMap :=
  filter (fun kv => kv.1 <> name) h ++ [(name, value)].

(** [str::split] at one byte: always at least one piece. *)
Fixpoint split_bytes (sep : ascii) (l : Bytes) : list Bytes :=
  match l with
  | [] => [[]]
  | c :: l' =>
      if Ascii.eqb c sep then [] :: split_bytes sep l'
      else match split_bytes sep l' with [] => [[c]] | p :: ps => (c :: p) :: ps end
  end.

(** [HeaderValue::from_str]: the bytes of the text, when they are legal. *)
Class HeaderValues := header_value : string -> option Bytes.
Class HeaderValueLaws `{HeaderValues} := header_value_bytes : forall s v,
  header_value s = Some v -> v = bytes_of s.

(** ** Bodies

    A body is a stream of chunks; [None] is an error of the stream. *)
Abbreviation Stream := (list (option Bytes)).

Inductive BufferError := TooLarge | Broken.

(** Buffering with a hard cap ([axum::body::to_bytes], and the loops of
    cluster_obs.rs). *)
Fixpoint buffer (cap : Z) (acc : Bytes) (s : Stream) : result BufferError Bytes :=
  match s with
  | [] => Ok acc
  | None :: _ => Err Broken
  | Some chunk :: s' =>
      if Z.ltb cap (Z.of_nat (length acc) + Z.of_nat (length chunk)) then Err TooLarge
      else buffer cap (acc ++ chunk) s'
  end.

(** ** The southbound client

    A request as handed to the client, and what comes back; the network is a
    function of what was sent before. Redirects are not followed. *)
Record SouthRequest := {
  so_method : string;
  so_url : string;
  so_headers : HeaderMap;
  so_body : Bytes;
}.
Record Upstream := {
  up_status : Z;
  up_headers : HeaderMap;
  up_body : Stream;
  up_millis : Z; (* how long the exchange took *)
}.
Class Network := exchange : list SouthRequest -> SouthRequest -> option Upstream.

(** [StatusCode::is_success]. *)
Definition is_success (status : Z) : bool := Z.leb 200 status && Z.ltb status 300.

(** ** Header filters (gateway.rs and mobula-proxy) *)

Section filters.
Context `{Http}.

Definition is_hop_by_hop (name : string) : bool :=
  bool_decide (name ∈ ["connection"; "keep-alive"; "proxy-authenticate"; "proxy-authorization";
                       "te"; "trailer"; "transfer-encoding"; "upgrade"]%string).

Definition is_forwarded (name : string) : bool :=
  String.eqb name "x-forwarded-for" || String.eqb name "x-forwarded-host"
  || String.eqb name "x-forwarded-proto".

Definition connection_nominated (headers : HeaderMap) : list string :=
  let values := omap header_to_str (hm_get_all "connection" headers) in
  let names := values ≫= fun v => split_bytes "," (bytes_of v) in
  filter (fun name => name <> EmptyString) ((fun l => to_ascii_lowercase (str_of (trim_bytes l))) <$> names).

Definition dropped_southbound (nominated : list string) (name : string) : bool :=
  is_hop_by_hop name || bool_decide (name ∈ nominated) || String.eqb name "host"
  || String.eqb name "authorization" || String.eqb name "content-length"
  || String.eqb name "cookie" || String.eqb name "forwarded" || is_forwarded name.

Definition southbound_headers (inbound : HeaderMap) : HeaderMap :=
  let nominated := connection_nominated inbound in
  foldl (fun headers kv =>
    if dropped_southbound nominated kv.1 then headers else hm_append headers kv.1 kv.2) [] inbound.

Definition dropped_northbound (nominated : list string) (name : string) : bool :=
  is_hop_by_hop name || bool_decide (name ∈ nominated)
  || String.eqb name "location" || String.eqb name "server".

Definition response_headers (upstream : HeaderMap) : HeaderMap :=
  let nominated := connection_nominated upstream in
  foldl (fun headers kv =>
    if dropped_northbound nominated kv.1 then headers else hm_insert headers kv.1 kv.2) [] upstream.
End filters.

(** ** Facts *)

Lemma buffer_bounded cap acc s b :
  buffer cap acc s = Ok b -> Z.of_nat (length b) <= Z.max (Z.of_nat (length acc)) cap.
Proof.
  revert acc. induction s as [|[chunk|] s IH]; intros acc; cbn; [intros [= <-]; lia| |done].
  destruct (Z.ltb_spec cap (Z.of_nat (length acc) + Z.of_nat (length chunk))); [done|].
  intros Hb%IH. rewrite length_app in Hb. lia.
Qed.

Lemma elem_get_all name v h : v ∈ hm_get_all name h <-> (name, v) ∈ h.
Proof.
  unfold hm_get_all. rewrite list_elem_of_fmap. split.
  - intros ([n x] & -> & [Hn Hin]%list_elem_of_filter). cbn in *. by subst.
  - intros Hin. exists (name, v). by rewrite list_elem_of_filter.
Qed.

Lemma elem_insert h name value k v :
  (k, v) ∈ hm_insert h name value <-> k <> name /\ (k, v) ∈ h \/ k = name /\ v = value.
Proof. unfold hm_insert. rewrite elem_of_app, list_elem_of_filter, list_elem_of_singleton. cbn. naive_solver. Qed.

Lemma get_all_insert h name value k :
  hm_get_all k (hm_insert h name value) = if String.eqb k name then [value] else hm_get_all k h.
Proof.
  unfold hm_get_all, hm_insert. rewrite filter_app, fmap_app.
  destruct (String.eqb_spec k name) as [->|Hne].
  - rewrite filter_cons_True by done. cbn. rewrite list_filter_filter. cut (forall l : HeaderMap,
      filter (fun kv => kv.1 = name /\ kv.1 <> name) l = []); [by intros ->|].
    induction l as [|kv l IH]; [done|]. by rewrite filter_cons_False by naive_solver.
  - rewrite list_filter_filter, (list_filter_iff _ (fun kv => kv.1 = k)) by (intros []; cbn; naive_solver).
    rewrite filter_cons_False by (cbn; congruence). cbn. by rewrite app_nil_r.
Qed.

Lemma get_all_filter (drop : string -> bool) name (h : HeaderMap) :
  hm_get_all name (filter (fun kv => drop kv.1 = false) h) = if drop name then [] else hm_get_all name h.
Proof.
  unfold hm_get_all. rewrite list_filter_filter.
  induction h as [|[k v] h IH]; [by destruct (drop name)|].
  destruct (decide (k = name)) as [->|Hne].
  - rewrite (filter_cons_True (fun kv => kv.1 = name)) by done. destruct (drop name) eqn:E.
    + rewrite filter_cons_False by (cbn; naive_solver congruence). done.
    + rewrite filter_cons_True by done. cbn. by f_equal.
  - rewrite !filter_cons_False by (cbn; naive_solver). done.
Qed.

(** The loop that appends is a filter. *)
Lemma foldl_append (drop : string -> bool) inbound :
  foldl (fun headers (kv : string * Bytes) => if drop kv.1 then headers else hm_append headers kv.1 kv.2) [] inbound
  = filter (fun kv => drop kv.1 = false) inbound.
Proof.
  induction inbound as [|[k v] l IH] using rev_ind; [done|].
  rewrite foldl_app, IH, filter_app. cbn [foldl fst snd]. destruct (drop k) eqn:E.
  - rewrite filter_cons_False by (cbn; congruence). by rewrite app_nil_r.
  - by rewrite filter_cons_True.
Qed.

(** The loop that inserts keeps the last value of every name that passes. *)
Lemma foldl_insert (drop : string -> bool) upstream k :
  hm_get_all k (foldl (fun headers (kv : string * Bytes) =>
               if drop kv.1 then headers else hm_insert headers kv.1 kv.2) [] upstream)
  = if drop k then [] else match last (hm_get_all k upstream) with Some v => [v] | None => [] end.
Proof.
  induction upstream as [|[n v] l IH] using rev_ind; [by destruct (drop k)|].
  rewrite foldl_app. cbn [foldl fst snd].
  assert (hm_get_all k (l ++ [(n, v)]) = hm_get_all k l ++ if String.eqb k n then [v] else []) as ->.
  { unfold hm_get_all. rewrite filter_app, fmap_app. f_equal. destruct (String.eqb_spec k n) as [->|Hne].
    - by rewrite filter_cons_True.
    - by rewrite filter_cons_False by (cbn; congruence). }
  destruct (drop n) eqn:En.
  - rewrite IH. destruct (drop k) eqn:Ek; [done|].
    destruct (String.eqb_spec k n) as [->|]; [congruence|]. by rewrite app_nil_r.
  - rewrite get_all_insert. destruct (String.eqb_spec k n) as [->|Hne].
    + by rewrite En, last_snoc.
    + by rewrite app_nil_r.
Qed.

(** The names that never cross, spelled out: those of one connection (RFC 9110
    7.6.1), and southbound the caller's host, credentials and provenance,
    northbound what tells of the upstream. A peer adds to them by nominating names
    in its Connection header. *)
Definition connection_names : list string :=
  ["connection"; "keep-alive"; "proxy-authenticate"; "proxy-authorization"; "te"; "trailer";
   "transfer-encoding"; "upgrade"].
Definition never_southbound : list string :=
  connection_names ++ ["host"; "authorization"; "content-length"; "cookie"; "forwarded";
    "x-forwarded-for"; "x-forwarded-host"; "x-forwarded-proto"].
Definition never_northbound : list string := connection_names ++ ["location"; "server"].

Section facts.
Context `{Http}.

Lemma dropped_southbound_names nominated name :
  dropped_southbound nominated name = bool_decide (name ∈ never_southbound ++ nominated).
Proof.
  apply eq_true_iff_eq. rewrite bool_decide_eq_true. unfold dropped_southbound, is_hop_by_hop, is_forwarded.
  rewrite !orb_true_iff, !bool_decide_eq_true, !String.eqb_eq.
  unfold never_southbound, connection_names. set_solver.
Qed.

Lemma dropped_northbound_names nominated name :
  dropped_northbound nominated name = bool_decide (name ∈ never_northbound ++ nominated).
Proof.
  apply eq_true_iff_eq. rewrite bool_decide_eq_true. unfold dropped_northbound, is_hop_by_hop.
  rewrite !orb_true_iff, !bool_decide_eq_true, !String.eqb_eq.
  unfold never_northbound, connection_names. set_solver.
Qed.

Lemma southbound_headers_filter inbound :
  southbound_headers inbound
  = filter (fun kv => dropped_southbound (connection_nominated inbound) kv.1 = false) inbound.
Proof. unfold southbound_headers. by rewrite foldl_append. Qed.

Lemma southbound_get_all inbound name :
  hm_get_all name (southbound_headers inbound)
  = if decide (name ∈ never_southbound ++ connection_nominated inbound) then [] else hm_get_all name inbound.
Proof.
  rewrite southbound_headers_filter, (get_all_filter (dropped_southbound _)), dropped_southbound_names.
  case_bool_decide; [by rewrite decide_True|by rewrite decide_False].
Qed.

Lemma southbound_no_authorization inbound v : ("authorization"%string, v) ∉ southbound_headers inbound.
Proof.
  rewrite southbound_headers_filter, list_elem_of_filter. intros [Hd _]. revert Hd.
  unfold dropped_southbound. cbn. by rewrite !orb_true_r.
Qed.

Lemma response_headers_get_all upstream k :
  hm_get_all k (response_headers upstream)
  = if decide (k ∈ never_northbound ++ connection_nominated upstream) then []
    else match last (hm_get_all k upstream) with Some v => [v] | None => [] end.
Proof.
  unfold response_headers. rewrite foldl_insert, dropped_northbound_names. case_bool_decide; [by rewrite decide_True|by rewrite decide_False].
Qed.
End facts.
