(* ===== verification/ObsApi.v ===== *)
(** * Cluster observability routes (mobula-api/src/cluster_obs.rs)

    Nodes, events and logs from the backend, jobs and metrics from the cluster's
    Ray dashboard. A route answers a view, or stops early with a response; the
    world holds the API's store and clock, the backend, the requests sent
    southbound and the free permits. *)

From S2P Require Import Prelude Float64 Core Store Json Provision Nodes Auth Oidc Registry Api AuthLayer Http.
#[local] Open Scope Z_scope.

Definition MAX_JOBS_BODY_BYTES : Z := 8 * 1024 * 1024.
Definition MAX_INFLIGHT : Z := 64.
Definition MAX_STATUS_BODY_BYTES : Z := 4 * 1024 * 1024.
Definition DEFAULT_LOG_TAIL : Z := 200.
Definition MAX_LOG_TAIL : Z := 5000.

(** ** Ray's job list *)

Record RayJobSummary := {
  rj_job_id : option string;
  rj_submission_id : option string;
  rj_status : option string;
  rj_entrypoint : option string;
  rj_start_time : option Z;
  rj_end_time : option Z;
  rj_message : option string;
}.

Definition job_summary (j : Value) : RayJobSummary :=
  let s k := json_get k j ≫= as_str in {|
  rj_job_id := s "job_id"%string; rj_submission_id := s "submission_id"%string;
  rj_status := s "status"%string; rj_entrypoint := s "entrypoint"%string;
  rj_start_time := json_get "start_time" j ≫= as_u64; rj_end_time := json_get "end_time" j ≫= as_u64;
  rj_message := s "message"%string |}.

Definition normalize_jobs (raw : Value) : list RayJobSummary :=
  job_summary <$> match raw with JArr a => a | JObj m => m.*2 | _ => [] end.

(** ** Resource summary *)

Definition as_f64 (v : Value) : option f64 :=
  match v with JNum n => Some (f64_of_Z n) | JFloat f => Some f | _ => None end.

Record StateNodesSummary := {
  sn_cpu : option f64;
  sn_gpu : option f64;
  sn_memory : option f64;
  sn_object_store_memory : option f64;
  sn_active_nodes : Z;
  sn_dead_nodes : Z;
}.

Definition state_node_rows (raw : Value) : list Value :=
  default [] (d ← json_get "data" raw; r ← json_get "result" d; r' ← json_get "result" r; as_array r').

(** One running total: absent until a node reports the resource. *)
Definition tally (acc : option f64) (v : option f64) : option f64 :=
  match v with Some v => Some (f64_add (default f64_zero acc) v) | None => acc end.

Definition is_alive (node : Value) : bool :=
  match json_get "state" node ≫= as_str with Some s => String.eqb s "ALIVE" | None => false end.

Definition add_node (s : StateNodesSummary) (node : Value) : StateNodesSummary :=
  if is_alive node then
    let amount k := r ← json_get "resources_total" node; v ← json_get k r; as_f64 v in {|
    sn_cpu := tally (sn_cpu s) (amount "CPU"%string);
    sn_gpu := tally (sn_gpu s) (amount "GPU"%string);
    sn_memory := tally (sn_memory s) (amount "memory"%string);
    sn_object_store_memory := tally (sn_object_store_memory s) (amount "object_store_memory"%string);
    sn_active_nodes := u64_add (sn_active_nodes s) 1; sn_dead_nodes := sn_dead_nodes s |}
  else {|
    sn_cpu := sn_cpu s; sn_gpu := sn_gpu s; sn_memory := sn_memory s;
    sn_object_store_memory := sn_object_store_memory s;
    sn_active_nodes := sn_active_nodes s; sn_dead_nodes := u64_add (sn_dead_nodes s) 1 |}.

Definition no_nodes : StateNodesSummary := {|
  sn_cpu := None; sn_gpu := None; sn_memory := None; sn_object_store_memory := None;
  sn_active_nodes := 0; sn_dead_nodes := 0 |}.

Definition summarize_state_nodes (raw : Value) : StateNodesSummary :=
  foldl add_node no_nodes (state_node_rows raw).

Definition usage_used (usage : option Value) (key : string) : option f64 :=
  u ← usage; v ← json_get key u; a ← as_array v; x ← head a; as_f64 x.

Record ResourceStat := { rt_used : option f64; rt_total : f64 }.
Record ClusterMetrics := {
  cm_cluster_id : string;
  cm_cpu : option ResourceStat;
  cm_gpu : option ResourceStat;
  cm_memory : option ResourceStat;
  cm_object_store_memory : option ResourceStat;
  cm_active_nodes : option Z;
  cm_pending_nodes : option Z;
  cm_failed_nodes : option Z;
}.

Definition usage_map (raw : Value) : option Value :=
  cs ← or_else (json_get "data" raw ≫= json_get "clusterStatus") (json_get "clusterStatus" raw);
  r ← json_get "loadMetricsReport" cs; json_get "usage" r.

Definition summarize_metrics (cluster_id : string) (nodes_raw : Value) (status_raw : option Value)
  : ClusterMetrics :=
  let s := summarize_state_nodes nodes_raw in
  let usage := status_raw ≫= usage_map in
  let stat (total : option f64) key :=
    (fun t => {| rt_used := usage_used usage key; rt_total := t |}) <$> total in {|
  cm_cluster_id := cluster_id;
  cm_cpu := stat (sn_cpu s) "CPU"%string; cm_gpu := stat (sn_gpu s) "GPU"%string;
  cm_memory := stat (sn_memory s) "memory"%string;
  cm_object_store_memory := stat (sn_object_store_memory s) "object_store_memory"%string;
  cm_active_nodes := Some (sn_active_nodes s); cm_pending_nodes := None;
  cm_failed_nodes := if Z.ltb 0 (sn_dead_nodes s) then Some (sn_dead_nodes s) else None |}.

(** ** The routes *)

(** What the routes ask a backend for; [ob_dashboard] derives a name. *)
Class ObsBackend (P : Type) := {
  ob_nodes : ClusterId -> ST P ProvisionError (option ClusterNodes);
  ob_events : ClusterId -> ST P ProvisionError (option (list ClusterEvent));
  ob_logs : ClusterId -> option string -> nat -> ST P ProvisionError (option ClusterLogs);
  ob_dashboard : ClusterId -> P -> option string;
}.

(** [serde_json::from_slice] into a value. *)
Class JsonText := from_slice : Bytes -> option Value.

Record ObsApiState := { ost_registry : ClusterRegistry; ost_provisioner : bool }.

Record ObsWorld (P : Type) := {
  ow_api : ApiWorld;
  ow_backend : P;
  ow_sent : list SouthRequest;
  ow_permits : Z;
}.
Arguments ow_api {P} _.
Arguments ow_backend {P} _.
Arguments ow_sent {P} _.
Arguments ow_permits {P} _.
Arguments Build_ObsWorld {P} _ _ _ _.

Inductive ClusterScope := InProject (project : string) | Registered.

Inductive ObsView :=
| NodesBody (n : ClusterNodes)
| EventsBody (id : ClusterId) (l : list ClusterEvent)
| LogsBody (l : ClusterLogs)
| MetricsBody (m : ClusterMetrics)
| JobsBody (l : list RayJobSummary)
| UpstreamBody (status : Z) (body : Bytes).

Record LogsQuery := { lq_node : option string; lq_tail : option Z }.

Section routes.
Context `{AuditCodec} `{HeaderValues} `{Network} `{JsonText} {P : Type} `{ObsBackend P}.

Abbreviation O := (ST (ObsWorld P) Response).

Definition on_store {X} (m : H X) : O X := fun w =>
  let '(r, a) := m (ow_api w) in (r, Build_ObsWorld a (ow_backend w) (ow_sent w) (ow_permits w)).

Definition scope_for_read (st : ObsApiState) (identity : option Identity) (id : ClusterId)
  : O ClusterScope :=
  row ← on_store (call (get id));
  match row with
  | Some c =>
      s ← st_get (fun w => api_store (ow_api w));
      let '(_, narrowed) := read_scope s identity in
      if is_some_and narrowed (fun ps => negb (bool_decide (cs_project (c_spec c) ∈ ps)))
      then st_err no_such_cluster else mret (InProject (cs_project (c_spec c)))
  | None =>
      match by_id (ost_registry st) id with
      | None => st_err no_such_cluster
      | Some _ =>
          s ← st_get (fun w => api_store (ow_api w));
          let '(_, narrowed) := read_scope s identity in
          match narrowed with Some _ => st_err no_such_cluster | None => mret Registered end
      end
  end.

Definition deny_read (identity : option Identity) (target : Target) (scope : ClusterScope) : O unit :=
  on_store (or_deny (match scope with
                     | InProject project => authorize_scoped identity Read target project
                     | Registered => authorize identity Read target
                     end)).
Definition deny_cluster_read (identity : option Identity) (scope : ClusterScope) : O unit :=
  deny_read identity TCluster scope.

(** A call of the backend and the three ways it can fail to give a view. *)
Definition ask_backend {X} (st : ObsApiState) (m : ST P ProvisionError (option X))
    (unavailable missing failed : string) : O X := fun w =>
  if negb (ost_provisioner st) then (Err (respond 404 (Text unavailable)), w)
  else
    let '(r, p) := m (ow_backend w) in
    (match r with
     | Ok (Some x) => Ok x
     | Ok None => Err (respond 404 (Text missing))
     | Err (NotFound _) => Err no_such_cluster
     | Err (PBackend _) => Err (respond 503 (Text failed))
     end, Build_ObsWorld (ow_api w) p (ow_sent w) (ow_permits w)).

Definition cluster_nodes (st : ObsApiState) (identity : option Identity) (id : ClusterId) : O ObsView :=
  scope ← scope_for_read st identity id;
  _ ← deny_read identity TCluster scope;
  nodes ← ask_backend st (ob_nodes id) "nodes unavailable" "nodes unavailable" "node source unavailable";
  mret (NodesBody nodes).

Definition cluster_events (st : ObsApiState) (identity : option Identity) (id : ClusterId) : O ObsView :=
  scope ← scope_for_read st identity id;
  _ ← deny_cluster_read identity scope;
  events ← ask_backend st (ob_events id) "events unavailable" "events unavailable" "event source unavailable";
  mret (EventsBody id events).

Definition cluster_logs (st : ObsApiState) (identity : option Identity) (id : ClusterId) (q : LogsQuery)
  : O ObsView :=
  scope ← scope_for_read st identity id;
  _ ← deny_cluster_read identity scope;
  let tail := Z.min (Z.max (default DEFAULT_LOG_TAIL (lq_tail q)) 1) MAX_LOG_TAIL in
  logs ← ask_backend st (ob_logs id (lq_node q) (Z.to_nat tail))
           "logs unavailable" "no such pod for this cluster" "log source unavailable";
  mret (LogsBody logs).

(** The dashboard of a cluster and the token for it: the registry's, or the
    backend's head service without one. *)
Definition dashboard_base (st : ObsApiState) (id : ClusterId) (unavailable : string)
  : O (string * option string) := fun w =>
  match by_id (ost_registry st) id with
  | Some ep => (Ok (ep_api_base_url ep, ep_auth_token ep), w)
  | None =>
      match (if ost_provisioner st then ob_dashboard id (ow_backend w) else None) with
      | Some base => (Ok (base, None), w)
      | None => (Err (respond 404 (Text unavailable)), w)
      end
  end.

(** A permit held while [m] runs. *)
Definition with_permit {X} (m : O X) : O X := fun w =>
  if Z.leb (ow_permits w) 0
  then (Err (respond 503 (Text "gateway busy: too many inflight proxied requests")), w)
  else
    let '(r, w') := m (Build_ObsWorld (ow_api w) (ow_backend w) (ow_sent w) (ow_permits w - 1)) in
    (r, Build_ObsWorld (ow_api w') (ow_backend w') (ow_sent w') (ow_permits w' + 1)).

Definition bearer_of (token : option string) : O (option Bytes) := fun w =>
  match token with
  | None => (Ok None, w)
  | Some t =>
      match header_value ("Bearer " +:+ t) with
      | Some v => (Ok (Some v), w)
      | None => (Err (respond 500 (Text "invalid cluster token")), w)
      end
  end.

(** [client.get(url)] with at most the cluster's bearer, and [send]. *)
Definition get_request (url : string) (bearer : option Bytes) : SouthRequest := {|
  so_method := "GET"; so_url := url;
  so_headers := match bearer with Some v => [("authorization"%string, v)] | None => [] end;
  so_body := [] |}.
Definition send (req : SouthRequest) : O (option Upstream) := fun w =>
  (Ok (exchange (ow_sent w) req),
   Build_ObsWorld (ow_api w) (ow_backend w) (ow_sent w ++ [req]) (ow_permits w)).

Definition unreachable {X} : O X := st_err (respond 503 (Text "cluster unreachable")).

Definition read_jobs (base : string) (token : option string) : O ObsView :=
  bearer ← bearer_of token;
  upstream ← send (get_request (trim_end_slashes base +:+ "/api/jobs/") bearer);
  match upstream with
  | None => unreachable
  | Some up =>
      match buffer MAX_JOBS_BODY_BYTES [] (up_body up) with
      | Err TooLarge => st_err (respond 503 (Text "jobs response too large"))
      | Err Broken => unreachable
      | Ok body =>
          if negb (is_success (up_status up)) then mret (UpstreamBody (up_status up) body)
          else match from_slice body with
               | Some raw => mret (JobsBody (normalize_jobs raw))
               | None => st_err (respond 503 (Text "invalid jobs response"))
               end
      end
  end.

Definition cluster_jobs (st : ObsApiState) (identity : option Identity) (id : ClusterId) : O ObsView :=
  scope ← scope_for_read st identity id;
  _ ← deny_read identity TJob scope;
  s ← st_get (fun w => api_store (ow_api w));
  if is_some_and (m_clusters s !! id) (fun c => bool_decide (cs_engine (c_spec c) = Dask))
  then st_err (respond 400 (Text
    "job submission is not supported for engine=dask (batch is a Ray-only surface)"))
  else
    endpoint ← dashboard_base st id "jobs unavailable";
    with_permit (read_jobs (fst endpoint) (snd endpoint)).

Definition fetch_dashboard_json (url : string) (bearer : option Bytes) : O (option Value) :=
  upstream ← send (get_request url bearer);
  mret (up ← upstream;
        if negb (is_success (up_status up)) then None
        else match buffer MAX_STATUS_BODY_BYTES [] (up_body up) with
             | Ok body => from_slice body
             | Err _ => None
             end).

Definition read_metrics (id : ClusterId) (base : string) (token : option string) : O ObsView :=
  bearer ← bearer_of token;
  nodes_raw ← fetch_dashboard_json (base +:+ "/api/v0/nodes") bearer;
  match nodes_raw with
  | None => unreachable
  | Some raw =>
      status_raw ← fetch_dashboard_json (base +:+ "/api/cluster_status") bearer;
      mret (MetricsBody (summarize_metrics id raw status_raw))
  end.

Definition cluster_metrics (st : ObsApiState) (identity : option Identity) (id : ClusterId) : O ObsView :=
  scope ← scope_for_read st identity id;
  _ ← deny_cluster_read identity scope;
  endpoint ← dashboard_base st id "metrics unavailable";
  with_permit (read_metrics id (trim_end_slashes (fst endpoint)) (snd endpoint)).
End routes.
