(* ===== verification/ObsFacts.v ===== *)
(** * What the observability routes show, and what they send

    Every route passes one gate; behind it nothing but the backend is asked and
    nothing but the cluster's own dashboard is called. *)

From S2P Require Import Prelude Float64 Core Policy Store Json Provision Nodes Kube KubeRay Auth Oidc.
From S2P Require Import Registry Api ApiFacts AuthLayer Http ObsApi.
#[local] Open Scope Z_scope.

Inductive ObsRoute := RNodes | REvents | RLogs (q : LogsQuery) | RMetrics | RJobs.

Section facts.
Context `{AuditCodec} `{HeaderValues} `{Network} `{JsonText} {P : Type} `{ObsBackend P}.

Definition serve_obs (st : ObsApiState) (identity : option Identity) (id : ClusterId) (route : ObsRoute)
  : ST (ObsWorld P) Response ObsView :=
  match route with
  | RNodes => cluster_nodes st identity id
  | REvents => cluster_events st identity id
  | RLogs q => cluster_logs st identity id q
  | RMetrics => cluster_metrics st identity id
  | RJobs => cluster_jobs st identity id
  end.
Definition route_target (route : ObsRoute) : Target := match route with RJobs => TJob | _ => TCluster end.

(** ** Who may read *)

(** A caller narrowed to projects that do not include the cluster's. *)
Definition hidden (s : InMemoryStore) (identity : option Identity) (id : ClusterId) : bool :=
  is_some_and (m_clusters s !! id) (fun c =>
    is_some_and (snd (read_scope s identity)) (fun ps => negb (bool_decide (cs_project (c_spec c) ∈ ps)))).

(** A stored cluster is read by its project, one that is only registered by
    global roles. *)
Definition may_read (st : ObsApiState) (s : InMemoryStore) (identity : option Identity) (id : ClusterId)
    (target : Target) : bool :=
  match m_clusters s !! id with
  | Some c => negb (hidden s identity id) && allowed s identity Read target (cs_project (c_spec c))
  | None =>
      bool_decide (is_Some (by_id (ost_registry st) id))
      && bool_decide (snd (read_scope s identity) = None)
      && match identity with Some i => permits i Read target | None => true end
  end.

Definition scope_of (s : InMemoryStore) (id : ClusterId) : ClusterScope :=
  match m_clusters s !! id with Some c => InProject (cs_project (c_spec c)) | None => Registered end.

(** Nothing but the tables outside [core] (the audit trail) has changed. *)
Definition silent (w w' : ObsWorld P) : Prop :=
  core (api_store (ow_api w')) = core (api_store (ow_api w)) /\ ow_backend w' = ow_backend w /\
  ow_sent w' = ow_sent w /\ ow_permits w' = ow_permits w.

Lemma on_store_get id (w : ObsWorld P) :
  on_store (call (get id)) w = (Ok (m_clusters (api_store (ow_api w)) !! id), w).
Proof. destruct w as [[? ? ?] ? ? ?]. done. Qed.

Lemma scope_for_read_spec st identity id (w : ObsWorld P) :
  let s := api_store (ow_api w) in
  scope_for_read st identity id w =
    (match m_clusters s !! id with
     | Some c => if hidden s identity id then Err no_such_cluster else Ok (InProject (cs_project (c_spec c)))
     | None =>
         if bool_decide (is_Some (by_id (ost_registry st) id)) && bool_decide (snd (read_scope s identity) = None)
         then Ok Registered else Err no_such_cluster
     end, w).
Proof.
  cbv zeta. unfold scope_for_read, hidden. rewrite ST_bind_eq, on_store_get.
  destruct (m_clusters _ !! id) as [c|]; cbn [is_some_and].
  - rewrite ST_bind_eq. cbn. destruct (read_scope _ identity) as [a n]. cbn [snd].
    by destruct (is_some_and n _).
  - destruct (by_id _ id) as [e|]; [|done]. rewrite bool_decide_eq_true_2 by done.
    rewrite ST_bind_eq. cbn. by destruct (read_scope _ identity) as [a [n|]].
Qed.

Lemma deny_read_spec identity target scope (w : ObsWorld P) :
  let ok := match scope with
            | InProject p => allowed (api_store (ow_api w)) identity Read target p
            | Registered => match identity with Some i => permits i Read target | None => true end
            end in
  exists w', deny_read identity target scope w = (if ok then Ok tt else Err forbidden, w') /\
    (ok = true -> w' = w) /\ silent w w'.
Proof.
  cbv zeta. unfold deny_read, on_store.
  assert (forall m ok, (exists a, or_deny m (ow_api w) = (if ok : bool then Ok tt else Err forbidden, a) /\
      (ok = true -> a = ow_api w) /\ core (api_store a) = core (api_store (ow_api w))) ->
    exists w', (let '(r, a) := or_deny m (ow_api w) in
                (r, Build_ObsWorld a (ow_backend w) (ow_sent w) (ow_permits w)))
               = (if ok then Ok tt else Err forbidden, w') /\ (ok = true -> w' = w) /\ silent w w') as Hlift.
  { intros m ok (a & -> & Hsame & Hc). eexists. split; [done|]. split; [|done].
    intros Hok. rewrite (Hsame Hok). by destruct w. }
  apply Hlift. destruct scope as [p|].
  - destruct (or_deny_scoped identity Read target p (ow_api w)) as (a & Ha & Hs & Hc). by exists a.
  - destruct (or_deny_global identity Read target (ow_api w)) as (a & Ha & Hs & Hc). by exists a.
Qed.

(** The gate of every route. *)
Lemma gate_spec {X} st identity id target (k : ClusterScope -> ST (ObsWorld P) Response X) (w : ObsWorld P) :
  let s := api_store (ow_api w) in
  let m := (scope ← scope_for_read st identity id; _ ← deny_read identity target scope; k scope) in
  (may_read st s identity id target = true -> m w = k (scope_of s id) w) /\
  (may_read st s identity id target = false -> exists r w', m w = (Err r, w') /\
     (r = no_such_cluster \/ r = forbidden) /\ silent w w') /\
  (hidden s identity id = true \/ (m_clusters s !! id = None /\ by_id (ost_registry st) id = None) ->
     m w = (Err no_such_cluster, w)).
Proof.
  cbv zeta. set (s := api_store (ow_api w)). rewrite ST_bind_eq, scope_for_read_spec. fold s.
  unfold may_read, scope_of. destruct (m_clusters s !! id) as [c|] eqn:Hc.
  - destruct (hidden s identity id) eqn:Hh; cbn [negb andb].
    + split_and!; [done| |done]. intros _. exists no_such_cluster, w. split_and!; [done|by left|done].
    + destruct (deny_read_spec identity target (InProject (cs_project (c_spec c))) w) as (w1 & Hd & Hs & Hq).
      rewrite ST_bind_eq, Hd. fold s in Hs |- *. destruct (allowed s identity Read target _).
      * rewrite (Hs eq_refl). split_and!; [done|done|naive_solver].
      * split_and!; [done| |naive_solver]. intros _. exists forbidden, w1. split_and!; [done|by right|done].
  - assert (Hh : hidden s identity id = false) by (unfold hidden; by rewrite Hc). rewrite Hh.
    destruct (bool_decide (is_Some (by_id (ost_registry st) id))) eqn:Hr; cbn [andb].
    + destruct (bool_decide (snd (read_scope s identity) = None)) eqn:Hn; cbn [andb].
      * destruct (deny_read_spec identity target Registered w) as (w1 & Hd & Hs & Hq).
        rewrite ST_bind_eq, Hd. apply bool_decide_eq_true in Hr as [e He].
        destruct (match identity with Some i => _ | None => true end).
        -- rewrite (Hs eq_refl). split_and!; [done|done|naive_solver].
        -- split_and!; [done| |naive_solver]. intros _. exists forbidden, w1. split_and!; [done|by right|done].
      * split_and!; [done| |done]. intros _. exists no_such_cluster, w. split_and!; [done|by left|done].
    + split_and!; [done| |done]. intros _. exists no_such_cluster, w. split_and!; [done|by left|done].
Qed.

(** ** What is sent *)

(** The dashboard a cluster resolves to, with the token for it. *)
Definition endpoint_of (st : ObsApiState) (id : ClusterId) (p : P) : option (string * option string) :=
  match by_id (ost_registry st) id with
  | Some ep => Some (ep_api_base_url ep, ep_auth_token ep)
  | None => (fun base => (base, None)) <$> (if ost_provisioner st then ob_dashboard id p else None)
  end.

(** A bodiless GET below the dashboard's base URL, whose only header is the
    cluster's own token. *)
Definition discreet (st : ObsApiState) (id : ClusterId) (p : P) (q : SouthRequest) : Prop :=
  exists base token path, endpoint_of st id p = Some (base, token) /\
    so_method q = "GET"%string /\ so_body q = [] /\
    so_url q = trim_end_slashes base +:+ path /\
    (path ∈ ["/api/jobs/"; "/api/v0/nodes"; "/api/cluster_status"]%string) /\
    match token with
    | Some t => exists v, header_value ("Bearer " +:+ t) = Some v /\ so_headers q = [("authorization"%string, v)]
    | None => so_headers q = []
    end.

(** A step behind the gate: the API's world and the permits stay. *)
Definition behaves {X} (st : ObsApiState) (id : ClusterId) (p0 : P) (n : nat) (m : ST (ObsWorld P) Response X) : Prop :=
  forall w, ow_backend w = p0 -> let w' := snd (m w) in
    ow_api w' = ow_api w /\ ow_permits w' = ow_permits w /\
    exists qs, ow_sent w' = ow_sent w ++ qs /\ (length qs <= n)%nat /\ Forall (discreet st id p0) qs.

Lemma behaves_still {X} st id p0 (m : ST (ObsWorld P) Response X) :
  (forall w, ow_api (snd (m w)) = ow_api w /\ ow_permits (snd (m w)) = ow_permits w /\
             ow_sent (snd (m w)) = ow_sent w) -> behaves st id p0 0 m.
Proof.
  intros Hm w Hp. destruct (Hm w) as (Ha & Hpm & Hs). split_and!; [done|done|]. exists [].
  rewrite app_nil_r. split_and!; [done|done|constructor].
Qed.

Lemma behaves_le {X} st id p0 n n' (m : ST (ObsWorld P) Response X) :
  behaves st id p0 n m -> (n <= n')%nat -> behaves st id p0 n' m.
Proof.
  intros Hm Hn w Hp. destruct (Hm w Hp) as (Ha & Hpm & qs & Hs & Hl & HF). split_and!; [done|done|].
  exists qs. split_and!; [done|lia|done].
Qed.

Lemma behaves_bind {X Y} st id p0 n1 n2 (m : ST (ObsWorld P) Response X) (f : X -> ST (ObsWorld P) Response Y) :
  (forall w, ow_backend (snd (m w)) = ow_backend w) ->
  behaves st id p0 n1 m -> (forall x, behaves st id p0 n2 (f x)) -> behaves st id p0 (n1 + n2) (m ≫= f).
Proof.
  intros Hb Hm Hf w Hp. rewrite ST_bind_eq. specialize (Hb w). destruct (Hm w Hp) as (Ha & Hpm & qs & Hs & Hl & HF).
  destruct (m w) as [[x|e] w1]; cbn [snd] in *.
  - destruct (Hf x w1) as (Ha' & Hpm' & qs' & Hs' & Hl' & HF'); [congruence|].
    split_and!; [congruence|congruence|]. exists (qs ++ qs'). rewrite Hs', Hs, app_assoc, length_app.
    split_and!; [done|lia|by apply Forall_app].
  - split_and!; [done|done|]. exists qs. split_and!; [done|lia|done].
Qed.

Lemma behaves_with_permit {X} st id p0 n (m : ST (ObsWorld P) Response X) :
  behaves st id p0 n m -> behaves st id p0 n (with_permit m).
Proof.
  intros Hm w Hp. unfold with_permit. destruct (Z.leb (ow_permits w) 0).
  - cbn. split_and!; [done|done|]. exists []. rewrite app_nil_r. split_and!; [done|cbn; lia|constructor].
  - destruct (Hm (Build_ObsWorld (ow_api w) (ow_backend w) (ow_sent w) (ow_permits w - 1)) Hp)
      as (Ha & Hpm & qs & Hs & Hl & HF).
    destruct (m _) as [r w']. cbn in *. split_and!; [done|lia|]. by exists qs.
Qed.

Lemma behaves_send st id p0 q : discreet st id p0 q -> behaves st id p0 1 (send q).
Proof. intros Hq w Hp. cbn. split_and!; [done|done|]. exists [q]. split_and!; [done|cbn; lia|by repeat constructor]. Qed.

(** The bearer made for an endpoint's token goes into a discreet request. *)
Lemma behaves_bearer {Y} st id p0 n base token (f : option Bytes -> ST (ObsWorld P) Response Y) :
  endpoint_of st id p0 = Some (base, token) ->
  (forall b, (forall path, path ∈ ["/api/jobs/"; "/api/v0/nodes"; "/api/cluster_status"]%string ->
               discreet st id p0 (get_request (trim_end_slashes base +:+ path) b)) ->
             behaves st id p0 n (f b)) ->
  behaves st id p0 n (b ← bearer_of token; f b).
Proof.
  intros He Hf w Hp. rewrite ST_bind_eq. unfold bearer_of. destruct token as [t|].
  - destruct (header_value ("Bearer " +:+ t)) as [v|] eqn:Hv.
    + apply Hf; [|done]. intros path Hpath. exists base, (Some t), path. split_and!; try done. by exists v.
    + cbn. split_and!; [done|done|]. exists []. rewrite app_nil_r. split_and!; [done|cbn; lia|constructor].
  - apply Hf; [|done]. intros path Hpath. by exists base, None, path.
Qed.

Ltac settle := apply behaves_still; intros ?w; repeat case_match; done.

Lemma behaves_jobs st id p0 base token :
  endpoint_of st id p0 = Some (base, token) -> behaves st id p0 1 (read_jobs base token).
Proof.
  intros He. apply (behaves_bearer st id p0 1 base token _ He). intros b Hd.
  apply (behaves_bind st id p0 1 0); [done|apply behaves_send, Hd; set_solver|]. intros up. settle.
Qed.

Lemma behaves_fetch st id p0 url b :
  discreet st id p0 (get_request url b) -> behaves st id p0 1 (fetch_dashboard_json url b).
Proof.
  intros Hd. apply (behaves_bind st id p0 1 0); [done|by apply behaves_send|]. intros up. settle.
Qed.

Lemma behaves_metrics st id p0 base token :
  endpoint_of st id p0 = Some (base, token) -> behaves st id p0 2 (read_metrics id (trim_end_slashes base) token).
Proof.
  intros He. apply (behaves_bearer st id p0 2 base token _ He). intros b Hd.
  apply (behaves_bind st id p0 1 1); [done|apply behaves_fetch, Hd; set_solver|]. intros [raw|].
  - apply (behaves_bind st id p0 1 0); [done|apply behaves_fetch, Hd; set_solver|]. intros up. settle.
  - eapply behaves_le; [settle|lia].
Qed.

(** Going on with the resolved endpoint. *)
Lemma behaves_endpoint {X} st id p0 n unavailable (f : string * option string -> ST (ObsWorld P) Response X) :
  (forall e, endpoint_of st id p0 = Some e -> behaves st id p0 n (f e)) ->
  behaves st id p0 n (e ← dashboard_base st id unavailable; f e).
Proof.
  intros Hf w Hp. rewrite ST_bind_eq. unfold dashboard_base, endpoint_of in *. rewrite Hp in *.
  destruct (by_id _ id) as [ep|]; [by apply Hf|].
  destruct (if ost_provisioner st then _ else None) as [base|]; [by apply Hf|].
  cbn. split_and!; [done|done|]. exists []. rewrite app_nil_r. split_and!; [done|cbn; lia|constructor].
Qed.

Lemma behaves_ask {X} st id p0 (m : ST P ProvisionError (option X)) u mi f (g : X -> ObsView) :
  behaves st id p0 0 (x ← ask_backend st m u mi f; mret (g x)).
Proof.
  apply behaves_still. intros w. rewrite ST_bind_eq. unfold ask_backend.
  destruct (negb _); [done|]. destruct (m (ow_backend w)) as [[[x|]|[]] p]; done.
Qed.

End facts.

(** ** The routes over the KubeRay backend *)

#[export] Instance kuberay_obs {K} `{Kube K} `{SerdeErrors} : ObsBackend (KubeRayProvisioner K) := {|
  ob_nodes := fun id => with_client (fun ns _ => KubeRay.cluster_nodes ns id not_a_string_map);
  ob_events := fun id => with_client (fun ns _ => KubeRay.cluster_events ns id);
  ob_logs := fun id pod tail => with_client (fun ns _ => KubeRay.cluster_logs ns id pod tail);
  ob_dashboard := fun id p => dashboard_api_base (kr_namespace p) id |}.

Module Demo.
#[local] Existing Instance plain_codec.
#[local] Instance errors : SerdeErrors := "not a map"%string.
#[local] Instance values : HeaderValues := fun s => Some (bytes_of s).
(** A network on which every host answers 404 with a body. *)
#[local] Instance net : Network := fun _ _ => Some {|
  up_status := 404; up_headers := []; up_body := [Some (bytes_of "secret")]; up_millis := 1 |}.
#[local] Instance text : JsonText := fun _ => None.

Definition world (s : InMemoryStore) : ObsWorld (KubeRayProvisioner DemoKube) := {|
  ow_api := {| api_store := s; api_clock := fun _ => 100; api_reads := 0 |};
  ow_backend := {| kr_client := {| dk_objects := ∅ |}; kr_namespace := "ray"; kr_autoscaling := false |};
  ow_sent := []; ow_permits := MAX_INFLIGHT |}.

(** The store after an operator of a project created a cluster under an id. *)
Definition created (id : string) : InMemoryStore :=
  api_store (snd (answer (create_cluster default_policy (Some (scoped_caller Operator (cs_project demo_spec))) id demo_spec)
    {| api_store := empty_store; api_clock := fun _ => 10; api_reads := 0 |})).

Definition ask_jobs (registry : ClusterRegistry) (id : string) :=
  cluster_jobs {| ost_registry := registry; ost_provisioner := true |}
    (Some (scoped_caller Operator (cs_project demo_spec))) id (world (created id)).

(** Creation takes any id, and the dashboard's URL is made of it: an operator of
    one project has the control plane call a link-local address, and is given the
    answer. *)
Lemma any_id_reaches_any_host :
  let url := "http://169.254.169.254/latest/meta-data?-head-svc.ray.svc:8265/api/jobs/"%string in
  let '(r, w') := ask_jobs [] "169.254.169.254/latest/meta-data?" in
  r = Ok (UpstreamBody 404 (bytes_of "secret")) /\ ow_sent w' = [get_request url None] /\
  is_denied_southbound_ip <$> parse_ip (before "/" (url_authority url)) = Some true.
Proof. vm_compute. by split_and!. Qed.

Definition prod_endpoint : ClusterEndpoint := {|
  ep_id := "prod"; ep_hostname := "prod.ray.example.com"; ep_api_base_url := "https://prod.internal:8265";
  ep_auth_token := Some "prod-token"%string; ep_auth_token_env := None |}.

(** A registered cluster is read by global roles; but a stored cluster of the same
    id is read by its project, and still resolves to the registered dashboard: an
    operator of any project reads the jobs of a registered cluster, with its token,
    by creating a cluster under its id. *)
Lemma stored_id_opens_registered_cluster :
  may_read {| ost_registry := [prod_endpoint]; ost_provisioner := true |} empty_store
    (Some (scoped_caller Operator (cs_project demo_spec))) "prod" TJob = false /\
  let '(r, w') := ask_jobs [prod_endpoint] "prod" in
  is_ok r = true /\
  ow_sent w' = [get_request "https://prod.internal:8265/api/jobs/" (Some (bytes_of "Bearer prod-token"))].
Proof. vm_compute. by split_and!. Qed.
End Demo.
