(* ===== verification/JobHistory.v ===== *)
(** * Job history (mobula-api/src/job_history.rs, the jobs route of clusters.rs)

    Submissions through the gateway are recorded; a refresher asks each cluster
    that has unfinished jobs for their status. *)

From S2P Require Import Prelude Float64 Core Store StoreFacts Json Auth Oidc Registry Api AuthLayer ApiFacts AdminFacts Http ObsApi.
#[local] Open Scope Z_scope.

Definition MAX_SUBMIT_BODY_BYTES : Z := 64 * 1024.

Definition is_terminal (status : string) : bool :=
  bool_decide (status ∈ ["SUCCEEDED"; "FAILED"; "STOPPED"]%string).

Definition is_ray_job_submit (method path : string) : bool :=
  String.eqb method "POST" && (String.eqb path "/api/jobs" || String.eqb path "/api/jobs/").

Section history.
Context `{AuditCodec} `{HeaderValues} `{Network} `{JsonText}.

Definition parse_submission_id (body : Bytes) : option string :=
  v ← from_slice body;
  match json_get "submission_id" v ≫= as_str with
  | Some id => Some id
  | None => json_get "job_id" v ≫= as_str
  end.

(** Failures are logged, never surfaced. *)
Definition record_submission (store : bool) (cluster : ClusterId) (subject : option string) (body : Bytes)
  : H unit :=
  if negb store then mret tt
  else
    match parse_submission_id body with
    | None => mret tt
    | Some id =>
        now ← now_unix;
        call (record_job {| j_id := id; j_cluster := cluster; j_submitter := default "-"%string subject;
                            j_status := "PENDING"; j_duration_secs := None; j_submitted_at := now |})
    end.

(** ** The refresher *)

Record JobWorld := { jw_store : InMemoryStore; jw_sent : list SouthRequest }.
Abbreviation J := (ST JobWorld StoreError).
Definition jstore {A} (m : M A) : J A := fun w =>
  let '(r, s) := m (jw_store w) in (r, {| jw_store := s; jw_sent := jw_sent w |}).

Definition merge_status (job : JobRecord) (summary : RayJobSummary) : option JobRecord :=
  match rj_status summary with
  | None => None
  | Some new_status =>
      let duration_secs :=
        match rj_start_time summary, rj_end_time summary with
        | Some start, Some stop => if Z.leb start stop then Some ((stop - start) / 1000) else j_duration_secs job
        | _, _ => j_duration_secs job
        end in
      if String.eqb new_status (j_status job) && bool_decide (duration_secs = j_duration_secs job) then None
      else Some {| j_id := j_id job; j_cluster := j_cluster job; j_submitter := j_submitter job;
                   j_status := new_status; j_duration_secs := duration_secs;
                   j_submitted_at := j_submitted_at job |}
  end.

(** The request of [fetch_jobs]; a token that is no legal header value fails it. *)
Definition poll_request (ep : ClusterEndpoint) : option SouthRequest :=
  let url := trim_end_slashes (ep_api_base_url ep) +:+ "/api/jobs/" in
  match ep_auth_token ep with
  | None => Some (get_request url None)
  | Some token => (fun v => get_request url (Some v)) <$> header_value ("Bearer " +:+ token)
  end.

(** The chunks of a body without an error, with no cap. *)
Definition whole_body (s : Stream) : option Bytes := (fun chunks => mjoin chunks) <$> mapM (fun c => c) s.

(** [error_for_status] refuses 4xx and 5xx. *)
Definition fetch_jobs (ep : ClusterEndpoint) : J (option (list RayJobSummary)) := fun w =>
  match poll_request ep with
  | None => (Ok None, w)
  | Some q =>
      (Ok (up ← exchange (jw_sent w) q;
           if Z.leb 400 (up_status up) && Z.ltb (up_status up) 600 then None
           else body ← whole_body (up_body up); raw ← from_slice body; Some (normalize_jobs raw)),
       {| jw_store := jw_store w; jw_sent := jw_sent w ++ [q] |})
  end.

Definition index_of (summaries : list RayJobSummary) : gmap string RayJobSummary :=
  foldl (fun m s => match rj_submission_id s with Some id => <[id := s]> m | None => m end) ∅ summaries.

Fixpoint refresh_records (index : gmap string RayJobSummary) (records : list JobRecord) (updated : Z) : J Z :=
  match records with
  | [] => mret updated
  | job :: records' =>
      match index !! j_id job ≫= merge_status job with
      | Some next => jstore (record_job next) ≫= fun _ => refresh_records index records' (updated + 1)
      | None => refresh_records index records' updated
      end
  end.

Definition group_job (m : gmap string (list JobRecord)) (j : JobRecord) : gmap string (list JobRecord) :=
  if is_terminal (j_status j) then m
  else <[j_cluster j := default [] (m !! j_cluster j) ++ [j]]> m.

Fixpoint refresh_groups (registry : ClusterRegistry) (groups : list (string * list JobRecord)) (updated : Z)
  : J Z :=
  match groups with
  | [] => mret updated
  | (cluster_id, records) :: groups' =>
      match by_id registry cluster_id with
      | None => refresh_groups registry groups' updated
      | Some ep =>
          summaries ← fetch_jobs ep;
          match summaries with
          | None => refresh_groups registry groups' updated
          | Some l => n ← refresh_records (index_of l) records updated; refresh_groups registry groups' n
          end
      end
  end.

(** The groups come in the map's order. *)
Definition refresh_once (registry : ClusterRegistry) : J Z :=
  jobs ← jstore list_jobs;
  refresh_groups registry (map_to_list (foldl group_job ∅ jobs)) 0.

(** ** The jobs route (mobula-api/src/clusters.rs) *)

Record JobView := {
  jv_id : string;
  jv_cluster : string;
  jv_submitter : string;
  jv_status : string;
  jv_duration_secs : option Z;
  jv_submitted_at : Z;
}.

Definition job_view (j : JobRecord) : JobView := {|
  jv_id := j_id j; jv_cluster := j_cluster j; jv_submitter := j_submitter j; jv_status := j_status j;
  jv_duration_secs := j_duration_secs j; jv_submitted_at := j_submitted_at j |}.

Definition list_jobs_route (identity : option Identity) : H (list JobView) :=
  _ ← or_deny (authorize identity Read TJob);
  jobs ← call list_jobs;
  mret (job_view <$> jobs).

(** ** What a pass does *)

(** A record given the summaries each cluster answered. *)
Definition advance (answers : string -> list RayJobSummary) (j : JobRecord) : JobRecord :=
  if is_terminal (j_status j) then j
  else default j (index_of (answers (j_cluster j)) !! j_id j ≫= merge_status j).

Lemma merge_status_keeps j s j' :
  merge_status j s = Some j' ->
  j_id j' = j_id j /\ j_cluster j' = j_cluster j /\ j_submitter j' = j_submitter j /\
  j_submitted_at j' = j_submitted_at j /\ rj_status s = Some (j_status j').
Proof. unfold merge_status. intros Hm. destruct (rj_status s); [|done]. case_match; [done|]. by injection Hm as <-. Qed.

(** A second look at the same summary changes nothing. *)
Lemma merge_status_settles j s j' : merge_status j s = Some j' -> merge_status j' s = None.
Proof.
  unfold merge_status. destruct (rj_status s) as [st|]; [|done]. case_match; [done|]. intros [= <-].
  cbn [j_status j_duration_secs]. rewrite String.eqb_refl. cbn [andb].
  assert (forall d, match rj_start_time s, rj_end_time s with
      | Some start, Some stop => if Z.leb start stop then Some ((stop - start) / 1000) else d
      | _, _ => d end = match rj_start_time s, rj_end_time s with
      | Some start, Some stop => if Z.leb start stop then Some ((stop - start) / 1000) else
          match rj_start_time s, rj_end_time s with
          | Some start, Some stop => if Z.leb start stop then Some ((stop - start) / 1000) else d
          | _, _ => d end
      | _, _ => match rj_start_time s, rj_end_time s with
          | Some start, Some stop => if Z.leb start stop then Some ((stop - start) / 1000) else d
          | _, _ => d end end) as Hd.
  { intros d. destruct (rj_start_time s), (rj_end_time s); try done. by destruct (Z.leb _ _). }
  rewrite bool_decide_eq_true_2; [done|]. symmetry. apply Hd.
Qed.

Lemma advance_keeps answers j :
  j_id (advance answers j) = j_id j /\ j_cluster (advance answers j) = j_cluster j /\
  j_submitter (advance answers j) = j_submitter j /\ j_submitted_at (advance answers j) = j_submitted_at j.
Proof.
  unfold advance. destruct (is_terminal _); [done|]. destruct (_ ≫= merge_status j) as [j'|] eqn:E; [|done].
  apply bind_Some in E as (s & _ & Hm). cbn. by apply merge_status_keeps in Hm as (? & ? & ? & ? & ?).
Qed.

Lemma advance_settles answers j : advance answers (advance answers j) = advance answers j.
Proof.
  destruct (is_terminal (j_status j)) eqn:Ht.
  { assert (advance answers j = j) as Hj by (unfold advance; by rewrite Ht). by rewrite !Hj. }
  destruct (advance_keeps answers j) as (Hi & Hc & _). unfold advance at 1. rewrite Hi, Hc.
  destruct (is_terminal (j_status (advance answers j))); [done|]. unfold advance. rewrite Ht.
  destruct (index_of (answers (j_cluster j)) !! j_id j) as [s|]; [|done]. cbn.
  destruct (merge_status j s) as [j'|] eqn:E; cbn.
  - by rewrite (merge_status_settles j s j' E).
  - by rewrite E.
Qed.

(** The loop over one cluster's records. *)
Lemma refresh_records_spec index records n w :
  NoDup (j_id <$> records) ->
  exists n', refresh_records index records n w =
    (Ok n', {| jw_store := set_jobs
        (foldr (fun j m => match index !! j_id j ≫= merge_status j with
                           | Some next => <[j_id j := next]> m | None => m end) (m_jobs (jw_store w)) records)
        (jw_store w); jw_sent := jw_sent w |}).
Proof.
  revert n w. induction records as [|j records IH]; intros n w Hnd; cbn [refresh_records foldr].
  { exists n. destruct w as [[] ?]. reflexivity. }
  apply NoDup_cons in Hnd as [Hj Hnd].
  destruct (index !! j_id j ≫= merge_status j) as [next|] eqn:E; [|by apply IH].
  rewrite ST_bind_eq. cbn [jstore record_job st_put]. unfold jstore, record_job, st_put. cbv beta iota.
  destruct (IH (n + 1) {| jw_store := set_jobs (<[j_id next := next]> (m_jobs (jw_store w))) (jw_store w);
                          jw_sent := jw_sent w |} Hnd) as (n' & ->).
  exists n'. do 2 f_equal. destruct w as [[] ?]. unfold set_jobs. cbn. f_equal.
  apply bind_Some in E as (s & _ & Hm). apply merge_status_keeps in Hm as (-> & _).
  clear IH. induction records as [|k records IHr]; [done|]. cbn [foldr].
  apply not_elem_of_cons in Hj as [Hne Hj]. apply NoDup_cons in Hnd as [_ Hnd].
  rewrite IHr by done. destruct (index !! j_id k ≫= merge_status k); [|done]. by rewrite insert_insert_ne.
Qed.

Lemma foldr_records_lookup (index : gmap string RayJobSummary) records (m : gmap string JobRecord) id :
  NoDup (j_id <$> records) ->
  foldr (fun j m => match index !! j_id j ≫= merge_status j with
                    | Some next => <[j_id j := next]> m | None => m end) m records !! id
  = match find (fun j => String.eqb (j_id j) id) records with
    | Some j => match index !! id ≫= merge_status j with Some next => Some next | None => m !! id end
    | None => m !! id
    end.
Proof.
  induction records as [|j records IH]; intros Hnd; [done|]. cbn [foldr find].
  apply NoDup_cons in Hnd as [Hj Hnd]. specialize (IH Hnd).
  destruct (String.eqb_spec (j_id j) id) as [<-|Hne].
  - assert (find (fun k => String.eqb (j_id k) (j_id j)) records = None) as Hn.
    { destruct (find _ records) as [k|] eqn:E; [|done]. apply find_some in E as [Hin Hk%String.eqb_eq].
      exfalso. apply Hj. apply list_elem_of_fmap. exists k. split; [done|]. by apply list_elem_of_In. }
    rewrite Hn in IH. destruct (index !! j_id j ≫= merge_status j); [by rewrite lookup_insert_eq|done].
  - destruct (index !! j_id j ≫= merge_status j); [by rewrite lookup_insert_ne|done].
Qed.

(** *** Grouping *)

Definition pending_on (c : string) (j : JobRecord) : Prop := is_terminal (j_status j) = false /\ j_cluster j = c.
#[local] Instance pending_on_dec c j : Decision (pending_on c j) := _.

Lemma group_jobs_lookup jobs c :
  foldl group_job ∅ jobs !! c
  = match filter (pending_on c) jobs with [] => None | l => Some l end.
Proof.
  induction jobs as [|j jobs IH] using rev_ind; [done|]. rewrite foldl_app, filter_app. cbn [foldl].
  unfold group_job at 1. destruct (is_terminal (j_status j)) eqn:Ht.
  { rewrite filter_cons_False by (intros [??]; congruence). by rewrite app_nil_r. }
  destruct (decide (j_cluster j = c)) as [<-|Hne].
  - rewrite filter_cons_True by done. rewrite lookup_insert_eq, IH. cbn.
    by destruct (filter _ jobs).
  - rewrite filter_cons_False by (intros [??]; congruence). by rewrite app_nil_r, lookup_insert_ne.
Qed.

(** The clusters a pass looks at. *)
Definition polled (jobs : gmap string JobRecord) (c : string) : Prop :=
  exists id j, jobs !! id = Some j /\ pending_on c j.

(** The jobs as they stand when the clusters of [done] have been asked. *)
Definition advanced (answers : string -> list RayJobSummary) (done : list string) (j : JobRecord) : JobRecord :=
  if bool_decide (j_cluster j ∈ done) then advance answers j else j.

Definition answered (answers : string -> list RayJobSummary) (c : string) (l : list RayJobSummary)
  : string -> list RayJobSummary := fun c' => if String.eqb c' c then l else answers c'.

Lemma advanced_answered answers done c l j :
  c ∉ done -> advanced (answered answers c l) done j = advanced answers done j.
Proof.
  intros Hc. unfold advanced, advance, answered. case_bool_decide; [|done].
  destruct (String.eqb_spec (j_cluster j) c); [congruence|done].
Qed.

Section pass.
Context (registry : ClusterRegistry) (jobs0 : gmap string JobRecord).
Hypothesis keyed : map_Forall (fun k j => j_id j = k) jobs0.

Lemma find_record c l id :
  l ≡ₚ map_values jobs0 ->
  find (fun j => String.eqb (j_id j) id) (filter (pending_on c) l)
  = match jobs0 !! id with Some j => if decide (pending_on c j) then Some j else None | None => None end.
Proof.
  intros Hl.
  assert (Hin : forall j, j ∈ filter (pending_on c) l <-> pending_on c j /\ jobs0 !! j_id j = Some j).
  { intros j. rewrite list_elem_of_filter, Hl, elem_of_map_values. split.
    - intros [Hp (k & Hk)]. split; [done|]. by rewrite (keyed k j Hk).
    - intros [Hp Hk]. split; [done|]. by exists (j_id j). }
  destruct (find _ _) as [j|] eqn:E.
  - apply find_some in E as [Hj Hid%String.eqb_eq]. apply list_elem_of_In, Hin in Hj as [Hp Hj].
    rewrite Hid in Hj. rewrite Hj. by rewrite decide_True.
  - destruct (jobs0 !! id) as [j|] eqn:Hj; [|done]. case_decide as Hp; [|done]. exfalso.
    pose proof (keyed id j Hj) as Hid. pose proof (find_none _ _ E j) as Hn. cbn in Hn. rewrite Hid, String.eqb_refl in Hn.
    discriminate Hn. apply list_elem_of_In, Hin. by rewrite Hid.
Qed.

Lemma records_nodup c l : l ≡ₚ map_values jobs0 -> NoDup (j_id <$> filter (pending_on c) l).
Proof.
  intros Hl. assert (NoDup (j_id <$> l)) as Hnd.
  { rewrite Hl. unfold map_values. rewrite <- list_fmap_compose.
    replace ((j_id ∘ snd) <$> map_to_list jobs0) with (fst <$> map_to_list jobs0); [apply NoDup_fst_map_to_list|].
    apply list_fmap_ext. intros i [k j] Hk%list_elem_of_lookup_2%elem_of_map_to_list. cbn. symmetry. by apply keyed. }
  clear Hl. induction l as [|j l IH]; [done|]. apply NoDup_cons in Hnd as [Hj Hnd].
  destruct (decide (pending_on c j)).
  - rewrite filter_cons_True by done. apply NoDup_cons. split; [|auto]. intros (k & Hk & [_ Hin]%list_elem_of_filter)%list_elem_of_fmap.
    apply Hj. apply list_elem_of_fmap. by exists k.
  - rewrite filter_cons_False by done. auto.
Qed.

(** One cluster's records, after those of [done]. *)
Lemma records_step answers done c l summaries :
  l ≡ₚ map_values jobs0 -> c ∉ done ->
  foldr (fun j m => match index_of summaries !! j_id j ≫= merge_status j with
                    | Some next => <[j_id j := next]> m | None => m end)
    (advanced answers done <$> jobs0) (filter (pending_on c) l)
  = advanced (answered answers c summaries) (c :: done) <$> jobs0.
Proof.
  intros Hl Hc. apply map_eq. intros id. rewrite foldr_records_lookup by (by apply records_nodup).
  rewrite find_record by done. rewrite !lookup_fmap. destruct (jobs0 !! id) as [j|] eqn:Hj; [|done]. cbn.
  pose proof (keyed id j Hj) as Hid. case_decide as Hp.
  - destruct Hp as [Ht Hcl].
    assert (advanced answers done j = j) as -> by (unfold advanced; rewrite bool_decide_eq_false_2; congruence).
    unfold advanced. rewrite bool_decide_eq_true_2 by (rewrite Hcl; left).
    unfold advance, answered. rewrite Ht, Hcl, String.eqb_refl, Hid.
    by destruct (index_of summaries !! id ≫= merge_status j).
  - rewrite <- (advanced_answered answers done c summaries j Hc). f_equal. unfold advanced.
    destruct (decide (j_cluster j = c)) as [Hcl|Hcl].
    + rewrite bool_decide_eq_false_2 by congruence. rewrite bool_decide_eq_true_2 by (rewrite Hcl; left).
      unfold advance. destruct (is_terminal (j_status j)) eqn:Ht; [done|]. exfalso. by apply Hp.
    + apply f_equal2 with (f := fun (b : bool) x => if b then x else j); [|done].
      apply bool_decide_ext. rewrite elem_of_cons. naive_solver.
Qed.

(** The loop over the clusters. *)
Lemma refresh_groups_spec l clusters : forall answers done n w,
  l ≡ₚ map_values jobs0 -> NoDup clusters -> (forall c, c ∈ clusters -> c ∉ done) ->
  m_jobs (jw_store w) = advanced answers done <$> jobs0 ->
  exists n' answers' w',
    refresh_groups registry ((fun c => (c, filter (pending_on c) l)) <$> clusters) n w = (Ok n', w') /\
    m_jobs (jw_store w') = advanced answers' (reverse clusters ++ done) <$> jobs0 /\
    jw_store w' = set_jobs (m_jobs (jw_store w')) (jw_store w) /\
    (forall c, answers' c <> [] -> answers c <> [] \/ is_Some (by_id registry c)) /\
    jw_sent w' = jw_sent w ++ omap (fun c => by_id registry c ≫= poll_request) clusters.
Proof.
  induction clusters as [|c clusters IH]; intros answers done n w Hl Hnd Hdone Hw.
  { exists n, answers, w. split_and!; [done|done|by destruct w as [[] ?]|auto|by rewrite app_nil_r]. }
  apply NoDup_cons in Hnd as [Hc Hnd]. rewrite fmap_cons. cbn [refresh_groups].
  assert (Hfresh : forall c', c' ∈ clusters -> c' ∉ c :: done) by set_solver.
  assert (Hskip : advanced answers done <$> jobs0 = advanced (answered answers c []) (c :: done) <$> jobs0).
  { rewrite <- (records_step answers done c l []) by (done || set_solver).
    induction (filter (pending_on c) l) as [|j r IHr]; [done|]. exact IHr. }
  assert (Hnext : forall answers1 n1 w1, m_jobs (jw_store w1) = advanced answers1 (c :: done) <$> jobs0 ->
    exists n' answers' w',
    refresh_groups registry ((fun c => (c, filter (pending_on c) l)) <$> clusters) n1 w1 = (Ok n', w') /\
    m_jobs (jw_store w') = advanced answers' (reverse (c :: clusters) ++ done) <$> jobs0 /\
    jw_store w' = set_jobs (m_jobs (jw_store w')) (jw_store w1) /\
    (forall c, answers' c <> [] -> answers1 c <> [] \/ is_Some (by_id registry c)) /\
    jw_sent w' = jw_sent w1 ++ omap (fun c => by_id registry c ≫= poll_request) clusters).
  { intros answers1 n1 w1 Hw1. destruct (IH answers1 (c :: done) n1 w1) as (n' & a' & w' & ? & Hj & ?); try done.
    exists n', a', w'. split; [done|]. split; [|done]. by rewrite reverse_cons, <- app_assoc. }
  assert (Hblank : forall a' : string -> list RayJobSummary, (forall c', a' c' <> [] -> answered answers c [] c' <> [] \/ is_Some (by_id registry c')) ->
    forall c', a' c' <> [] -> answers c' <> [] \/ is_Some (by_id registry c')).
  { intros a' Ha c' Hc'. destruct (Ha c' Hc') as [Hne|]; [|by right]. unfold answered in Hne.
    destruct (String.eqb c' c); [done|by left]. }
  cbn [omap list_omap].
  destruct (by_id registry c) as [ep|] eqn:Hep; cbn [mbind option_bind].
  - rewrite ST_bind_eq. unfold fetch_jobs. destruct (poll_request ep) as [q|].
    + cbv beta iota. set (w1 := {| jw_store := jw_store w; jw_sent := jw_sent w ++ [q] |}).
      destruct (exchange (jw_sent w) q ≫= _) as [summaries|].
      * destruct (refresh_records_spec (index_of summaries) (filter (pending_on c) l) n w1) as (n1 & Hr);
          [by apply records_nodup|].
        rewrite ST_bind_eq, Hr. unfold w1. cbn [jw_store jw_sent]. cbv beta iota.
        rewrite Hw, (records_step answers done c l summaries) by (done || set_solver).
        destruct (Hnext (answered answers c summaries) n1 {| jw_store := set_jobs
            (advanced (answered answers c summaries) (c :: done) <$> jobs0) (jw_store w); jw_sent := jw_sent w ++ [q] |})
          as (n' & a' & w' & Hrun & Hj & Hs & Ha & Hsent); [done|].
        exists n', a', w'. split_and!; [exact Hrun|done|exact Hs| |].
        -- intros c' Hc'. destruct (Ha c' Hc') as [Hne|]; [|by right]. unfold answered in Hne.
           destruct (String.eqb_spec c' c) as [->|]; [right; by rewrite Hep|by left].
        -- rewrite Hsent. cbn [jw_sent]. by rewrite <- app_assoc.
      * destruct (Hnext (answered answers c []) n w1) as (n' & a' & w' & Hrun & Hj & Hs & Ha & Hsent);
          [by rewrite <- Hskip|].
        exists n', a', w'. split_and!; [done|done|done| |].
        -- by apply Hblank.
        -- rewrite Hsent. unfold w1. cbn [jw_sent]. by rewrite <- app_assoc.
    + destruct (Hnext (answered answers c []) n w) as (n' & a' & w' & Hrun & Hj & Hs & Ha & Hsent);
        [by rewrite <- Hskip|]. exists n', a', w'. split_and!; [done|done|done| |done].
      by apply Hblank.
  - destruct (Hnext (answered answers c []) n w) as (n' & a' & w' & Hrun & Hj & Hs & Ha & Hsent);
      [by rewrite <- Hskip|]. exists n', a', w'. split_and!; [done|done|done| |done].
    by apply Hblank.
Qed.
End pass.

Lemma groups_of_clusters (l : list JobRecord) :
  exists clusters, map_to_list (foldl group_job ∅ l) = (fun c => (c, filter (pending_on c) l)) <$> clusters /\
    NoDup clusters /\ forall c, c ∈ clusters <-> exists j, j ∈ l /\ pending_on c j.
Proof.
  exists (map_to_list (foldl group_job ∅ l)).*1. split_and!.
  - rewrite <- list_fmap_compose. rewrite <- (list_fmap_id (map_to_list _)) at 1. apply list_fmap_ext.
    intros i [c r] Hr%list_elem_of_lookup_2%elem_of_map_to_list. cbn. rewrite group_jobs_lookup in Hr.
    destruct (filter (pending_on c) l); [done|]. by injection Hr as <-.
  - apply NoDup_fst_map_to_list.
  - intros c. rewrite list_elem_of_fmap. split.
    + intros ([c' r] & -> & Hr%elem_of_map_to_list). cbn. rewrite group_jobs_lookup in Hr.
      destruct (filter (pending_on c') l) as [|j l'] eqn:E; [done|].
      assert (Hin : j ∈ filter (pending_on c') l) by (rewrite E; left).
      apply list_elem_of_filter in Hin as [Hp Hin]. by exists j.
    + intros (j & Hj & Hp).
      assert (Hin : j ∈ filter (pending_on c) l) by (by apply list_elem_of_filter).
      exists (c, filter (pending_on c) l). split; [done|]. apply elem_of_map_to_list. rewrite group_jobs_lookup.
      destruct (filter (pending_on c) l); [by apply not_elem_of_nil in Hin|done].
Qed.


(** The listing: every recorded job once, newest first, to callers who may read
    jobs; nothing is stored by it. *)
Lemma list_jobs_route_spec identity w :
  let '(r, w') := list_jobs_route identity w in
  core (api_store w') = core (api_store w) /\ is_ok r = permitted identity Read TJob /\
  forall l, r = Ok l ->
    l ≡ₚ job_view <$> map_values (m_jobs (api_store w)) /\
    StronglySorted (fun a b => jv_submitted_at b <= jv_submitted_at a) l.
Proof.
  unfold list_jobs_route. rewrite ST_bind_eq.
  destruct (or_deny_authorize identity Read TJob w) as (w1 & -> & Hw1 & Hc & _).
  destruct (permitted identity Read TJob); cbn; [|by split_and!].
  rewrite Hw1 by done. split_and!; [done|done|]. intros l [= <-]. split.
  - apply Permutation_map, sort_stable_perm.
  - pose proof (sort_by_key_strongly (fun r => - j_submitted_at r) (map_values (m_jobs (api_store w)))) as Hs.
    induction Hs as [|x l' _ IH HF]; constructor; [done|]. apply Forall_fmap.
    eapply Forall_impl; [exact HF|]. cbn. lia.
Qed.
End history.

(** ** Concrete runs *)

Module Runs.
#[local] Instance codec : AuditCodec := {| sha256_hex := fun s => s; audit_json := fun _ => EmptyString |}.
#[local] Instance values : HeaderValues := fun s => Some (bytes_of s).
(** The dashboard knows one job, finished in 42 seconds. *)
#[local] Instance net : Network := fun _ q => Some {|
  up_status := 200; up_headers := []; up_body := [Some (bytes_of "jobs")]; up_millis := 1 |}.
#[local] Instance text : JsonText := fun b =>
  if bool_decide (b = bytes_of "jobs") then Some (JArr [JObj [
    ("submission_id", JStr "raysubmit_1"); ("status", JStr "SUCCEEDED");
    ("start_time", JNum 1000); ("end_time", JNum 43000)]])
  else Some (JObj [("submission_id", JStr "raysubmit_1")]).

Definition job (cluster submitter status : string) (d : option Z) : JobRecord := {|
  j_id := "raysubmit_1"; j_cluster := cluster; j_submitter := submitter; j_status := status;
  j_duration_secs := d; j_submitted_at := 7 |}.
Definition world : JobWorld := {|
  jw_store := set_jobs {["raysubmit_1"%string := job "demo" "alice" "PENDING" None]} empty_store; jw_sent := [] |}.


(** Records are keyed by the submission id alone, which the submitting client may
    choose: a submission to another cluster under the id of somebody's job takes
    its record over. *)
Lemma resubmitted_id_takes_over :
  let w := {| api_store := jw_store world; api_clock := fun _ => 99; api_reads := 0 |} in
  m_jobs (api_store (snd (record_submission true "other" (Some "mallory"%string) (bytes_of "{}") w)))
  = {["raysubmit_1"%string := {| j_id := "raysubmit_1"; j_cluster := "other"; j_submitter := "mallory";
      j_status := "PENDING"; j_duration_secs := None; j_submitted_at := 99 |}]}.
Proof. vm_compute. reflexivity. Qed.
End Runs.
