(* ===== verification/Gateway.v ===== *)
(** * The federating job gateway (mobula-api/src/gateway.rs)

    Requests for a registered cluster's host are proxied to its Ray dashboard with
    the cluster's own token; the rest goes on to the control plane. The world holds
    the API's store and clock, the requests sent southbound and the free permits
    of the in-flight semaphore. *)

From S2P Require Import Prelude Float64 Core Store Json Auth Oidc Registry Api AuthLayer Http ObsApi JobHistory.
#[local] Open Scope Z_scope.

Record GatewayLimits := {
  gl_max_body_bytes : Z;
  gl_max_inflight : Z;
  gl_ws_connect_timeout : Z;
  gl_ws_idle_timeout : Z;
  gl_ws_max_frame_bytes : Z;
  gl_ws_max_message_bytes : Z;
}.
Definition default_limits : GatewayLimits := {|
  gl_max_body_bytes := 64 * 1024 * 1024; gl_max_inflight := 64; gl_ws_connect_timeout := 15;
  gl_ws_idle_timeout := 300; gl_ws_max_frame_bytes := 4 * 1024 * 1024;
  gl_ws_max_message_bytes := 16 * 1024 * 1024 |}.

Record GatewayState := { gs_registry : ClusterRegistry; gs_limits : GatewayLimits; gs_store : bool }.

(** A request: [gr_path_and_query] is the URI's, when it has one. *)
Record GwRequest := {
  gr_method : string;
  gr_path : string;
  gr_path_and_query : option string;
  gr_headers : HeaderMap;
  gr_body : Stream;
}.

Record GwWorld := { gw_api : ApiWorld; gw_sent : list SouthRequest; gw_permits : Z }.

Inductive GatewayError := BodyTooLarge | BadToken | UpstreamFailed (cluster : string).

Inductive GwAnswer :=
| Proxied (status : Z) (headers : HeaderMap) (body : Stream)
| GwText (status : Z) (text : string)
| Rejected (status : Z)
| Upgraded.

(** The websocket client: the headers it gives a request of its own, how a connect
    within the timeout ends, and whether the caller's upgrade is refused. *)
Inductive ConnectOutcome := Connected | ConnectFailed | ConnectTimedOut.
Class WsClient := {
  into_client_request : string -> option HeaderMap;
  connect_async : list SouthRequest -> SouthRequest -> ConnectOutcome;
  upgrade_rejection : GwRequest -> option Z;
}.

Section gateway.
Context `{AuditCodec} `{Http} `{HeaderValues} `{Network} `{JsonText} `{WsClient}.

Abbreviation G E := (ST GwWorld E).

Definition on_gw_api {E X} (m : H X) (dflt : X) : G E X := fun w =>
  let '(r, a) := m (gw_api w) in
  (Ok (match r with Ok x => x | Err _ => dflt end),
   {| gw_api := a; gw_sent := gw_sent w; gw_permits := gw_permits w |}).

(** [emit]: one allow row of the gateway, when there is a store. *)
Definition gateway_event (subject : option string) (cluster : ClusterId) (method path : string)
    (status latency : option Z) (ts : Z) : AuditEvent := {|
  ae_ts := ts; ae_subject := subject; ae_decision := Allow; ae_reason := None; ae_action := None;
  ae_cluster := Some cluster; ae_method := Some method; ae_path := Some path; ae_status := status;
  ae_latency_ms := latency; ae_required := None; ae_granted_roles := [] |}.
Definition emit_allow {E} (gs : GatewayState) (event : Z -> AuditEvent) : G E unit :=
  ts ← on_gw_api now_unix 0;
  if gs_store gs then on_gw_api (emit (event ts)) tt else mret tt.

Definition send_south {E} (q : SouthRequest) : G E (option Upstream) := fun w =>
  (Ok (exchange (gw_sent w) q),
   {| gw_api := gw_api w; gw_sent := gw_sent w ++ [q]; gw_permits := gw_permits w |}).

Definition or_fail {X} (e : GatewayError) (o : option X) : G GatewayError X :=
  match o with Some x => mret x | None => st_err e end.

Definition ok_bytes (r : result BufferError Bytes) : option Bytes :=
  match r with Ok b => Some b | Err _ => None end.

(** The headers of the southbound request: the caller's, filtered, and the
    cluster's token. *)
Definition swap_credentials (cluster : ClusterEndpoint) (inbound : HeaderMap) : option HeaderMap :=
  match ep_auth_token cluster with
  | None => Some (southbound_headers inbound)
  | Some token =>
      (fun v => hm_insert (southbound_headers inbound) "authorization" v)
        <$> header_value ("Bearer " +:+ token)
  end.

Definition proxy (gs : GatewayState) (identity : option Identity) (cluster : ClusterEndpoint) (req : GwRequest)
  : G GatewayError GwAnswer :=
  let subject := id_subject <$> identity in
  let url := trim_end_slashes (ep_api_base_url cluster) +:+ default "/"%string (gr_path_and_query req) in
  body ← or_fail BodyTooLarge (ok_bytes (buffer (gl_max_body_bytes (gs_limits gs)) [] (gr_body req)));
  headers ← or_fail BadToken (swap_credentials cluster (gr_headers req));
  sent ← send_south {| so_method := gr_method req; so_url := url; so_headers := headers; so_body := body |};
  upstream ← or_fail (UpstreamFailed (ep_id cluster)) sent;
  let status := up_status upstream in
  let headers := response_headers (up_headers upstream) in
  _ ← emit_allow gs (gateway_event subject (ep_id cluster) (gr_method req) (gr_path req) (Some status)
        (Some (up_millis upstream)));
  if is_ray_job_submit (gr_method req) (gr_path req) && is_success status then
    bytes ← or_fail BodyTooLarge (ok_bytes (buffer MAX_SUBMIT_BODY_BYTES [] (up_body upstream)));
    _ ← on_gw_api (record_submission (gs_store gs) (ep_id cluster) subject bytes) tt;
    mret (Proxied status headers [Some bytes])
  else mret (Proxied status headers (up_body upstream)).

Definition into_response (e : GatewayError) : GwAnswer :=
  match e with
  | BodyTooLarge => GwText 413 "request body too large"
  | BadToken => GwText 500 "cluster auth token is not a valid header value"
  | UpstreamFailed _ => GwText 502 "cluster unreachable"
  end.

(** *** Websockets *)

Definition ws_base (base : string) : string :=
  match strip_prefix "https://" base with
  | Some rest => "wss://" +:+ rest
  | None => match strip_prefix "http://" base with Some rest => "ws://" +:+ rest | None => base end
  end.

(** The southbound upgrade: the client library's headers and the token. *)
Definition ws_request (cluster : ClusterEndpoint) (req : GwRequest) : result GwAnswer SouthRequest :=
  let url := ws_base (trim_end_slashes (ep_api_base_url cluster))
             +:+ default "/"%string (gr_path_and_query req) in
  match into_client_request url with
  | None => Err (GwText 502 "bad upstream url")
  | Some own =>
      let make headers := {| so_method := "GET"; so_url := url; so_headers := headers; so_body := [] |} in
      match ep_auth_token cluster with
      | None => Ok (make own)
      | Some token =>
          match header_value ("Bearer " +:+ token) with
          | Some v => Ok (make (hm_insert own "authorization" v))
          | None => Err (GwText 500 "bad cluster token")
          end
      end
  end.

Definition proxy_upgrade (gs : GatewayState) (identity : option Identity) (cluster : ClusterEndpoint)
    (req : GwRequest) : G GwAnswer GwAnswer :=
  southbound ← (match ws_request cluster req with Ok q => mret q | Err a => st_err a end);
  outcome ← (fun w => (Ok (connect_async (gw_sent w) southbound),
               {| gw_api := gw_api w; gw_sent := gw_sent w ++ [southbound]; gw_permits := gw_permits w |}));
  match outcome with
  | ConnectFailed => st_err (GwText 502 "cluster unreachable")
  | ConnectTimedOut => st_err (GwText 504 "cluster connect timed out")
  | Connected =>
      match upgrade_rejection req with
      | Some status => st_err (Rejected status)
      | None =>
          _ ← emit_allow gs (gateway_event (id_subject <$> identity) (ep_id cluster) "WS" (gr_path req) None None);
          mret Upgraded
      end
  end.

Definition is_websocket_upgrade (headers : HeaderMap) : bool :=
  is_some_and (hm_get "upgrade" headers ≫= header_to_str) (fun v => eq_ignore_ascii_case v "websocket").

(** *** Dispatch *)

Definition release (w : GwWorld) : GwWorld := {|
  gw_api := gw_api w; gw_sent := gw_sent w; gw_permits := gw_permits w + 1 |}.
Definition acquire (w : GwWorld) : GwWorld := {|
  gw_api := gw_api w; gw_sent := gw_sent w; gw_permits := gw_permits w - 1 |}.

Definition cluster_for (gs : GatewayState) (req : GwRequest) : option ClusterEndpoint :=
  v ← hm_get "host" (gr_headers req); h ← header_to_str v; by_hostname (gs_registry gs) h.

(** The permit is dropped with the answer; an accepted upgrade keeps it. *)
Definition to_cluster (gs : GatewayState) (identity : option Identity) (cluster : ClusterEndpoint)
    (req : GwRequest) (w : GwWorld) : GwAnswer * GwWorld :=
  if Z.leb (gw_permits w) 0 then (GwText 503 "gateway busy: too many inflight proxied requests", w)
  else if is_websocket_upgrade (gr_headers req) then
    match proxy_upgrade gs identity cluster req (acquire w) with
    | (Ok a, w') => (a, w')
    | (Err a, w') => (a, release w')
    end
  else
    match proxy gs identity cluster req (acquire w) with
    | (Ok a, w') => (a, release w')
    | (Err e, w') => (into_response e, release w')
    end.

(** The dispatch by host, on any world that has the gateway's as a part. *)
Definition host_gateway {W Y} (part : W -> GwWorld) (put : GwWorld -> W -> W) (gs : GatewayState)
    (identity : option Identity) (next : W -> Y * W) (req : GwRequest) (w : W) : (Y + GwAnswer) * W :=
  match cluster_for gs req with
  | None => let '(y, w') := next w in (inl y, w')
  | Some cluster => let '(a, g) := to_cluster gs identity cluster req (part w) in (inr a, put g w)
  end.
End gateway.

(** ** The websocket bridge *)

Inductive TsMessage :=
| TsText (t : string) | TsBinary (b : Bytes) | TsPing (p : Bytes) | TsPong (p : Bytes)
| TsClose (frame : option (Z * string)) | TsFrame (raw : Bytes).
Inductive AxMessage :=
| AxText (t : string) | AxBinary (b : Bytes) | AxPing (p : Bytes) | AxPong (p : Bytes)
| AxClose (frame : option (Z * string)).

Definition ts_to_axum (m : TsMessage) : option AxMessage :=
  match m with
  | TsText t => Some (AxText t)
  | TsBinary b => Some (AxBinary b)
  | TsPing p => Some (AxPing p)
  | TsPong p => Some (AxPong p)
  | TsClose f => Some (AxClose f)
  | TsFrame _ => None
  end.
Definition axum_to_ts (m : AxMessage) : option TsMessage :=
  match m with
  | AxText t => Some (TsText t)
  | AxBinary b => Some (TsBinary b)
  | AxPing p => Some (TsPing p)
  | AxPong p => Some (TsPong p)
  | AxClose f => Some (TsClose f)
  end.

(** What [select!] sees and when: a message of a side, or [None] for its end or a
    protocol error; [be_sent] says whether the other side still takes it. *)
Inductive BridgeInput := FromUpstream (m : option TsMessage) | FromClient (m : option AxMessage).
Record BridgeEvent := { be_at : Z; be_input : BridgeInput; be_sent : bool }.

Record Relayed := { br_to_client : list AxMessage; br_to_upstream : list TsMessage; br_closed_at : Z }.

(** The loop; [deadline] is when the idle timer fires, and when nothing more
    arrives it does. *)
Fixpoint bridge (idle_timeout deadline : Z) (events : list BridgeEvent)
    (to_client : list AxMessage) (to_upstream : list TsMessage) : Relayed :=
  let stop t := {| br_to_client := to_client; br_to_upstream := to_upstream; br_closed_at := t |} in
  match events with
  | [] => stop deadline
  | e :: events' =>
      if Z.ltb deadline (be_at e) then stop deadline
      else
        let go := bridge idle_timeout (be_at e + idle_timeout) events' in
        match be_input e with
        | FromUpstream None | FromClient None => stop (be_at e)
        | FromUpstream (Some m) =>
            match ts_to_axum m with
            | Some m' => if be_sent e then go (to_client ++ [m']) to_upstream else stop (be_at e)
            | None => go to_client to_upstream
            end
        | FromClient (Some m) =>
            match axum_to_ts m with
            | Some m' => if be_sent e then go to_client (to_upstream ++ [m']) else stop (be_at e)
            | None => go to_client to_upstream
            end
        end
  end.
