(* ===== verification/GatewayFacts.v ===== *)
(** * What the gateway sends, relays and buffers *)

From S2P Require Import Prelude Float64 Core Store StoreFacts Json Auth Oidc Registry Api AuthLayer Http ObsApi.
From S2P Require Import JobHistory Gateway.
#[local] Open Scope Z_scope.

(** ** One request through the gateway *)

Section request.
Context `{AuditCodec} `{Http} `{HeaderValues} `{Network} `{JsonText} `{WsClient}.

(** The values a southbound request carries under a name: the cluster's token for
    [authorization]; otherwise what the websocket client sets by itself, or what
    the caller sent and the filter passes. *)
Definition south_header (cluster : ClusterEndpoint) (req : GwRequest) (url name : string) : list Bytes :=
  match (if String.eqb name "authorization"
         then ep_auth_token cluster ≫= fun t => header_value ("Bearer " +:+ t) else None) with
  | Some v => [v]
  | None =>
      if is_websocket_upgrade (gr_headers req) then hm_get_all name (default [] (into_client_request url))
      else if decide (name ∈ never_southbound ++ connection_nominated (gr_headers req)) then []
      else hm_get_all name (gr_headers req)
  end.

Definition southbound_ok (gs : GatewayState) (req : GwRequest) (q : SouthRequest) : Prop :=
  exists cluster, cluster_for gs req = Some cluster /\
    so_url q = (if is_websocket_upgrade (gr_headers req) then ws_base (trim_end_slashes (ep_api_base_url cluster))
                else trim_end_slashes (ep_api_base_url cluster)) +:+ default "/"%string (gr_path_and_query req) /\
    (forall name, hm_get_all name (so_headers q) = south_header cluster req (so_url q) name) /\
    Z.of_nat (length (so_body q)) <= Z.max 0 (gl_max_body_bytes (gs_limits gs)).

(** A name that is dropped northbound is in no answer; any other carries the last
    value the cluster sent. *)
Definition northbound_ok (a : GwAnswer) : Prop :=
  match a with
  | Proxied _ headers _ => exists up, forall name,
      hm_get_all name headers =
      if decide (name ∈ never_northbound ++ connection_nominated up) then []
      else match last (hm_get_all name up) with Some v => [v] | None => [] end
  | _ => True
  end.

Lemma swapped_headers cluster req url headers name :
  is_websocket_upgrade (gr_headers req) = false ->
  swap_credentials cluster (gr_headers req) = Some headers ->
  hm_get_all name headers = south_header cluster req url name.
Proof.
  intros Hws. unfold swap_credentials, south_header. rewrite Hws.
  pose proof (southbound_get_all (gr_headers req) name) as Hsb.
  destruct (ep_auth_token cluster) as [t|]; cbn.
  - intros (v & Hv & ->)%fmap_Some. rewrite Hv, get_all_insert, Hsb. by destruct (String.eqb name _).
  - intros [= <-]. rewrite Hsb. by destruct (String.eqb name _).
Qed.

Lemma upgraded_headers cluster req q name :
  is_websocket_upgrade (gr_headers req) = true -> ws_request cluster req = Ok q ->
  hm_get_all name (so_headers q) = south_header cluster req (so_url q) name.
Proof.
  intros Hws. unfold ws_request, south_header. rewrite Hws.
  destruct (into_client_request _) as [own|] eqn:Ho; [|done].
  destruct (ep_auth_token cluster) as [t|].
  - destruct (header_value _) as [v|] eqn:Hv; [|done]. intros [= <-]. cbn [so_headers so_url mbind option_bind].
    rewrite Hv, get_all_insert, Ho. by destruct (String.eqb name _).
  - intros [= <-]. cbn. rewrite Ho. by destruct (String.eqb name _).
Qed.

(** How a step moves the world: at most one request is sent, permits stay. *)
Definition sends (gs : GatewayState) (req : GwRequest) (n : nat) {E X} (m : ST GwWorld E X) : Prop :=
  forall w, gw_permits (snd (m w)) = gw_permits w /\
    exists qs, gw_sent (snd (m w)) = gw_sent w ++ qs /\ (length qs <= n)%nat /\ Forall (southbound_ok gs req) qs.

Lemma sends_none {E X} gs req (m : ST GwWorld E X) :
  (forall w, gw_permits (snd (m w)) = gw_permits w /\ gw_sent (snd (m w)) = gw_sent w) -> sends gs req 0 m.
Proof. intros Hm w. destruct (Hm w) as [-> ->]. split; [done|]. exists []. rewrite app_nil_r. by split_and!. Qed.

Lemma sends_bind {E X Y} gs req n1 n2 (m : ST GwWorld E X) (f : X -> ST GwWorld E Y) :
  sends gs req n1 m -> (forall x, sends gs req n2 (f x)) -> sends gs req (n1 + n2) (m ≫= f).
Proof.
  intros Hm Hf w. rewrite ST_bind_eq. destruct (Hm w) as (Hp & qs & Hs & Hl & HF).
  destruct (m w) as [[x|e] w1]; cbn [snd] in *.
  - destruct (Hf x w1) as (Hp' & qs' & Hs' & Hl' & HF'). split; [congruence|]. exists (qs ++ qs').
    rewrite Hs', Hs, app_assoc, length_app. split_and!; [done|lia|by apply Forall_app].
  - split; [done|]. exists qs. split_and!; [done|lia|done].
Qed.

(** Going on with what a step that sends nothing has found. *)
Lemma sends_or_fail {X Y} gs req n e (o : option X) (f : X -> ST GwWorld GatewayError Y) :
  (forall x, o = Some x -> sends gs req n (f x)) -> sends gs req n (x ← or_fail e o; f x).
Proof.
  intros Hf w. destruct o as [x|]; [by apply Hf|]. split; [done|]. exists []. rewrite app_nil_r.
  split_and!; [done|cbn; lia|constructor].
Qed.

Lemma sends_api {E X} gs req (m : H X) d : sends (E := E) gs req 0 (on_gw_api m d).
Proof. apply sends_none. intros w. unfold on_gw_api. by destruct (m (gw_api w)). Qed.

Lemma sends_emit {E} gs req ev : sends (E := E) gs req 0 (emit_allow gs ev).
Proof.
  unfold emit_allow. apply (sends_bind gs req 0 0); [apply sends_api|]. intros ts.
  destruct (gs_store gs); [apply sends_api|by apply sends_none].
Qed.

Lemma sends_south {E} gs req q : southbound_ok gs req q -> sends (E := E) gs req 1 (send_south q).
Proof. intros Hq w. cbn. split; [done|]. exists [q]. split_and!; [done|cbn; lia|by repeat constructor]. Qed.

Lemma sends_proxy gs identity cluster req :
  cluster_for gs req = Some cluster -> is_websocket_upgrade (gr_headers req) = false ->
  sends gs req 1 (proxy gs identity cluster req).
Proof.
  intros Hc Hws. unfold proxy. apply sends_or_fail. intros body Hb. apply sends_or_fail. intros headers Hh.
  apply (sends_bind gs req 1 0).
  - apply sends_south. exists cluster. rewrite Hws. cbn [so_url so_headers so_body].
    split_and!; [done|done|intros name; by apply swapped_headers|].
    destruct (buffer _ [] _) as [b|] eqn:Eb; [|done]. injection Hb as ->.
    apply buffer_bounded in Eb. cbn in Eb. lia.
  - intros o. apply sends_or_fail. intros up _. apply (sends_bind gs req 0 0); [apply sends_emit|]. intros _.
    destruct (_ && _); [|by apply sends_none]. apply sends_or_fail. intros bytes _.
    apply (sends_bind gs req 0 0); [apply sends_api|]. intros _. by apply sends_none.
Qed.

Lemma sends_upgrade gs identity cluster req :
  cluster_for gs req = Some cluster -> is_websocket_upgrade (gr_headers req) = true ->
  sends gs req 1 (proxy_upgrade gs identity cluster req).
Proof.
  intros Hc Hws. unfold proxy_upgrade. destruct (ws_request cluster req) as [q|a] eqn:Hq.
  - intros w. rewrite ST_bind_eq. cbn [mret]. unfold ST_ret. revert w. apply (sends_bind gs req 1 0).
    + intros w. cbn. split; [done|]. exists [q]. split_and!; [done|cbn; lia|]. repeat constructor.
      exists cluster. rewrite Hws. split_and!; [done| |intros name; by apply upgraded_headers|];
        unfold ws_request in Hq; repeat case_match; try done; injection Hq as <-; cbn; [done..|lia|lia].
    + intros [| |]; [|by apply sends_none|by apply sends_none].
      destruct (upgrade_rejection req); [by apply sends_none|].
      apply (sends_bind gs req 0 0); [apply sends_emit|]. intros _. by apply sends_none.
  - intros w. cbn. split; [done|]. exists []. rewrite app_nil_r. split_and!; [done|cbn; lia|constructor].
Qed.

Lemma or_fail_bind {X Y} e (o : option X) (f : X -> ST GwWorld GatewayError Y) w :
  (x ← or_fail e o; f x) w = match o with Some x => f x w | None => (Err e, w) end.
Proof. by destruct o. Qed.

Lemma emit_allow_ok {E} gs ev w : exists w', emit_allow (E := E) gs ev w = (Ok tt, w').
Proof.
  unfold emit_allow. rewrite ST_bind_eq. unfold on_gw_api at 1. cbn. destruct (gs_store gs); by eexists.
Qed.

(** The answers of [proxy] are the cluster's, with its headers filtered. *)
Lemma proxy_answer gs identity cluster req w a :
  fst (proxy gs identity cluster req w) = Ok a ->
  exists up body, a = Proxied (up_status up) (response_headers (up_headers up)) body.
Proof.
  unfold proxy. rewrite or_fail_bind. destruct (ok_bytes _); [|done]. rewrite or_fail_bind.
  destruct (swap_credentials _ _); [|done]. rewrite ST_bind_eq. unfold send_south. cbv beta iota. rewrite or_fail_bind.
  destruct (exchange _ _) as [up|]; [|done]. rewrite ST_bind_eq.
  destruct (emit_allow _ _ _) as [[[]|e] w1]; [|done].
  destruct (_ && _); [|intros [= <-]; eauto]. rewrite or_fail_bind. destruct (ok_bytes _); [|done].
  rewrite ST_bind_eq. destruct (on_gw_api _ _ _) as [[[]|e] w2]; [|done]. intros [= <-]. eauto.
Qed.

Lemma northbound_response up st body : northbound_ok (Proxied st (response_headers up) body).
Proof. exists up. apply response_headers_get_all. Qed.

(** What a request for a cluster's host does: at most one request is sent, the
    answer is filtered, the permit comes back unless a bridge keeps it, and without
    one nothing happens. *)
Definition relayed (gs : GatewayState) (req : GwRequest) (w : GwWorld) (a : GwAnswer) (w' : GwWorld) : Prop :=
  (exists qs, gw_sent w' = gw_sent w ++ qs /\ (length qs <= 1)%nat /\ Forall (southbound_ok gs req) qs) /\
  northbound_ok a /\
  (gw_permits w <= 0 -> a = GwText 503 "gateway busy: too many inflight proxied requests" /\ w' = w) /\
  gw_permits w' = gw_permits w - (match a with Upgraded => 1 | _ => 0 end).

Lemma to_cluster_relayed gs identity cluster req w :
  cluster_for gs req = Some cluster ->
  let '(a, w') := to_cluster gs identity cluster req w in relayed gs req w a w'.
Proof.
  intros Hc. unfold to_cluster. destruct (Z.leb_spec (gw_permits w) 0) as [Hfull|Hfree].
  { split_and!; [|done|done|lia]. exists []. rewrite app_nil_r. split_and!; [done|cbn; lia|constructor]. }
  destruct (is_websocket_upgrade (gr_headers req)) eqn:Hws.
  - destruct (sends_upgrade gs identity cluster req Hc Hws (acquire w)) as (Hp & Hq).
    assert (Hok : match proxy_upgrade gs identity cluster req (acquire w) with
                  | (Ok a, _) => a = Upgraded
                  | (Err a, _) => a <> Upgraded /\ northbound_ok a end).
    { unfold proxy_upgrade. rewrite ST_bind_eq. destruct (ws_request cluster req) as [q|a] eqn:E.
      - unfold mret at 1, ST_ret at 1. cbv beta iota. rewrite ST_bind_eq. cbv beta iota.
        destruct (connect_async _ _); [|done|done].
        destruct (upgrade_rejection req); [done|]. rewrite ST_bind_eq.
        destruct (emit_allow_ok (E := GwAnswer) gs (gateway_event (id_subject <$> identity) (ep_id cluster) "WS"
          (gr_path req) None None) {| gw_api := gw_api (acquire w); gw_sent := gw_sent (acquire w) ++ [q];
                                      gw_permits := gw_permits (acquire w) |}) as (w1 & ->). done.
      - cbn. unfold ws_request in E. repeat case_match; try done; by injection E as <-. }
    destruct (proxy_upgrade gs identity cluster req (acquire w)) as [[a|a] w']; cbn [snd acquire gw_permits gw_sent] in *.
    + subst a. split_and!; [done|done|lia|lia].
    + destruct Hok as [Hne Hn]. split_and!; [done|done|lia|]. cbn. destruct a; lia || congruence.
  - destruct (sends_proxy gs identity cluster req Hc Hws (acquire w)) as (Hp & Hq).
    pose proof (proxy_answer gs identity cluster req (acquire w)) as Ha.
    destruct (proxy gs identity cluster req (acquire w)) as [[a|e] w']; cbn [fst snd acquire gw_permits gw_sent] in *.
    + destruct (Ha a eq_refl) as (up & body & ->).
      split_and!; [done|apply northbound_response|lia|cbn; lia].
    + split_and!; [done|by destruct e|lia|]. destruct e; cbn; lia.
Qed.

(** The dispatch, for the server's layers. *)
Lemma host_gateway_cases {W Y} (part : W -> GwWorld) put gs identity (next : W -> Y * W) req w :
  let '(a, w') := host_gateway part put gs identity next req w in
  match cluster_for gs req, a with
  | None, inl y => next w = (y, w')
  | Some _, inr b => exists g, w' = put g w /\ relayed gs req (part w) b g
  | _, _ => False
  end.
Proof.
  unfold host_gateway. destruct (cluster_for gs req) as [cluster|] eqn:Hc; [|by destruct (next w)].
  pose proof (to_cluster_relayed gs identity cluster req (part w) Hc) as Ht.
  destruct (to_cluster _ _ _ _ _) as [a g]. by exists g.
Qed.

End request.

(** ** The bridge *)

Definition client_of (e : BridgeEvent) : option AxMessage :=
  match be_input e with FromUpstream (Some m) => ts_to_axum m | _ => None end.
Definition upstream_of (e : BridgeEvent) : option TsMessage :=
  match be_input e with FromClient (Some m) => axum_to_ts m | _ => None end.

(** An event after which the bridge is still open: a message that needs no relay
    or is taken. *)
Definition relays (e : BridgeEvent) : bool :=
  match be_input e with
  | FromUpstream (Some m) => bool_decide (ts_to_axum m = None) || be_sent e
  | FromClient (Some m) => bool_decide (axum_to_ts m = None) || be_sent e
  | _ => false
  end.

(** The deadline after relaying [pre] from a deadline [d]. *)
Definition deadline_after (idle d : Z) (pre : list BridgeEvent) : Z :=
  match last pre with Some e => be_at e + idle | None => d end.

(** Every event of [pre] comes in time. *)
Fixpoint in_time (idle d : Z) (pre : list BridgeEvent) : Prop :=
  match pre with [] => True | e :: pre' => be_at e <= d /\ in_time idle (be_at e + idle) pre' end.

(** The two sides' message types carry the same messages. *)
Lemma messages_convert_back m m' : axum_to_ts m = Some m' <-> ts_to_axum m' = Some m.
Proof. destruct m, m'; cbn; naive_solver. Qed.

Lemma deadline_cons idle d e pre : deadline_after idle d (e :: pre) = deadline_after idle (be_at e + idle) pre.
Proof. unfold deadline_after. rewrite last_cons. by destruct (last pre). Qed.

Lemma bridge_spec idle events : forall d tc tu,
  exists pre post, events = pre ++ post /\ in_time idle d pre /\ Forall (fun e => relays e = true) pre /\
    let r := bridge idle d events tc tu in
    br_to_client r = tc ++ omap client_of pre /\ br_to_upstream r = tu ++ omap upstream_of pre /\
    br_closed_at r <= deadline_after idle d pre /\
    match post with
    | [] => br_closed_at r = deadline_after idle d pre
    | e :: _ => br_closed_at r = be_at e /\ relays e = false \/
                br_closed_at r = deadline_after idle d pre /\ deadline_after idle d pre < be_at e
    end.
Proof.
  induction events as [|e events IH]; intros d tc tu.
  { exists [], []. cbn. rewrite !app_nil_r. by split_and!. }
  cbn [bridge]. destruct (Z.ltb_spec d (be_at e)) as [Hlate|Hin].
  { exists [], (e :: events). cbn. rewrite !app_nil_r. split_and!; try done. by right. }
  assert (Hstop : relays e = false -> exists pre post, e :: events = pre ++ post /\ in_time idle d pre /\
      Forall (fun e => relays e = true) pre /\
      let r := {| br_to_client := tc; br_to_upstream := tu; br_closed_at := be_at e |} in
      br_to_client r = tc ++ omap client_of pre /\ br_to_upstream r = tu ++ omap upstream_of pre /\
      br_closed_at r <= deadline_after idle d pre /\
      match post with
      | [] => br_closed_at r = deadline_after idle d pre
      | e :: _ => br_closed_at r = be_at e /\ relays e = false \/
                  br_closed_at r = deadline_after idle d pre /\ deadline_after idle d pre < be_at e
      end).
  { intros Hr. exists [], (e :: events). cbn. rewrite !app_nil_r. split_and!; try done. by left. }
  assert (Hgo : forall tc' tu', relays e = true ->
      tc' = tc ++ match client_of e with Some m => [m] | None => [] end ->
      tu' = tu ++ match upstream_of e with Some m => [m] | None => [] end ->
      exists pre post, e :: events = pre ++ post /\ in_time idle d pre /\ Forall (fun e => relays e = true) pre /\
      let r := bridge idle (be_at e + idle) events tc' tu' in
      br_to_client r = tc ++ omap client_of pre /\ br_to_upstream r = tu ++ omap upstream_of pre /\
      br_closed_at r <= deadline_after idle d pre /\
      match post with
      | [] => br_closed_at r = deadline_after idle d pre
      | e :: _ => br_closed_at r = be_at e /\ relays e = false \/
                  br_closed_at r = deadline_after idle d pre /\ deadline_after idle d pre < be_at e
      end).
  { intros tc' tu' Hr -> ->. destruct (IH (be_at e + idle) (tc ++ match client_of e with Some m => [m] | None => [] end)
      (tu ++ match upstream_of e with Some m => [m] | None => [] end)) as (pre & post & -> & Ht & HF & Hc & Hu & Hd & Hp).
    exists (e :: pre), post. rewrite !deadline_cons. cbn [omap list_omap]. cbv zeta in *. rewrite Hc, Hu, <- !app_assoc.
    split_and!; [done|done|by constructor| | |done|done]; by destruct (client_of e), (upstream_of e). }
  unfold relays, client_of, upstream_of in Hstop, Hgo. destruct (be_input e) as [[m|]|[m|]].
  - destruct (ts_to_axum m) as [m'|] eqn:Em.
    + rewrite bool_decide_eq_false_2 in Hstop, Hgo by done. destruct (be_sent e); [by apply Hgo; rewrite ?app_nil_r|by apply Hstop].
    + rewrite bool_decide_eq_true_2 in Hgo by done. apply Hgo; by rewrite ?app_nil_r.
  - by apply Hstop.
  - destruct (axum_to_ts m) as [m'|] eqn:Em.
    + rewrite bool_decide_eq_false_2 in Hstop, Hgo by done. destruct (be_sent e); [by apply Hgo; rewrite ?app_nil_r|by apply Hstop].
    + by destruct m.
  - by apply Hstop.
Qed.


(** ** Requests in flight

    The life of the requests that hold a permit, as interleaved steps: a body is
    buffered chunk by chunk, sent, answered (a job submission's reply is buffered
    too), and every way out gives the permit back. *)

Inductive Flight :=
| Reading (body : Z)
| Waiting (body : Z)
| Replying (body reply : Z)
| Connecting
| Bridged.

Definition held (f : Flight) : Z :=
  match f with Reading b | Waiting b => b | Replying b r => b + r | Connecting | Bridged => 0 end.

Record InFlight := { fl_permits : Z; fl_flights : gmap nat Flight }.

Section in_flight.
Context (limits : GatewayLimits).

Inductive gw_step : InFlight -> InFlight -> Prop :=
| admit_request s n f :
    0 < fl_permits s -> fl_flights s !! n = None -> f = Reading 0 \/ f = Connecting ->
    gw_step s {| fl_permits := fl_permits s - 1; fl_flights := <[n := f]> (fl_flights s) |}
| refuse_request s : fl_permits s <= 0 -> gw_step s s
| read_chunk s n b k :
    fl_flights s !! n = Some (Reading b) -> 0 <= k -> b + k <= gl_max_body_bytes limits ->
    gw_step s {| fl_permits := fl_permits s; fl_flights := <[n := Reading (b + k)]> (fl_flights s) |}
| forward s n b :
    fl_flights s !! n = Some (Reading b) ->
    gw_step s {| fl_permits := fl_permits s; fl_flights := <[n := Waiting b]> (fl_flights s) |}
| submit_reply s n b :
    fl_flights s !! n = Some (Waiting b) ->
    gw_step s {| fl_permits := fl_permits s; fl_flights := <[n := Replying b 0]> (fl_flights s) |}
| reply_chunk s n b r k :
    fl_flights s !! n = Some (Replying b r) -> 0 <= k -> r + k <= MAX_SUBMIT_BODY_BYTES ->
    gw_step s {| fl_permits := fl_permits s; fl_flights := <[n := Replying b (r + k)]> (fl_flights s) |}
| open_bridge s n :
    fl_flights s !! n = Some Connecting ->
    gw_step s {| fl_permits := fl_permits s; fl_flights := <[n := Bridged]> (fl_flights s) |}
| finish s n f :
    fl_flights s !! n = Some f ->
    gw_step s {| fl_permits := fl_permits s + 1; fl_flights := delete n (fl_flights s) |}.

Definition idle_gateway : InFlight := {| fl_permits := gl_max_inflight limits; fl_flights := ∅ |}.
Definition flight_cap : Z := gl_max_body_bytes limits + MAX_SUBMIT_BODY_BYTES.
Definition flight_ok (f : Flight) : Prop :=
  match f with
  | Reading b | Waiting b => 0 <= b <= gl_max_body_bytes limits
  | Replying b r => 0 <= b <= gl_max_body_bytes limits /\ 0 <= r <= MAX_SUBMIT_BODY_BYTES
  | Connecting | Bridged => True
  end.

Record flights_inv (s : InFlight) : Prop := {
  fi_permits : 0 <= fl_permits s;
  fi_count : fl_permits s + Z.of_nat (size (fl_flights s)) = gl_max_inflight limits;
  fi_flights : map_Forall (fun _ f => flight_ok f) (fl_flights s);
}.

(** All the bytes buffered for requests and replies. *)
Definition buffered (s : InFlight) : Z := map_fold (fun _ f acc => held f + acc) 0 (fl_flights s).

Lemma buffered_bound (m : gmap nat Flight) :
  0 <= gl_max_body_bytes limits -> map_Forall (fun _ f => flight_ok f) m ->
  map_fold (fun _ f acc => held f + acc) 0 m <= Z.of_nat (size m) * flight_cap.
Proof.
  intros Hpos. induction m as [|n f m Hn Hfold IH] using map_first_key_ind.
  { by rewrite map_fold_empty, map_size_empty. }
  intros HF. rewrite map_fold_insert_first_key, map_size_insert_None by done.
  apply map_Forall_insert in HF as [Hf HF]; [|done]. specialize (IH HF).
  assert (held f <= flight_cap) as Hh.
  { clear IH HF Hfold. unfold flight_cap, MAX_SUBMIT_BODY_BYTES. destruct f; cbn in *;
      unfold MAX_SUBMIT_BODY_BYTES in *; lia. }
  lia.
Qed.

(** A step on a flight that keeps its permit. *)
Lemma inv_update s n f f' :
  flights_inv s -> fl_flights s !! n = Some f -> flight_ok f' ->
  flights_inv {| fl_permits := fl_permits s; fl_flights := <[n := f']> (fl_flights s) |}.
Proof.
  intros [Hp Hc HF] Hn Hf. split; cbn; [done| |by apply map_Forall_insert_2].
  by rewrite map_size_insert_Some by (by exists f).
Qed.

Lemma step_inv s s' :
  0 <= gl_max_body_bytes limits -> gw_step s s' -> flights_inv s -> flights_inv s'.
Proof.
  intros Hpos Hstep Hinv. pose proof Hinv as [Hp Hc HF].
  destruct Hstep as [s n f Hfree Hn Hf|s Hfull|s n b k Hn Hk Hb|s n b Hn|s n b Hn|s n b r k Hn Hk Hr|s n Hn|s n f Hn];
    try (pose proof (map_Forall_lookup_1 _ _ _ _ HF Hn) as Hok; cbn in Hok).
  - split; cbn; [lia|rewrite map_size_insert_None by done; lia|].
    apply map_Forall_insert_2; [destruct Hf as [->| ->]; cbn; lia || done|done].
  - done.
  - eapply inv_update; [done|done|cbn; lia].
  - eapply inv_update; [done|done|done].
  - eapply inv_update; [done|done|]. unfold flight_ok, MAX_SUBMIT_BODY_BYTES. lia.
  - eapply inv_update; [done|done|cbn; lia].
  - by eapply inv_update.
  - split; cbn; [lia| |by apply map_Forall_delete].
    rewrite map_size_delete_Some by (by exists f).
    assert (size (fl_flights s) <> 0%nat) by (intros E%map_size_empty_inv; by rewrite E in Hn). lia.
Qed.

End in_flight.

(** ** Concrete runs *)

Module GwRuns.
#[local] Instance codec : AuditCodec := {| sha256_hex := fun s => s; audit_json := fun _ => EmptyString |}.
#[local] Instance http : Http := {| header_to_str := fun v => Some (str_of v); method_from_bytes := Some |}.
#[local] Instance values : HeaderValues := fun s => Some (bytes_of s).
#[local] Instance text : JsonText := fun _ => None.
#[local] Instance ws : WsClient := {|
  into_client_request := fun _ => Some []; connect_async := fun _ _ => Connected; upgrade_rejection := fun _ => None |}.

(** A small gateway with one upload half read, one bridge open and no permit left. *)
Definition small : GatewayLimits := {|
  gl_max_body_bytes := 100; gl_max_inflight := 2; gl_ws_connect_timeout := 15; gl_ws_idle_timeout := 300;
  gl_ws_max_frame_bytes := 10; gl_ws_max_message_bytes := 10 |}.
Definition busy : InFlight := {| fl_permits := 0; fl_flights := <[1%nat := Connecting]> {[0%nat := Reading 60]} |}.

Lemma busy_reachable : rtc (gw_step small) (idle_gateway small) busy.
Proof.
  eapply rtc_l. { apply (admit_request small (idle_gateway small) 0 (Reading 0)); [done|done|by left]. }
  eapply rtc_l. { eapply (read_chunk small _ 0 0 60); [done|lia|cbn; lia]. }
  eapply rtc_l. { eapply (admit_request small _ 1 Connecting); [done|done|by right]. }
  cbn. rewrite insert_insert_eq. apply rtc_refl.
Qed.


Definition demo_gs : GatewayState := {| gs_registry := [demo_endpoint]; gs_limits := default_limits; gs_store := true |}.
Definition demo_req (headers : HeaderMap) : GwRequest := {|
  gr_method := "POST"; gr_path := "/api/jobs/"; gr_path_and_query := Some "/api/jobs/"%string;
  gr_headers := ("host"%string, bytes_of "demo.ray.example.com") :: headers; gr_body := [Some (bytes_of "{}")] |}.
Definition demo_gw : GwWorld := {|
  gw_api := {| api_store := empty_store; api_clock := fun _ => 7; api_reads := 0 |}; gw_sent := []; gw_permits := 64 |}.

(** Of several values of a response header only the last comes through: a cluster
    that sets two cookies sets one. *)
Lemma repeated_header_is_lost :
  response_headers [("set-cookie"%string, bytes_of "a=1"); ("set-cookie"%string, bytes_of "b=2")]
  = [("set-cookie"%string, bytes_of "b=2")].
Proof. vm_compute. reflexivity. Qed.

(** Of the X-Forwarded headers only three are stripped. *)
Lemma other_forwarded_headers_pass :
  southbound_headers [("x-forwarded-for"%string, bytes_of "1.2.3.4"); ("x-forwarded-port"%string, bytes_of "22");
                      ("x-real-ip"%string, bytes_of "10.0.0.1")]
  = [("x-forwarded-port"%string, bytes_of "22"); ("x-real-ip"%string, bytes_of "10.0.0.1")].
Proof. vm_compute. reflexivity. Qed.

(** A request that was sent and got no answer (a read timeout, say) leaves no audit
    row, although the cluster may have run it. *)
Lemma unanswered_request_is_not_audited :
  let net : Network := fun _ _ => None in
  let '(a, w') := to_cluster demo_gs None demo_endpoint (demo_req []) demo_gw in
  a = GwText 502 "cluster unreachable" /\ length (gw_sent w') = 1%nat /\ m_audit (api_store (gw_api w')) = [].
Proof. vm_compute. by split_and!. Qed.
End GwRuns.
