(* ===== verification/Serve.v ===== *)
(** * The assembled server (mobula-api/src/lib.rs)

    The checks before binding and the layers of the application in their order:
    the loopback guard, the authentication middleware, the gateway's host dispatch,
    then the routes, which are a parameter here; [Routes] has the table. *)

From S2P Require Import Prelude Float64 Core Store StoreFacts Json Auth Oidc LocalAuth Registry Api AuthLayer.
From S2P Require Import Http ObsApi JobHistory Gateway GatewayFacts.
#[local] Open Scope Z_scope.

(** [IpAddr::is_loopback]. *)
Definition ip_is_loopback (ip : IpAddr) : bool :=
  match ip with
  | V4 (a :: _) => Z.eqb a 127
  | V4 [] => false
  | V6 segments => bool_decide (segments = [0; 0; 0; 0; 0; 0; 0; 1])
  end.

Record ServeOptions := {
  so_auth : AuthState; (* validator, local auth, registry, store *)
  so_allow_unauthenticated : bool;
  so_allow_insecure_transport : bool;
  so_policy : PolicyConfig; (* the boot-time seed *)
  so_services : bool; (* a service provisioner is configured *)
  so_provisioner : bool; (* a cluster provisioner is configured *)
  so_limits : GatewayLimits;
}.

Inductive ServeError := InvalidRegistry (e : RegistryError) | UnauthenticatedBind.

(** What [serve_with_shutdown_and_limits] checks before it binds. *)
Definition serve_checks (addr : IpAddr) (opts : ServeOptions) : result ServeError unit :=
  _ ← map_err InvalidRegistry (Registry.validate (st_registry (so_auth opts)) (so_allow_insecure_transport opts));
  if auth_disabled (so_auth opts) && negb (ip_is_loopback addr) && negb (so_allow_unauthenticated opts)
  then Err UnauthenticatedBind else Ok tt.

(** Whether [refuse_non_loopback] is installed, and what it lets through. *)
Definition fail_closed (opts : ServeOptions) : bool :=
  auth_disabled (so_auth opts) && negb (so_allow_unauthenticated opts).
Definition peer_is_loopback (peer : option IpAddr) : bool :=
  match peer with Some ip => ip_is_loopback ip | None => false end.

Definition gateway_of (opts : ServeOptions) : GatewayState := {|
  gs_registry := st_registry (so_auth opts); gs_limits := so_limits opts; gs_store := st_store (so_auth opts) |}.

(** The middleware's view of a request. *)
Definition auth_view (req : GwRequest) : Request := {|
  rq_method := gr_method req; rq_path := gr_path req; rq_header := fun name => hm_get name (gr_headers req) |}.

Section stack.
Context `{AuditCodec} `{Jwt} `{Bcrypt} `{Http} `{HeaderValues} `{Network} `{JsonText} `{WsClient}.
(** What the routes work on besides the middleware's world, and what they answer. *)
Context {X Y : Type}.

Record StackWorld := { sk_auth : AuthWorld; sk_sent : list SouthRequest; sk_permits : Z; sk_rest : X }.

Definition gw_part (w : StackWorld) : GwWorld := {|
  gw_api := aw_api (sk_auth w); gw_sent := sk_sent w; gw_permits := sk_permits w |}.
Definition put_gw (g : GwWorld) (w : StackWorld) : StackWorld := {|
  sk_auth := set_aw_api (gw_api g) (sk_auth w); sk_sent := gw_sent g; sk_permits := gw_permits g;
  sk_rest := sk_rest w |}.
Definition set_sk_auth (aw : AuthWorld) (w : StackWorld) : StackWorld := {|
  sk_auth := aw; sk_sent := sk_sent w; sk_permits := sk_permits w; sk_rest := sk_rest w |}.

(** The answer of a layer, of a route or of the gateway. *)
Inductive StackAnswer := Layer (r : Response) | Routed (y : Y) | Relayed (a : GwAnswer).

Definition refused_peer : Response :=
  respond 403 (Text "no authentication is configured; non-loopback access is refused").

(** The routes see the middleware's world and their own, not the gateway's. *)
Abbreviation Routes := (option Identity -> GwRequest -> AuthWorld * X -> Y * (AuthWorld * X)).
Definition run_routes (routes : Routes) (who : option Identity) (req : GwRequest) (w : StackWorld)
  : Y * StackWorld :=
  let '(y, (aw, x)) := routes who req (sk_auth w, sk_rest w) in
  (y, {| sk_auth := aw; sk_sent := sk_sent w; sk_permits := sk_permits w; sk_rest := x |}).

Definition handle (opts : ServeOptions) (routes : Routes) (peer : option IpAddr) (req : GwRequest)
  : ST StackWorld Panic StackAnswer := fun w =>
  if fail_closed opts && negb (peer_is_loopback peer) then (Ok (Layer refused_peer), w)
  else
    let '(verdict, aw) := gate (so_auth opts) (auth_view req) (sk_auth w) in
    let w1 := set_sk_auth aw w in
    match verdict with
    | Err p => (Err p, w1)
    | Ok (inl r) => (Ok (Layer r), w1)
    | Ok (inr who) =>
        let '(a, w2) := host_gateway gw_part put_gw (gateway_of opts) who (run_routes routes who req) req w1 in
        (Ok (match a with inl y => Routed y | inr b => Relayed b end), w2)
    end.
End stack.
Arguments StackWorld {_} _.
Arguments StackAnswer : clear implicits.

Section facts.
Context `{AuditCodec} `{JwtLaws} `{Bcrypt} `{HttpLaws} `{HeaderValues} `{Network} `{JsonText} `{WsClient}.
Context {X Y : Type}.

(** The middleware and the gateway agree on which hosts are clusters'. *)
Lemma host_is_cluster_iff opts req :
  host_is_cluster (so_auth opts) (auth_view req) = bool_decide (is_Some (cluster_for (gateway_of opts) req)).
Proof.
  unfold host_is_cluster, cluster_for. cbn. destruct (hm_get "host" (gr_headers req)) as [v|]; [|done]. cbn.
  destruct (header_to_str v) as [h|]; [|done]. done.
Qed.

Lemma cluster_for_safe addr opts req cluster :
  serve_checks addr opts = Ok tt -> cluster_for (gateway_of opts) req = Some cluster ->
  endpoint_safe (so_allow_insecure_transport opts) cluster.
Proof.
  unfold serve_checks. intros (? & Hv & _)%result_bind_Ok Hc.
  destruct (Registry.validate _ _) as [[]|e] eqn:Ev; [|done]. apply validate_loop_ok in Ev as (Hs & _).
  unfold cluster_for in Hc. apply bind_Some in Hc as (v & _ & Hc). apply bind_Some in Hc as (h & _ & Hc).
  apply find_some in Hc as [Hin _]. rewrite Forall_forall in Hs. apply Hs. by apply list_elem_of_In.
Qed.

(** C6. Cluster traffic, end to end. On a server that passed its start-up checks no
    request makes the stack panic, and one is sent on to a cluster only if its
    Host names that cluster and either its bearer proves an identity that holds
    the job permission of the method, or no authentication is configured and the
    operator allowed that or the peer is local; the cluster's URL has passed
    validation, and the request sent carries the cluster's credentials in place
    of the caller's. A remote peer of a server without authentication is refused
    and changes nothing. *)
Theorem cluster_traffic_is_authorised addr opts
    (routes : option Identity -> GwRequest -> AuthWorld * X -> Y * (AuthWorld * X)) peer req (w : StackWorld X) :
  serve_checks addr opts = Ok tt ->
  exists a w', handle opts routes peer req w = (Ok a, w') /\
  (sk_sent w' <> sk_sent w ->
     exists cluster q, cluster_for (gateway_of opts) req = Some cluster /\ sk_sent w' = sk_sent w ++ [q] /\
       southbound_ok (gateway_of opts) req q /\ endpoint_safe (so_allow_insecure_transport opts) cluster /\
       ((exists token i, bearer (auth_view req) = Some token /\ proves (so_auth opts) token (sk_auth w) i /\
           permits i (required_permission (gr_method req)) TJob = true) \/
        auth_disabled (so_auth opts) = true /\
          (so_allow_unauthenticated opts = true \/ peer_is_loopback peer = true))) /\
  (auth_disabled (so_auth opts) = true -> so_allow_unauthenticated opts = false ->
     peer_is_loopback peer = false -> a = Layer refused_peer /\ w' = w).
Proof.
  intros Hserve. unfold handle. destruct (fail_closed opts && negb (peer_is_loopback peer)) eqn:Hfc.
  { do 2 eexists. split; [done|]. split; [done|]. done. }
  destruct (gate_sound (so_auth opts) (auth_view req) (sk_auth w)) as (verdict & aw & -> & Hv).
  assert (Hopen : auth_disabled (so_auth opts) = true ->
    so_allow_unauthenticated opts = true \/ peer_is_loopback peer = true).
  { intros Hoff. unfold fail_closed in Hfc. rewrite Hoff in Hfc.
    destruct (so_allow_unauthenticated opts), (peer_is_loopback peer); auto. }
  assert (Hlast : auth_disabled (so_auth opts) = true -> so_allow_unauthenticated opts = false ->
    peer_is_loopback peer = false -> False) by (intros ? ? ?; destruct Hopen; congruence).
  cbv zeta. destruct verdict as [r|identity].
  { do 2 eexists. split; [done|]. split; [done|]. intros ? ? ?. by destruct Hlast. }
  pose proof (host_gateway_cases gw_part put_gw (gateway_of opts) identity (run_routes routes identity req) req
    (set_sk_auth aw w)) as Hg.
  destruct (host_gateway _ _ _ _ _ _ _) as [a w2].
  do 2 eexists. split; [done|]. split; [|intros ? ? ?; by destruct Hlast]. intros Hne.
  destruct (cluster_for (gateway_of opts) req) as [cluster|] eqn:Hc, a as [y|b]; try done.
  2:{ destruct Hne. unfold run_routes in Hg. destruct (routes _ _ _) as [y' [aw' x]]. by injection Hg as _ <-. }
  destruct Hg as (g & -> & (qs & Hs & Hl & HF) & _). cbn [put_gw gw_part set_sk_auth sk_sent gw_sent] in *.
  destruct qs as [|q [|]]; [by rewrite app_nil_r in Hs|cbn|cbn in Hl; lia].
  exists cluster, q. split_and!; [done|done|by apply Forall_cons in HF as [? _]|by eapply cluster_for_safe|].
  assert (Hhost : host_is_cluster (so_auth opts) (auth_view req) = true)
    by (rewrite host_is_cluster_iff, Hc; by apply bool_decide_eq_true).
  destruct identity as [i|].
  - left. destruct Hv as (token & Hb & Hp & Hperm & _). exists token, i. split_and!; [done|done|by apply Hperm].
  - right. destruct Hv as [_ [Hoff|[Hh _]]]; [auto|congruence].
Qed.
End facts.

(** ** A concrete deployment *)

Module StackRuns.
#[local] Instance stack_codec : AuditCodec := {| sha256_hex := fun s => s; audit_json := fun _ => EmptyString |}.
#[local] Instance stack_values : HeaderValues := fun s => Some (bytes_of s).
#[local] Instance stack_text : JsonText := fun _ => None.
#[local] Instance stack_net : Network := fun _ _ => Some {|
  up_status := 200; up_headers := []; up_body := []; up_millis := 3 |}.
#[local] Instance stack_ws : WsClient := {|
  into_client_request := fun _ => Some []; connect_async := fun _ _ => Connected; upgrade_rejection := fun _ => None |}.

Definition opts : ServeOptions := {|
  so_auth := demo_state; so_allow_unauthenticated := false; so_allow_insecure_transport := true;
  so_policy := default_policy; so_services := false; so_provisioner := false; so_limits := default_limits |}.
Definition submission (authorization : string) : GwRequest := {|
  gr_method := "POST"; gr_path := "/api/jobs/"; gr_path_and_query := Some "/api/jobs/"%string;
  gr_headers := [("host"%string, bytes_of "demo.ray.example.com");
                 ("authorization"%string, bytes_of authorization)];
  gr_body := [Some (bytes_of "{}")] |}.
Definition before : @StackWorld demo_jwt unit := {|
  sk_auth := demo_auth_world; sk_sent := []; sk_permits := 64; sk_rest := tt |}.
Definition routes (i : option Identity) (_ : GwRequest) (w : @AuthWorld demo_jwt * unit)
  : Response * (@AuthWorld demo_jwt * unit) :=
  (respond 200 (Text (default EmptyString (id_subject <$> i))), w).
Definition run (authorization : string) :=
  @handle stack_codec demo_jwt plain_bcrypt demo_http stack_values stack_net stack_text stack_ws unit Response
    opts routes (Some (V4 [10; 0; 0; 9])) (submission authorization) before.

Lemma cluster_traffic_is_authorised_witness :
  serve_checks (V4 [0; 0; 0; 0]) opts = Ok tt /\
  exists a w' q i, run "Bearer g.o.d" = (Ok a, w') /\ sk_sent w' = [q] /\
    @proves demo_jwt plain_bcrypt demo_state "g.o.d" demo_auth_world i /\ permits i Write TJob = true.
Proof.
  split; [vm_compute; reflexivity|].
  destruct (@cluster_traffic_is_authorised stack_codec demo_jwt demo_jwt_laws plain_bcrypt demo_http demo_http_laws
    stack_values stack_net stack_text stack_ws unit Response (V4 [0; 0; 0; 0]) opts routes (Some (V4 [10; 0; 0; 9]))
    (submission "Bearer g.o.d") before ltac:(vm_compute; reflexivity)) as (a & w' & Hrun & Hsent & _).
  assert (Hlen : length (sk_sent w') = 1%nat).
  { apply (f_equal (fun r => length (sk_sent r.2))) in Hrun. cbn [snd] in Hrun. rewrite <- Hrun. vm_compute. reflexivity. }
  destruct Hsent as (cluster & q & _ & Hq & _ & _ & Hwho); [by intros Heq; rewrite Heq in Hlen|].
  exists a, w', q. destruct Hwho as [(token & i & Hb & Hp & Hperm)|[Hoff _]]; [|vm_compute in Hoff; discriminate Hoff].
  vm_compute in Hb. injection Hb as <-. exists i. split_and!; [exact Hrun|exact Hq|exact Hp|exact Hperm].
Defined.

(** Without a token of the issuer nothing leaves the server. *)
Example stranger_reaches_no_cluster : sk_sent (run "Bearer nobody").2 = [].
Proof. vm_compute. reflexivity. Qed.
End StackRuns.
