(* ===== verification/Proxy.v ===== *)
(** * The standalone identity-aware proxy (mobula-proxy/src/lib.rs)

    One upstream behind a bearer check. The world holds the OIDC validator's state
    and the requests sent upstream. The header filters are those of [Http]: the
    crate repeats the gateway's text. *)

From S2P Require Import Prelude Float64 Core Store Json Auth Oidc Registry AuthLayer Http Gateway.
#[local] Open Scope Z_scope.

(** [HeaderName::from_str]: the lower-case name, when it is legal. *)
Class HeaderNames := header_name : string -> option string.

Definition DEFAULT_MAX_BODY_BYTES : Z := 64 * 1024 * 1024.

Record ProxyConfig := {
  pc_upstream : string;
  pc_auth : AuthConfig;
  pc_required : PermissionType * Target;
  pc_inject_header : option (string * string);
  pc_allow_insecure : bool;
  pc_max_body_bytes : Z;
}.

Inductive ProxyError := ProxyAuth (e : AuthError) | InvalidInjectHeader.

Record ProxyState := {
  ps_validator : AuthConfig;
  ps_upstream : string;
  ps_required : PermissionType * Target;
  ps_inject : option (string * Bytes);
  ps_max_body_bytes : Z;
}.

Inductive PxAnswer :=
| PxText (status : Z) (text : string)
| PxProxied (status : Z) (headers : HeaderMap) (body : Stream).

Section proxy.
Context `{Jwt} `{Http} `{HeaderValues} `{HeaderNames} `{Network}.

Definition inject_of (inject_header : option (string * string)) : result ProxyError (option (string * Bytes)) :=
  match inject_header with
  | None => Ok None
  | Some (name, value) =>
      n ← ok_or InvalidInjectHeader (header_name name);
      v ← ok_or InvalidInjectHeader (header_value value);
      Ok (Some (n, v))
  end.

(** Discovery first, then the header; a failure of either and there is no proxy. *)
Definition router (config : ProxyConfig) (w : IdpWorld) : result ProxyError ProxyState * IdpWorld :=
  match discover (pc_auth config) (pc_allow_insecure config) w with
  | (Err e, w') => (Err (ProxyAuth e), w')
  | (Ok _, w') =>
      (inject ← inject_of (pc_inject_header config);
       Ok {| ps_validator := pc_auth config; ps_upstream := trim_end_slashes (pc_upstream config);
             ps_required := pc_required config; ps_inject := inject;
             ps_max_body_bytes := pc_max_body_bytes config |}, w')
  end.

Record PxWorld := { pw_idp : IdpWorld; pw_sent : list SouthRequest }.

Definition bearer (req : GwRequest) : option string :=
  v ← hm_get "authorization" (gr_headers req); s ← header_to_str v; strip_prefix "Bearer " s.

Definition unauthorized (msg : string) : PxAnswer := PxText 401 msg.

(** The request upstream: the filtered headers, and the injected credential over
    whatever the caller sent under its name. *)
Definition upstream_request (st : ProxyState) (req : GwRequest) (body : Bytes) : SouthRequest := {|
  so_method := gr_method req;
  so_url := ps_upstream st +:+ default "/"%string (gr_path_and_query req);
  so_headers := match ps_inject st with
                | Some (name, value) => hm_insert (southbound_headers (gr_headers req)) name value
                | None => southbound_headers (gr_headers req)
                end;
  so_body := body |}.

Definition proxy_request (st : ProxyState) (req : GwRequest) (w : PxWorld) : PxAnswer * PxWorld :=
  if hm_contains_key "upgrade" (gr_headers req)
  then (PxText 501 "websocket upgrades are not supported by this proxy (v0)", w)
  else
    match buffer (ps_max_body_bytes st) [] (gr_body req) with
    | Err _ => (PxText 413 "request body too large", w)
    | Ok body =>
        let q := upstream_request st req body in
        let w' := {| pw_idp := pw_idp w; pw_sent := pw_sent w ++ [q] |} in
        match exchange (pw_sent w) q with
        | None => (PxText 502 "upstream unreachable", w')
        | Some up => (PxProxied (up_status up) (response_headers (up_headers up)) (up_body up), w')
        end
    end.

Definition require_auth (st : ProxyState) (req : GwRequest) (w : PxWorld) : PxAnswer * PxWorld :=
  match bearer req with
  | None => (unauthorized "missing bearer token", w)
  | Some token =>
      let '(verdict, idp) := Oidc.validate (ps_validator st) token (pw_idp w) in
      let w' := {| pw_idp := idp; pw_sent := pw_sent w |} in
      match verdict with
      | Err _ => (unauthorized "invalid token", w')
      | Ok i =>
          let '(action, target) := ps_required st in
          if negb (permits i action target) then (PxText 403 "insufficient permission", w')
          else proxy_request st req w'
      end
  end.

(** The routes: the probe, for GET and HEAD, and the protected fallback. *)
Definition serve_proxy (st : ProxyState) (req : GwRequest) (w : PxWorld) : PxAnswer * PxWorld :=
  if String.eqb (gr_path req) "/healthz" then
    (if String.eqb (gr_method req) "GET" then PxText 200 "ok"
     else if String.eqb (gr_method req) "HEAD" then PxText 200 EmptyString
     else PxText 405 EmptyString, w)
  else require_auth st req w.

(** ** What reaches the upstream *)

(** The values under a name: the injected one, or what the filter passes. *)
Definition carried (st : ProxyState) (req : GwRequest) (name : string) : list Bytes :=
  match ps_inject st with
  | Some (n, v) =>
      if String.eqb name n then [v]
      else if decide (name ∈ never_southbound ++ connection_nominated (gr_headers req)) then []
      else hm_get_all name (gr_headers req)
  | None =>
      if decide (name ∈ never_southbound ++ connection_nominated (gr_headers req)) then []
      else hm_get_all name (gr_headers req)
  end.

Lemma upstream_headers st req body name :
  hm_get_all name (so_headers (upstream_request st req body)) = carried st req name.
Proof.
  unfold upstream_request, carried. cbn [so_headers].
  destruct (ps_inject st) as [[n v]|]; rewrite ?get_all_insert; by rewrite southbound_get_all.
Qed.

Lemma proxy_request_spec st req w :
  let '(a, w') := proxy_request st req w in
  pw_idp w' = pw_idp w /\
  ((pw_sent w' = pw_sent w /\ (exists status t, a = PxText status t) /\
    (hm_contains_key "upgrade" (gr_headers req) = true \/
     forall body, buffer (ps_max_body_bytes st) [] (gr_body req) <> Ok body)) \/
   (hm_contains_key "upgrade" (gr_headers req) = false /\
    exists body, buffer (ps_max_body_bytes st) [] (gr_body req) = Ok body /\
      pw_sent w' = pw_sent w ++ [upstream_request st req body])).
Proof.
  unfold proxy_request. destruct (hm_contains_key _ _); [split; [done|]; left; split_and!; [done|by do 2 eexists|by left]|].
  destruct (buffer _ _ _) as [body|e] eqn:Eb; [|split; [done|]; left; split_and!; [done|by do 2 eexists|by right]].
  destruct (exchange _ _); (split; [done|]; right; split; [done|]; by exists body).
Qed.

(** C9. The proxy is not a bypass. On a proxy that came up, a request is sent
    upstream exactly when it is not the probe, carries a bearer the validator
    accepts for an identity with the required permission, asks for no upgrade and
    fits the body cap; what is sent goes to the configured upstream with the
    request's own method, path and query, and carries the injected credential and
    the headers the filter passes, never another authorization. *)
Theorem proxy_is_not_a_bypass config w0 st w1 req w :
  router config w0 = (Ok st, w1) ->
  let '(a, w') := serve_proxy st req w in
  (pw_sent w' = pw_sent w \/ exists body, pw_sent w' = pw_sent w ++ [upstream_request st req body]) /\
  (pw_sent w' <> pw_sent w <->
     gr_path req <> "/healthz"%string /\ hm_contains_key "upgrade" (gr_headers req) = false /\
     (exists body, buffer (pc_max_body_bytes config) [] (gr_body req) = Ok body) /\
     exists token i, bearer req = Some token /\
       fst (Oidc.validate (pc_auth config) token (pw_idp w)) = Ok i /\
       permits i (fst (pc_required config)) (snd (pc_required config)) = true) /\
  (forall q, pw_sent w' = pw_sent w ++ [q] ->
     so_method q = gr_method req /\
     so_url q = trim_end_slashes (pc_upstream config) +:+ default "/"%string (gr_path_and_query req) /\
     Z.of_nat (length (so_body q)) <= Z.max 0 (pc_max_body_bytes config) /\
     (forall name, hm_get_all name (so_headers q) = carried st req name) /\
     (is_Some (hm_get "authorization" (so_headers q)) ->
        exists v, ps_inject st = Some ("authorization"%string, v) /\ hm_get_all "authorization" (so_headers q) = [v])).
Proof.
  intros Hst. unfold router in Hst. destruct (discover _ _ _) as [[[]|e] wd]; [|done].
  apply (f_equal fst) in Hst. cbn [fst] in Hst. apply result_bind_Ok in Hst as (inject & _ & [= <-]).
  cbn [ps_inject]. match goal with |- context [serve_proxy ?s req w] => set (st := s) end.
  assert (Hnone : forall q, pw_sent w <> pw_sent w ++ [q])
    by (intros q Hq%(f_equal length); rewrite length_app in Hq; cbn in Hq; lia).
  unfold serve_proxy. destruct (String.eqb_spec (gr_path req) "/healthz") as [Hp|Hp].
  { split_and!; [by left|naive_solver|by intros q ?%Hnone]. }
  unfold require_auth. destruct (bearer req) as [token|] eqn:Hb; cbn [unauthorized].
  2:{ split_and!; [by left|naive_solver|by intros q ?%Hnone]. }
  cbn [ps_validator st]. destruct (Oidc.validate _ token (pw_idp w)) as [[i|e] idp] eqn:Hv.
  2:{ split_and!; [by left| |by intros q ?%Hnone]. split; [done|].
      intros (_ & _ & _ & t & i & [= <-] & Hi & _). rewrite Hv in Hi. done. }
  cbn [ps_required st]. destruct (pc_required config) as [action target]. cbn [fst snd].
  destruct (permits i action target) eqn:Hperm; cbn [negb].
  2:{ split_and!; [by left| |by intros q ?%Hnone]. split; [done|].
      intros (_ & _ & _ & t & i' & [= <-] & Hi & Hi'). rewrite Hv in Hi. injection Hi as <-. congruence. }
  set (w2 := {| pw_idp := idp; pw_sent := pw_sent w |}).
  pose proof (proxy_request_spec st req w2) as Hspec. destruct (proxy_request st req w2) as [a w'].
  destruct Hspec as (_ & [(Hs & _ & Hwhy)|(Hup & body & Hbody & Hs)]); cbn [pw_sent w2 ps_max_body_bytes st] in *.
  { rewrite Hs. split_and!; [by left| |by intros q ?%Hnone]. split; [done|].
    intros (_ & Hup & (body & Hbody) & _). destruct Hwhy as [|Hwhy]; [congruence|]. by destruct (Hwhy body). }
  rewrite Hs. split_and!; [right; by exists body| |].
  - split; [|intros _ Heq; by destruct (Hnone (upstream_request st req body))].
    intros _. split_and!; [done|done|by exists body|]. exists token, i. by rewrite Hv.
  - intros q Hq%app_inj_tail. destruct Hq as [_ <-]. split_and!; [done|done| |apply upstream_headers|].
    + apply buffer_bounded in Hbody. cbn in Hbody |- *. lia.
    + unfold hm_get. rewrite upstream_headers. unfold carried. cbn [ps_inject st].
      rewrite decide_True by (apply elem_of_app; left; by apply (bool_decide_unpack _)).
      destruct inject as [[n v]|]; [|by intros [? ?]].
      destruct (String.eqb_spec "authorization" n) as [<-|]; [|by intros [? ?]]. intros _. by exists v.
Qed.
End proxy.

Module ProxyRuns.
#[local] Instance px_http : Http := {| header_to_str := fun v => Some (str_of v); method_from_bytes := Some |}.
#[local] Instance px_values : HeaderValues := fun s => Some (bytes_of s).
#[local] Instance px_names : HeaderNames := fun s => Some (to_ascii_lowercase s).
#[local] Instance px_net : Network := fun _ _ => Some {|
  up_status := 302; up_headers := [("location"%string, bytes_of "http://head:8265/x")]; up_body := []; up_millis := 1 |}.

Definition config : ProxyConfig := {|
  pc_upstream := "http://ray-head:8265/"; pc_auth := demo_config; pc_required := (Write, TJob);
  pc_inject_header := Some ("Authorization", "Bearer ray-token")%string; pc_allow_insecure := false;
  pc_max_body_bytes := DEFAULT_MAX_BODY_BYTES |}.
Definition request (authorization : string) : GwRequest := {|
  gr_method := "POST"; gr_path := "/api/jobs/"; gr_path_and_query := Some "/api/jobs/?x=1"%string;
  gr_headers := [("authorization"%string, bytes_of authorization); ("accept"%string, bytes_of "*/*")];
  gr_body := [Some (bytes_of "{}")] |}.
Definition booted : result ProxyError ProxyState * IdpWorld :=
  @router demo_jwt px_values px_names config demo_idp.
Definition state : ProxyState := {|
  ps_validator := demo_config; ps_upstream := "http://ray-head:8265"; ps_required := (Write, TJob);
  ps_inject := Some ("authorization"%string, bytes_of "Bearer ray-token"); ps_max_body_bytes := 64 * 1024 * 1024 |}.
Definition idle : PxWorld := @Build_PxWorld demo_jwt (snd booted) [].
Definition run (authorization : string) : PxAnswer * PxWorld :=
  @serve_proxy demo_jwt px_http px_net state (request authorization) idle.

(** A developer's request goes out with the Ray token, and the redirect's internal
    location does not come back. *)
Lemma proxy_is_not_a_bypass_witness :
  fst (run "Bearer g.o.d") = PxProxied 302 [] [] /\
  exists q, pw_sent (snd (run "Bearer g.o.d")) = [q] /\ so_url q = "http://ray-head:8265/api/jobs/?x=1"%string /\
    hm_get_all "authorization" (so_headers q) = [bytes_of "Bearer ray-token"].
Proof.
  split; [vm_compute; reflexivity|].
  pose proof (@proxy_is_not_a_bypass demo_jwt px_http px_values px_names px_net config demo_idp state (snd booted)
    (request "Bearer g.o.d") idle ltac:(vm_compute; reflexivity)) as Hp.
  fold (run "Bearer g.o.d") in Hp. destruct (run "Bearer g.o.d") as [a w'] eqn:Hr. destruct Hp as (Hone & _ & Hq).
  assert (length (pw_sent w') = 1%nat) as Hl
    by (apply (f_equal (fun x => length (pw_sent (snd x)))) in Hr; cbn [snd] in Hr; rewrite <- Hr; vm_compute; reflexivity).
  destruct Hone as [Heq|[body Heq]]; [by rewrite Heq in Hl|].
  exists (upstream_request state (request "Bearer g.o.d") body). split; [exact Heq|].
  destruct (Hq _ Heq) as (_ & Hurl & _ & _ & Hauth). split; [exact Hurl|].
  destruct Hauth as (v & [= <-] & Hv); [by vm_compute; eexists|exact Hv].
Defined.

(** A bearer of no issuer is refused before anything is sent. *)
Example stranger_is_refused :
  fst (run "Bearer nobody") = PxText 401 "invalid token" /\ pw_sent (snd (run "Bearer nobody")) = [].
Proof. vm_compute. by split. Qed.
End ProxyRuns.
