(* ===== verification/UsageApi.v ===== *)
(** * Usage report and metrics (mobula-api/src/usage.rs)

    The report integrates the metered samples per project and pool and shows every
    configured budget; the metrics page renders the store's gauges as Prometheus
    text. [Display] of an [f64] is a parameter. *)

From S2P Require Import Prelude Float64 Core Quantity Policy Usage Store StoreFacts Json Auth Views Api.
#[local] Open Scope Z_scope.

(** ** The report *)

Record UsageQuery := {
  uq_project : option string;
  uq_pool : option string;
  uq_from : option Z;
  uq_to : option Z;
}.

Record UsageGroup := {
  ug_project : string;
  ug_pool : string;
  ug_resource_hours : gmap string f64;
  ug_cost_usd : option f64;
}.

Record BudgetStatus := {
  bs_project : string;
  bs_window_secs : Z;
  bs_limit : gmap string f64;
  bs_consumed : gmap string f64;
  bs_remaining : gmap string f64;
  bs_exhausted : bool;
}.

Record UsageReport := {
  ur_from : Z;
  ur_to : Z;
  ur_groups : list UsageGroup;
  ur_budgets : list BudgetStatus;
}.

(** [f64::max]: of a NaN and a number, the number. *)
Definition f64_max (x y : f64) : f64 :=
  if f64_is_nan x then y else if f64_is_nan y then x
  else if f64_leb x y then y else x.

Abbreviation Grouped := (gmap (string * string) (gmap string (list (Z * f64)))).

(** [grouped.entry((project, pool)).or_default().entry(resource).or_default().push(..)]. *)
Definition group_usage (m : Grouped) (s : UsageSample) : Grouped :=
  let key := (us_project s, us_pool s) in
  let by_resource := default ∅ (m !! key) in
  <[key := <[us_resource s := default [] (by_resource !! us_resource s) ++ [(us_ts s, us_quantity s)]]> by_resource]> m.

Definition usage_group (prices : option PriceSheet) (from to : Z)
    (kv : (string * string) * gmap string (list (Z * f64))) : UsageGroup :=
  let hours := (fun pts => resource_hours pts from to) <$> snd kv in {|
  ug_project := fst (fst kv); ug_pool := snd (fst kv); ug_resource_hours := hours;
  ug_cost_usd := cost hours <$> prices |}.

Definition budget_status (project : string) (budget : Budget) (consumed : ResourceMap) : BudgetStatus := {|
  bs_project := project; bs_window_secs := b_window_secs budget; bs_limit := b_limits budget;
  bs_consumed := consumed;
  bs_remaining := map_imap (fun r cap =>
    Some (f64_max (f64_sub cap (default f64_zero (consumed !! r))) f64_zero)) (b_limits budget);
  bs_exhausted := match admit_budget project budget consumed with Ok _ => false | Err _ => true end |}.

(** The loop over the sorted budgets; each has its own window, ending at [to]. *)
Fixpoint budget_loop (wanted : option string) (to : Z) (budgets : list (string * Budget)) : H (list BudgetStatus) :=
  match budgets with
  | [] => mret []
  | (bp, budget) :: rest =>
      if is_some_and wanted (fun p => negb (String.eqb p bp)) then budget_loop wanted to rest
      else
        consumed ← call (windowed_consumption bp (sat_sub to (b_window_secs budget)) to);
        statuses ← budget_loop wanted to rest;
        mret (budget_status bp budget consumed :: statuses)
  end.

Section report.
Context `{AuditCodec}.

Definition usage_report (seed : PolicyConfig) (identity : option Identity) (q : UsageQuery) : H UsageReport :=
  _ ← or_deny (authorize identity Read TCluster);
  to ← (match uq_to q with Some t => mret t | None => now_unix end);
  let from := default (sat_sub to 86400) (uq_from q) in
  if Z.leb to from then st_err (respond 400 (Text "from must be before to"))
  else
    samples ← call (usage_samples (uq_project q) (uq_pool q) 0 to);
    policy ← load_policy seed;
    let groups := usage_group (pc_prices policy) from to <$> btree_iter2 (foldl group_usage ∅ samples) in
    budgets ← budget_loop (uq_project q) to (btree_iter (pc_budgets policy));
    mret {| ur_from := from; ur_to := to; ur_groups := groups; ur_budgets := budgets |}.
End report.

(** ** Prometheus text *)

Class F64Text := f64_display : f64 -> list ascii.
(** A displayed number is one line. *)
Class F64TextLaws `{F64Text} := f64_display_line : forall x, "010"%char ∉ f64_display x.

Definition newline : ascii := "010".
Definition dquote : ascii := "034".
Definition backslash : ascii := "092".

(** [str::replace] of one character. *)
Definition replace_char (c : ascii) (by_ : list ascii) (l : list ascii) : list ascii :=
  l ≫= fun x => if Ascii.eqb x c then by_ else [x].

Definition prom_escape (v : string) : list ascii :=
  replace_char newline [backslash; "n"%char]
    (replace_char dquote [backslash; dquote]
      (replace_char backslash [backslash; backslash] (bytes_of v))).

Definition label (key : string) (value : string) : list ascii :=
  bytes_of key ++ ["="%char; dquote] ++ prom_escape value ++ [dquote].

(** One [writeln!] of a gauge. *)
Definition gauge_line (name : string) (labels : list (string * string)) (value : list ascii) : list ascii :=
  bytes_of name ++ ["{"%char]
  ++ (match labels with
      | [] => []
      | (k, v) :: rest => label k v ++ (rest ≫= fun kv => ","%char :: label (fst kv) (snd kv))
      end)
  ++ ["}"%char; " "%char] ++ value ++ [newline].

Definition gauge_head (help type_ : string) : list ascii :=
  bytes_of ("# HELP " +:+ help) ++ [newline] ++ bytes_of ("# TYPE " +:+ type_ +:+ " gauge") ++ [newline].

Definition state_label (s : ClusterState) : string := cluster_state_str s.

(** [*m.entry(k).or_insert(0) += 1]. *)
Definition count_key (m : gmap string Z) (k : string) : gmap string Z := <[k := default 0 (m !! k) + 1]> m.

Definition observed_label (c : StoredCluster) : string :=
  match c_observed_state c with Some s => state_label s | None => "unknown" end.

Definition render_cluster_gauges (clusters : list StoredCluster) : list ascii :=
  let by_state := foldl count_key ∅ (observed_label <$> clusters) in
  let by_project := foldl count_key ∅ ((fun c => cs_project (c_spec c)) <$> clusters) in
  gauge_head "mobula_clusters_total Managed clusters by observed state ('unknown' before the reconcile engine's first observation)." "mobula_clusters_total"
  ++ (btree_iter by_state ≫= fun kv =>
        gauge_line "mobula_clusters_total" [("state"%string, fst kv)] (bytes_of (u64_str (snd kv))))
  ++ gauge_head "mobula_clusters_by_project Managed clusters per project." "mobula_clusters_by_project"
  ++ (btree_iter by_project ≫= fun kv =>
        gauge_line "mobula_clusters_by_project" [("project"%string, fst kv)] (bytes_of (u64_str (snd kv)))).

Section metrics.
Context `{F64Text}.

(** The loops over the flavors are those of [PoolView::total_nominal]. *)
Definition render_pool_nominal_gauge (pools : list StoredPool) : list ascii :=
  gauge_head "mobula_pool_nominal Pool nominal quota per resource, summed across the pool's flavor specs." "mobula_pool_nominal"
  ++ (pools ≫= fun p =>
        let '(sums, unparseable) := flavor_sums (p_flavors (sp_spec p)) in
        btree_iter sums ≫= fun kt =>
          if bool_decide (fst kt ∈ unparseable) then []
          else gauge_line "mobula_pool_nominal" [("pool", sp_name p); ("resource", fst kt)]%string (f64_display (snd kt))).

(** Iteration of a [BTreeMap<(&str, &str, &str), _>]. *)
Definition triple_leb (x y : string * string * string) : bool :=
  if bool_decide (fst x = fst y) then str_leb (snd x) (snd y) else pair_leb (fst x) (fst y).

Definition latest_sample (m : gmap (string * string * string) f64) (s : UsageSample) : gmap (string * string * string) f64 :=
  <[(us_pool s, us_project s, us_resource s) := us_quantity s]> m.

Definition render_usage_gauge (samples : list UsageSample) : list ascii :=
  gauge_head "mobula_pool_resource_usage Latest metered resource usage (Kueue reservation ledger or observed-spec estimate)." "mobula_pool_resource_usage"
  ++ (sort_stable (entry_leb triple_leb) (map_to_list (foldl latest_sample ∅ samples)) ≫= fun '((pool, project, resource), qty) =>
        gauge_line "mobula_pool_resource_usage" [("pool", pool); ("project", project); ("resource", resource)]%string (f64_display qty)).

Context `{AuditCodec}.

Definition metrics (identity : option Identity) : H (list ascii) :=
  _ ← or_deny (authorize identity Read TCluster);
  now ← now_unix;
  samples ← call (usage_samples None None 0 now);
  clusters ← call list_clusters;
  pools ← call list_pools;
  mret (render_usage_gauge samples ++ render_cluster_gauges clusters ++ render_pool_nominal_gauge pools).
End metrics.
