(* ===== verification/UsageFacts.v ===== *)
(** * What the usage report and the metrics page say *)

From S2P Require Import Prelude Float64 Core Quantity Policy Usage Store StoreFacts Json Auth Views Api AdminFacts UsageApi.
#[local] Open Scope Z_scope.

(** ** Grouping *)

(** The readings of one project, pool and resource, in the order given. *)
Definition series (project pool resource : string) (samples : list UsageSample) : list (Z * f64) :=
  (fun s => (us_ts s, us_quantity s)) <$>
  filter (fun s => us_project s = project /\ us_pool s = pool /\ us_resource s = resource) samples.

Lemma series_snoc project pool resource samples s :
  series project pool resource (samples ++ [s]) =
  series project pool resource samples ++
  (if decide (us_project s = project /\ us_pool s = pool /\ us_resource s = resource)
   then [(us_ts s, us_quantity s)] else []).
Proof. unfold series. rewrite filter_app, fmap_app, filter_cons. by destruct (decide _). Qed.

Lemma grouped_series samples project pool resource :
  (foldl group_usage ∅ samples !! (project, pool) ≫= fun m => m !! resource)
  = match series project pool resource samples with [] => None | l => Some l end.
Proof.
  induction samples as [|s samples IH] using rev_ind; [done|].
  rewrite foldl_app, series_snoc. cbn [foldl]. unfold group_usage at 1.
  destruct (decide ((us_project s, us_pool s) = (project, pool))) as [Hk|Hk].
  - rewrite Hk, lookup_insert_eq. injection Hk as <- <-. cbn [mbind option_bind].
    destruct (decide (us_resource s = resource)) as [<-|Hr].
    + rewrite lookup_insert_eq, decide_True by done.
      destruct (foldl group_usage ∅ samples !! (us_project s, us_pool s)) as [m|]; cbn in IH |- *.
      * rewrite IH. by destruct (series _ _ _ _).
      * rewrite lookup_empty. destruct (series _ _ _ _); by cbn in IH |- *.
    + rewrite lookup_insert_ne, decide_False by naive_solver. rewrite app_nil_r, <- IH.
      by destruct (foldl group_usage ∅ samples !! (us_project s, us_pool s)).
  - rewrite lookup_insert_ne by done. rewrite decide_False by naive_solver. by rewrite app_nil_r.
Qed.

Lemma elem_btree_iter2 {V} (m : gmap (string * string) V) k v : (k, v) ∈ btree_iter2 m <-> m !! k = Some v.
Proof. unfold btree_iter2. by rewrite elem_of_sort_stable, elem_of_map_to_list. Qed.

Lemma NoDup_btree_iter2 {V} (m : gmap (string * string) V) : NoDup (btree_iter2 m).*1.
Proof. unfold btree_iter2. rewrite sort_stable_perm. apply NoDup_fst_map_to_list. Qed.

Lemma usage_groups_exact prices from to samples project pool resource h :
  let groups := usage_group prices from to <$> btree_iter2 (foldl group_usage ∅ samples) in
  (exists g, g ∈ groups /\ ug_project g = project /\ ug_pool g = pool /\ ug_resource_hours g !! resource = Some h)
  <-> series project pool resource samples <> [] /\ h = resource_hours (series project pool resource samples) from to.
Proof.
  cbv zeta. pose proof (grouped_series samples project pool resource) as Hs. split.
  - intros (g & ([[p l] m] & -> & Hin%elem_btree_iter2)%list_elem_of_fmap & Hp & Hl & Hh). cbn in Hp, Hl, Hh. subst.
    rewrite Hin in Hs. cbn in Hs. apply lookup_fmap_Some in Hh as (pts & <- & Hpts). rewrite Hpts in Hs.
    destruct (series _ _ _ _) as [|x xs]; [done|]. injection Hs as ->. done.
  - intros [Hne ->]. destruct (series project pool resource samples) as [|x xs] eqn:E; [done|].
    apply bind_Some in Hs as (m & Hm & Hr).
    exists (usage_group prices from to ((project, pool), m)). split_and!; [|done|done|].
    + apply list_elem_of_fmap. eexists. split; [done|]. by apply elem_btree_iter2.
    + cbn. by rewrite lookup_fmap, Hr.
Qed.

(** ** Budgets *)

Definition wants (wanted : option string) (kv : string * Budget) : Prop :=
  is_some_and wanted (fun p => negb (String.eqb p (fst kv))) = false.
#[export] Instance wants_dec wanted kv : Decision (wants wanted kv).
Proof. unfold wants. apply _. Defined.

(** What a budget's window ending at [to] holds. *)
Definition consumption (s : InMemoryStore) (project : string) (b : Budget) (to : Z) : ResourceMap :=
  windowed_resource_hours (foldl group_sample ∅ (sort_by_key us_ts
    (filter (fun x => sample_selected (Some project) None 0 to x = true) (m_usage s))))
    (sat_sub to (b_window_secs b)) to.

Lemma windowed_call project (b : Budget) to w :
  call (windowed_consumption project (sat_sub to (b_window_secs b)) to) w = (Ok (consumption (api_store w) project b to), w).
Proof. by destruct w. Qed.

Lemma budget_loop_eq wanted to budgets w :
  budget_loop wanted to budgets w =
  (Ok ((fun kv => budget_status (fst kv) (snd kv) (consumption (api_store w) (fst kv) (snd kv) to))
       <$> filter (wants wanted) budgets), w).
Proof.
  induction budgets as [|[bp b] rest IH]; [done|]. cbn [budget_loop]. rewrite filter_cons.
  destruct (decide (wants wanted (bp, b))) as [E|E]; unfold wants in E; cbn [fst] in E;
    [|apply not_false_iff_true in E]; rewrite E; [|done].
  rewrite ST_bind_eq, windowed_call, ST_bind_eq, IH. done.
Qed.

Lemma exhausted_iff project b consumed :
  bs_exhausted (budget_status project b consumed) = true <-> exists e, admit_budget project b consumed = Err e.
Proof. cbn. destruct (admit_budget _ _ _); naive_solver. Qed.

Section report.
Context `{AuditCodec}.

Lemma admission_of_status policy identity id spec b w :
  pc_budgets policy !! cs_project spec = Some b ->
  (exists e, fst (budget_admission policy identity id spec w) = Err (respond 409 (OverBudget e))) <->
  bs_exhausted (budget_status (cs_project spec) b
    (consumption (api_store w) (cs_project spec) b (api_clock w (api_reads w)))) = true.
Proof.
  intros Hb. rewrite exhausted_iff. unfold budget_admission. rewrite Hb, ST_bind_eq. cbn [now_unix].
  rewrite ST_bind_eq, windowed_call. cbn [api_store api_clock api_reads].
  destruct (admit_budget _ _ _) as [[]|e]; cbn; [naive_solver|]. split; [by eauto|]. intros _. exists e.
  unfold audited, now_unix, emit, mbind, ST_bind. by cbn.
Qed.

Lemma load_policy_store seed w1 w2 :
  api_store w1 = api_store w2 -> fst (load_policy seed w1) = fst (load_policy seed w2).
Proof.
  intros Hs. unfold load_policy, call, mbind, ST_bind. rewrite Hs. destruct (effective_policy seed (api_store w2)) as [[]?]; done.
Qed.

(** C25. The usage report. It is answered to callers who may read clusters, for a
    window that is not empty. The hours it shows for a project, pool and resource
    are exactly the integral over the window of that series of readings, and every
    series with a reading up to the end of the window is shown, in one group. It
    lists every configured budget the filter asks for once, and calls one exhausted
    exactly when a cluster created in that project at that moment would be refused
    for its budget. *)
Theorem usage_report_predicts_admission seed identity q w r w' :
  usage_report seed identity q w = (Ok r, w') ->
  permitted identity Read TCluster = true /\ ur_from r < ur_to r /\
  (forall project pool resource h,
     (exists g, g ∈ ur_groups r /\ ug_project g = project /\ ug_pool g = pool /\
        ug_resource_hours g !! resource = Some h) <->
     let readings := series project pool resource (sort_by_key us_ts
       (filter (fun x => sample_selected (uq_project q) (uq_pool q) 0 (ur_to r) x = true) (m_usage (api_store w)))) in
     readings <> [] /\ h = resource_hours readings (ur_from r) (ur_to r)) /\
  NoDup ((fun g => (ug_project g, ug_pool g)) <$> ur_groups r) /\
  exists policy, fst (load_policy seed w) = Ok policy /\
    (bs_project <$> ur_budgets r) = (filter (wants (uq_project q)) (btree_iter (pc_budgets policy))).*1 /\
    forall bs, bs ∈ ur_budgets r -> forall caller id spec w2,
      cs_project spec = bs_project bs -> api_store w2 = api_store w' -> api_clock w2 (api_reads w2) = ur_to r ->
      (bs_exhausted bs = true <->
       exists e, fst (budget_admission policy caller id spec w2) = Err (respond 409 (OverBudget e))).
Proof.
  intros Hr. unfold usage_report in Hr. apply ST_bind_Ok in Hr as (u & w1 & Hd & Hr).
  destruct (or_deny_authorize identity Read TCluster w) as (w1' & Hd' & Hw1 & _). rewrite Hd in Hd'.
  destruct (permitted identity Read TCluster) eqn:Hp; [|done]. injection Hd' as _ <-.
  specialize (Hw1 eq_refl). subst w1. split; [done|].
  apply ST_bind_Ok in Hr as (to & w2 & Hto & Hr).
  assert (Hw2 : api_store w2 = api_store w) by (destruct (uq_to q); injection Hto as _ <-; by destruct w).
  cbv zeta in Hr. set (from := default (sat_sub to 86400) (uq_from q)) in *.
  destruct (Z.leb_spec to from) as [|Hlt]; [done|].
  apply ST_bind_Ok in Hr as (samples & w3 & Hsamples & Hr). injection Hsamples as <- <-.
  replace (set_api_store (api_store w2) w2) with w2 in Hr by (by destruct w2).
  apply ST_bind_Ok in Hr as (policy & w4 & Hpol & Hr). rewrite ST_bind_eq, budget_loop_eq in Hr.
  injection Hr as <- <-. cbn [ur_from ur_to ur_groups ur_budgets]. rewrite <- Hw2.
  split; [done|]. split; [intros; by apply usage_groups_exact|]. split.
  { rewrite <- list_fmap_compose. rewrite (list_fmap_ext _ fst) by (by intros ? [[]?] _). apply NoDup_btree_iter2. }
  exists policy. split; [rewrite (load_policy_store seed w w2), Hpol by done; done|]. split.
  { rewrite <- list_fmap_compose. by apply list_fmap_ext. }
  intros bs ([project b] & -> & [_ Hin]%list_elem_of_filter)%list_elem_of_fmap caller id spec w5 Hproj Hs5 Hc5.
  cbn [fst snd bs_project budget_status] in *. apply elem_of_btree_iter in Hin. rewrite <- Hproj in Hin |- *.
  rewrite (admission_of_status policy caller id spec b w5 Hin). by rewrite Hs5, Hc5.
Qed.
End report.

Module ReportRuns.
#[local] Instance report_codec : AuditCodec := {| sha256_hex := fun s => s; audit_json := fun _ => EmptyString |}.

(** Four CPUs for two hours against a budget of eight CPU hours a day. *)
Definition reading (ts n : Z) : UsageSample := {|
  us_ts := ts; us_project := "team-a"; us_pool := "gpu"; us_resource := "cpu"; us_quantity := f64_of_Z n;
  us_source := ObservedSpec |}.
Definition day_policy : StoredPolicy := {|
  po_prices := Some {["cpu"%string := f64_of_Z 2]}; po_quotas := ∅;
  po_budgets := {["team-a"%string := {| sb_window_secs := 86400; sb_limits := {["cpu"%string := f64_of_Z 8]} |}]};
  po_from_file_seed := false |}.
Definition metered : ApiWorld := {|
  api_store := set_policy (Some day_policy) (set_usage [reading 7200 4; reading 14400 0] empty_store);
  api_clock := fun _ => 20000; api_reads := 0 |}.
Definition today : UsageQuery := {| uq_project := None; uq_pool := None; uq_from := Some 0; uq_to := None |}.

Lemma usage_report_predicts_admission_witness :
  exists r w' g, usage_report default_policy None today metered = (Ok r, w') /\
    (bs_project <$> ur_budgets r) = ["team-a"%string] /\ (bs_exhausted <$> ur_budgets r) = [true] /\
    g ∈ ur_groups r /\ ug_resource_hours g !! "cpu"%string = Some (f64_of_Z 8).
Proof.
  destruct (usage_report default_policy None today metered) as [[r|e] w'] eqn:Hr; [|vm_compute in Hr; discriminate Hr].
  destruct (usage_report_predicts_admission default_policy None today metered r w' Hr)
    as (_ & _ & Hg & _ & policy & Hpol & Hb & _).
  vm_compute in Hr. injection Hr as <- <-.
  destruct (proj2 (Hg "team-a" "gpu" "cpu" (f64_of_Z 8))%string) as (g & Hin & _ & _ & Hh).
  { vm_compute. by split. }
  eexists _, _, g. split; [reflexivity|]. split; [|split; [reflexivity|by split]].
  rewrite Hb. vm_compute in Hpol. injection Hpol as <-. vm_compute. reflexivity.
Defined.
End ReportRuns.
