(* ===== verification/MetricsFacts.v ===== *)
(** * The metrics page reads back

    A reader of the Prometheus text format, and that it recovers from the page
    exactly the gauges of the store. *)

From stdpp Require Import pretty.
From S2P Require Import Prelude Float64 Core Quantity Policy Usage Store StoreFacts Json Auth Views Api AdminFacts Http.
From S2P Require Import UsageApi.
#[local] Open Scope Z_scope.

(** ** A reader of the text format *)

Record PromSample := { pm_name : string; pm_labels : list (string * string); pm_value : list ascii }.

Fixpoint take_until (stop : ascii) (l : list ascii) : option (list ascii * list ascii) :=
  match l with
  | [] => None
  | c :: l' =>
      if Ascii.eqb c stop then Some ([], l')
      else '(a, r) ← take_until stop l'; Some (c :: a, r)
  end.

Definition unescape (c : ascii) : option ascii :=
  if Ascii.eqb c "n" then Some newline
  else if Ascii.eqb c backslash || Ascii.eqb c dquote then Some c else None.

(** A label value, up to the quote that is not escaped. *)
Fixpoint read_quoted (l : list ascii) : option (list ascii * list ascii) :=
  match l with
  | [] => None
  | c :: l' =>
      if Ascii.eqb c dquote then Some ([], l')
      else if Ascii.eqb c backslash then
        match l' with
        | [] => None
        | e :: l'' => x ← unescape e; '(a, r) ← read_quoted l''; Some (x :: a, r)
        end
      else '(a, r) ← read_quoted l'; Some (c :: a, r)
  end.

Fixpoint read_labels (fuel : nat) (l : list ascii) : option (list (string * string) * list ascii) :=
  match fuel with
  | O => None
  | S fuel' =>
      '(key, r) ← take_until "=" l;
      match r with
      | q :: r1 =>
          if negb (Ascii.eqb q dquote) then None
          else
            '(v, r2) ← read_quoted r1;
            match r2 with
            | c :: r3 =>
                if Ascii.eqb c "}" then Some ([(str_of key, str_of v)], r3)
                else if Ascii.eqb c "," then
                  '(more, r4) ← read_labels fuel' r3; Some ((str_of key, str_of v) :: more, r4)
                else None
            | [] => None
            end
      | [] => None
      end
  end.

Definition read_sample (line : list ascii) : option PromSample :=
  '(name, r) ← take_until "{" line;
  '(labels, r') ← read_labels (length line) r;
  match r' with
  | sp :: value => if Ascii.eqb sp " " then Some {| pm_name := str_of name; pm_labels := labels; pm_value := value |} else None
  | [] => None
  end.

(** Comment lines and empty lines are skipped. *)
Definition is_comment (line : list ascii) : bool :=
  match line with [] => true | c :: _ => Ascii.eqb c "#" end.
Definition read_exposition (text : list ascii) : option (list PromSample) :=
  mapM read_sample (filter (fun line => is_comment line = false) (split_bytes newline text)).

(** ** One line *)

Lemma take_until_app stop a r : stop ∉ a -> take_until stop (a ++ stop :: r) = Some (a, r).
Proof.
  induction a as [|c a IH]; cbn; intros Hn; [by rewrite Ascii.eqb_refl|].
  apply not_elem_of_cons in Hn as [Hc Ha]. destruct (Ascii.eqb_spec c stop); [congruence|]. by rewrite IH.
Qed.

(** The three replacements, as one. *)
Definition escape_char (c : ascii) : list ascii :=
  if Ascii.eqb c backslash then [backslash; backslash]
  else if Ascii.eqb c dquote then [backslash; dquote]
  else if Ascii.eqb c newline then [backslash; "n"%char] else [c].

Lemma prom_escape_chars v : prom_escape v = bytes_of v ≫= escape_char.
Proof.
  unfold prom_escape, replace_char. induction (bytes_of v) as [|c l IH]; [done|].
  rewrite !bind_cons, !bind_app, IH. f_equal. unfold escape_char.
  destruct (Ascii.eqb_spec c backslash) as [->|Hb]; [done|]. cbn [mbind list_bind app].
  destruct (Ascii.eqb_spec c dquote) as [->|Hq]; [done|]. cbn [mbind list_bind app].
  by destruct (Ascii.eqb_spec c newline) as [->|Hn].
Qed.

Lemma read_quoted_escaped v r : read_quoted (prom_escape v ++ dquote :: r) = Some (bytes_of v, r).
Proof.
  rewrite prom_escape_chars. induction (bytes_of v) as [|c l IH]; [done|].
  rewrite bind_cons, <- app_assoc. revert IH. generalize ((l ≫= escape_char) ++ dquote :: r). intros t IH.
  unfold escape_char. destruct (Ascii.eqb_spec c backslash) as [->|Hb]; [cbn; by rewrite IH|].
  destruct (Ascii.eqb_spec c dquote) as [->|Hq]; [cbn; by rewrite IH|].
  destruct (Ascii.eqb_spec c newline) as [->|Hn]; [cbn; by rewrite IH|].
  cbn [app read_quoted]. apply Ascii.eqb_neq in Hb, Hq. rewrite Hq, Hb, IH. done.
Qed.

Lemma escaped_one_line v : newline ∉ prom_escape v.
Proof.
  rewrite prom_escape_chars, list_elem_of_bind. intros (c & Hin & _). revert Hin. unfold escape_char.
  destruct (Ascii.eqb_spec c backslash) as [->|Hb]; [by rewrite !elem_of_cons, elem_of_nil; intros [?|[?|[]]]|].
  destruct (Ascii.eqb_spec c dquote) as [->|Hq]; [by rewrite !elem_of_cons, elem_of_nil; intros [?|[?|[]]]|].
  destruct (Ascii.eqb_spec c newline) as [->|Hn]; [by rewrite !elem_of_cons, elem_of_nil; intros [?|[?|[]]]|].
  rewrite list_elem_of_singleton. congruence.
Qed.

Definition gauge_body (name : string) (labels : list (string * string)) (value : list ascii) : list ascii :=
  bytes_of name ++ ["{"%char]
  ++ (match labels with
      | [] => []
      | (k, v) :: rest => label k v ++ (rest ≫= fun kv => ","%char :: label (fst kv) (snd kv))
      end)
  ++ ["}"%char; " "%char] ++ value.

Lemma gauge_line_body name labels value : gauge_line name labels value = gauge_body name labels value ++ [newline].
Proof. unfold gauge_line, gauge_body. by rewrite <- !app_assoc. Qed.

Lemma read_labels_app k v rest value fuel :
  Forall (fun kv => "="%char ∉ bytes_of (fst kv)) ((k, v) :: rest) -> (length rest < fuel)%nat ->
  read_labels fuel ((label k v ++ (rest ≫= fun kv => ","%char :: label (fst kv) (snd kv))) ++ "}"%char :: value)
  = Some ((k, v) :: rest, value).
Proof.
  revert k v fuel. induction rest as [|[k' v'] rest IH]; intros k v [|fuel] HF Hf; try (cbn in Hf; lia);
    apply Forall_cons in HF as [Hk HF]; cbn [read_labels]; unfold label at 1;
    rewrite <- !app_assoc; cbn [app]; rewrite take_until_app by done; cbn [mbind option_bind];
    rewrite Ascii.eqb_refl; cbn [negb]; rewrite read_quoted_escaped; cbn [mbind option_bind].
  - cbn. by rewrite !str_of_bytes_of.
  - specialize (IH k' v' fuel HF ltac:(cbn in Hf; lia)). rewrite bind_cons. cbn [fst snd].
    rewrite <- app_assoc in IH |- *.
    transitivity (Some ((k', v') :: rest, value) ≫= fun '(more, r) => Some ((str_of (bytes_of k), str_of (bytes_of v)) :: more, r)).
    + rewrite <- IH. reflexivity.
    + cbn. by rewrite !str_of_bytes_of.
Qed.

(** ** A page *)

(** The key a series has on the page: no two lines may share it. *)
Definition series_key (s : PromSample) : string * list (string * string) := (pm_name s, pm_labels s).

Definition sample_text (s : PromSample) : list ascii := gauge_line (pm_name s) (pm_labels s) (pm_value s).

Definition sample_ok (s : PromSample) : Prop :=
  ("{"%char ∉ bytes_of (pm_name s)) /\ (newline ∉ bytes_of (pm_name s)) /\
  is_comment (bytes_of (pm_name s)) = false /\ pm_labels s <> [] /\ (newline ∉ pm_value s) /\
  Forall (fun kv => ("="%char ∉ bytes_of (fst kv)) /\ (newline ∉ bytes_of (fst kv))) (pm_labels s).

(** [text] is whole lines that read as [ss]. *)
Definition reads (text : list ascii) (ss : list PromSample) : Prop :=
  exists lines, text = (lines ≫= fun l => l ++ [newline]) /\ Forall (fun l => newline ∉ l) lines /\
    Forall2 (fun l s => read_sample l = Some s) (filter (fun l => is_comment l = false) lines) ss.

Lemma label_one_line k v : newline ∉ bytes_of k -> newline ∉ label k v.
Proof.
  intros Hk. unfold label. rewrite !elem_of_app, !elem_of_cons, elem_of_nil.
  pose proof (escaped_one_line v). naive_solver.
Qed.

Lemma gauge_body_one_line s : sample_ok s -> newline ∉ gauge_body (pm_name s) (pm_labels s) (pm_value s).
Proof.
  destruct s as [name labels value]. intros (_ & Hn & _ & Hne & Hv & HF). cbn [pm_name pm_labels pm_value] in *.
  unfold gauge_body. destruct labels as [|[k v] rest]; [done|]. apply Forall_cons in HF as [[_ Hk] HF].
  rewrite !elem_of_app, !elem_of_cons, elem_of_nil.
  assert (newline ∉ (rest ≫= fun kv => ","%char :: label (fst kv) (snd kv))).
  { rewrite list_elem_of_bind. intros ([k' v'] & Hin & Hel). rewrite Forall_forall in HF. destruct (HF _ Hel) as [_ Hk'].
    apply elem_of_cons in Hin as [|Hin]; [done|]. by apply (label_one_line k' v') in Hin. }
  pose proof (label_one_line k v Hk). naive_solver.
Qed.

Lemma length_bind_ge {X} (f : X -> list ascii) l : (forall x, f x <> []) -> (length l <= length (l ≫= f))%nat.
Proof.
  intros Hf. induction l as [|x l IH]; [done|]. rewrite bind_cons, length_app. specialize (Hf x).
  destruct (f x); [done|]. cbn in *. lia.
Qed.

Lemma read_gauge s : sample_ok s -> read_sample (gauge_body (pm_name s) (pm_labels s) (pm_value s)) = Some s.
Proof.
  destruct s as [name labels value]. intros (Hb & _ & _ & Hne & _ & HF). cbn [pm_name pm_labels pm_value] in *.
  unfold read_sample. set (fuel := length _). destruct labels as [|[k v] rest]; [done|].
  assert (Hf : (length rest < fuel)%nat).
  { unfold fuel, gauge_body. rewrite !length_app. pose proof (length_bind_ge (fun kv => ","%char :: label (fst kv) (snd kv)) rest ltac:(done)).
    cbn [length] in *. lia. }
  unfold gauge_body. cbn [app]. rewrite take_until_app by done. cbn [mbind option_bind].
  rewrite read_labels_app; [|by eapply Forall_impl; [exact HF|intros ? []]|done]. cbn [mbind option_bind].
  by rewrite str_of_bytes_of.
Qed.

Lemma bind_empty {X Y} (f : X -> list Y) : [] ≫= f = [].
Proof. done. Qed.

Lemma reads_sample s : sample_ok s -> reads (sample_text s) [s].
Proof.
  intros Hs. exists [gauge_body (pm_name s) (pm_labels s) (pm_value s)].
  split_and!; [by rewrite bind_cons, bind_empty, app_nil_r, <- gauge_line_body|repeat constructor; by apply gauge_body_one_line|].
  rewrite filter_cons_True; [constructor; [by apply read_gauge|constructor]|].
  destruct Hs as (_ & _ & Hc & _). unfold gauge_body. by destruct (bytes_of (pm_name s)).
Qed.

Lemma reads_nil : reads [] [].
Proof. exists []. by repeat constructor. Qed.

Lemma reads_app t1 t2 s1 s2 : reads t1 s1 -> reads t2 s2 -> reads (t1 ++ t2) (s1 ++ s2).
Proof.
  intros (l1 & -> & H1 & R1) (l2 & -> & H2 & R2). exists (l1 ++ l2). rewrite bind_app, filter_app.
  split_and!; [done|by apply Forall_app|by apply Forall2_app].
Qed.

Lemma page_reads_bind {X} (f : X -> list ascii) (g : X -> list PromSample) l :
  (forall x, reads (f x) (g x)) -> reads (l ≫= f) (l ≫= g).
Proof. intros Hx. induction l as [|x l IH]; [apply reads_nil|]. rewrite !bind_cons. by apply reads_app. Qed.

Lemma reads_samples ss : Forall sample_ok ss -> reads (ss ≫= sample_text) ss.
Proof.
  induction 1 as [|s ss Hs _ IH]; [apply reads_nil|]. rewrite bind_cons.
  change (s :: ss) with ([s] ++ ss). apply reads_app; [by apply reads_sample|done].
Qed.

Lemma reads_head help type_ :
  newline ∉ bytes_of help -> newline ∉ bytes_of type_ -> reads (gauge_head help type_) [].
Proof.
  intros Hh Ht. exists [bytes_of ("# HELP " +:+ help); bytes_of ("# TYPE " +:+ type_ +:+ " gauge")].
  unfold gauge_head. split_and!; [by rewrite !bind_cons, bind_empty, app_nil_r, <- !app_assoc| |constructor].
  repeat constructor; rewrite !bytes_of_app, ?elem_of_app; cbn; rewrite !elem_of_cons, ?elem_of_nil; naive_solver.
Qed.

Lemma split_lines lines :
  Forall (fun l => newline ∉ l) lines -> split_bytes newline (lines ≫= fun l => l ++ [newline]) = lines ++ [[]].
Proof.
  induction 1 as [|l lines Hl _ IH]; [done|]. rewrite bind_cons, <- app_assoc. cbn [app]. rewrite <- IH.
  generalize (lines ≫= fun l => l ++ [newline]). intros t. clear IH. induction l as [|c l IH]; [done|].
  apply not_elem_of_cons in Hl as [Hc Hl]. cbn [app split_bytes]. rewrite IH by done.
  destruct (Ascii.eqb_spec c newline); [congruence|done].
Qed.

Lemma reads_exposition text ss : reads text ss -> read_exposition text = Some ss.
Proof.
  intros (lines & -> & Hl & HF). unfold read_exposition. rewrite split_lines, filter_app by done.
  rewrite (filter_cons_False _ []) by done. rewrite filter_nil, app_nil_r. by apply mapM_Some.
Qed.

(** ** The gauges *)

Definition gauge (name : string) (labels : list (string * string)) (value : list ascii) : PromSample :=
  {| pm_name := name; pm_labels := labels; pm_value := value |}.

Lemma reads_fmap {X} (f : X -> PromSample) l :
  (forall x, sample_ok (f x)) -> reads (l ≫= fun x => sample_text (f x)) (f <$> l).
Proof.
  intros Hf. assert ((l ≫= fun x => sample_text (f x)) = (f <$> l) ≫= sample_text) as ->
    by (induction l as [|x l IH]; [done|]; cbn; by f_equal).
  apply reads_samples, Forall_fmap, Forall_true. intros x. apply Hf.
Qed.

(** Counting. *)
Lemma counted_keys ks k :
  foldl count_key ∅ ks !! k = match length (filter (fun x => x = k) ks) with O => None | n => Some (Z.of_nat n) end.
Proof.
  induction ks as [|x ks IH] using rev_ind; [done|]. rewrite foldl_app, filter_app, length_app. cbn [foldl].
  unfold count_key at 1. destruct (decide (x = k)) as [->|Hne].
  - rewrite lookup_insert_eq, filter_cons_True, IH by done. cbn [filter length].
    destruct (length _) as [|n]; cbn; f_equal; lia.
  - rewrite lookup_insert_ne, filter_cons_False, IH by done. cbn. by rewrite Nat.add_0_r.
Qed.

Section page.
Context `{F64TextLaws}.

Definition usage_gauge (kv : (string * string * string) * f64) : PromSample :=
  let '((pool, project, resource), qty) := kv in
  gauge "mobula_pool_resource_usage" [("pool", pool); ("project", project); ("resource", resource)]%string (f64_display qty).
Definition count_gauge (name key : string) (kv : string * Z) : PromSample :=
  gauge name [(key, fst kv)] (bytes_of (u64_str (snd kv))).
Definition nominal_gauge (pool : string) (kv : string * f64) : PromSample :=
  gauge "mobula_pool_nominal" [("pool", pool); ("resource", fst kv)]%string (f64_display (snd kv)).

Lemma latest_lookup samples pool project resource :
  foldl latest_sample ∅ samples !! (pool, project, resource) =
  us_quantity <$> last (filter (fun s => us_pool s = pool /\ us_project s = project /\ us_resource s = resource) samples).
Proof.
  induction samples as [|s samples IH] using rev_ind; [done|]. rewrite foldl_app, filter_app. cbn [foldl].
  unfold latest_sample at 1. destruct (decide ((us_pool s, us_project s, us_resource s) = (pool, project, resource))) as [E|E].
  - rewrite E, lookup_insert_eq. injection E as <- <- <-. rewrite filter_cons_True by done. by rewrite filter_nil, last_snoc.
  - rewrite lookup_insert_ne, filter_cons_False by naive_solver. by rewrite filter_nil, app_nil_r.
Qed.

Definition counts (ks : list string) : list (string * Z) := btree_iter (foldl count_key ∅ ks).
Definition nominals (p : StoredPool) : list (string * f64) :=
  let '(sums, unparseable) := flavor_sums (p_flavors (sp_spec p)) in
  filter (fun kt => fst kt ∉ unparseable) (btree_iter sums).

Definition page_samples (samples : list UsageSample) (clusters : list StoredCluster) (pools : list StoredPool) : list PromSample :=
  (usage_gauge <$> sort_stable (entry_leb triple_leb) (map_to_list (foldl latest_sample ∅ samples)))
  ++ (count_gauge "mobula_clusters_total" "state" <$> counts (observed_label <$> clusters))
  ++ (count_gauge "mobula_clusters_by_project" "project" <$> counts ((fun c => cs_project (c_spec c)) <$> clusters))
  ++ (pools ≫= fun p => nominal_gauge (sp_name p) <$> nominals p).

Lemma elem_nominals p resource x : (resource, x) ∈ nominals p <-> total_nominal (sp_spec p) !! resource = Some x.
Proof.
  unfold nominals, total_nominal. destruct (flavor_sums _) as [sums un].
  rewrite list_elem_of_filter, elem_of_btree_iter, map_lookup_filter_Some. cbn. naive_solver.
Qed.

Lemma elem_counts ks k n : (k, n) ∈ counts ks <-> n = Z.of_nat (length (filter (fun x => x = k) ks)) /\ 0 < n.
Proof.
  unfold counts. rewrite elem_of_btree_iter, counted_keys. destruct (length _) as [|m]; [naive_solver lia|].
  split; [intros [= <-]; lia|by intros [-> _]].
Qed.

Lemma u64_str_one_line z : newline ∉ bytes_of (u64_str z).
Proof.
  apply digits_avoid. intros d. unfold pretty_N_char. repeat case_match; done.
Qed.

Ltac one_line := apply (bool_decide_unpack _); vm_compute; exact I.
Ltac gauge_ok :=
  split_and!; [one_line|one_line|reflexivity|done|first [apply f64_display_line|apply u64_str_one_line]
              |repeat (apply Forall_cons; split; [split; one_line|]); apply Forall_nil, I].

Lemma reads_section help type_ text ss :
  newline ∉ bytes_of help -> newline ∉ bytes_of type_ -> reads text ss -> reads (gauge_head help type_ ++ text) ss.
Proof. intros Hh Ht Hr. change ss with ([] ++ ss). apply reads_app; [by apply reads_head|done]. Qed.

Lemma usage_gauge_ok kv : sample_ok (usage_gauge kv).
Proof. destruct kv as [[[pool project] resource] qty]. gauge_ok. Qed.
Lemma nominal_gauge_ok pool kv : sample_ok (nominal_gauge pool kv).
Proof. gauge_ok. Qed.
Lemma state_gauge_ok kv : sample_ok (count_gauge "mobula_clusters_total" "state" kv).
Proof. gauge_ok. Qed.
Lemma project_gauge_ok kv : sample_ok (count_gauge "mobula_clusters_by_project" "project" kv).
Proof. gauge_ok. Qed.

Lemma reads_nominals p :
  reads (let '(sums, unparseable) := flavor_sums (p_flavors (sp_spec p)) in
         btree_iter sums ≫= fun kt =>
           if bool_decide (fst kt ∈ unparseable) then []
           else gauge_line "mobula_pool_nominal" [("pool", sp_name p); ("resource", fst kt)]%string (f64_display (snd kt)))
        (nominal_gauge (sp_name p) <$> nominals p).
Proof.
  unfold nominals. destruct (flavor_sums _) as [sums un]. induction (btree_iter sums) as [|kt l IH]; [apply reads_nil|].
  rewrite bind_cons, filter_cons. destruct (decide (fst kt ∈ un)) as [Hin|Hin].
  - rewrite bool_decide_true, decide_False by naive_solver. done.
  - rewrite bool_decide_false, decide_True by done. cbn [fmap list_fmap].
    change (nominal_gauge (sp_name p) kt :: ?r) with ([nominal_gauge (sp_name p) kt] ++ r).
    apply reads_app; [|done]. exact (reads_sample _ (nominal_gauge_ok (sp_name p) kt)).
Qed.

Lemma page_reads samples clusters pools :
  reads (render_usage_gauge samples ++ render_cluster_gauges clusters ++ render_pool_nominal_gauge pools)
        (page_samples samples clusters pools).
Proof.
  unfold render_usage_gauge, render_cluster_gauges, render_pool_nominal_gauge, page_samples.
  rewrite <- !app_assoc. apply reads_section; [one_line..|]. apply reads_app.
  { rewrite (list_bind_ext _ (fun kv => sample_text (usage_gauge kv)) _ _) by (done || by intros [[[]?]?]).
    apply reads_fmap, usage_gauge_ok. }
  apply reads_section; [one_line..|]. apply reads_app; [apply (reads_fmap (count_gauge _ _)), state_gauge_ok|].
  apply reads_section; [one_line..|]. apply reads_app; [apply (reads_fmap (count_gauge _ _)), project_gauge_ok|].
  apply reads_section; [one_line..|]. apply page_reads_bind, reads_nominals.
Qed.
(** *** No series twice *)

Lemma NoDup_section {K X} (f : K * X -> PromSample) (g : K -> string * list (string * string)) l :
  (forall kv, series_key (f kv) = g (fst kv)) -> Inj eq eq g -> NoDup l.*1 -> NoDup (series_key <$> (f <$> l)).
Proof.
  intros Hf Hg Hl. rewrite <- list_fmap_compose.
  replace ((series_key ∘ f) <$> l) with (g <$> l.*1); [by apply (NoDup_fmap g)|].
  rewrite <- list_fmap_compose. apply list_fmap_ext. intros _ kv _. cbn. by rewrite Hf.
Qed.

Lemma section_name {X} (f : X -> PromSample) name (l : list X) (k : string * list (string * string)) :
  (forall x, pm_name (f x) = name) -> k ∈ (series_key <$> (f <$> l)) -> fst k = name.
Proof. intros Hf (s & -> & (x & -> & _)%list_elem_of_fmap)%list_elem_of_fmap. apply Hf. Qed.

Lemma NoDup_counts ks : NoDup (counts ks).*1.
Proof. apply NoDup_btree_iter. Qed.

Lemma NoDup_nominals p : NoDup (nominals p).*1.
Proof.
  unfold nominals. destruct (flavor_sums _) as [sums un]. pose proof (NoDup_btree_iter sums) as Hn. revert Hn.
  induction (btree_iter sums) as [|kt l IH]; [done|]. rewrite fmap_cons, NoDup_cons, filter_cons. intros [Hk Hl].
  destruct (decide _); [|by apply IH]. rewrite fmap_cons, NoDup_cons. split; [|by apply IH].
  intros (kv & Hkv & [_ Hin]%list_elem_of_filter)%list_elem_of_fmap. apply Hk. rewrite Hkv. by apply list_elem_of_fmap_2.
Qed.

Lemma pool_section_key pools k :
  k ∈ (series_key <$> (pools ≫= fun p => nominal_gauge (sp_name p) <$> nominals p)) ->
  exists p resource, p ∈ pools /\ k = ("mobula_pool_nominal", [("pool", sp_name p); ("resource", resource)])%string.
Proof.
  intros (s & -> & Hs)%list_elem_of_fmap. apply list_elem_of_bind in Hs as (p & Hs & Hp).
  apply list_elem_of_fmap in Hs as (kv & -> & _). by exists p, (fst kv).
Qed.

Lemma NoDup_pool_section pools : NoDup (sp_name <$> pools) ->
  NoDup (series_key <$> (pools ≫= fun p => nominal_gauge (sp_name p) <$> nominals p)).
Proof.
  induction pools as [|p pools IH]; [by constructor|]. rewrite fmap_cons, NoDup_cons, bind_cons, fmap_app. intros [Hp Hr].
  apply NoDup_app. split_and!; [| |by apply IH].
  - apply (NoDup_section _ (fun r => ("mobula_pool_nominal", [("pool", sp_name p); ("resource", r)])%string));
      [done|by intros ? ? [=]|apply NoDup_nominals].
  - intros k (s & -> & (kv & -> & _)%list_elem_of_fmap)%list_elem_of_fmap (p' & r & Hp' & [= Hn _])%pool_section_key.
    apply Hp. rewrite Hn. by apply list_elem_of_fmap_2.
Qed.

Lemma page_NoDup samples clusters pools : NoDup (sp_name <$> pools) ->
  NoDup (series_key <$> page_samples samples clusters pools).
Proof.
  intros Hp. unfold page_samples. rewrite !fmap_app.
  assert (Hpools : forall k, k ∈ (series_key <$> (pools ≫= fun p => nominal_gauge (sp_name p) <$> nominals p)) ->
    fst k = "mobula_pool_nominal"%string) by (by intros k (? & ? & _ & ->)%pool_section_key).
  apply NoDup_app. split_and!.
  - apply (NoDup_section _ (fun k => ("mobula_pool_resource_usage", [("pool", fst (fst k)); ("project", snd (fst k)); ("resource", snd k)])%string)).
    + by intros [[[] ?] ?].
    + intros [[] ?] [[] ?] [=]. by subst.
    + rewrite sort_stable_perm. apply NoDup_fst_map_to_list.
  - intros k Hk. apply (section_name _ "mobula_pool_resource_usage") in Hk; [|by intros [[[] ?] ?]].
    rewrite !elem_of_app. intros [Hc|[Hc|Hc%Hpools]]; [| |congruence].
    + apply (section_name _ "mobula_clusters_total") in Hc; [congruence|done].
    + apply (section_name _ "mobula_clusters_by_project") in Hc; [congruence|done].
  - apply NoDup_app. split_and!; [| |apply NoDup_app; split_and!; [| |by apply NoDup_pool_section]].
    + apply (NoDup_section _ (fun k => ("mobula_clusters_total", [("state", k)])%string)); [done|by intros ? ? [=]|apply NoDup_counts].
    + intros k Hk. apply (section_name _ "mobula_clusters_total") in Hk; [|done].
      rewrite elem_of_app. intros [Hc|Hc%Hpools]; [|congruence].
      apply (section_name _ "mobula_clusters_by_project") in Hc; [congruence|done].
    + apply (NoDup_section _ (fun k => ("mobula_clusters_by_project", [("project", k)])%string)); [done|by intros ? ? [=]|apply NoDup_counts].
    + intros k Hk Hc%Hpools. apply (section_name _ "mobula_clusters_by_project") in Hk; [|done]. congruence.
Qed.
(** *** The page *)

Context `{AuditCodec}.

(** The readings up to a time, in the order the store gives them. *)
Definition readings (s : InMemoryStore) (now : Z) : list UsageSample :=
  sort_by_key us_ts (filter (fun x => sample_selected None None 0 now x = true) (m_usage s)).

Definition on_page (s : InMemoryStore) (now : Z) (x : PromSample) : Prop :=
  (exists pool project resource u, x = usage_gauge ((pool, project, resource), us_quantity u) /\
     last (filter (fun r => us_pool r = pool /\ us_project r = project /\ us_resource r = resource) (readings s now)) = Some u) \/
  (exists state n, x = count_gauge "mobula_clusters_total" "state" (state, n) /\ 0 < n /\
     n = Z.of_nat (length (filter (fun c => observed_label c = state) (map_values (m_clusters s))))) \/
  (exists project n, x = count_gauge "mobula_clusters_by_project" "project" (project, n) /\ 0 < n /\
     n = Z.of_nat (length (filter (fun c => cs_project (c_spec c) = project) (map_values (m_clusters s))))) \/
  (exists p resource q, x = nominal_gauge (sp_name p) (resource, q) /\ p ∈ map_values (m_pools s) /\
     total_nominal (sp_spec p) !! resource = Some q).

Lemma length_filter_fmap {X Y} (f : X -> Y) `{EqDecision Y} y l :
  length (filter (fun z => z = y) (f <$> l)) = length (filter (fun x => f x = y) l).
Proof. induction l as [|x l IH]; [done|]. rewrite fmap_cons, !filter_cons. case_decide; cbn; by rewrite IH. Qed.

Lemma elem_usage_section s now x :
  x ∈ (usage_gauge <$> sort_stable (entry_leb triple_leb) (map_to_list (foldl latest_sample ∅ (readings s now)))) <->
  exists pool project resource u, x = usage_gauge ((pool, project, resource), us_quantity u) /\
     last (filter (fun r => us_pool r = pool /\ us_project r = project /\ us_resource r = resource) (readings s now)) = Some u.
Proof.
  rewrite list_elem_of_fmap. split.
  - intros ([[[pool project] resource] q] & -> & Hin). rewrite elem_of_sort_stable, elem_of_map_to_list, latest_lookup in Hin.
    apply fmap_Some in Hin as (u & Hu & ->). by exists pool, project, resource, u.
  - intros (pool & project & resource & u & -> & Hu). eexists. split; [done|].
    by rewrite elem_of_sort_stable, elem_of_map_to_list, latest_lookup, Hu.
Qed.

Lemma elem_count_section {X} name key (f : X -> string) (l : list X) x :
  x ∈ (count_gauge name key <$> counts (f <$> l)) <->
  exists k n, x = count_gauge name key (k, n) /\ 0 < n /\ n = Z.of_nat (length (filter (fun c => f c = k) l)).
Proof.
  rewrite list_elem_of_fmap. setoid_rewrite <- (length_filter_fmap f). split.
  - intros ([k n] & -> & [Hn Hp]%elem_counts). by exists k, n.
  - intros (k & n & -> & Hp & Hn). exists (k, n). by rewrite elem_counts.
Qed.

Lemma elem_pool_section pools x :
  x ∈ (pools ≫= fun p => nominal_gauge (sp_name p) <$> nominals p) <->
  exists p resource q, x = nominal_gauge (sp_name p) (resource, q) /\ p ∈ pools /\
    total_nominal (sp_spec p) !! resource = Some q.
Proof.
  rewrite list_elem_of_bind. split.
  - intros (p & ([r q] & -> & Hin%elem_nominals)%list_elem_of_fmap & Hp). by exists p, r, q.
  - intros (p & r & q & -> & Hp & Hq). exists p. split; [|done]. apply list_elem_of_fmap. exists (r, q).
    by rewrite elem_nominals.
Qed.

Lemma NoDup_pool_names s : store_wf s -> NoDup (sp_name <$> map_values (m_pools s)).
Proof.
  intros Hwf. unfold map_values. rewrite <- list_fmap_compose.
  rewrite (list_fmap_ext _ fst); [apply NoDup_fst_map_to_list|].
  intros i [k p] Hk. apply list_elem_of_lookup_2, elem_of_map_to_list in Hk. by apply (wf_pools s Hwf) in Hk as [? _].
Qed.

(** C26. The metrics page. Whatever the labels hold (quotes, backslashes and line
    breaks too), a reader of the Prometheus text format recovers from the page
    exactly the store's gauges: the newest reading of every metered series, the
    clusters by observed state and by project, and every pool's nominal quota as
    the pool view has it; no series appears twice. *)
Theorem metrics_read_back identity w text w' :
  store_wf (api_store w) -> metrics identity w = (Ok text, w') ->
  permitted identity Read TCluster = true /\ api_store w' = api_store w /\
  exists samples, read_exposition text = Some samples /\ NoDup (series_key <$> samples) /\
    forall x, x ∈ samples <-> on_page (api_store w) (api_clock w (api_reads w)) x.
Proof.
  intros Hwf Hm. unfold metrics in Hm. apply ST_bind_Ok in Hm as (u & w1 & Hd & Hm).
  destruct (or_deny_authorize identity Read TCluster w) as (w1' & Hd' & Hw1 & _). rewrite Hd in Hd'.
  destruct (permitted identity Read TCluster) eqn:Hp; [|done]. injection Hd' as _ <-.
  specialize (Hw1 eq_refl). subst w1. split; [done|]. injection Hm as Htext Hw'.
  split; [by rewrite <- Hw'|]. subst text.
  exists (page_samples (readings (api_store w) (api_clock w (api_reads w)))
    (map_values (m_clusters (api_store w))) (map_values (m_pools (api_store w)))).
  split; [apply reads_exposition, page_reads|]. split; [by apply page_NoDup, NoDup_pool_names|].
  intros x. unfold page_samples, on_page. rewrite !elem_of_app.
  by rewrite elem_usage_section, !elem_count_section, elem_pool_section.
Qed.
End page.

Module PageRuns.
#[local] Instance page_codec : AuditCodec := {| sha256_hex := fun s => s; audit_json := fun _ => EmptyString |}.
#[local] Instance page_text : F64Text := fun x => if f64_eqb x f64_zero then bytes_of "0" else bytes_of "1.5".
#[local] Instance page_text_laws : F64TextLaws.
Proof. intros x. unfold f64_display, page_text. destruct (f64_eqb _ _); apply (bool_decide_unpack _); vm_compute; exact I. Qed.

(** A pool whose name needs every escape, and a reading of it. *)
Definition odd_name : string := str_of [dquote; backslash; newline; "n"%char].
Definition odd_sample : UsageSample := {|
  us_ts := 5; us_project := "p"; us_pool := odd_name; us_resource := "cpu"; us_quantity := f64_of_Z 3;
  us_source := ObservedSpec |}.
Definition odd_ops : list store_op :=
  [OpUpsertPool 1 odd_name (demo_pool None); OpRecordUsage [odd_sample]].
Definition odd_world : ApiWorld := {|
  api_store := run_ops odd_ops empty_store; api_clock := fun _ => 10; api_reads := 0 |}.

Lemma metrics_read_back_witness :
  exists text w' samples, metrics None odd_world = (Ok text, w') /\ read_exposition text = Some samples /\
    usage_gauge ((odd_name, "p", "cpu")%string, f64_of_Z 3) ∈ samples.
Proof.
  destruct (metrics None odd_world) as [[text|e] w'] eqn:Hm; [|vm_compute in Hm; discriminate Hm].
  destruct (metrics_read_back None odd_world text w' (run_ops_wf odd_ops empty_store empty_store_wf) Hm)
    as (_ & _ & samples & Hs & _ & Hin).
  exists text, w', samples. split_and!; [reflexivity|exact Hs|]. apply Hin. left.
  exists odd_name, "p"%string, "cpu"%string, odd_sample. split; [reflexivity|]. vm_compute. reflexivity.
Defined.
End PageRuns.
