(* ===== verification/ServiceApi.v ===== *)
(** * Serve services and the registry view (mobula-api/src/services.rs, registry.rs)

    The routes work over any backend of the [ServiceProvisioner] trait; the demo
    backend and the KubeRay one are its instances and discharge the law the
    clients rely on. Neither router has a store: a denial is only traced. *)

From S2P Require Import Prelude Float64 Core Store Json Provision Manifests Network Kube KubeRay.
From S2P Require Import Auth Registry Api.
#[local] Open Scope Z_scope.

Class ServiceProvisioner (P : Type) := {
  sv_deploy : string -> ServiceSpec -> ST P ProvisionError unit;
  sv_get : string -> ST P ProvisionError (option Demo.ObservedService);
  sv_delete : string -> ST P ProvisionError unit;
  sv_list : ST P ProvisionError (list Demo.ObservedService);
}.

(** What a deployed service looks like to a later read. *)
Class ServiceLaws (P : Type) `{ServiceProvisioner P} :=
  deploy_get : forall name spec p p' r p'', sv_deploy name spec p = (Ok tt, p') ->
    sv_get name p' = (Ok r, p'') -> exists o, r = Some o /\ Demo.os_name o = name.

#[export] Instance demo_services : ServiceProvisioner Demo.DemoProvisioner := {|
  sv_deploy := fun name _ => Demo.deploy name;
  sv_get := Demo.get_service;
  sv_delete := Demo.delete_service;
  sv_list := Demo.list_services |}.

#[export] Instance demo_service_laws : ServiceLaws Demo.DemoProvisioner.
Proof.
  intros name spec p p' r p'' [= <-] [= <- <-]. cbn. rewrite lookup_insert_eq. by eexists.
Qed.

#[export] Instance kuberay_services {K} `{Kube K} `{Serde} `{SerdeErrors} : ServiceProvisioner (KubeRayProvisioner K) := {|
  sv_deploy := fun name spec => with_client (fun ns _ => KubeRay.deploy ns name spec);
  sv_get := fun name => with_client (fun ns _ => KubeRay.get_service ns name);
  sv_delete := fun name => with_client (fun ns _ => KubeRay.delete_service ns name);
  sv_list := with_client (fun ns _ => KubeRay.list_services ns) |}.

#[export] Instance kuberay_service_laws {K} `{KubeLaws K} `{Serde} `{SerdeErrors} : ServiceLaws (KubeRayProvisioner K).
Proof.
  intros name spec p p' r p''. unfold sv_deploy, sv_get, kuberay_services, with_client.
  destruct (KubeRay.deploy _ _ _ _) as [[[]|e] k1] eqn:Ed; [|done]. intros [= <-]. cbn [kr_namespace kr_client].
  unfold KubeRay.deploy in Ed. apply ST_bind_Ok in Ed as (u & k0 & _ & Ed). unfold kube in Ed.
  destruct (k_apply _ _ _ _ k0) as [[[]|e] k2] eqn:Ea; [|done]. injection Ed as <-.
  apply apply_sees in Ea as (live & Hlive & _). unfold KubeRay.get_service, mbind at 1, ST_bind at 1, kube.
  destruct (k_get_opt _ _) as [[o|e] k3] eqn:Eg; [|done]. apply get_sees in Eg as ->. rewrite Hlive.
  intros [= <- _]. by eexists.
Qed.

(** ** The routes *)

Record ServiceView := { sw_name : string; sw_state : string; sw_url : option string }.

Definition service_view (o : Demo.ObservedService) : ServiceView := {|
  sw_name := Demo.os_name o; sw_state := cluster_state_str (Demo.os_state o); sw_url := Demo.os_url o |}.

Record DeployService := { ds_name : string; ds_spec : ServiceSpec }.

(** Answers: a status with a fixed text, or the views. *)
Inductive ServiceAnswer :=
| SvText (status : Z) (text : string)
| SvAccepted
| SvViews (l : list ServiceView)
| SvView (v : ServiceView).

Definition sv_forbidden : ServiceAnswer := SvText 403 "insufficient permission".
Definition no_such_service : ServiceAnswer := SvText 404 "no such service".
Definition prov_err : ServiceAnswer := SvText 502 "service backend error".

(** [authorize] without a store: the denial writes nothing. *)
Definition denied (identity : option Identity) (action : PermissionType) (target : Target) : bool :=
  match identity with Some i => negb (permits i action target) | None => false end.

Section routes.
Context {P : Type} `{ServiceProvisioner P}.

Definition list_services (identity : option Identity) (p : P) : ServiceAnswer * P :=
  if denied identity Read TService then (sv_forbidden, p)
  else match sv_list p with
       | (Ok svcs, p') => (SvViews (service_view <$> svcs), p')
       | (Err _, p') => (prov_err, p')
       end.

Definition get_service (identity : option Identity) (name : string) (p : P) : ServiceAnswer * P :=
  if denied identity Read TService then (sv_forbidden, p)
  else match sv_get name p with
       | (Ok (Some s), p') => (SvView (service_view s), p')
       | (Ok None, p') => (no_such_service, p')
       | (Err _, p') => (prov_err, p')
       end.

Definition deploy_service (identity : option Identity) (body : DeployService) (p : P) : ServiceAnswer * P :=
  if denied identity Write TService then (sv_forbidden, p)
  else match sv_deploy (ds_name body) (ds_spec body) p with
       | (Ok _, p') => (SvAccepted, p')
       | (Err _, p') => (prov_err, p')
       end.

Definition delete_service (identity : option Identity) (name : string) (p : P) : ServiceAnswer * P :=
  if denied identity Write TService then (sv_forbidden, p)
  else match sv_delete name p with
       | (Ok _, p') => (SvAccepted, p')
       | (Err _, p') => (prov_err, p')
       end.
End routes.

(** ** The registry view *)

Record RegistryEntryView := {
  re_id : string;
  re_hostname : string;
  re_api_base_url : string;
  re_token_set : bool;
  re_validation : option Value;
}.
Definition registry_entry (c : ClusterEndpoint) : RegistryEntryView := {|
  re_id := ep_id c; re_hostname := ep_hostname c; re_api_base_url := ep_api_base_url c;
  re_token_set := bool_decide (is_Some (ep_auth_token c)); re_validation := None |}.

Inductive RegistryAnswer := RgForbidden | RgEntries (l : list RegistryEntryView).
Definition list_registry (registry : ClusterRegistry) (identity : option Identity) : RegistryAnswer :=
  if denied identity PAdmin TCluster then RgForbidden else RgEntries (registry_entry <$> registry).

(** ** Facts *)

Lemma denied_write i : denied (Some i) Write TService = false <-> Developer ∈ id_roles i \/ Admin ∈ id_roles i.
Proof.
  unfold denied, permits. rewrite negb_false_iff, existsb_exists. split.
  - intros (r & Hr%list_elem_of_In & Hg). destruct r; try done; [by left|by right].
  - intros [Hr|Hr]; (eexists; split; [by apply list_elem_of_In|done]).
Qed.

Lemma denied_admin i : denied (Some i) PAdmin TCluster = false <-> Admin ∈ id_roles i.
Proof.
  unfold denied, permits. rewrite negb_false_iff, existsb_exists. split.
  - intros (r & Hr%list_elem_of_In & Hg). by destruct r.
  - intros Hr. exists Admin. split; [by apply list_elem_of_In|done].
Qed.

(** The service routes over any lawful backend: an identity with neither the
    Developer nor the Admin role is refused to deploy or delete, and nothing
    happens to the backend; a deploy that was accepted is seen by the next read
    that gets through, under its name. *)
Theorem service_routes_spec {P} `{ServiceLaws P} i reader body name (p : P) :
  (Developer ∉ id_roles i -> Admin ∉ id_roles i ->
     deploy_service (Some i) body p = (sv_forbidden, p) /\ delete_service (Some i) name p = (sv_forbidden, p)) /\
  (forall p', deploy_service (Some i) body p = (SvAccepted, p') ->
     denied reader Read TService = false ->
     fst (get_service reader (ds_name body) p') = prov_err \/
     exists v, fst (get_service reader (ds_name body) p') = SvView v /\ sw_name v = ds_name body).
Proof.
  split.
  - intros Hd Ha. assert (denied (Some i) Write TService = true) as Hden
      by (apply not_false_iff_true; intros [?|?]%denied_write; done).
    unfold deploy_service, delete_service. by rewrite Hden.
  - intros p' Hdep Hr. unfold deploy_service in Hdep. destruct (denied (Some i) Write TService); [done|].
    destruct (sv_deploy _ _ _) as [[[]|e] p1] eqn:Ed; [|done]. injection Hdep as <-.
    unfold get_service. rewrite Hr. destruct (sv_get _ p1) as [[r|e] p2] eqn:Eg; [|by left].
    destruct (deploy_get _ _ _ _ _ _ Ed Eg) as (o & -> & Ho). right. by exists (service_view o).
Qed.

(** The registry view keeps the tokens secret: only an Admin (or anyone when
    authentication is off) sees it, and two registries that differ in nothing but
    the tokens' text answer the same. *)
Theorem registry_hides_tokens registry registry' identity :
  Forall2 (fun a b => ep_id a = ep_id b /\ ep_hostname a = ep_hostname b /\
    ep_api_base_url a = ep_api_base_url b /\ (is_Some (ep_auth_token a) <-> is_Some (ep_auth_token b)))
    registry registry' ->
  list_registry registry identity = list_registry registry' identity /\
  (forall i, Admin ∉ id_roles i -> list_registry registry (Some i) = RgForbidden).
Proof.
  intros HF. split.
  - unfold list_registry. destruct (denied _ _ _); [done|]. f_equal.
    induction HF as [|a b l l' (H1 & H2 & H3 & H4) _ IH]; [done|]. rewrite !fmap_cons. f_equal; [|done].
    unfold registry_entry. rewrite H1, H2, H3. f_equal. by apply bool_decide_ext.
  - intros i Hi. unfold list_registry. assert (denied (Some i) PAdmin TCluster = true) as ->; [|done].
    apply not_false_iff_true. by intros ?%denied_admin.
Qed.

Module ServiceRuns.
Definition chat : ServiceSpec := {|
  ss_name := "chat"; ss_project := "p"; ss_ray_version := "2.52"; ss_image := "img"; ss_serve_config_v2 := "";
  ss_head_cpu := "1"; ss_head_memory := "2Gi"; ss_worker_replicas := 1; ss_worker_cpu := "1";
  ss_worker_memory := "2Gi"; ss_upgrade := Canary |}.
Definition with_role (r : Role) : Identity := {|
  id_subject := "u"; id_username := None; id_email := None; id_groups := []; id_roles := [r]; id_project_roles := [] |}.
Definition before : Demo.DemoProvisioner := {| Demo.d_clusters := ∅; Demo.d_services := ∅ |}.
Definition body : DeployService := {| ds_name := "chat"; ds_spec := chat |}.
Definition after : Demo.DemoProvisioner := snd (deploy_service (Some (with_role Developer)) body before).

Lemma service_routes_spec_witness :
  exists v, fst (get_service (Some (with_role Viewer)) "chat" after) = SvView v /\ sw_name v = "chat"%string.
Proof.
  destruct (proj2 (@service_routes_spec Demo.DemoProvisioner demo_services demo_service_laws (with_role Developer) (Some (with_role Viewer)) body "chat" before)
    after ltac:(vm_compute; reflexivity) ltac:(vm_compute; reflexivity)) as [Hp|Hv]; [vm_compute in Hp; discriminate Hp|exact Hv].
Defined.

Definition other_token : ClusterEndpoint := {|
  ep_id := ep_id demo_endpoint; ep_hostname := ep_hostname demo_endpoint;
  ep_api_base_url := ep_api_base_url demo_endpoint; ep_auth_token := Some "other"%string; ep_auth_token_env := None |}.
Lemma registry_hides_tokens_witness :
  list_registry [demo_endpoint] None = list_registry [other_token] None /\
  list_registry [demo_endpoint] (Some (with_role Operator)) = RgForbidden.
Proof.
  destruct (registry_hides_tokens [demo_endpoint] [other_token] None
    ltac:(constructor; [split_and!; try reflexivity; split; intros _; by eexists|constructor])) as [He Hf].
  split; [exact He|]. apply Hf. apply (bool_decide_unpack _). vm_compute. exact I.
Defined.
End ServiceRuns.
