(* ===== verification/Routes.v ===== *)
(** * The control plane's routes (crates/mobula-api/src/lib.rs and the [router]
    functions of its modules)

    The table of routes as the source writes it, what is mounted under which
    options, how a request is matched and decoded, and the handler it reaches.
    [control_plane] is the [routes] of [Serve.handle]. *)

From S2P Require Import Prelude Float64 Core Quantity Policy Usage Store StoreFacts Json Provision Nodes Kube KubeRay Kueue.
From S2P Require Import Auth Oidc LocalAuth Registry Views Api AuthLayer AdminApi AccountApi AuditApi ApiLaws.
From S2P Require Import Http ObsApi ObsFacts JobHistory Gateway GatewayFacts Serve UsageApi ServiceApi.
#[local] Open Scope Z_scope.

(** ** Paths *)

Inductive Segment := Lit (s : string) | Param.

Definition segments (path : string) : list string := str_of <$> split_bytes "/" (bytes_of path).

(** The text of a route: [{id}] is a parameter. *)
Definition pattern (route : string) : list Segment :=
  (fun s => if starts_with "{" s then Param else Lit s) <$> segments route.

(** A parameter takes one segment, which is not empty. *)
Fixpoint captures (p : list Segment) (path : list string) : option (list string) :=
  match p, path with
  | [], [] => Some []
  | Lit s :: p', x :: path' => if String.eqb s x then captures p' path' else None
  | Param :: p', x :: path' =>
      if is_empty x then None else cons x <$> captures p' path'
  | _, _ => None
  end.

(** The query of a URI's path and query. *)
Fixpoint after_question (l : list ascii) : option (list ascii) :=
  match l with
  | [] => None
  | c :: l' => if Ascii.eqb c "?" then Some l' else after_question l'
  end.
Definition uri_query (req : GwRequest) : option string :=
  pq ← gr_path_and_query req; str_of <$> after_question (bytes_of pq).

(** ** Requests *)

Record CreateClusterBody := { cb_id : string; cb_spec : ClusterSpec }.
Record UpsertAssignmentBody := { ua_role : string; ua_scope : string }.
Record LoginRequest := { lb_username : string; lb_password : string }.
Record CreateTokenRequest := { tb_label : string; tb_expires_in_days : Z }.
Record CreateUserRequest := {
  ub_username : string; ub_email : option string; ub_password : string; ub_role : LocalRole }.
Record UpdateUserRequest := {
  uu_role : option LocalRole; uu_disabled : option bool; uu_password : option string }.
Record DeleteQuery := { dq_purge : bool }.
Record AuditVerifyQuery := { vq_from_seq : option Z; vq_limit : option Z }.
Record DeleteAssignmentQuery := { da_role : string; da_scope : string }.

(** What axum extracts from a request: a body or query of a type, or the status of
    the rejection; and a path parameter, which is percent-decoded. *)
Class FromRequest (A : Type) := from_request : GwRequest -> result Z A.
Class PathText := percent_decode : string -> option string.

(** A decoded request. *)
Inductive Call :=
| CHealthz | CVersion | CAuthz | CProviders | CRegistry
| CAccount (r : AccountRequest)
| CApi (r : ApiRequest)
| CUsage (q : UsageQuery) | CMetrics | CJobs
| CObs (id : string) (r : ObsRoute)
| CListServices | CGetService (name : string) | CDeployService (b : DeployService) | CDeleteService (name : string).

(** A handler's extractors: the captured segments and the request give the call, or
    the status of a rejection. *)
Abbreviation Extract := (list string -> GwRequest -> result Z Call).
Abbreviation MethodRouter := (list (option string * Extract)).

Definition get_ (h : Extract) : option string * Extract := (Some "GET"%string, h).
Definition post_ (h : Extract) : option string * Extract := (Some "POST"%string, h).
Definition put_ (h : Extract) : option string * Extract := (Some "PUT"%string, h).
Definition delete_ (h : Extract) : option string * Extract := (Some "DELETE"%string, h).
Definition any_ (h : Extract) : option string * Extract := (None, h).

Section table.
Context `{PathText} `{FromRequest CreateClusterBody} `{FromRequest DeleteQuery} `{FromRequest PoolSpec}
  `{FromRequest PutAllocation} `{FromRequest UpdatePolicy} `{FromRequest UpsertAssignmentBody}
  `{FromRequest DeleteAssignmentQuery} `{FromRequest AuditQuery} `{FromRequest AuditVerifyQuery}
  `{FromRequest UsageQuery} `{FromRequest LogsQuery} `{FromRequest LoginRequest} `{FromRequest CreateTokenRequest}
  `{FromRequest CreateUserRequest} `{FromRequest UpdateUserRequest} `{FromRequest DeployService} `{Http}.

(** *** Extractors *)

Definition fixed (c : Call) : Extract := fun _ _ => Ok c.
(** [Path<String>]; a parameter that is not UTF-8 is a 400. *)
Definition param (s : string) : result Z string := ok_or 400 (percent_decode s).
Definition path1 (f : string -> GwRequest -> result Z Call) : Extract := fun ps req =>
  match ps with [a] => x ← param a; f x req | _ => Err 500 end.
(** [Path<(String, String)>]. *)
Definition path2 (f : string -> string -> GwRequest -> result Z Call) : Extract := fun ps req =>
  match ps with [a; b] => x ← param a; y ← param b; f x y req | _ => Err 500 end.
(** [Json<A>] or [Query<A>], the last extractor. *)
Definition extract {A} `{FromRequest A} (f : A -> Call) (req : GwRequest) : result Z Call :=
  a ← from_request req; Ok (f a).
Definition done_ (c : Call) (_ : GwRequest) : result Z Call := Ok c.

Definition suspend_cluster : Extract := path1 (fun id => done_ (CApi (Lifecycle id CmdSuspend))).
Definition resume_cluster : Extract := path1 (fun id => done_ (CApi (Lifecycle id CmdResume))).

(** *** The routers *)

Definition base_router : list (string * MethodRouter) := [
  ("/healthz"%string, [get_ (fixed CHealthz)]);
  ("/api/v1/version"%string, [get_ (fixed CVersion)]);
  ("/api/v1/authz/check"%string, [any_ (fixed CAuthz)])].

Definition providers_router : list (string * MethodRouter) := [
  ("/api/v1/auth/providers"%string, [get_ (fixed CProviders)])].

Definition local_auth_router : list (string * MethodRouter) := [
  ("/api/v1/auth/login"%string,
    [post_ (fun _ => extract (fun b => CAccount (Login (lb_username b) (lb_password b))))]);
  ("/api/v1/auth/tokens"%string,
    [post_ (fun _ => extract (fun b => CAccount (CreateToken (tb_label b) (tb_expires_in_days b))));
     get_ (fixed (CAccount ListTokens))]);
  ("/api/v1/auth/tokens/{prefix}"%string, [delete_ (path1 (fun p => done_ (CAccount (RevokeToken p))))]);
  ("/api/v1/auth/logout"%string,
    [post_ (fun _ req => Ok (CAccount (Logout (bearer (auth_view req)))))]);
  ("/api/v1/auth/users"%string,
    [get_ (fixed (CAccount ListUsers));
     post_ (fun _ => extract (fun b =>
       CAccount (CreateUser (ub_username b) (ub_email b) (ub_password b) (ub_role b))))]);
  ("/api/v1/auth/users/{username}"%string,
    [put_ (path1 (fun u => extract (fun b =>
       CAccount (UpdateUser u (uu_role b) (uu_disabled b) (uu_password b)))))])].

Definition access_router (validator : option AuthConfig) : list (string * MethodRouter) := [
  ("/api/v1/identity"%string, [get_ (fixed (CApi WhoAmI))]);
  ("/api/v1/access/roles"%string, [get_ (fixed (CApi (ListRoles validator)))]);
  ("/api/v1/access/assignments"%string, [get_ (fixed (CApi ListAssignments))]);
  ("/api/v1/access/assignments/{principal}"%string,
    [put_ (path1 (fun p => extract (fun b => CApi (UpsertAssignment p (ua_role b) (ua_scope b)))));
     delete_ (path1 (fun p => extract (fun q => CApi (DeleteAssignment p (da_role q) (da_scope q)))))])].

Definition registry_router : list (string * MethodRouter) := [
  ("/api/v1/registry/clusters"%string, [get_ (fixed CRegistry)])].

Definition clusters_router : list (string * MethodRouter) := [
  ("/api/v1/clusters"%string,
    [get_ (fixed (CApi ListClusters));
     post_ (fun _ => extract (fun b => CApi (CreateCluster (cb_id b) (cb_spec b))))]);
  ("/api/v1/clusters/{id}"%string,
    [get_ (path1 (fun id => done_ (CApi (GetCluster id))));
     delete_ (path1 (fun id => extract (fun q => CApi (DeleteCluster id (dq_purge q)))))]);
  ("/api/v1/clusters/{id}/suspend"%string, [post_ suspend_cluster]);
  ("/api/v1/clusters/{id}/resume"%string, [post_ resume_cluster]);
  ("/api/v1/jobs"%string, [get_ (fixed CJobs)])].

Definition pools_router : list (string * MethodRouter) := [
  ("/api/v1/pools"%string,
    [get_ (fixed (CApi ListPools)); post_ (fun _ => extract (fun b => CApi (CreatePool b)))]);
  ("/api/v1/pools/{name}"%string,
    [get_ (path1 (fun n => done_ (CApi (GetPool n)))); delete_ (path1 (fun n => done_ (CApi (DeletePool n))))]);
  ("/api/v1/pools/{name}/usage"%string, [get_ (path1 (fun n => done_ (CApi (PoolUsage n))))]);
  ("/api/v1/pools/{name}/allocations"%string, [get_ (path1 (fun n => done_ (CApi (ListAllocations n))))]);
  ("/api/v1/pools/{name}/allocations/{project}"%string,
    [put_ (path2 (fun n p => extract (fun b => CApi (PutAllocationReq n p b))));
     delete_ (path2 (fun n p => done_ (CApi (DeleteAllocation n p))))])].

Definition usage_router : list (string * MethodRouter) := [
  ("/api/v1/usage"%string, [get_ (fun _ => extract CUsage)]);
  ("/api/v1/metrics"%string, [get_ (fixed CMetrics)])].

Definition settings_router : list (string * MethodRouter) := [
  ("/api/v1/settings/policy"%string,
    [get_ (fixed (CApi GetPolicy)); put_ (fun _ => extract (fun b => CApi (UpdatePolicyReq b)))])].

Definition obs_router : list (string * MethodRouter) := [
  ("/api/v1/clusters/{id}/nodes"%string, [get_ (path1 (fun id => done_ (CObs id RNodes)))]);
  ("/api/v1/clusters/{id}/jobs"%string, [get_ (path1 (fun id => done_ (CObs id RJobs)))]);
  ("/api/v1/clusters/{id}/events"%string, [get_ (path1 (fun id => done_ (CObs id REvents)))]);
  ("/api/v1/clusters/{id}/metrics"%string, [get_ (path1 (fun id => done_ (CObs id RMetrics)))]);
  ("/api/v1/clusters/{id}/logs"%string, [get_ (path1 (fun id => extract (fun q => CObs id (RLogs q))))])].

Definition audit_router : list (string * MethodRouter) := [
  ("/api/v1/audit"%string,
    [get_ (fun _ req => extract (fun q => CApi (ListAudit (gr_path req) (uri_query req) q)) req)]);
  ("/api/v1/audit/verify"%string,
    [get_ (fun _ req => extract (fun q =>
       CApi (VerifyAudit (gr_path req) (uri_query req) (vq_from_seq q) (vq_limit q))) req)])].

Definition services_router : list (string * MethodRouter) := [
  ("/api/v1/services"%string, [get_ (fixed CListServices); post_ (fun _ => extract CDeployService)]);
  ("/api/v1/services/{name}"%string,
    [get_ (path1 (fun n => done_ (CGetService n))); delete_ (path1 (fun n => done_ (CDeleteService n)))])].

(** What [build_app_full_svc_inner] mounts. *)
Definition route_table (opts : ServeOptions) : list (string * MethodRouter) :=
  let st := so_auth opts in
  base_router ++ providers_router
  ++ (if st_local st then local_auth_router else [])
  ++ access_router (st_validator st) ++ registry_router
  ++ (if st_store st then clusters_router ++ pools_router ++ usage_router ++ settings_router
                          ++ obs_router ++ audit_router else [])
  ++ (if so_services opts then services_router else []).

(** *** Matching *)

(** The documentation pages of the Swagger UI bundle. *)
Definition is_docs (path : string) : bool :=
  String.eqb path "/api/v1/openapi.json" || String.eqb path "/docs" || starts_with "/docs/" path.

Inductive Resolution :=
| Found (c : Call)
| FoundHead (c : Call) (* the answer's body is dropped *)
| DocsPage
| NotFound_ | MethodNotAllowed
| Bad (status : Z).

Fixpoint find_route (table : list (string * MethodRouter)) (path : list string)
  : option (list string * MethodRouter) :=
  match table with
  | [] => None
  | (route, methods) :: table' =>
      match captures (pattern route) path with
      | Some ps => Some (ps, methods)
      | None => find_route table' path
      end
  end.

Definition find_method (method : string) (methods : MethodRouter) : option Extract :=
  snd <$> find (fun m => match fst m with Some name => String.eqb name method | None => true end) methods.

Definition resolve (opts : ServeOptions) (req : GwRequest) : Resolution :=
  if is_docs (gr_path req) then DocsPage
  else
    match find_route (route_table opts) (segments (gr_path req)) with
    | None => NotFound_
    | Some (ps, methods) =>
        match find_method (gr_method req) methods with
        | Some h => match h ps req with Ok c => Found c | Err status => Bad status end
        | None =>
            match (if String.eqb (gr_method req) "HEAD" then find_method "GET" methods else None) with
            | Some h => match h ps req with Ok c => FoundHead c | Err status => Bad status end
            | None => MethodNotAllowed
            end
        end
    end.
End table.

(** ** Handlers *)

Definition healthz : Response := respond 200 (Text "ok").
Record VersionInfo := { vi_name : string; vi_version : string }.
Definition version (CARGO_PKG_VERSION : string) : VersionInfo := {|
  vi_name := "mobula"; vi_version := CARGO_PKG_VERSION |}.

Record OidcProviderInfo := { oi_issuer : string }.
Record ProvidersResponse := { pv_local : bool; pv_oidc : option OidcProviderInfo }.
Definition providers (st : AuthState) : ProvidersResponse := {|
  pv_local := st_local st;
  pv_oidc := (fun cfg => {| oi_issuer := ac_issuer cfg |}) <$> st_validator st |}.

Inductive RouteAnswer :=
| Plain (r : Response)
| UsageAnswer (r : UsageReport)
| MetricsPage (page : list ascii)
| JobList (l : list JobView)
| ObsAnswer (v : ObsView)
| ServicesAnswer (a : ServiceAnswer)
| RegistryView (a : RegistryAnswer)
| AuthzView (a : AuthzAnswer)
| ProvidersView (p : ProvidersResponse)
| VersionView (v : VersionInfo)
| Static (path : string)
| Rejection (status : Z)
| HeadOf (a : RouteAnswer)
| Panicked.

(** The backends the routes call: the cluster provisioner, the service provisioner,
    what was sent to dashboards and the permits of that. *)
Record Backends (P S : Type) := {
  bk_clusters : P; bk_services : S; bk_sent : list SouthRequest; bk_permits : Z }.
Arguments bk_clusters {P S} _.
Arguments bk_services {P S} _.
Arguments bk_sent {P S} _.
Arguments bk_permits {P S} _.
Arguments Build_Backends {P S} _ _ _ _.

Section routes.
Context `{AuditCodec} `{Jwt} `{Bcrypt} `{Http} `{HeaderValues} `{Network} `{JsonText} `{ObservationSerde} `{F64Text}.
Context {P S : Type} `{ObsBackend P} `{ServiceProvisioner S}.
Context (login_ttl_secs token_max_days : Z) (CARGO_PKG_VERSION : string).

Abbreviation RW := (AuthWorld * Backends P S)%type.
Abbreviation Serving := (RW -> RouteAnswer * RW).

(** A handler on the store; an early answer is its error. *)
Definition on_handler {A} (view : A -> RouteAnswer) (h : H A) : Serving := fun w =>
  let '(r, a) := h (aw_api w.1) in
  (match r with Ok x => view x | Err e => Plain e end, (set_aw_api a w.1, w.2)).
Definition on_accounts (h : ST LocalWorld Response Response) : Serving := fun w =>
  let '(r, l) := account_answer h (local_view w.1) in (Plain r, (set_local_view l w.1, w.2)).
Definition on_obs (h : ST (ObsWorld P) Response ObsView) : Serving := fun w =>
  let '(r, o) := h (Build_ObsWorld (aw_api w.1) (bk_clusters w.2) (bk_sent w.2) (bk_permits w.2)) in
  (match r with Ok v => ObsAnswer v | Err e => Plain e end,
   (set_aw_api (ow_api o) w.1, Build_Backends (ow_backend o) (bk_services w.2) (ow_sent o) (ow_permits o))).
Definition on_services (h : S -> ServiceAnswer * S) : Serving := fun w =>
  let '(a, s) := h (bk_services w.2) in
  (ServicesAnswer a, (w.1, Build_Backends (bk_clusters w.2) s (bk_sent w.2) (bk_permits w.2))).

(** The access routes of a deployment without a store: denials are not persisted,
    and there are no assignments. *)
Definition access_without_store (i : option Identity) (r : ApiRequest) : Response :=
  match r with
  | WhoAmI => fst (answer (identity_route i) {| api_store := empty_store; api_clock := fun _ => 0; api_reads := 0 |})
  | ListRoles cfg =>
      if denied i PAdmin TCluster then forbidden
      else fst (answer (list_roles cfg None) {| api_store := empty_store; api_clock := fun _ => 0; api_reads := 0 |})
  | _ =>
      if denied i PAdmin TCluster then forbidden
      else respond 503 (Text "role assignments require a configured store")
  end.

Definition run_call (opts : ServeOptions) (req : GwRequest) (i : option Identity) (c : Call) : Serving :=
  match c with
  | CHealthz => fun w => (Plain healthz, w)
  | CVersion => fun w => (VersionView (version CARGO_PKG_VERSION), w)
  | CAuthz => fun w =>
      let '(r, aw) := authz_check (so_auth opts) (auth_view req) w.1 in
      (match r with Ok a => AuthzView a | Err _ => Panicked end, (aw, w.2))
  | CProviders => fun w => (ProvidersView (providers (so_auth opts)), w)
  | CRegistry => fun w => (RegistryView (list_registry (st_registry (so_auth opts)) i), w)
  | CAccount r => on_accounts (account_route login_ttl_secs token_max_days i r)
  | CApi r =>
      if st_store (so_auth opts) then on_handler Plain (route (so_policy opts) i r)
      else fun w => (Plain (access_without_store i r), w)
  | CUsage q => on_handler UsageAnswer (usage_report (so_policy opts) i q)
  | CMetrics => on_handler MetricsPage (metrics i)
  | CJobs => on_handler JobList (list_jobs_route i)
  | CObs id r =>
      on_obs (serve_obs {| ost_registry := st_registry (so_auth opts); ost_provisioner := so_provisioner opts |}
                i id r)
  | CListServices => on_services (list_services i)
  | CGetService name => on_services (ServiceApi.get_service i name)
  | CDeployService b => on_services (deploy_service i b)
  | CDeleteService name => on_services (ServiceApi.delete_service i name)
  end.

Context `{PathText} `{FromRequest CreateClusterBody} `{FromRequest DeleteQuery} `{FromRequest PoolSpec}
  `{FromRequest PutAllocation} `{FromRequest UpdatePolicy} `{FromRequest UpsertAssignmentBody}
  `{FromRequest DeleteAssignmentQuery} `{FromRequest AuditQuery} `{FromRequest AuditVerifyQuery}
  `{FromRequest UsageQuery} `{FromRequest LogsQuery} `{FromRequest LoginRequest} `{FromRequest CreateTokenRequest}
  `{FromRequest CreateUserRequest} `{FromRequest UpdateUserRequest} `{FromRequest DeployService}.

Definition control_plane (opts : ServeOptions) (i : option Identity) (req : GwRequest) : Serving := fun w =>
  match resolve opts req with
  | Found c => run_call opts req i c w
  | FoundHead c => let '(a, w') := run_call opts req i c w in (HeadOf a, w')
  | DocsPage => (Static (gr_path req), w)
  | NotFound_ => (Plain (respond 404 (Text "not found")), w)
  | MethodNotAllowed => (Plain (respond 405 Empty), w)
  | Bad status => (Rejection status, w)
  end.
End routes.
