(* ===== verification/RoutesFacts.v ===== *)
(** * Who may change what

    The route table is unambiguous, only five of its routes are open to a caller
    without a token, and through the assembled server every part of the store is
    changed only by callers who may. *)

From S2P Require Import Prelude Float64 Core Quantity Policy Usage Store StoreFacts Json Provision Nodes Kube KubeRay Kueue.
From S2P Require Import Auth Oidc LocalAuth Registry Views Api AuthLayer AdminApi AccountApi AuditApi ApiFacts ApiLaws.
From S2P Require Import Http ObsApi ObsFacts JobHistory Gateway GatewayFacts Serve UsageApi ServiceApi Routes.
#[local] Open Scope Z_scope.

(** ** The table *)

(** Two patterns no path matches both of. *)
Fixpoint apart (p q : list Segment) : bool :=
  match p, q with
  | [], [] => false
  | [], _ :: _ | _ :: _, [] => true
  | Lit a :: p', Lit b :: q' => negb (String.eqb a b) || apart p' q'
  | _ :: p', _ :: q' => apart p' q'
  end.

Lemma apart_captures p q path ps :
  apart p q = true -> captures p path = Some ps -> captures q path = None.
Proof.
  revert q path ps. induction p as [|x p IH]; intros [|y q] [|s path] ps Hd Hc; try done;
    try (by destruct x); try (by destruct y).
  destruct x as [a|], y as [b|]; cbn in *.
  - destruct (String.eqb_spec a s) as [->|]; [|done]. destruct (String.eqb_spec b s) as [->|]; [|done].
    rewrite String.eqb_refl in Hd. by eapply IH.
  - destruct (String.eqb a s); [|done]. destruct (is_empty s); [done|]. erewrite IH; [done|done|exact Hc].
  - destruct (is_empty s); [done|]. apply fmap_Some in Hc as (ps' & Hc & _).
    destruct (String.eqb b s); [|done]. by eapply IH.
  - destruct (is_empty s); [done|]. apply fmap_Some in Hc as (ps' & Hc & _). by erewrite IH.
Qed.

Fixpoint pairwise_apart (l : list (list Segment)) : bool :=
  match l with [] => true | p :: l' => forallb (fun q => apart p q && apart q p) l' && pairwise_apart l' end.

Lemma find_route_unique table path route methods ps :
  pairwise_apart (pattern <$> table.*1) = true -> (route, methods) ∈ table ->
  captures (pattern route) path = Some ps -> find_route table path = Some (ps, methods).
Proof.
  induction table as [|[r m] table IH]; intros Hd Hin Hc; [by apply not_elem_of_nil in Hin|].
  cbn in Hd. apply andb_true_iff in Hd as [Hhead Htail]. cbn [find_route].
  apply elem_of_cons in Hin as [[= <- <-]|Hin]; [by rewrite Hc|].
  assert (captures (pattern r) path = None) as ->; [|by apply IH].
  rewrite forallb_forall in Hhead. assert (In (pattern route) (pattern <$> table.*1)) as Hp.
  { apply list_elem_of_In, list_elem_of_fmap. exists route. split; [done|].
    apply list_elem_of_fmap. by exists (route, methods). }
  apply Hhead, andb_true_iff in Hp as [_ Hp]. by eapply apart_captures.
Qed.

Section table.
Context `{PathText} `{FromRequest CreateClusterBody} `{FromRequest DeleteQuery} `{FromRequest PoolSpec}
  `{FromRequest PutAllocation} `{FromRequest UpdatePolicy} `{FromRequest UpsertAssignmentBody}
  `{FromRequest DeleteAssignmentQuery} `{FromRequest AuditQuery} `{FromRequest AuditVerifyQuery}
  `{FromRequest UsageQuery} `{FromRequest LogsQuery} `{FromRequest LoginRequest} `{FromRequest CreateTokenRequest}
  `{FromRequest CreateUserRequest} `{FromRequest UpdateUserRequest} `{FromRequest DeployService} `{Http}.

(** Whatever is mounted, a path matches at most one route, so the order of the
    table does not matter. *)
Lemma table_unambiguous opts : pairwise_apart (pattern <$> (route_table opts).*1) = true.
Proof.
  unfold route_table. cbv zeta. destruct (st_local _), (st_store _), (so_services _); vm_compute; reflexivity.
Qed.

(** What a caller without a token reaches. *)
Definition open_call (c : Call) : Prop :=
  match c with CHealthz | CVersion | CProviders | CAccount (Login _ _) => True | _ => False end.

Lemma public_paths path : is_public path = true ->
  is_docs path = true \/ path ∈ ["/healthz"; "/api/v1/version"; "/api/v1/auth/login"; "/api/v1/auth/providers"]%string.
Proof.
  unfold is_public, is_docs. rewrite !orb_true_iff, !String.eqb_eq, !elem_of_cons. tauto.
Qed.

Lemma resolve_found opts req c :
  resolve opts req = Found c \/ resolve opts req = FoundHead c ->
  exists ps methods h, find_route (route_table opts) (segments (gr_path req)) = Some (ps, methods) /\
    h ∈ methods.*2 /\ h ps req = Ok c.
Proof.
  assert (forall m methods h, find_method m methods = Some h -> h ∈ methods.*2) as Hin.
  { intros m methods h Hf. apply fmap_Some in Hf as ([n h'] & Hf%find_some & ->). destruct Hf as [Hf _].
    apply list_elem_of_fmap. exists (n, h'). split; [done|]. by apply list_elem_of_In. }
  unfold resolve. destruct (is_docs _); [by intros [|]|].
  destruct (find_route _ _) as [[ps methods]|]; [|by intros [|]].
  intros Hr. exists ps, methods. destruct (find_method (gr_method req) methods) as [h|] eqn:Em.
  - exists h. split_and!; [done|by eapply Hin|]. destruct (h ps req), Hr; congruence.
  - destruct (String.eqb _ "HEAD"); [|by destruct Hr].
    destruct (find_method "GET" methods) as [h|] eqn:Eg; [|by destruct Hr].
    exists h. split_and!; [done|by eapply Hin|]. destruct (h ps req), Hr; congruence.
Qed.

Lemma public_routes opts req c :
  is_public (gr_path req) = true -> resolve opts req = Found c \/ resolve opts req = FoundHead c -> open_call c.
Proof.
  intros Hp Hr. pose proof (resolve_found opts req c Hr) as (ps & methods & h & Hf & Hin & Hh).
  assert (is_docs (gr_path req) = false) as Hdocs.
  { unfold resolve in Hr. destruct (is_docs (gr_path req)); [by destruct Hr|done]. }
  apply public_paths in Hp as [?|Hp]; [congruence|]. rewrite !elem_of_cons, elem_of_nil in Hp.
  assert (match methods with
          | [(_, h)] => forall c, h ps req = Ok c -> open_call c
          | _ => False
          end) as Hopen.
  { unfold route_table in Hf. destruct Hp as [Hp|[Hp|[Hp|[Hp|[]]]]]; rewrite Hp in Hf;
      destruct (st_local _), (st_store _), (so_services _); try discriminate Hf;
      injection Hf as <- <-; intros c'; try (by intros [= <-]).
    all: unfold extract; destruct (from_request req); [by intros [= <-]|done]. }
  destruct methods as [|[n h'] [|]]; try done. cbn in Hin. apply list_elem_of_singleton in Hin as ->. by apply Hopen.
Qed.
End table.

(** ** What a call does to the store *)

(** Operations any route may perform: an audit row, the seeding of the policy. *)
Definition routine (seed : PolicyConfig) (op : store_op) : Prop :=
  match op with OpRecordAudit _ => True | OpSeedPolicy p => seed_from_config seed = Some p | _ => False end.
(** Of the middleware: an audit row, the last-used stamp of a token. *)
Definition stamping (op : store_op) : Prop :=
  match op with OpRecordAudit _ | OpTouchToken _ _ => True | _ => False end.

Definition call_licensed (seed : PolicyConfig) (s : InMemoryStore) (i : option Identity) (c : Call)
    (op : store_op) : Prop :=
  match c with
  | CApi r => licensed seed s i r op
  | CAccount r => account_licensed i r op
  | CAuthz => stamping op
  | _ => routine seed op
  end.

Section calls.
Context `{AuditCodec} `{JwtLaws} `{Bcrypt} `{HttpLaws} `{HeaderValues} `{Network} `{JsonText} `{ObservationSerde} `{F64Text}.
Context {P S : Type} `{ObsBackend P} `{ServiceProvisioner S}.
Context (login_ttl_secs token_max_days : Z) (CARGO_PKG_VERSION : string).

Abbreviation store_of := (fun w : AuthWorld => api_store (aw_api w)).

Lemma stamped_ops s s' : stamped s s' -> exists ops, Forall stamping ops /\ s' = run_ops ops s.
Proof.
  intros [->|(now & prefix & ->)]; [by exists []|]. exists [OpTouchToken prefix now]. by repeat constructor.
Qed.

(** *** Reports, jobs and the observability routes *)

Section reports.
Context (seed : PolicyConfig).
Abbreviation routineH m w := (within api_store (routine seed) m w).

Lemma routine_audit e : routine seed (OpRecordAudit e). Proof. done. Qed.
Lemma routine_seed p : seed_from_config seed = Some p -> routine seed (OpSeedPolicy p). Proof. done. Qed.
#[local] Hint Resolve within_read within_now within_load_policy within_authorize within_authorize_scoped routine_audit
  routine_seed : within.
Ltac follow :=
  try solve [eauto with within nocore];
  repeat (first [apply within_bind; [|intros ? ?] | progress cbn beta iota zeta | case_match];
          try solve [eauto with within nocore]).

Lemma budget_loop_routine p to l w : routineH (budget_loop p to l) w.
Proof. revert w. induction l as [|x l IH]; intros w; cbn [budget_loop]; follow. Qed.
#[local] Hint Resolve budget_loop_routine : within.
Lemma usage_report_routine i q w : routineH (usage_report seed i q) w.
Proof. unfold usage_report. follow. Qed.
Lemma metrics_routine i w : routineH (metrics i) w.
Proof. unfold metrics. follow. Qed.
Lemma jobs_routine i w : routineH (list_jobs_route i) w.
Proof. unfold list_jobs_route. follow. Qed.

Abbreviation routineO m w := (within (fun v : ObsWorld P => api_store (ow_api v)) (routine seed) m w).

Lemma on_store_routine {X} (m : H X) (w : ObsWorld P) : routineH m (ow_api w) -> routineO (on_store m) w.
Proof. intros (ops & Ho & Hs). exists ops. split; [done|]. unfold on_store. by destruct (m (ow_api w)). Qed.
Lemma ask_backend_routine {X} st (m : ST P ProvisionError (option X)) a b c w : routineO (ask_backend st m a b c) w.
Proof. apply within_same. unfold ask_backend. destruct (negb _); [done|]. by destruct (m (ow_backend w)). Qed.
Lemma dashboard_routine st id t w : routineO (dashboard_base st id t) w.
Proof. apply within_same. unfold dashboard_base. by repeat case_match. Qed.
Lemma bearer_routine t w : routineO (bearer_of t) w.
Proof. apply within_same. unfold bearer_of. by repeat case_match. Qed.
Lemma send_routine q w : routineO (send q) w.
Proof. by apply within_same. Qed.
Lemma with_permit_routine {X} (m : ST (ObsWorld P) Response X) w :
  (forall v, routineO m v) -> routineO (with_permit m) w.
Proof.
  intros Hm. unfold with_permit, within. destruct (Z.leb _ _); [by exists []|].
  destruct (Hm (Build_ObsWorld (ow_api w) (ow_backend w) (ow_sent w) (ow_permits w - 1))) as (ops & Ho & Hs).
  exists ops. split; [done|]. by destruct (m _).
Qed.
#[local] Hint Resolve on_store_routine ask_backend_routine dashboard_routine bearer_routine send_routine
  with_permit_routine within_read reads_cluster : within.

Lemma scope_routine st i id w : routineO (scope_for_read st i id) w.
Proof. unfold scope_for_read. follow. Qed.
Lemma deny_read_routine i t sc w : routineO (deny_read i t sc) w.
Proof. unfold deny_read. apply on_store_routine. destruct sc; eauto with within nocore. Qed.
Lemma read_jobs_routine b t w : routineO (read_jobs b t) w.
Proof. unfold read_jobs, unreachable. follow. Qed.
Lemma dashboard_json_routine u b w : routineO (fetch_dashboard_json u b) w.
Proof. unfold fetch_dashboard_json. follow. Qed.
#[local] Hint Resolve scope_routine deny_read_routine read_jobs_routine dashboard_json_routine : within.
Lemma read_metrics_routine id b t w : routineO (read_metrics id b t) w.
Proof. unfold read_metrics, unreachable. follow. Qed.
#[local] Hint Resolve read_metrics_routine : within.
Lemma serve_obs_routine st i id r w : routineO (serve_obs st i id r) w.
Proof.
  destruct r; cbn [serve_obs];
    unfold cluster_nodes, cluster_events, cluster_logs, cluster_metrics, cluster_jobs, deny_cluster_read; follow.
Qed.
End reports.

(** *** The check endpoint and the gate *)

Abbreviation stampingA m w := (within store_of stamping m w).

Lemma emit_now_stamps st ev w : stampingA (emit_now st ev) w.
Proof.
  unfold emit_now. apply within_bind; [by apply within_same|]. intros ts w1.
  destruct (st_store st); [|apply within_ret]. by eapply (within_op _ _ (OpRecordAudit (ev ts))).
Qed.
Lemma resolve_stamps st req token w : bearer req = Some token -> stampingA (resolve_identity st token) w.
Proof.
  intros Hb. destruct (resolve_identity_sound st req token w Hb) as (o & w1 & Ho & _ & Hs).
  apply stamped_ops in Hs as (ops & Hops & Hs). exists ops. by rewrite Ho.
Qed.
#[local] Hint Resolve emit_now_stamps resolve_stamps : within.
Ltac follow :=
  try solve [eauto with within nocore];
  repeat (first [apply within_bind; [|intros ? ?] | progress cbn beta iota zeta | case_match];
          try solve [eauto with within nocore]).
Lemma authz_check_stamps st req w : stampingA (authz_check st req) w.
Proof.
  unfold authz_check, deny_missing_token, deny_invalid_token, deny_permission. follow.
Qed.
Lemma emit_now_ok st ev w : exists w', emit_now st ev w = (Ok tt, w').
Proof. unfold emit_now, on_api. rewrite ST_bind_eq. cbn. destruct (st_store st); by eexists. Qed.
Lemma authz_check_ok st req w : exists a w', authz_check st req w = (Ok a, w').
Proof.
  assert (forall ev v (r : AuthzAnswer), exists w', ((_ ← emit_now st ev; mret r) : ST AuthWorld Panic AuthzAnswer) v = (Ok r, w'))
    as Hemit.
  { intros ev v r. rewrite ST_bind_eq. destruct (emit_now_ok st ev v) as (w' & ->). by eexists. }
  assert (forall ev v r, exists a w', ((r ← (_ ← emit_now st ev; mret r); mret (AuthzRefused r))
    : ST AuthWorld Panic AuthzAnswer) v = (Ok a, w')) as Hrefuse.
  { intros ev v r. rewrite !ST_bind_eq. destruct (emit_now_ok st ev v) as (w' & ->). by do 2 eexists. }
  unfold authz_check. destruct (auth_disabled st); [by do 2 eexists|]. cbv zeta.
  destruct (bearer req) as [token|] eqn:Hb; [|apply Hrefuse].
  destruct (resolve_identity_sound st req token w Hb) as (o & w1 & Ho & _). rewrite ST_bind_eq, Ho.
  destruct o as [i|]; [|apply Hrefuse]. destruct (permits i _ _); [|apply Hrefuse]. eexists. apply Hemit.
Qed.

(** *** Every call *)

Lemma run_call_licensed opts req i c (w : AuthWorld * Backends P S) :
  let '(a, w') := run_call login_ttl_secs token_max_days CARGO_PKG_VERSION opts req i c w in
  a <> Panicked /\
  exists ops, Forall (call_licensed (so_policy opts) (store_of w.1) i c) ops /\
    store_of w'.1 = run_ops ops (store_of w.1).
Proof.
  assert (forall A (view : A -> RouteAnswer) (h : H A) allowed, (forall x, view x <> Panicked) ->
    within api_store allowed h (aw_api w.1) ->
    let '(a, w') := on_handler (P := P) (S := S) view h w in
    a <> Panicked /\ exists ops, Forall allowed ops /\ store_of w'.1 = run_ops ops (store_of w.1)) as Hh.
  { intros A view h allowed Hv (ops & Ho & Hs). unfold on_handler. destruct (h (aw_api w.1)) as [[x|e] a];
      (split; [first [apply Hv|done]|by exists ops]). }
  destruct c; cbn [run_call call_licensed]; try (split; [done|by exists []]).
  - destruct (authz_check_ok (so_auth opts) (auth_view req) w.1) as (a & w' & Ha).
    destruct (authz_check_stamps (so_auth opts) (auth_view req) w.1) as (ops & Ho & Hs). rewrite Ha in *.
    split; [done|by exists ops].
  - unfold on_accounts, account_answer.
    destruct (account_route_licensed login_ttl_secs token_max_days i r (local_view w.1)) as (ops & Ho & Hs).
    destruct (account_route _ _ _ _ _) as [[x|x] l]; (split; [done|by exists ops]).
  - destruct (st_store (so_auth opts)); [|split; [done|by exists []]]. apply Hh; [done|apply route_licensed].
  - apply Hh; [done|apply usage_report_routine].
  - apply Hh; [done|apply metrics_routine].
  - apply Hh; [done|apply jobs_routine].
  - unfold on_obs. destruct (serve_obs_routine (so_policy opts)
      {| ost_registry := st_registry (so_auth opts); ost_provisioner := so_provisioner opts |} i id r
      (Build_ObsWorld (aw_api w.1) (bk_clusters w.2) (bk_sent w.2) (bk_permits w.2))) as (ops & Ho & Hs).
    destruct (serve_obs _ _ _ _ _) as [[v|e] o]; (split; [done|by exists ops]).
  - unfold on_services. destruct (list_services i _). split; [done|by exists []].
  - unfold on_services. destruct (ServiceApi.get_service i name _). split; [done|by exists []].
  - unfold on_services. destruct (deploy_service i b _). split; [done|by exists []].
  - unfold on_services. destruct (ServiceApi.delete_service i name _). split; [done|by exists []].
Qed.
End calls.

(** ** The parts of the store *)

Inductive Part := PClusters | PIntents | PQuarantine | PJobs | PPools | PAllocations | PUsage | PPolicy | PAudit
  | PAccounts | PLockouts | PTokens | PAssignments.

Definition part_of (op : store_op) : Part :=
  match op with
  | OpUpsertDesired _ _ _ | OpSetDesired _ _ _ | OpRemoveCluster _ | OpRecordObservation _ _ _
  | OpSetCondition _ _ | OpRecordAttempt _ _ _ => PClusters
  | OpBeginIntent _ _ _ | OpCompleteIntent _ _ _ | OpReapIntents _ => PIntents
  | OpSetQuarantine _ => PQuarantine
  | OpRecordJob _ => PJobs
  | OpUpsertPool _ _ _ | OpDeletePool _ | OpRecordPoolObservation _ _ _ => PPools
  | OpUpsertAllocation _ | OpDeleteAllocation _ _ => PAllocations
  | OpRecordUsage _ => PUsage
  | OpSetPolicy _ | OpSeedPolicy _ => PPolicy
  | OpRecordAudit _ => PAudit
  | OpCreateUser _ _ _ _ _ | OpSetPassword _ _ | OpSetRole _ _ | OpSetDisabled _ _ => PAccounts
  | OpLoginFailure _ _ | OpLoginSuccess _ => PLockouts
  | OpCreateToken _ | OpRevokeToken _ _ | OpTouchToken _ _ => PTokens
  | OpUpsertAssignment _ _ _ _ | OpDeleteAssignment _ _ _ => PAssignments
  end.

(** A user without the count of failed logins and the lock. *)
Definition account_of (u : LocalUserRecord) : string * option string * string * LocalRole * bool * Z :=
  (lu_username u, lu_email u, lu_password_hash u, lu_role u, lu_disabled u, lu_created_at u).
Definition accounts (s : InMemoryStore) := account_of <$> m_local_users s.

#[export] Instance part_eq_dec : EqDecision Part.
Proof. solve_decision. Defined.

Section parts.
Context `{AuditCodec}.

(** An operation changes its part only. *)
Lemma exec_parts op s :
  (part_of op <> PClusters -> m_clusters (exec op s) = m_clusters s) /\
  (part_of op <> PIntents -> m_intents (exec op s) = m_intents s) /\
  (part_of op <> PQuarantine -> m_quarantined (exec op s) = m_quarantined s) /\
  (part_of op <> PJobs -> m_jobs (exec op s) = m_jobs s) /\
  (part_of op <> PPools -> m_pools (exec op s) = m_pools s) /\
  (part_of op <> PAllocations -> m_allocations (exec op s) = m_allocations s) /\
  (part_of op <> PUsage -> m_usage (exec op s) = m_usage s) /\
  (part_of op <> PPolicy -> m_policy (exec op s) = m_policy s) /\
  (part_of op <> PAssignments -> m_assignments (exec op s) = m_assignments s).
Proof.
  destruct op; cbn [part_of exec];
    unfold upsert_desired, set_desired, remove_cluster, begin_intent, Store.delete_pool, delete_allocation,
      seed_policy, create_local_user, set_local_user_password, set_local_user_role,
      set_local_user_disabled, record_login_failure, record_login_success, get_local_user,
      set_login_lockout, modify_user, create_api_token, revoke_api_token, delete_role_assignment,
      record_audit; run_store; cbn; repeat case_match; split_and!; done.
Qed.

Lemma frame_clusters op s : part_of op <> PClusters -> m_clusters (exec op s) = m_clusters s.
Proof. apply exec_parts. Qed.
Lemma frame_intents op s : part_of op <> PIntents -> m_intents (exec op s) = m_intents s.
Proof. apply exec_parts. Qed.
Lemma frame_quarantine op s : part_of op <> PQuarantine -> m_quarantined (exec op s) = m_quarantined s.
Proof. apply exec_parts. Qed.
Lemma frame_jobs op s : part_of op <> PJobs -> m_jobs (exec op s) = m_jobs s.
Proof. apply exec_parts. Qed.
Lemma frame_pools op s : part_of op <> PPools -> m_pools (exec op s) = m_pools s.
Proof. apply exec_parts. Qed.
Lemma frame_allocations op s : part_of op <> PAllocations -> m_allocations (exec op s) = m_allocations s.
Proof. apply exec_parts. Qed.
Lemma frame_usage op s : part_of op <> PUsage -> m_usage (exec op s) = m_usage s.
Proof. apply exec_parts. Qed.
Lemma frame_policy op s : part_of op <> PPolicy -> m_policy (exec op s) = m_policy s.
Proof. apply exec_parts. Qed.
Lemma frame_assignments op s : part_of op <> PAssignments -> m_assignments (exec op s) = m_assignments s.
Proof. apply exec_parts. Qed.

Lemma exec_accounts op s : part_of op <> PAccounts -> accounts (exec op s) = accounts s.
Proof.
  destruct op; cbn [part_of exec]; intros Hp; try done;
    unfold upsert_desired, set_desired, remove_cluster, begin_intent, Store.delete_pool, delete_allocation,
      seed_policy, record_login_failure, record_login_success, get_local_user, set_login_lockout, modify_user,
      create_api_token, revoke_api_token, delete_role_assignment, record_audit, accounts; run_store; cbn;
    repeat case_match; try done.
  all: cbn; rewrite fmap_insert; apply insert_id; rewrite lookup_fmap;
    match goal with E : m_local_users _ !! _ = Some _ |- _ => by rewrite E end.
Qed.

Lemma run_ops_part {X} (f : InMemoryStore -> X) p ops s :
  (forall op s, part_of op <> p -> f (exec op s) = f s) ->
  Forall (fun op => part_of op <> p) ops -> f (run_ops ops s) = f s.
Proof.
  intros Hf Hops. revert s. induction Hops as [|op ops Hop _ IH]; intros s; [done|].
  change (f (run_ops ops (exec op s)) = f s). by rewrite IH, Hf.
Qed.
(** A part that changed was written. *)
Lemma part_changed {X} (f : InMemoryStore -> X) p ops s :
  (forall op s, part_of op <> p -> f (exec op s) = f s) ->
  f (run_ops ops s) <> f s -> exists op, op ∈ ops /\ part_of op = p.
Proof.
  intros Hf Hne. destruct (decide (Forall (fun op => part_of op <> p) ops)) as [Hall|Hex].
  { destruct Hne. by eapply run_ops_part. }
  apply not_Forall_Exists, Exists_exists in Hex as (op & Hin & Hop); [|solve_decision..].
  exists op. split; [done|]. by apply dec_stable.
Qed.
End parts.

(** ** Who the licence is given to *)

Lemma admin_only i a t :
  (a = PAdmin \/ t = TPool /\ (a = Write \/ a = PDelete)) -> permits i a t = true -> Admin ∈ id_roles i.
Proof.
  intros Hat Hp. apply existsb_exists in Hp as (r & Hr%list_elem_of_In & Hg).
  destruct r; try done; exfalso; destruct Hat as [->|[-> [->| ->]]]; try destruct t; discriminate Hg.
Qed.

(** The parts only administrators change. *)
Definition admin_part (p : Part) : Prop :=
  match p with PPools | PAllocations | PAccounts | PAssignments => True | _ => False end.

Lemma licensed_admin seed s i c op :
  call_licensed seed s (Some i) c op -> admin_part (part_of op) -> Admin ∈ id_roles i.
Proof.
  intros Hl Hp. destruct op; try done; destruct c as [| | | | |rq|rq| | | | | | | |]; try done;
    destruct rq; try done; cbn in Hl; destruct_and?;
    (eapply admin_only; [|done]); auto.
Qed.
Lemma licensed_policy seed s i c op :
  call_licensed seed s (Some i) c op -> part_of op = PPolicy ->
  (exists p, op = OpSeedPolicy p /\ seed_from_config seed = Some p) \/ Admin ∈ id_roles i.
Proof.
  intros Hl Hp. destruct op; try done; [|left; eexists; split; [done|]; destruct c as [| | | | |rq|rq| | | | | | | |]; done].
  right. destruct c as [| | | | |rq|rq| | | | | | | |]; try done; destruct rq; try done. cbn in Hl.
  eapply admin_only; [|done]. auto.
Qed.
Lemma licensed_clusters seed s i c op :
  call_licensed seed s i c op -> part_of op = PClusters -> exists r, c = CApi r.
Proof. intros Hl Hp. destruct op; try done; destruct c as [| | | | |rq|rq| | | | | | | |]; eauto; done. Qed.
(** No call of any caller writes these. *)
Lemma licensed_never seed s i c op :
  call_licensed seed s i c op -> part_of op ∉ [PIntents; PQuarantine; PJobs; PUsage].
Proof.
  intros Hl. rewrite !not_elem_of_cons. destruct op; cbn; split_and!; try done; try (by apply not_elem_of_nil);
    destruct c as [| | | | |rq|rq| | | | | | | |]; done.
Qed.
(** What the open routes do. *)
Lemma open_parts seed s i c op : open_call c -> call_licensed seed s i c op ->
  part_of op ∈ [PAudit; PLockouts; PTokens] \/ exists p, op = OpSeedPolicy p /\ seed_from_config seed = Some p.
Proof.
  intros Ho Hl. destruct c as [| | | | |rq|rq| | | | | | | |]; try done; [..|destruct rq; try done];
    destruct op; try done; first [left; set_solver | right; by eexists].
Qed.

(** ** The rows of clusters *)

Section rows.
Context `{AuditCodec}.

Lemma run_ops_keeps (Q : InMemoryStore -> Prop) (allowed : store_op -> Prop) ops s :
  (forall op s, allowed op -> Q s -> Q (exec op s)) -> Forall allowed ops -> Q s -> Q (run_ops ops s).
Proof.
  intros Hq Hops. revert s. induction Hops as [|op ops Hop _ IH]; intros s Hs; [done|].
  apply IH. by apply Hq.
Qed.

Definition cluster_row (id : string) (s : InMemoryStore) : option StoredCluster := m_clusters s !! id.

Lemma exec_row op s id :
  part_of op <> PClusters -> cluster_row id (exec op s) = cluster_row id s.
Proof. intros Hp. unfold cluster_row. by rewrite frame_clusters. Qed.
Lemma exec_upsert_row t id' spec s id :
  cluster_row id (exec (OpUpsertDesired t id' spec) s) = cluster_row id s \/
  id = id' /\ exists c, cluster_row id (exec (OpUpsertDesired t id' spec) s) = Some c /\ c_spec c = spec.
Proof.
  unfold cluster_row. cbn [exec]. unfold upsert_desired. run_store. cbn. destruct (decide (id = id')) as [->|Hne].
  - right. split; [done|]. eexists. rewrite lookup_insert_eq. split; [done|]. by destruct (m_clusters s !! id').
  - left. by rewrite lookup_insert_ne.
Qed.
Lemma exec_desired_row t id' d s id :
  cluster_row id (exec (OpSetDesired t id' d) s) = cluster_row id s \/ id = id' /\ is_Some (cluster_row id s).
Proof.
  unfold cluster_row. cbn [exec]. unfold set_desired. run_store.
  destruct (m_clusters s !! id') as [c|] eqn:E; [|by left]. cbn. destruct (decide (id = id')) as [->|Hne].
  - right. by rewrite E.
  - left. by rewrite lookup_insert_ne.
Qed.
Lemma exec_remove_row id' s id :
  cluster_row id (exec (OpRemoveCluster id') s) = cluster_row id s \/ id = id'.
Proof.
  unfold cluster_row. cbn [exec]. unfold remove_cluster. run_store. destruct (decide (id = id')) as [->|Hne]; [by right|].
  left. cbn. by rewrite lookup_delete_ne.
Qed.

Lemma owned_project i spec : cs_project (owned_spec i spec) = cs_project spec.
Proof. done. Qed.

Definition request_target (r : ApiRequest) : option string :=
  match r with CreateCluster id _ | DeleteCluster id _ | Lifecycle id _ => Some id | _ => None end.

(** One licensed operation on one row: it leaves the row, or the row is the
    request's, and then it is given the request's spec or was there before. *)
Lemma licensed_row seed s0 i r op s id :
  licensed seed s0 i r op ->
  cluster_row id (exec op s) = cluster_row id s \/
  request_target r = Some id /\
    match r with
    | CreateCluster _ spec => exists c, cluster_row id (exec op s) = Some c /\ c_spec c = owned_spec i spec
    | DeleteCluster _ _ => True
    | _ => is_Some (cluster_row id s)
    end.
Proof.
  intros Hl. destruct op; try (left; by apply exec_row); destruct r; try done; cbn in Hl; destruct_and!; subst.
  - destruct (exec_upsert_row now id1 (owned_spec i spec0) s id) as [?|(-> & ?)]; auto.
  - destruct (exec_desired_row now id1 DTerminated s id) as [?|(-> & ?)]; auto.
  - destruct (exec_desired_row now id1 (cmd_desired cmd) s id) as [?|(-> & ?)]; auto.
  - destruct (exec_remove_row id1 s id) as [?| ->]; auto.
Qed.

(** What else a changed row shows. *)
Lemma row_written seed s0 i r ops s id :
  Forall (licensed seed s0 i r) ops ->
  cluster_row id (run_ops ops s) = cluster_row id s \/
  request_target r = Some id /\
    match r with
    | CreateCluster _ spec => exists c, cluster_row id (run_ops ops s) = Some c /\ c_spec c = owned_spec i spec
    | DeleteCluster _ _ => True
    | _ => is_Some (cluster_row id s)
    end.
Proof.
  intros Hops. apply (run_ops_keeps (fun s' => cluster_row id s' = cluster_row id s \/
    request_target r = Some id /\
    match r with
    | CreateCluster _ spec => exists c, cluster_row id s' = Some c /\ c_spec c = owned_spec i spec
    | DeleteCluster _ _ => True
    | _ => is_Some (cluster_row id s)
    end) (licensed seed s0 i r)); [|done|by left].
  intros op s' Hl IH. destruct (licensed_row seed s0 i r op s' id Hl) as [Hsame|[Ht Hr]].
  - by rewrite Hsame.
  - destruct r; try done; cbn in *; [by right| by right|].
    destruct IH as [IH|[_ IH]]; right; (split; [done|]); [by rewrite <- IH|done].
Qed.
Lemma target_licensed seed s0 i r op id :
  licensed seed s0 i r op -> part_of op = PClusters -> request_target r = Some id ->
  match r with
  | CreateCluster _ spec => may_scoped s0 i Write TCluster (cs_project spec)
  | DeleteCluster _ _ => exists c, cluster_row id s0 = Some c /\ may_scoped s0 i Write TCluster (cs_project (c_spec c))
  | _ => may i Write TCluster
  end.
Proof. intros Hl Hp [=]. by destruct op; try done; destruct r; try done; cbn in *; destruct_and!; simplify_eq. Qed.

(** A row that a request changed is one its caller may write: in the project it had,
    or in the one it is given. *)
Lemma row_changed seed s0 i r ops s id :
  m_clusters s = m_clusters s0 -> Forall (licensed seed s0 (Some i) r) ops ->
  cluster_row id (run_ops ops s) <> cluster_row id s ->
  exists c, (cluster_row id s = Some c \/ cluster_row id (run_ops ops s) = Some c) /\
    may_scoped s0 (Some i) Write TCluster (cs_project (c_spec c)).
Proof.
  intros Hs Hops Hne. destruct (part_changed (cluster_row id) PClusters ops s) as (op & Hin & Hp);
    [intros; by apply exec_row|done|].
  assert (licensed seed s0 (Some i) r op) as Hl by (by eapply Forall_forall in Hops).
  destruct (row_written seed s0 (Some i) r ops s id Hops) as [?|[Ht Hr]]; [done|].
  pose proof (target_licensed _ _ _ _ _ _ Hl Hp Ht) as Hmay. destruct r; try done.
  - destruct Hr as (c & Hc & Hspec). exists c. split; [by right|]. by rewrite Hspec, owned_project.
  - destruct Hmay as (c & Hc & Hmay). exists c. split; [|done]. left. unfold cluster_row in *. by rewrite Hs.
  - destruct Hr as [c Hc]. exists c. split; [by left|]. by left.
Qed.
End rows.

(** ** The assembled server *)

Lemma effective_same s s' i :
  m_assignments s' = m_assignments s -> effective_assignments (Some s') i = effective_assignments (Some s) i.
Proof.
  intros Ha. unfold effective_assignments, for_identity, assignments_for, list_role_assignments, st_get. cbn.
  by rewrite Ha.
Qed.

Section guard.
Context `{AuditCodec} `{JwtLaws} `{Bcrypt} `{HttpLaws} `{HeaderValues} `{Network} `{JsonText} `{WsClient}.
Context `{ObservationSerde} `{F64Text} {P S : Type} `{ObsBackend P} `{ServiceProvisioner S}.
Context `{PathText} `{FromRequest CreateClusterBody} `{FromRequest DeleteQuery} `{FromRequest PoolSpec}
  `{FromRequest PutAllocation} `{FromRequest UpdatePolicy} `{FromRequest UpsertAssignmentBody}
  `{FromRequest DeleteAssignmentQuery} `{FromRequest AuditQuery} `{FromRequest AuditVerifyQuery}
  `{FromRequest UsageQuery} `{FromRequest LogsQuery} `{FromRequest LoginRequest} `{FromRequest CreateTokenRequest}
  `{FromRequest CreateUserRequest} `{FromRequest UpdateUserRequest} `{FromRequest DeployService}.
Context (ttl max_days : Z) (pkg_version : string).

Abbreviation store_at w := (api_store (aw_api w)).
Abbreviation served := (control_plane (P := P) (S := S) ttl max_days pkg_version).

(** A caller: a bearer that proves an identity. *)
Definition caller (st : AuthState) (req : GwRequest) (w : AuthWorld) (i : Identity) : Prop :=
  exists token, bearer (auth_view req) = Some token /\ proves st token w i.

Lemma gate_stamps st req w :
  exists verdict w1 ops, gate st req w = (Ok verdict, w1) /\ Forall stamping ops /\
    store_at w1 = run_ops ops (store_at w) /\
    match verdict with
    | inl r => rs_status r = 401 \/ rs_status r = 403
    | inr who => passed st req w w1 who
    end.
Proof.
  destruct (gate_sound st req w) as (verdict & w1 & Hg & Hv). exists verdict, w1. destruct verdict as [r|who].
  - destruct Hv as (Hst & event & s1 & _ & _ & _ & _ & Hs & Hw). apply stamped_ops in Hs as (ops & Ho & ->).
    destruct (st_store st); [exists (ops ++ [OpRecordAudit event])|exists ops]; split_and!; try done.
    + apply Forall_app. by repeat constructor.
    + by rewrite run_ops_app.
  - assert (stamped (store_at w) (store_at w1)) as (ops & Ho & Hs)%stamped_ops; [|by exists ops].
    destruct who as [i|]; [by destruct Hv as (? & _ & _ & _ & ?)|by destruct Hv as [-> _]; left].
Qed.

Lemma control_plane_licensed opts who req w :
  exists c ops, Forall (call_licensed (so_policy opts) (store_at w.1) who c) ops /\
    store_at (snd (served opts who req w)).1 = run_ops ops (store_at w.1) /\
    (ops = [] \/ resolve opts req = Found c \/ resolve opts req = FoundHead c).
Proof.
  unfold control_plane. destruct (resolve opts req) as [c|c| | | |]; try (exists CHealthz, []; by auto).
  - pose proof (run_call_licensed ttl max_days pkg_version opts req who c w) as Hc.
    destruct (run_call _ _ _ _ _ _ _ _) as [a w']. destruct Hc as (_ & ops & Ho & Hs). exists c, ops. auto.
  - pose proof (run_call_licensed ttl max_days pkg_version opts req who c w) as Hc.
    destruct (run_call _ _ _ _ _ _ _ _) as [a w']. destruct Hc as (_ & ops & Ho & Hs). exists c, ops. auto.
Qed.

(** What the answer to a request for the control plane rests on. *)
Lemma handle_effect opts peer req (w : StackWorld (Backends P S)) :
  auth_disabled (so_auth opts) = false -> cluster_for (gateway_of opts) req = None ->
  exists a w', handle opts (served opts) peer req w = (Ok a, w') /\ sk_sent w' = sk_sent w /\
  exists s1 gate_ops, Forall stamping gate_ops /\ s1 = run_ops gate_ops (store_at (sk_auth w)) /\
    (store_at (sk_auth w') = s1 /\ (exists r, a = Layer r /\ (rs_status r = 401 \/ rs_status r = 403)) \/
     exists who c ops, store_at (sk_auth w') = run_ops ops s1 /\
       Forall (call_licensed (so_policy opts) s1 who c) ops /\
       match who with
       | Some i => caller (so_auth opts) req (sk_auth w) i
       | None => is_public (gr_path req) = true /\ (ops = [] \/ open_call c)
       end).
Proof.
  intros Hon Hhost. unfold handle, fail_closed. rewrite Hon. cbn [andb].
  destruct (gate_stamps (so_auth opts) (auth_view req) (sk_auth w)) as (verdict & aw & gops & -> & Hg & Hs1 & Hv).
  cbv zeta. destruct verdict as [r|who].
  { do 2 eexists. split; [done|]. split; [done|]. exists (store_at aw), gops. split_and!; [done|done|].
    left. split; [done|]. by exists r. }
  pose proof (host_gateway_cases gw_part put_gw (gateway_of opts) who (run_routes (served opts) who req) req
    (set_sk_auth aw w)) as Hr.
  destruct (host_gateway _ _ _ _ _ _ _) as [a w2]. rewrite Hhost in Hr. destruct a as [y|b]; [|done].
  unfold run_routes in Hr. cbn [set_sk_auth sk_auth sk_rest sk_sent sk_permits] in Hr.
  destruct (control_plane_licensed opts who req (aw, sk_rest w)) as (c & ops & Ho & Hs & Hc).
  destruct (served opts who req (aw, sk_rest w)) as [y' [aw' x]]. injection Hr as <- <-. cbn in Hs.
  do 2 eexists. split; [done|]. split; [done|]. exists (store_at aw), gops. split_and!; [done|done|]. right.
  exists who, c, ops. split_and!; [done|done|]. destruct who as [i|].
  - destruct Hv as (token & Hb & Hp & _). by exists token.
  - destruct Hv as [_ [?|[_ Hpub]]]; [congruence|]. split; [done|].
    destruct Hc as [?|Hc]; [by left|right]. exact (public_routes opts req c Hpub Hc).
Qed.

(** *** Part by part *)

Lemma stamping_part {X} (f : InMemoryStore -> X) p ops s :
  p <> PAudit -> p <> PTokens -> (forall op s, part_of op <> p -> f (exec op s) = f s) ->
  Forall stamping ops -> f (run_ops ops s) = f s.
Proof.
  intros Ha Ht Hf Hops. apply (run_ops_part f p); [done|]. eapply Forall_impl; [exact Hops|].
  intros op Hop. destruct op; done || (cbn; congruence).
Qed.

Lemma open_untouched {X} (f : InMemoryStore -> X) p seed s1 who c ops s :
  p ∉ [PAudit; PLockouts; PTokens; PPolicy] -> (forall op s, part_of op <> p -> f (exec op s) = f s) ->
  ops = [] \/ open_call c -> Forall (call_licensed seed s1 who c) ops -> f (run_ops ops s) = f s.
Proof.
  intros Hp Hf [->|Ho] Hops; [done|]. apply (run_ops_part f p); [done|]. eapply Forall_impl; [exact Hops|].
  intros op Hl <-. destruct (open_parts _ _ _ _ _ Ho Hl) as [Hin|(q & -> & _)]; set_solver.
Qed.

(** Only seeded, and only when there was none. *)
Definition seeds_only (seed : PolicyConfig) (op : store_op) : Prop :=
  part_of op <> PPolicy \/ exists p, op = OpSeedPolicy p /\ seed_from_config seed = Some p.
Lemma seeded_policy seed ops s :
  Forall (seeds_only seed) ops ->
  m_policy (run_ops ops s) = m_policy s \/ m_policy s = None /\ m_policy (run_ops ops s) = seed_from_config seed.
Proof.
  intros Hops. apply (run_ops_keeps (fun s' => m_policy s' = m_policy s \/
    m_policy s = None /\ m_policy s' = seed_from_config seed) (seeds_only seed)); [|done|by left].
  intros op s' [Hne|(p & -> & Hp)] IH.
  - by rewrite frame_policy.
  - cbn [exec]. unfold seed_policy. run_store. destruct (m_policy s') eqn:E; cbn; [by rewrite E|].
    right. destruct IH as [IH|[_ IH]]; [|congruence]. by split; [congruence|].
Qed.

Lemma policy_writer seed s1 i c ops :
  Forall (call_licensed seed s1 (Some i) c) ops -> Forall (seeds_only seed) ops \/ Admin ∈ id_roles i.
Proof.
  induction 1 as [|op ops Hl _ [IH|IH]]; [by left; constructor| |by right].
  destruct (decide (part_of op = PPolicy)) as [Hp|Hp]; [|left; constructor; [by left|done]].
  destruct (licensed_policy _ _ _ _ _ Hl Hp) as [Hs|Ha]; [|by right]. left. constructor; [by right|done].
Qed.

(** What [handle_effect] leaves between the stores before, after the gate and after. *)
Definition effect_of (opts : ServeOptions) (req : GwRequest) (w : AuthWorld) (s s1 s' : InMemoryStore) : Prop :=
  (exists gops, Forall stamping gops /\ s1 = run_ops gops s) /\
  (s' = s1 \/ exists who c ops, s' = run_ops ops s1 /\ Forall (call_licensed (so_policy opts) s1 who c) ops /\
     match who with
     | Some i => caller (so_auth opts) req w i
     | None => ops = [] \/ open_call c
     end).

Lemma gate_part {X} (f : InMemoryStore -> X) p opts req w s s1 s' :
  effect_of opts req w s s1 s' -> p <> PAudit -> p <> PTokens ->
  (forall op s, part_of op <> p -> f (exec op s) = f s) -> f s1 = f s.
Proof. intros [(gops & Hg & ->) _] ? ? ?. by eapply stamping_part. Qed.

(** A part that changed was changed by a licensed operation of some caller. *)
Lemma part_writer {X} (f : InMemoryStore -> X) p opts req w s s1 s' :
  effect_of opts req w s s1 s' -> p ∉ [PAudit; PLockouts; PTokens; PPolicy] ->
  (forall op s, part_of op <> p -> f (exec op s) = f s) -> f s' <> f s ->
  exists i c ops op, caller (so_auth opts) req w i /\ s' = run_ops ops s1 /\
    Forall (call_licensed (so_policy opts) s1 (Some i) c) ops /\ op ∈ ops /\ part_of op = p.
Proof.
  intros He Hp Hf Hne. assert (f s1 = f s) as Hs by (eapply (gate_part f p); [done| | |done]; set_solver).
  rewrite <- Hs in Hne. destruct He as [_ [->|(who & c & ops & -> & Hl & Hwho)]]; [done|]. destruct who as [i|].
  - destruct (part_changed f p ops s1 Hf Hne) as (op & Hin & Hop). by exists i, c, ops, op.
  - destruct Hne. by eapply open_untouched.
Qed.

Lemma admin_writer {X} (f : InMemoryStore -> X) p opts req w s s1 s' :
  effect_of opts req w s s1 s' -> admin_part p ->
  (forall op s, part_of op <> p -> f (exec op s) = f s) -> f s' <> f s ->
  exists i, caller (so_auth opts) req w i /\ Admin ∈ id_roles i.
Proof.
  intros He Hp Hf Hne. destruct (part_writer f p opts req w s s1 s' He) as (i & c & ops & op & Hi & _ & Hl & Hin & Hop);
    [by destruct p; try done; set_solver|done|done|].
  exists i. split; [done|]. eapply licensed_admin; [by eapply Forall_forall in Hl|by rewrite Hop].
Qed.
Lemma never_written {X} (f : InMemoryStore -> X) p opts req w s s1 s' :
  effect_of opts req w s s1 s' -> p ∈ [PIntents; PQuarantine; PJobs; PUsage] ->
  (forall op s, part_of op <> p -> f (exec op s) = f s) -> f s' = f s.
Proof.
  intros He Hp Hf. transitivity (f s1); [|eapply (gate_part f p); [done| | |done]; set_solver].
  destruct He as [_ [->|(who & c & ops & -> & Hl & _)]]; [done|]. apply (run_ops_part f p); [done|].
  eapply Forall_impl; [exact Hl|]. intros op Hop <-. by eapply licensed_never.
Qed.

Lemma cluster_writer opts req w s s1 s' id :
  effect_of opts req w s s1 s' -> m_clusters s' !! id <> m_clusters s !! id ->
  exists i c, caller (so_auth opts) req w i /\ (m_clusters s !! id = Some c \/ m_clusters s' !! id = Some c) /\
    may_scoped s (Some i) Write TCluster (cs_project (c_spec c)).
Proof.
  intros He Hne. assert (m_clusters s1 = m_clusters s) as Hs by (eapply (gate_part m_clusters PClusters); [done..|apply frame_clusters]).
  assert (m_assignments s1 = m_assignments s) as Ha by (eapply (gate_part m_assignments PAssignments); [done..|apply frame_assignments]).
  destruct (part_writer (cluster_row id) PClusters opts req w s s1 s' He) as (i & c & ops & op & Hi & -> & Hl & Hin & Hop);
    [set_solver|intros; by apply exec_row|done|].
  assert (call_licensed (so_policy opts) s1 (Some i) c op) as Hlop by (by eapply Forall_forall in Hl).
  destruct (licensed_clusters _ _ _ _ _ Hlop Hop) as [r ->].
  destruct (row_changed (so_policy opts) s1 i r ops s1 id eq_refl Hl) as (row & Hrow & Hmay).
  { unfold cluster_row. by rewrite Hs. }
  exists i, row. split; [done|]. unfold cluster_row in Hrow. rewrite Hs in Hrow. split; [done|].
  cbn [may_scoped] in *. by rewrite (effective_same s s1) in Hmay.
Qed.

Lemma policy_change opts req w s s1 s' :
  effect_of opts req w s s1 s' -> m_policy s' <> m_policy s ->
  (exists i, caller (so_auth opts) req w i /\ Admin ∈ id_roles i) \/
  m_policy s = None /\ m_policy s' = seed_from_config (so_policy opts).
Proof.
  intros He Hne. assert (m_policy s1 = m_policy s) as Hs by (eapply (gate_part m_policy PPolicy); [done..|apply frame_policy]).
  rewrite <- Hs in *. destruct He as [_ [->|(who & c & ops & -> & Hl & Hwho)]]; [done|].
  assert (Forall (seeds_only (so_policy opts)) ops \/ exists i, caller (so_auth opts) req w i /\ Admin ∈ id_roles i)
    as [Hseeds|?]; [|by destruct (seeded_policy _ _ s1 Hseeds); [|right]|by left].
  destruct who as [i|].
  - destruct (policy_writer _ _ _ _ _ Hl); [by left|right]. by exists i.
  - left. destruct Hwho as [->|Ho]; [constructor|]. eapply Forall_impl; [exact Hl|]. intros op Hop.
    destruct (open_parts _ _ _ _ _ Ho Hop) as [Hin|?]; [|by right].
    left. intros Heq. rewrite Heq in Hin. set_solver.
Qed.

End guard.

(** ** A concrete deployment *)

Module GuardRuns.
#[local] Instance guard_codec : AuditCodec := {| sha256_hex := fun s => s; audit_json := fun _ => EmptyString |}.
#[local] Existing Instance demo_jwt.
#[local] Existing Instance demo_jwt_laws.
#[local] Existing Instance plain_bcrypt.
#[local] Existing Instance demo_http.
#[local] Existing Instance demo_http_laws.
#[local] Existing Instance StackRuns.stack_values.
#[local] Existing Instance StackRuns.stack_text.
#[local] Existing Instance StackRuns.stack_net.
#[local] Existing Instance StackRuns.stack_ws.
#[local] Instance no_observations : ObservationSerde := fun _ => None.
#[local] Instance no_digits : F64Text := fun _ => [].
#[local] Instance no_backend : ObsBackend unit := {|
  ob_nodes := fun _ => mret None; ob_events := fun _ => mret None; ob_logs := fun _ _ _ => mret None;
  ob_dashboard := fun _ _ => None |}.
#[local] Instance plain_paths : PathText := Some.
(** Every body is the demo cluster's; other types are rejected. *)
#[local] Instance demo_body : FromRequest CreateClusterBody := fun _ => Ok {| cb_id := "c1"; cb_spec := demo_spec |}.
#[local] Instance no_body {A} : FromRequest A | 10 := fun _ => Err 422.

(** The demo user is a developer, and an operator of one project. *)
Definition scope : string := "project:" +:+ cs_project demo_spec.
Definition guard_store : InMemoryStore := snd (upsert_role_assignment 5 "u-1" "operator" scope empty_store).
Definition before : StackWorld (Backends unit Demo.DemoProvisioner) := {|
  sk_auth := set_aw_api {| api_store := guard_store; api_clock := fun n => 1000 + Z.of_nat n; api_reads := 0 |}
               demo_auth_world;
  sk_sent := []; sk_permits := 64; sk_rest := Build_Backends tt Demo.new [] 16 |}.
Definition request (method path authorization : string) : GwRequest := {|
  gr_method := method; gr_path := path; gr_path_and_query := Some path;
  gr_headers := [("host"%string, bytes_of "mobula.example.com");
                 ("authorization"%string, bytes_of authorization)];
  gr_body := [] |}.
Definition run (req : GwRequest) :=
  handle StackRuns.opts (control_plane 3600 90 "0.0.1" StackRuns.opts) None req before.
Definition creation : GwRequest := request "POST" "/api/v1/clusters" "Bearer g.o.d".
Definition after : InMemoryStore := api_store (aw_api (sk_auth (run creation).2)).


(** A stranger's creation is refused at the gate; a path of the table with another
    method is a 405, a trailing slash a 404. *)
Example stranger_creates_nothing :
  fst (run (request "POST" "/api/v1/clusters" "Bearer nobody")) = Ok (Layer (respond 401 (Text "invalid token"))).
Proof. vm_compute. reflexivity. Qed.
Example wrong_method : fst (run (request "PATCH" "/api/v1/clusters" "Bearer g.o.d")) = Ok (Routed (Plain (respond 405 Empty))).
Proof. vm_compute. reflexivity. Qed.
Example trailing_slash :
  fst (run (request "GET" "/api/v1/clusters/" "Bearer g.o.d")) = Ok (Routed (Plain (respond 404 (Text "not found")))).
Proof. vm_compute. reflexivity. Qed.
(** A body is decoded before the caller is judged: a developer, who may not create
    pools, is told that the body is wrong. *)
Example rejected_before_judged : fst (run (request "POST" "/api/v1/pools" "Bearer g.o.d")) = Ok (Routed (Rejection 422)).
Proof. vm_compute. reflexivity. Qed.
End GuardRuns.
