(* ===== verification/Flows.v ===== *)
(** * OAuth flows of the identity provider (mobula-auth/src/flows.rs and
    [discover_metadata] of lib.rs)

    One request per flow, decoded the way serde decodes the structs. The provider
    answers as a function of what was sent; the client follows redirects, so an
    answer is the final one, and [None] is a transport error. *)

From S2P Require Import Prelude Float64 Core Json Auth Oidc Registry AuthLayer Http.
#[local] Open Scope Z_scope.

(** ** Requests *)

Record WebRequest := {
  wq_method : string;
  wq_url : string;
  wq_bearer : option string;
  wq_form : list (string * string);
  wq_json : option Value;
}.
(** [ws_json]: the body as JSON, when it is read whole and parses. *)
Record WebResponse := { ws_status : Z; ws_json : option Value }.
Class Web := web_answer : list WebRequest -> WebRequest -> option WebResponse.

Definition web_get (url : string) : WebRequest := {|
  wq_method := "GET"; wq_url := url; wq_bearer := None; wq_form := []; wq_json := None |}.
Definition web_form (url : string) (form : list (string * string)) : WebRequest := {|
  wq_method := "POST"; wq_url := url; wq_bearer := None; wq_form := form; wq_json := None |}.

(** ** Deserialisation *)

Definition str_field (key : string) (v : Value) : option string := json_get key v ≫= as_str.
(** An [Option] field with [serde(default)]: absent and null are [None]. *)
Definition opt_field {A} (read : Value -> option A) (key : string) (v : Value) : option (option A) :=
  match json_get key v with
  | None | Some JNull => Some None
  | Some x => Some <$> read x
  end.

Record Metadata := {
  md_issuer : option string;
  md_jwks_uri : string;
  md_token_endpoint : option string;
  md_device_authorization_endpoint : option string;
}.
Definition metadata_of (v : Value) : option Metadata :=
  issuer ← opt_field as_str "issuer" v;
  jwks_uri ← str_field "jwks_uri" v;
  token_endpoint ← opt_field as_str "token_endpoint" v;
  device ← opt_field as_str "device_authorization_endpoint" v;
  Some {| md_issuer := issuer; md_jwks_uri := jwks_uri; md_token_endpoint := token_endpoint;
          md_device_authorization_endpoint := device |}.

Record DeviceAuthorization := {
  da_device_code : string;
  da_user_code : string;
  da_verification_uri : string;
  da_verification_uri_complete : option string;
  da_expires_in : Z;
  da_interval : Z;
}.
Definition default_interval : Z := 5.
Definition device_of (v : Value) : option DeviceAuthorization :=
  device_code ← str_field "device_code" v;
  user_code ← str_field "user_code" v;
  uri ← str_field "verification_uri" v;
  complete ← opt_field as_str "verification_uri_complete" v;
  expires_in ← json_get "expires_in" v ≫= as_u64;
  interval ← (match json_get "interval" v with None => Some default_interval | Some x => as_u64 x end);
  Some {| da_device_code := device_code; da_user_code := user_code; da_verification_uri := uri;
          da_verification_uri_complete := complete; da_expires_in := expires_in; da_interval := interval |}.

Record TokenResponse := {
  tr_access_token : string;
  tr_expires_in : option Z;
  tr_refresh_token : option string;
  tr_token_type : option string;
}.
Definition token_of (v : Value) : option TokenResponse :=
  access_token ← str_field "access_token" v;
  expires_in ← opt_field as_u64 "expires_in" v;
  refresh_token ← opt_field as_str "refresh_token" v;
  token_type ← opt_field as_str "token_type" v;
  Some {| tr_access_token := access_token; tr_expires_in := expires_in;
          tr_refresh_token := refresh_token; tr_token_type := token_type |}.

Record TokenError := { te_error : string; te_error_description : option string }.
Definition error_of (v : Value) : option TokenError :=
  error ← str_field "error" v;
  description ← opt_field as_str "error_description" v;
  Some {| te_error := error; te_error_description := description |}.

(** The text of a client error is the library's. *)
Inductive FlowError := Transport | Grant (text : string).

Definition grant_error (e : TokenError) : FlowError :=
  Grant (te_error e +:+ ": " +:+ default EmptyString (te_error_description e)).

(** ** The flows *)

Section flows.
Context `{Web}.

Abbreviation F := (ST (list WebRequest) FlowError).

Definition web_send (q : WebRequest) : F (option WebResponse) := fun sent => (Ok (web_answer sent q), sent ++ [q]).

Definition or_transport {A} (o : option A) : F A :=
  match o with Some x => mret x | None => st_err Transport end.

(** [error_for_status] refuses 4xx and 5xx. *)
Definition error_for_status (r : WebResponse) : option WebResponse :=
  if Z.leb 400 (ws_status r) && Z.ltb (ws_status r) 600 then None else Some r.

Definition discover_metadata (issuer : string) : F Metadata :=
  r ← web_send (web_get (trim_end_slashes issuer +:+ "/.well-known/openid-configuration"));
  r ← or_transport (r ≫= error_for_status);
  or_transport (ws_json r ≫= metadata_of).

Definition device_authorize (endpoint client_id scope : string) : F DeviceAuthorization :=
  r ← web_send (web_form endpoint [("client_id", client_id); ("scope", scope)]%string);
  r ← or_transport (r ≫= error_for_status);
  or_transport (ws_json r ≫= device_of).

Inductive DevicePoll := Pending (slow_down : bool) | Ready (t : TokenResponse).

Definition poll_form (client_id device_code : string) : list (string * string) :=
  [("grant_type", "urn:ietf:params:oauth:grant-type:device_code"); ("device_code", device_code);
   ("client_id", client_id)]%string.

Definition poll_device_token (token_endpoint client_id device_code : string) : F DevicePoll :=
  res ← web_send (web_form token_endpoint (poll_form client_id device_code));
  match res with
  | None => mret (Pending false)
  | Some r =>
      if is_success (ws_status r) then token ← or_transport (ws_json r ≫= token_of); mret (Ready token)
      else
        match ws_json r ≫= error_of with
        | None => mret (Pending false)
        | Some err =>
            if String.eqb (te_error err) "authorization_pending" then mret (Pending false)
            else if String.eqb (te_error err) "slow_down" then mret (Pending true)
            else st_err (grant_error err)
        end
  end.

(** A grant that is answered at once: the token, or the provider's error. *)
Definition token_grant (token_endpoint : string) (form : list (string * string)) : F TokenResponse :=
  res ← web_send (web_form token_endpoint form);
  r ← or_transport res;
  if negb (is_success (ws_status r)) then
    err ← or_transport (ws_json r ≫= error_of); st_err (grant_error err)
  else or_transport (ws_json r ≫= token_of).

Definition push_some (key : string) (o : option string) : list (string * string) :=
  match o with Some v => [(key, v)] | None => [] end.

Definition client_credentials (token_endpoint client_id client_secret : string) (scope : option string)
  : F TokenResponse :=
  token_grant token_endpoint
    ([("grant_type", "client_credentials"); ("client_id", client_id); ("client_secret", client_secret)]%string
     ++ push_some "scope" scope).

Definition GRANT_TYPE_TOKEN_EXCHANGE : string := "urn:ietf:params:oauth:grant-type:token-exchange".
Definition TOKEN_TYPE_ACCESS_TOKEN : string := "urn:ietf:params:oauth:token-type:access_token".
Definition TOKEN_TYPE_ID_TOKEN : string := "urn:ietf:params:oauth:token-type:id_token".

Record TokenExchange := {
  tx_client_id : string;
  tx_client_secret : string;
  tx_subject_token : string;
  tx_subject_token_type : string;
  tx_audience : option string;
  tx_scope : option string;
}.
Definition new_exchange (client_id client_secret subject_token : string) : TokenExchange := {|
  tx_client_id := client_id; tx_client_secret := client_secret; tx_subject_token := subject_token;
  tx_subject_token_type := TOKEN_TYPE_ACCESS_TOKEN; tx_audience := None; tx_scope := None |}.

Definition exchange_form (p : TokenExchange) : list (string * string) :=
  ([("grant_type", GRANT_TYPE_TOKEN_EXCHANGE); ("client_id", tx_client_id p); ("client_secret", tx_client_secret p);
    ("subject_token", tx_subject_token p); ("subject_token_type", tx_subject_token_type p);
    ("requested_token_type", TOKEN_TYPE_ACCESS_TOKEN)]%string
   ++ push_some "audience" (tx_audience p)) ++ push_some "scope" (tx_scope p).

Definition exchange_token (token_endpoint : string) (p : TokenExchange) : F TokenResponse :=
  token_grant token_endpoint (exchange_form p).
End flows.
