(* ===== verification/Base64.v ===== *)
(** * The token inspection of the CLI (mobula-cli/src/main.rs: [base64url_decode],
    [jwt_exp], [stored_token_action])

    The decoder keeps its accumulator in 32 bits and never clears what it has
    already emitted; it is shown to invert RFC 4648's encoding all the same, and
    from that, what the CLI decides about a stored token. *)

From S2P Require Import Prelude Float64 Core Store Json Auth Registry AuthLayer Http ObsApi.
#[local] Open Scope Z_scope.

Abbreviation byte_val c := (Z.of_N (N_of_ascii c)).

Definition u32 (z : Z) : Z := z mod 2 ^ 32.
(** [as u8]. *)
Definition u8 (z : Z) : ascii := ascii_of_N (Z.to_N (z mod 2 ^ 8)).

Definition val (c : ascii) : option Z :=
  let n := byte_val c in
  if Z.leb 65 n && Z.leb n 90 then Some (n - 65)
  else if Z.leb 97 n && Z.leb n 122 then Some (n - 97 + 26)
  else if Z.leb 48 n && Z.leb n 57 then Some (n - 48 + 52)
  else if Z.eqb n 45 then Some 62
  else if Z.eqb n 95 then Some 63
  else None.

(** The loop: the accumulator, the bits not yet emitted, the output. *)
Fixpoint decode_loop (acc bits : Z) (out : Bytes) (l : Bytes) : option Bytes :=
  match l with
  | [] => Some out
  | c :: l' =>
      if Ascii.eqb c "=" then Some out
      else
        v ← val c;
        let acc := Z.lor (u32 (Z.shiftl acc 6)) v in
        let bits := bits + 6 in
        if Z.leb 8 bits
        then decode_loop acc (bits - 8) (out ++ [u8 (Z.shiftr acc (bits - 8))]) l'
        else decode_loop acc bits out l'
  end.
Definition base64url_decode (s : string) : option Bytes := decode_loop 0 0 [] (bytes_of s).

Section tokens.
Context `{JsonText}.

Definition jwt_exp (token : string) : option Z :=
  payload ← split_bytes "." (bytes_of token) !! 1%nat;
  bytes ← base64url_decode (str_of payload);
  claims ← from_slice bytes;
  json_get "exp" claims ≫= as_u64.

Record Credentials := {
  cr_access_token : string;
  cr_refresh_token : option string;
  cr_issuer : string;
  cr_client_id : option string;
}.

Inductive StoredTokenAction := Valid | Refresh | ExpiredNoRefresh.

Definition stored_token_action (creds : Credentials) (now : Z) : StoredTokenAction :=
  match jwt_exp (cr_access_token creds) with
  | None => Valid
  | Some exp =>
      if Z.ltb now exp then Valid
      else if bool_decide (is_Some (cr_refresh_token creds)) then Refresh else ExpiredNoRefresh
  end.
End tokens.

(** ** RFC 4648, section 5 *)

Definition digit (v : Z) : ascii :=
  ascii_of_N (Z.to_N (if Z.ltb v 26 then v + 65 else if Z.ltb v 52 then v - 26 + 97
                      else if Z.ltb v 62 then v - 52 + 48 else if Z.eqb v 62 then 45 else 95)).

(** Three octets make four digits; a rest of one or two makes two or three. *)
Fixpoint encode (l : Bytes) : Bytes :=
  match l with
  | a :: b :: c :: l' =>
      let '(x, y, z) := (byte_val a, byte_val b, byte_val c) in
      digit (x / 4) :: digit (x mod 4 * 16 + y / 16) :: digit (y mod 16 * 4 + z / 64) :: digit (z mod 64) :: encode l'
  | [a; b] =>
      let '(x, y) := (byte_val a, byte_val b) in
      [digit (x / 4); digit (x mod 4 * 16 + y / 16); digit (y mod 16 * 4)]
  | [a] => let x := byte_val a in [digit (x / 4); digit (x mod 4 * 16)]
  | [] => []
  end.

(** ** The decoder inverts it *)

Lemma digit_val v : 0 <= v < 64 -> val (digit v) = Some v /\ digit v <> "="%char /\ digit v <> "."%char.
Proof.
  intros Hv.
  assert (Hall : Forall (fun n => val (digit (Z.of_nat n)) = Some (Z.of_nat n) /\ digit (Z.of_nat n) <> "="%char /\
    digit (Z.of_nat n) <> "."%char) (seq 0 64)).
  { apply (bool_decide_unpack _). vm_compute. exact I. }
  rewrite Forall_forall in Hall. specialize (Hall (Z.to_nat v)).
  rewrite Z2Nat.id in Hall by lia. apply Hall, elem_of_seq. lia.
Qed.

Lemma byte_val_range c : 0 <= byte_val c < 256.
Proof. pose proof (N_ascii_bounded c). lia. Qed.

Lemma u8_of_byte z c : z mod 256 = byte_val c -> u8 z = c.
Proof. intros Hz. unfold u8. change (2 ^ 8) with 256. rewrite Hz, N2Z.id. apply ascii_N_embedding. Qed.

Lemma lor_low x v : 0 <= v < 64 -> Z.lor (x * 2 ^ 6) v = x * 2 ^ 6 + v.
Proof.
  intros Hv. assert (Hland : Z.land (x * 2 ^ 6) v = 0).
  { apply Z.bits_inj'. intros n Hn. rewrite Z.land_spec, Z.bits_0. destruct (Z.lt_ge_cases n 6) as [Hlow|Hhigh].
    - by rewrite Z.mul_pow2_bits_low.
    - assert (Z.testbit v n = false) as ->; [|apply andb_false_r]. apply Z.testbit_false; [done|].
      rewrite Z.div_small; [done|]. split; [lia|]. pose proof (Z.pow_le_mono_r 2 6 n). lia. }
  rewrite <- Z.lxor_lor, <- Z.add_nocarry_lxor; done.
Qed.

(** Appending six bits to a register of 32. *)
Lemma push_bits acc v : 0 <= v < 64 -> Z.lor (u32 (Z.shiftl acc 6)) v = acc mod 2 ^ 26 * 64 + v.
Proof.
  intros Hv. unfold u32. rewrite Z.shiftl_mul_pow2 by lia.
  replace ((acc * 2 ^ 6) mod 2 ^ 32) with (acc mod 2 ^ 26 * 2 ^ 6)
    by (change (2 ^ 32) with (2 ^ 26 * 2 ^ 6); by rewrite Zmult_mod_distr_r).
  by apply lor_low.
Qed.

(** One digit: it is taken as the next six bits. *)
Lemma decode_digit acc bits out v l : 0 <= v < 64 -> 0 <= bits ->
  decode_loop acc bits out (digit v :: l) =
  let acc' := acc mod 2 ^ 26 * 64 + v in
  if Z.leb 2 bits then decode_loop acc' (bits - 2) (out ++ [u8 (acc' / 2 ^ (bits - 2))]) l
  else decode_loop acc' (bits + 6) out l.
Proof.
  intros Hv Hb. destruct (digit_val v Hv) as (Hval & Heq & _). cbn [decode_loop].
  destruct (Ascii.eqb_spec (digit v) "="); [done|]. rewrite Hval. cbn [mbind option_bind]. cbv zeta.
  rewrite push_bits by done. replace (bits + 6 - 8) with (bits - 2) by lia.
  destruct (Z.leb_spec 8 (bits + 6)), (Z.leb_spec 2 bits); try lia; [|done].
  by rewrite Z.shiftr_div_pow2 by lia.
Qed.

(** What the second, third and fourth digit of a group emit, whatever the register
    held before. *)
Lemma emit2 a v1 v2 : 0 <= v1 < 64 -> 0 <= v2 < 64 ->
  (((a * 64 + v1) mod 2 ^ 26 * 64 + v2) / 2 ^ 4) mod 256 = v1 * 4 + v2 / 16.
Proof. intros. change (2 ^ 26) with 67108864. change (2 ^ 4) with 16. Z.div_mod_to_equations. lia. Qed.
Lemma emit3 a v2 v3 : 0 <= v2 < 64 -> 0 <= v3 < 64 ->
  (((a * 64 + v2) mod 2 ^ 26 * 64 + v3) / 2 ^ 2) mod 256 = v2 mod 16 * 16 + v3 / 4.
Proof. intros. change (2 ^ 26) with 67108864. change (2 ^ 2) with 4. Z.div_mod_to_equations. lia. Qed.
Lemma emit4 a v3 v4 : 0 <= v3 < 64 -> 0 <= v4 < 64 ->
  (((a * 64 + v3) mod 2 ^ 26 * 64 + v4) / 2 ^ 0) mod 256 = v3 mod 4 * 64 + v4.
Proof. intros. change (2 ^ 26) with 67108864. change (2 ^ 0) with 1. Z.div_mod_to_equations. lia. Qed.

Lemma decode_first acc out v l : 0 <= v < 64 ->
  exists a, decode_loop acc 0 out (digit v :: l) = decode_loop (a * 64 + v) 6 out l.
Proof. intros Hv. rewrite decode_digit by lia. by eexists. Qed.

Lemma decode_second a out v1 v2 c l : 0 <= v1 < 64 -> 0 <= v2 < 64 -> v1 * 4 + v2 / 16 = byte_val c ->
  exists a', decode_loop (a * 64 + v1) 6 out (digit v2 :: l) = decode_loop (a' * 64 + v2) 4 (out ++ [c]) l.
Proof.
  intros H1 H2 Hc. rewrite decode_digit by lia. cbn [Z.leb Z.compare Pos.compare Pos.compare_cont]. eexists.
  do 2 f_equal. f_equal. apply u8_of_byte. change (6 - 2) with 4. by rewrite emit2.
Qed.

Lemma decode_third a out v2 v3 c l : 0 <= v2 < 64 -> 0 <= v3 < 64 -> v2 mod 16 * 16 + v3 / 4 = byte_val c ->
  exists a', decode_loop (a * 64 + v2) 4 out (digit v3 :: l) = decode_loop (a' * 64 + v3) 2 (out ++ [c]) l.
Proof.
  intros H1 H2 Hc. rewrite decode_digit by lia. cbn [Z.leb Z.compare Pos.compare Pos.compare_cont]. eexists.
  do 2 f_equal. f_equal. apply u8_of_byte. change (4 - 2) with 2. by rewrite emit3.
Qed.

Lemma decode_fourth a out v3 v4 c l : 0 <= v3 < 64 -> 0 <= v4 < 64 -> v3 mod 4 * 64 + v4 = byte_val c ->
  exists a', decode_loop (a * 64 + v3) 2 out (digit v4 :: l) = decode_loop a' 0 (out ++ [c]) l.
Proof.
  intros H1 H2 Hc. rewrite decode_digit by lia. cbn [Z.leb Z.compare Pos.compare Pos.compare_cont]. eexists.
  do 2 f_equal. f_equal. apply u8_of_byte. change (2 - 2) with 0. by rewrite emit4.
Qed.

(** Padding or nothing ends the input. *)
Definition ends (l : Bytes) : Prop := match l with [] => True | c :: _ => c = "="%char end.
Lemma decode_ends acc bits out l : ends l -> decode_loop acc bits out l = Some out.
Proof. destruct l as [|c l]; [done|]. cbn. intros ->. done. Qed.

Ltac octets := repeat match goal with |- context [byte_val ?c] =>
  lazymatch goal with H : 0 <= byte_val c < 256 |- _ => fail | _ => pose proof (byte_val_range c) end end;
  Z.div_mod_to_equations; lia.

Lemma decode_encode bytes tail acc out : ends tail ->
  decode_loop acc 0 out (encode bytes ++ tail) = Some (out ++ bytes).
Proof.
  intros Ht. revert bytes acc out. fix IH 1. intros [|a [|b [|c l]]] acc out; cbn [encode app].
  - by rewrite decode_ends, app_nil_r.
  - destruct (decode_first acc out (byte_val a / 4) (digit (byte_val a mod 4 * 16) :: tail)) as [a1 ->]; [octets|].
    destruct (decode_second a1 out (byte_val a / 4) (byte_val a mod 4 * 16) a tail) as [a2 ->]; [octets..|].
    by rewrite decode_ends.
  - set (x := byte_val a). set (y := byte_val b).
    destruct (decode_first acc out (x / 4) (digit (x mod 4 * 16 + y / 16) :: digit (y mod 16 * 4) :: tail)) as [a1 ->];
      [unfold x, y; octets|].
    destruct (decode_second a1 out (x / 4) (x mod 4 * 16 + y / 16) a (digit (y mod 16 * 4) :: tail)) as [a2 ->];
      [unfold x, y; octets..|].
    destruct (decode_third a2 (out ++ [a]) (x mod 4 * 16 + y / 16) (y mod 16 * 4) b tail) as [a3 ->]; [unfold x, y; octets..|].
    rewrite decode_ends by done. by rewrite <- app_assoc.
  - set (x := byte_val a). set (y := byte_val b). set (z := byte_val c).
    set (rest := encode l ++ tail).
    destruct (decode_first acc out (x / 4) (digit (x mod 4 * 16 + y / 16) :: digit (y mod 16 * 4 + z / 64) :: digit (z mod 64) :: rest))
      as [a1 ->]; [unfold x, y, z; octets|].
    destruct (decode_second a1 out (x / 4) (x mod 4 * 16 + y / 16) a (digit (y mod 16 * 4 + z / 64) :: digit (z mod 64) :: rest))
      as [a2 ->]; [unfold x, y, z; octets..|].
    destruct (decode_third a2 (out ++ [a]) (x mod 4 * 16 + y / 16) (y mod 16 * 4 + z / 64) b (digit (z mod 64) :: rest))
      as [a3 ->]; [unfold x, y, z; octets..|].
    destruct (decode_fourth a3 ((out ++ [a]) ++ [b]) (y mod 16 * 4 + z / 64) (z mod 64) c rest) as [a4 ->];
      [unfold x, y, z; octets..|].
    unfold rest. rewrite (IH l). by rewrite <- !app_assoc.
Qed.

Lemma encode_digits bytes : "."%char ∉ encode bytes.
Proof.
  assert (Hd : forall v, 0 <= v < 64 -> digit v <> "."%char) by (intros v Hv; apply (digit_val v Hv)).
  revert bytes. fix IH 1. intros [|a [|b [|c l]]]; cbn [encode]; rewrite ?not_elem_of_cons;
    split_and?; try apply not_elem_of_nil; try apply IH; apply not_eq_sym, Hd; octets.
Qed.

Lemma split_at_dot a l : "."%char ∉ a -> split_bytes "." (a ++ "."%char :: l) = a :: split_bytes "." l.
Proof.
  induction a as [|c a IH]; cbn [app split_bytes]; intros Hn; [by rewrite Ascii.eqb_refl|].
  apply not_elem_of_cons in Hn as [Hc Ha]. rewrite IH by done. destruct (Ascii.eqb_spec c "."); [congruence|done].
Qed.

Lemma split_no_dot a : "."%char ∉ a -> split_bytes "." a = [a].
Proof.
  induction a as [|c a IH]; cbn [split_bytes]; intros Hn; [done|].
  apply not_elem_of_cons in Hn as [Hc Ha]. rewrite IH by done. destruct (Ascii.eqb_spec c "."); [congruence|done].
Qed.

(** C40. The CLI's decision about a stored token. Its base64url decoder inverts the
    encoding of RFC 4648, padded or not, for every byte string, so a JWT with a
    JSON payload is handed out exactly while the payload's [exp] is in the future;
    after that it is refreshed when there is a refresh token and refused
    otherwise. A payload without [exp], and an opaque token, are handed out for the
    server to judge. *)
Theorem stored_token_decided `{JsonText} creds now header payload signature padding claims :
  "."%char ∉ header -> ends padding -> "."%char ∉ padding ->
  from_slice payload = Some claims ->
  bytes_of (cr_access_token creds) = header ++ "."%char :: (encode payload ++ padding) ++ "."%char :: signature ->
  base64url_decode (str_of (encode payload ++ padding)) = Some payload /\
  stored_token_action creds now =
    match json_get "exp" claims ≫= as_u64 with
    | Some exp => if Z.ltb now exp then Valid
                  else if bool_decide (is_Some (cr_refresh_token creds)) then Refresh else ExpiredNoRefresh
    | None => Valid
    end /\
  (forall opaque, "."%char ∉ bytes_of (cr_access_token opaque) -> stored_token_action opaque now = Valid).
Proof.
  intros Hh Hp Hnp Hjson Htoken.
  assert (Hdec : base64url_decode (str_of (encode payload ++ padding)) = Some payload)
    by (unfold base64url_decode; rewrite bytes_of_str_of; by apply decode_encode).
  split_and!; [done| |].
  - unfold stored_token_action, jwt_exp. rewrite Htoken, split_at_dot by done.
    rewrite split_at_dot by (rewrite elem_of_app; pose proof (encode_digits payload); naive_solver).
    cbn [lookup list_lookup mbind option_bind]. unfold mbind, option_bind. by rewrite Hdec, Hjson.
  - intros opaque Ho. unfold stored_token_action, jwt_exp. by rewrite split_no_dot.
Qed.

Module TokenRuns.
(** A reader that knows one payload. *)
Definition payload : Bytes := bytes_of "{exp:100}".
#[local] Instance text : JsonText := fun b => if bool_decide (b = payload) then Some (JObj [("exp"%string, JNum 100)]) else None.
Definition stored : Credentials := {|
  cr_access_token := str_of (bytes_of "hdr." ++ encode payload ++ bytes_of "==.sig"); cr_refresh_token := None;
  cr_issuer := "https://idp"; cr_client_id := None |}.

Lemma stored_token_decided_witness :
  stored_token_action stored 99 = Valid /\ stored_token_action stored 100 = ExpiredNoRefresh.
Proof.
  split.
  - exact (proj1 (proj2 (stored_token_decided stored 99 (bytes_of "hdr") payload (bytes_of "sig") (bytes_of "==")
      (JObj [("exp"%string, JNum 100)]) ltac:(apply (bool_decide_unpack _); vm_compute; exact I) eq_refl
      ltac:(apply (bool_decide_unpack _); vm_compute; exact I) ltac:(vm_compute; reflexivity) ltac:(vm_compute; reflexivity)))).
  - exact (proj1 (proj2 (stored_token_decided stored 100 (bytes_of "hdr") payload (bytes_of "sig") (bytes_of "==")
      (JObj [("exp"%string, JNum 100)]) ltac:(apply (bool_decide_unpack _); vm_compute; exact I) eq_refl
      ltac:(apply (bool_decide_unpack _); vm_compute; exact I) ltac:(vm_compute; reflexivity) ltac:(vm_compute; reflexivity)))).
Defined.
End TokenRuns.
