(* ===== verification/Cli.v ===== *)
(** * The command line (mobula-cli/src/main.rs)

    The commands that log in, hand out tokens and log out, the bootstrap of the
    first local administrator, and the loading of the registry. The world holds
    what was sent and when, the monotonic clock, the files with their modes, the
    environment, standard input and what was printed. [cw_lag] is how much longer
    than asked the n-th wait took, [cw_io] whether the n-th file operation works; a
    write that fails has written nothing. *)

From S2P Require Import Prelude Float64 Core Quantity Policy Store Json Auth Oidc LocalAuth Registry Views Api AuthLayer.
From S2P Require Import Http ObsApi Flows Base64.
#[local] Open Scope Z_scope.

(** ** Which store [--db] selects *)

Inductive DbTarget := InMemory | Sqlite (url : string) | Postgres (url : string).

Definition db_target (db : option string) : DbTarget :=
  match db with
  | None => InMemory
  | Some url =>
      if starts_with "postgres://" url || starts_with "postgresql://" url then Postgres url
      else Sqlite ("sqlite://" +:+ url +:+ "?mode=rwc")
  end.

(** ** The policy file *)

(** [PolicyFile] as TOML gives it; [pf_gpu] is the section, with its one field. *)
Record PolicyFile := {
  pf_prices : option PriceSheet;
  pf_quotas : option (gmap string ResourceMap);
  pf_budgets : option (gmap string Budget);
  pf_gpu : option (option GpuSharing);
}.
Definition parse_policy (toml : string -> option PolicyFile) (raw : string) : option PolicyConfig :=
  parsed ← toml raw;
  Some {| pc_prices := pf_prices parsed; pc_quotas := default ∅ (pf_quotas parsed);
          pc_budgets := default ∅ (pf_budgets parsed);
          pc_gpu_default_sharing := match pf_gpu parsed with Some g => default WholeGpu g | None => WholeGpu end |}.

(** ** The demo's job history ([start_demo]) *)

Definition demo_job (now : Z) (row : string * string * string * string * option Z * Z) : JobRecord :=
  let '(id, cluster, submitter, status, duration, ago) := row in {|
  j_id := id; j_cluster := cluster; j_submitter := submitter; j_status := status; j_duration_secs := duration;
  j_submitted_at := sat_sub now ago |}.
Definition demo_rows : list (string * string * string * string * option Z * Z) :=
  [("raysubmit_a1b2", "demo-alpha", "alice@example.com", "SUCCEEDED", Some 742, 3600);
   ("raysubmit_c3d4", "demo-alpha", "bob@example.com", "RUNNING", None, 120);
   ("raysubmit_e5f6", "retired-beta", "alice@example.com", "FAILED", Some 51, 7200);
   ("raysubmit_g7h8", "demo-gamma", "carol@example.com", "STOPPED", Some 310, 1800)]%string.
(** Only into an empty history; a store error is ignored. *)
Definition seed_demo_jobs (now : Z) (s : InMemoryStore) : InMemoryStore :=
  match list_jobs s with
  | (Ok (_ :: _), s') => s'
  | (_, s') => foldl (fun s row => snd (record_job (demo_job now row) s)) s' demo_rows
  end.

(** ** The world *)

Record File := { fl_mode : Z; fl_text : string }.

Record CliWorld := {
  cw_sent : list (Z * WebRequest);
  cw_now : Z; (* [Instant], nanoseconds *)
  cw_unix : Z;
  cw_lag : nat -> Z;
  cw_waits : nat;
  cw_files : gmap string File;
  cw_io : nat -> bool;
  cw_ios : nat;
  cw_default_mode : Z; (* what the umask leaves of 0666 *)
  cw_env : string -> option string;
  cw_stdin : list ascii;
  cw_out : list string;
}.

Definition set_sent (l : list (Z * WebRequest)) (w : CliWorld) : CliWorld := {|
  cw_sent := l; cw_now := cw_now w; cw_unix := cw_unix w; cw_lag := cw_lag w; cw_waits := cw_waits w;
  cw_files := cw_files w; cw_io := cw_io w; cw_ios := cw_ios w; cw_default_mode := cw_default_mode w;
  cw_env := cw_env w; cw_stdin := cw_stdin w; cw_out := cw_out w |}.
(** Time passes: what was asked and the lag of this wait. *)
Definition pass (asked : Z) (w : CliWorld) : CliWorld := {|
  cw_sent := cw_sent w; cw_now := cw_now w + asked + cw_lag w (cw_waits w); cw_unix := cw_unix w;
  cw_lag := cw_lag w; cw_waits := S (cw_waits w);
  cw_files := cw_files w; cw_io := cw_io w; cw_ios := cw_ios w; cw_default_mode := cw_default_mode w;
  cw_env := cw_env w; cw_stdin := cw_stdin w; cw_out := cw_out w |}.
Definition set_files (m : gmap string File) (w : CliWorld) : CliWorld := {|
  cw_sent := cw_sent w; cw_now := cw_now w; cw_unix := cw_unix w; cw_lag := cw_lag w; cw_waits := cw_waits w;
  cw_files := m; cw_io := cw_io w; cw_ios := cw_ios w; cw_default_mode := cw_default_mode w;
  cw_env := cw_env w; cw_stdin := cw_stdin w; cw_out := cw_out w |}.
Definition count_io (w : CliWorld) : CliWorld := {|
  cw_sent := cw_sent w; cw_now := cw_now w; cw_unix := cw_unix w; cw_lag := cw_lag w; cw_waits := cw_waits w;
  cw_files := cw_files w; cw_io := cw_io w; cw_ios := S (cw_ios w); cw_default_mode := cw_default_mode w;
  cw_env := cw_env w; cw_stdin := cw_stdin w; cw_out := cw_out w |}.
Definition set_stdin (l : list ascii) (w : CliWorld) : CliWorld := {|
  cw_sent := cw_sent w; cw_now := cw_now w; cw_unix := cw_unix w; cw_lag := cw_lag w; cw_waits := cw_waits w;
  cw_files := cw_files w; cw_io := cw_io w; cw_ios := cw_ios w; cw_default_mode := cw_default_mode w;
  cw_env := cw_env w; cw_stdin := l; cw_out := cw_out w |}.
Definition print (s : string) (w : CliWorld) : CliWorld := {|
  cw_sent := cw_sent w; cw_now := cw_now w; cw_unix := cw_unix w; cw_lag := cw_lag w; cw_waits := cw_waits w;
  cw_files := cw_files w; cw_io := cw_io w; cw_ios := cw_ios w; cw_default_mode := cw_default_mode w;
  cw_env := cw_env w; cw_stdin := cw_stdin w; cw_out := cw_out w ++ [s] |}.

(** [InstantOverflow] is a panic of the standard library; [OutOfFuel] is the
    model's, and shown impossible. *)
Inductive CliError :=
| Other (text : string) | FlowFailed (e : FlowError) | IoFailed | BadFile | LocalFailed (e : LocalAuthError)
| InvalidRegistryFile (e : RegistryError) | InstantOverflow | OutOfFuel.

(** [Path::join] and [Path::parent]. *)
Class Paths := { path_join : string -> string -> string; path_parent : string -> option string }.
(** serde of the credentials file. *)
Class CredText := { creds_json : Credentials -> string; creds_parse : string -> option Credentials }.
Class CredTextLaws `{CredText} := creds_round_trip : forall c, creds_parse (creds_json c) = Some c.

Section cli.
Context `{Web} `{JsonText} `{Paths} `{CredText}.

Abbreviation C := (ST CliWorld CliError).

Definition nl : string := str_of ["010"%char].
Definition say (s : string) : C unit := st_put (print s).

Definition nanos (secs : Z) : Z := secs * 10 ^ 9.
(** The largest [Instant]: its seconds are an [i64]. *)
Definition MAX_INSTANT : Z := nanos (2 ^ 63) - 1.

Definition sleep (secs : Z) : C unit := st_put (pass (nanos secs)).

(** A request is stamped with the time it is sent; answering takes time. *)
Definition on_flow {A} (m : ST (list WebRequest) FlowError A) : C A := fun w =>
  let before := snd <$> cw_sent w in
  let '(r, after) := m before in
  let new := (fun q => (cw_now w, q)) <$> drop (length before) after in
  (map_err FlowFailed r, pass 0 (set_sent (cw_sent w ++ new) w)).

Definition send_request (q : WebRequest) : C (option WebResponse) := on_flow (web_send q).

Definition file_op {A} (m : CliWorld -> A * CliWorld) : C A := fun w =>
  if cw_io w (cw_ios w) then let '(a, w') := m (count_io w) in (Ok a, w') else (Err IoFailed, count_io w).

(** [OpenOptions] with write, create and truncate: a new file gets [mode], one that
    exists keeps its own. *)
Definition open_truncate (path : string) (mode : Z) : C unit :=
  file_op (fun w => (tt, set_files (<[path := {|
    fl_mode := match cw_files w !! path with Some f => fl_mode f | None => mode end; fl_text := EmptyString |}]> (cw_files w)) w)).
Definition set_mode (path : string) (mode : Z) : C unit :=
  file_op (fun w => (tt, set_files (alter (fun f => {| fl_mode := mode; fl_text := fl_text f |}) path (cw_files w)) w)).
Definition append_text (path text : string) : C unit :=
  file_op (fun w => (tt, set_files (alter (fun f => {| fl_mode := fl_mode f; fl_text := fl_text f +:+ text |}) path (cw_files w)) w)).

(** ** Credentials *)

Definition credentials_path : C string := fun w =>
  match cw_env w "MOBULA_CONFIG_DIR" with
  | Some dir => (Ok (path_join dir "credentials.json"), w)
  | None =>
      match cw_env w "HOME" with
      | Some home => (Ok (path_join (path_join (path_join home ".config") "mobula") "credentials.json"), w)
      | None => (Err (Other "HOME is not set; set MOBULA_CONFIG_DIR"), w)
      end
  end.

Definition save_credentials (creds : Credentials) : C unit :=
  path ← credentials_path;
  _ ← (match path_parent path with Some _ => file_op (fun w => (tt, w)) | None => mret tt end);
  mode ← st_get cw_default_mode;
  _ ← open_truncate path mode;
  _ ← set_mode path 384; (* 0o600 *)
  append_text path (creds_json creds).

Definition load_credentials : C Credentials :=
  path ← credentials_path;
  raw ← file_op (fun w => (fl_text <$> cw_files w !! path, w));
  match raw with
  | None => st_err (Other "no stored credentials")
  | Some text => match creds_parse text with Some c => mret c | None => st_err BadFile end
  end.

(** ** Standard input *)

Fixpoint take_line (l : list ascii) : list ascii * list ascii :=
  match l with
  | [] => ([], [])
  | c :: l' => if Ascii.eqb c "010" then ([c], l') else let '(a, r) := take_line l' in (c :: a, r)
  end.
Fixpoint drop_eol (l : list ascii) : list ascii :=
  match l with
  | c :: l' => if Ascii.eqb c "010" || Ascii.eqb c "013" then drop_eol l' else l
  | [] => []
  end.
(** [read_line], then [trim_end_matches(['\n', '\r'])], and a refusal of nothing. *)
Definition stdin_line (refusal : string) : C string := fun w =>
  let '(line, rest) := take_line (cw_stdin w) in
  let text := reverse (drop_eol (reverse line)) in
  match text with
  | [] => (Err (Other refusal), set_stdin rest w)
  | _ => (Ok (str_of text), set_stdin rest w)
  end.
Definition read_line_from_stdin : C string := stdin_line "empty input on stdin".

(** ** Logging in *)

Definition or_other {A} (text : string) (o : option A) : C A :=
  match o with Some x => mret x | None => st_err (Other text) end.

Definition login_local (server username : string) (password_stdin : bool) : C unit :=
  if negb password_stdin then st_err (Other "no interactive password prompt is available; pipe the password with --password-stdin")
  else
    password ← stdin_line "empty password on stdin";
    res ← send_request {| wq_method := "POST"; wq_url := trim_end_slashes server +:+ "/api/v1/auth/login";
      wq_bearer := None; wq_form := [];
      wq_json := Some (JObj [("username", JStr username); ("password", JStr password)]%string) |};
    r ← or_other "transport" res;
    if negb (Z.eqb (ws_status r) 200) then st_err (Other "login failed")
    else
      body ← or_other "body" (ws_json r);
      token ← or_other "login response missing token" (json_get "token" body ≫= as_str);
      _ ← save_credentials {| cr_access_token := token; cr_refresh_token := None; cr_issuer := server; cr_client_id := None |};
      let identity := default JNull (json_get "identity" body) in
      let subject := default username (json_get "subject" identity ≫= as_str) in
      let roles := match json_get "roles" identity ≫= as_array with Some l => omap as_str l | None => [] end in
      say ("Logged in as " +:+ subject +:+ " (roles: " +:+ String.concat ", " roles +:+ ").").

(** Revocation is best effort; the file goes in any case. *)
Definition logout : C unit :=
  creds ← load_credentials;
  _ ← (if starts_with "mob_" (cr_access_token creds) then
         _ ← send_request {| wq_method := "POST"; wq_url := trim_end_slashes (cr_issuer creds) +:+ "/api/v1/auth/logout";
           wq_bearer := Some (cr_access_token creds); wq_form := []; wq_json := None |};
         mret tt
       else mret tt);
  path ← credentials_path;
  _ ← file_op (fun w => (tt, set_files (delete path (cw_files w)) w));
  say ("Logged out; removed " +:+ path).

(** The polling loop of the device grant. *)
Fixpoint poll_loop (fuel : nat) (token_ep client_id device_code : string) (deadline interval : Z) : C TokenResponse :=
  match fuel with
  | O => st_err OutOfFuel
  | S fuel' =>
      now ← st_get cw_now;
      if Z.ltb deadline now then st_err (Other "device code expired before approval")
      else
        _ ← sleep interval;
        poll ← on_flow (poll_device_token token_ep client_id device_code);
        match poll with
        | Pending slow_down =>
            poll_loop fuel' token_ep client_id device_code deadline (if slow_down then interval + 5 else interval)
        | Ready t => mret t
        end
  end.

(** [Instant::now() + Duration] panics when the sum is no instant. *)
Definition await_token (token_ep client_id : string) (auth : DeviceAuthorization) : C TokenResponse :=
  now ← st_get cw_now;
  let deadline := now + nanos (da_expires_in auth) in
  if Z.ltb MAX_INSTANT deadline then st_err InstantOverflow
  else poll_loop (S (S (Z.to_nat (da_expires_in auth)))) token_ep client_id (da_device_code auth) deadline
         (Z.max (da_interval auth) 1).

Definition token_endpoint_of (meta : Metadata) : C string :=
  or_other "issuer does not advertise a token_endpoint" (md_token_endpoint meta).

(** The printed example is shortened. *)
Definition login (issuer client_id scope : string) : C unit :=
  meta ← on_flow (discover_metadata issuer);
  device_ep ← or_other "issuer does not advertise a device_authorization_endpoint" (md_device_authorization_endpoint meta);
  token_ep ← token_endpoint_of meta;
  auth ← on_flow (device_authorize device_ep client_id scope);
  let url := default (da_verification_uri auth) (da_verification_uri_complete auth) in
  _ ← say ("To sign in, open:" +:+ nl +:+ nl +:+ "    " +:+ url +:+ nl +:+ nl +:+ "and enter code: " +:+ da_user_code auth +:+ nl);
  token ← await_token token_ep client_id auth;
  _ ← save_credentials {| cr_access_token := tr_access_token token; cr_refresh_token := tr_refresh_token token;
        cr_issuer := issuer; cr_client_id := Some client_id |};
  _ ← say (match tr_expires_in token with
           | Some secs => "Logged in. Token expires in " +:+ u64_str secs +:+ "s."
           | None => "Logged in."
           end);
  _ ← say "Attach it to Ray jobs with:";
  say "  export RAY_JOB_HEADERS=...".

(** ** Tokens *)

Definition service_token (issuer client_id client_secret : string) (scope : option string) : C unit :=
  meta ← on_flow (discover_metadata issuer);
  token_ep ← token_endpoint_of meta;
  token ← on_flow (client_credentials token_ep client_id client_secret scope);
  say (tr_access_token token).

Definition exchange_user_token (issuer client_id client_secret subject_token : string) (id_token : bool)
    (audience : string) (scope : option string) : C unit :=
  meta ← on_flow (discover_metadata issuer);
  token_ep ← token_endpoint_of meta;
  let params := new_exchange client_id client_secret subject_token in
  token ← on_flow (exchange_token token_ep {|
    tx_client_id := tx_client_id params; tx_client_secret := tx_client_secret params;
    tx_subject_token := tx_subject_token params;
    tx_subject_token_type := if id_token then TOKEN_TYPE_ID_TOKEN else tx_subject_token_type params;
    tx_audience := Some audience; tx_scope := scope |});
  say (tr_access_token token).

Definition re_login : CliError := Other "token expired, run mobula login".

(** A failure of this step is [re_login], whatever it was. *)
Definition or_relogin {A} (m : C A) : C A := fun w =>
  let '(r, w') := m w in (map_err (fun _ => re_login) r, w').

Definition refresh_stored_token (creds : Credentials) : C unit :=
  match cr_refresh_token creds with
  | None => st_err re_login
  | Some refresh =>
      meta ← or_relogin (on_flow (discover_metadata (cr_issuer creds)));
      token_ep ← or_relogin (token_endpoint_of meta);
      let client_id := default "mobula-cli"%string (cr_client_id creds) in
      res ← send_request (web_form token_ep
        [("grant_type", "refresh_token"); ("refresh_token", refresh); ("client_id", client_id)]%string);
      r ← or_relogin (or_other "transport" res);
      if negb (is_success (ws_status r)) then st_err re_login
      else
        token ← or_relogin (or_other "body" (ws_json r ≫= token_of));
        _ ← save_credentials {| cr_access_token := tr_access_token token;
              cr_refresh_token := match tr_refresh_token token with Some t => Some t | None => cr_refresh_token creds end;
              cr_issuer := cr_issuer creds; cr_client_id := cr_client_id creds |};
        say (tr_access_token token)
  end.

(** [mobula token]. *)
Definition token_command (issuer client_id client_secret scope : option string) : C unit :=
  match issuer, client_id, client_secret with
  | Some i, Some c, Some s => service_token i c s scope
  | _, _, _ =>
      creds ← load_credentials;
      now ← st_get cw_unix;
      match stored_token_action creds now with
      | Valid => say (cr_access_token creds)
      | ExpiredNoRefresh => st_err re_login
      | Refresh => refresh_stored_token creds
      end
  end.

(** [mobula exchange]. *)
Definition exchange_command (issuer client_id client_secret : string) (subject_token : option string)
    (subject_token_stdin id_token : bool) (audience : string) (scope : option string) : C unit :=
  subject ← (if subject_token_stdin then read_line_from_stdin
             else or_other "provide --subject-token or --subject-token-stdin" subject_token);
  exchange_user_token issuer client_id client_secret subject id_token audience scope.

(** ** The registry file *)

(** [metadata(path).permissions().mode() & 0o777]; no warning when it is unreadable. *)
Definition registry_permission_warning (path : string) (registry : ClusterRegistry) : C (option Z) := fun w =>
  if negb (existsb (fun c => bool_decide (is_Some (ep_auth_token c)) && bool_decide (ep_auth_token_env c = None)) registry)
  then (Ok None, w)
  else
    match cw_files w !! path with
    | None => (Ok None, w)
    | Some f =>
        let mode := Z.land (fl_mode f) 511 in
        (Ok (if negb (Z.eqb (Z.land mode 63) 0) then Some mode else None), w)
    end.

Definition load_registry (parse : string -> option ClusterRegistry) (path : string) : C ClusterRegistry :=
  raw ← file_op (fun w => (fl_text <$> cw_files w !! path, w));
  text ← or_other "registry file" raw;
  match parse text with
  | None => st_err BadFile
  | Some registry =>
      warning ← registry_permission_warning path registry;
      _ ← (if bool_decide (is_Some warning) then say "registry is readable by others" else mret tt);
      env ← st_get cw_env;
      match resolve_auth_tokens env registry with
      | (Ok _, resolved) => mret resolved
      | (Err e, _) => st_err (InvalidRegistryFile e)
      end
  end.
End cli.

(** ** The first administrator *)

Section bootstrap.
Context `{Bcrypt} `{Paths}.

Record BootWorld := { bw_local : LocalWorld; bw_cli : CliWorld }.

Abbreviation B := (ST BootWorld CliError).

Definition on_local {A} (m : ST LocalWorld LocalAuthError A) : B A := fun w =>
  let '(r, l) := m (bw_local w) in (map_err LocalFailed r, {| bw_local := l; bw_cli := bw_cli w |}).
Definition on_cli {A} (m : ST CliWorld CliError A) : B A := fun w =>
  let '(r, c) := m (bw_cli w) in (r, {| bw_local := bw_local w; bw_cli := c |}).

(** [random_password]: [len] alphanumeric draws of the generator. *)
Definition random_password (samples : nat -> ascii) (len : nat) : string := str_of (samples <$> seq 0 len).

Definition bootstrap_local_admin (samples : nat -> ascii) (db : option string) : B unit :=
  users ← on_local (use_store list_local_users);
  match users with
  | _ :: _ => mret tt
  | [] =>
      env ← st_get (fun w => cw_env (bw_cli w) "MOBULA_LOCAL_ADMIN_PASSWORD");
      let given := match env with Some p => if is_empty p then None else Some p | None => None end in
      let password := default (random_password samples 20) given in
      hash ← on_local (hash_password password);
      now ← on_local LocalAuth.now_unix;
      _ ← on_local (use_store (create_local_user now "admin" None hash LAdmin));
      match given with
      | Some _ => mret tt
      | None =>
          _ ← (match db with
               | Some db =>
                   let pw_path := path_join (default "." (path_parent db))%string "local-admin-password" in
                   _ ← on_cli (open_truncate pw_path 384);
                   _ ← on_cli (append_text pw_path password);
                   on_cli (append_text pw_path (str_of ["010"%char]))
               | None => mret tt
               end);
          on_cli (say ("local auth bootstrap — admin password (shown once): " +:+ password))
      end
  end.
End bootstrap.
