(* ===== verification/CliFacts.v ===== *)
(** * What the command line does with time, files and passwords *)

From S2P Require Import Prelude Float64 Core Store StoreFacts Json Auth Oidc LocalAuth Registry AuthLayer Http ObsApi Flows Base64 Cli.
#[local] Open Scope Z_scope.

(** ** The device login *)

Section device.
Context `{Web} (token_ep client_id device_code : string).

Definition poll_request : WebRequest := web_form token_ep (poll_form client_id device_code).

(** What the provider answers to a poll after [sent]. *)
Definition poll_answer (sent : list WebRequest) : result FlowError DevicePoll :=
  fst (poll_device_token token_ep client_id device_code sent).

Lemma poll_sends sent : poll_device_token token_ep client_id device_code sent = (poll_answer sent, sent ++ [poll_request]).
Proof.
  unfold poll_answer. unfold poll_device_token. rewrite !ST_bind_eq. cbn [web_send].
  destruct (web_answer _ _) as [r|]; [|done]. destruct (is_success _).
  - rewrite !ST_bind_eq. by destruct (ws_json r ≫= token_of).
  - destruct (ws_json r ≫= error_of); [|done]. by repeat destruct (String.eqb _ _).
Qed.

(** The polls of a run: each a poll request, sent no sooner than the interval after
    the previous one (or the start), the interval growing by five seconds at every
    [slow_down]. *)
Fixpoint paced (since interval : Z) (sent : list WebRequest) (polls : list (Z * WebRequest)) : Prop :=
  match polls with
  | [] => True
  | (t, q) :: polls' =>
      q = poll_request /\ since + nanos interval <= t /\
      paced t (match poll_answer sent with Ok (Pending true) => interval + 5 | _ => interval end) (sent ++ [q]) polls'
  end.

Lemma on_flow_poll w :
  on_flow (poll_device_token token_ep client_id device_code) w =
  (map_err FlowFailed (poll_answer (snd <$> cw_sent w)),
   pass 0 (set_sent (cw_sent w ++ [(cw_now w, poll_request)]) w)).
Proof. unfold on_flow. rewrite poll_sends. by rewrite drop_app_length. Qed.

Definition polled (w : CliWorld) (interval deadline : Z) (r : result CliError TokenResponse) (w' : CliWorld) : Prop :=
  r <> Err OutOfFuel /\ r <> Err InstantOverflow /\
  exists polls, cw_sent w' = cw_sent w ++ polls /\ paced (cw_now w) interval (snd <$> cw_sent w) polls /\
    (polls <> [] -> (Z.of_nat (length polls) - 1) * nanos interval <= deadline - cw_now w) /\
    (forall t, r = Ok t -> exists sent, poll_answer sent = Ok (Ready t)).

Lemma paced_later s s' i i' sent polls : s <= s' -> i <= i' -> paced s' i' sent polls -> paced s i sent polls.
Proof.
  revert s s' i i' sent. induction polls as [|[t q] polls IH]; intros s s' i i' sent Hs Hi; [done|].
  cbn. intros (Hq & Ht & Hp). split_and!; [done|unfold nanos in *; lia|].
  eapply IH; [| |exact Hp]; [lia|]. destruct (poll_answer sent) as [[[]|]|]; lia.
Qed.

Lemma poll_loop_runs fuel w deadline interval :
  (0 < fuel)%nat -> (forall n, 0 <= cw_lag w n) -> 1 <= interval -> deadline - cw_now w < nanos (Z.of_nat fuel - 1) ->
  let '(r, w') := poll_loop fuel token_ep client_id device_code deadline interval w in polled w interval deadline r w'.
Proof.
  revert w interval. induction fuel as [|fuel IH]; [lia|]. intros w interval _ Hlag Hi Hd. cbn [poll_loop].
  rewrite ST_bind_eq. cbn [st_get]. destruct (Z.ltb_spec deadline (cw_now w)) as [Hlate|Htime].
  { cbn. split; [done|]. split; [done|]. exists []. rewrite app_nil_r. by split_and!. }
  rewrite ST_bind_eq. unfold sleep, st_put. rewrite ST_bind_eq, on_flow_poll.
  set (w1 := pass (nanos interval) w). set (w2 := pass 0 _).
  assert (Hn1 : cw_now w + nanos interval <= cw_now w1) by (cbn; pose proof (Hlag (cw_waits w)); lia).
  assert (Hn2 : cw_now w1 <= cw_now w2) by (cbn; pose proof (Hlag (S (cw_waits w))); lia).
  assert (Hs2 : cw_sent w2 = cw_sent w ++ [(cw_now w1, poll_request)]) by done.
  assert (Hone : forall r, r <> Err OutOfFuel -> r <> Err InstantOverflow -> (forall t, r = Ok t -> exists sent, poll_answer sent = Ok (Ready t)) ->
    polled w interval deadline r w2).
  { intros r Hr Hr' Ht. split; [done|]. split; [done|]. exists [(cw_now w1, poll_request)]. split_and!; [done|done| |done].
    cbn [length]. lia. }
  destruct (poll_answer (snd <$> cw_sent w1)) as [[sd|t]|e] eqn:Ha; cbn [map_err];
    [|apply Hone; [done|done|by intros t' [= <-]; eexists]|by apply Hone].
  destruct (decide (fuel = O)) as [->|Hf]; [unfold nanos in Hd; lia|].
  set (interval' := if sd then interval + 5 else interval).
  specialize (IH w2 interval' ltac:(lia) ltac:(done) ltac:(subst interval'; destruct sd; lia)).
  assert (Hge : interval <= interval') by (subst interval'; destruct sd; lia).
  assert (Hstep : nanos 1 <= nanos interval) by (unfold nanos; lia).
  specialize (IH ltac:(unfold nanos in *; lia)). destruct (poll_loop _ _ _ _ _ _ w2) as [r w'].
  destruct IH as (Hr & Hr' & polls & Hs & Hp & Hlen & Hok). split; [done|]. split; [done|].
  exists ((cw_now w1, poll_request) :: polls). rewrite Hs, Hs2, <- app_assoc. split_and!; [done| | |done].
  - cbn [paced]. split_and!; [done|done|]. eapply paced_later; [exact Hn2| |].
    2:{ rewrite Hs2, fmap_app in Hp. exact Hp. }
    change (snd <$> cw_sent w) with (snd <$> cw_sent w1). rewrite Ha. subst interval'. destruct sd; lia.
  - intros _. cbn [length]. rewrite Nat2Z.inj_succ. destruct polls as [|p polls]; [cbn; lia|].
    specialize (Hlen ltac:(done)).
    assert (nanos interval <= nanos interval') by (unfold nanos; lia).
    assert ((Z.of_nat (length (p :: polls)) - 1) * nanos interval <= (Z.of_nat (length (p :: polls)) - 1) * nanos interval')
      by (apply Z.mul_le_mono_nonneg_l; cbn [length]; lia). lia.
Qed.

End device.

(** C39. The device login ends. Whatever the provider answers and however long its
    answers and the sleeps take, the loop stops: it polls at most once more than
    the lifetime of the code holds intervals, never faster than the provider's
    interval (at least a second), five seconds slower after every [slow_down], and
    returns a token only when a poll was answered with it. A lifetime beyond the
    range of the clock is a panic before the first poll. *)
Theorem device_login_ends `{Web} token_ep client_id auth w :
  (forall n, 0 <= cw_lag w n) -> 0 <= da_expires_in auth ->
  let interval := Z.max (da_interval auth) 1 in
  let '(r, w') := await_token token_ep client_id auth w in
  r <> Err OutOfFuel /\
  (r = Err InstantOverflow /\ w' = w <-> MAX_INSTANT < cw_now w + nanos (da_expires_in auth)) /\
  exists polls, cw_sent w' = cw_sent w ++ polls /\ paced token_ep client_id (da_device_code auth) (cw_now w) interval (snd <$> cw_sent w) polls /\
    Z.of_nat (length polls) <= da_expires_in auth / interval + 1 /\
    (forall t, r = Ok t -> exists sent, poll_answer token_ep client_id (da_device_code auth) sent = Ok (Ready t)).
Proof.
  intros Hlag He interval. unfold await_token. rewrite ST_bind_eq. cbn [st_get].
  destruct (Z.ltb_spec MAX_INSTANT (cw_now w + nanos (da_expires_in auth))) as [Hover|Hfits].
  { cbn. split_and!; [done|done|]. exists []. rewrite app_nil_r. split_and!; [done|done| |done].
    cbn. assert (0 <= da_expires_in auth / interval) by (apply Z.div_pos; lia). lia. }
  pose proof (poll_loop_runs token_ep client_id (da_device_code auth) (S (S (Z.to_nat (da_expires_in auth)))) w (cw_now w + nanos (da_expires_in auth)) interval
    ltac:(lia) Hlag ltac:(lia) ltac:(unfold nanos; lia)) as Hrun.
  destruct (poll_loop _ _ _ _ _ _ w) as [r w'].
  destruct Hrun as (Hr & Hr' & polls & Hs & Hp & Hlen & Hok). split_and!; [done|by split; [intros []|lia]|].
  exists polls. split_and!; [done|done| |done]. destruct polls as [|p polls].
  { cbn. assert (0 <= da_expires_in auth / interval) by (apply Z.div_pos; lia). lia. }
  specialize (Hlen ltac:(done)). assert (Z.of_nat (length (p :: polls)) - 1 <= da_expires_in auth / interval); [|lia].
  apply Z.div_le_lower_bound; [lia|]. unfold nanos in Hlen. lia.
Qed.

(** ** Files *)

(** A step that only talks and waits. *)
Definition quiet (w w' : CliWorld) : Prop :=
  cw_files w' = cw_files w /\ cw_env w' = cw_env w /\ cw_io w' = cw_io w /\ cw_ios w' = cw_ios w /\
  cw_default_mode w' = cw_default_mode w /\ cw_unix w' = cw_unix w.
#[export] Instance quiet_preorder : PreOrder quiet.
Proof. unfold quiet. split; [done|]. intros a b c. naive_solver congruence. Qed.

Definition talks {E A} (m : ST CliWorld E A) : Prop := forall w, quiet w (snd (m w)).

Lemma talks_ret {E A} (a : A) : talks (E := E) (mret a).
Proof. done. Qed.
Lemma talks_err {E A} (e : E) : talks (A := A) (st_err e).
Proof. done. Qed.
Lemma talks_bind {E A B} (m : ST CliWorld E A) (f : A -> ST CliWorld E B) :
  talks m -> (forall a, talks (f a)) -> talks (m ≫= f).
Proof.
  intros Hm Hf w. rewrite ST_bind_eq. pose proof (Hm w) as Hq. destruct (m w) as [[a|e] w1]; [|done].
  cbn in Hq. etrans; [exact Hq|]. apply Hf.
Qed.
Lemma talks_get {E A} (f : CliWorld -> A) : talks (E := E) (st_get f).
Proof. done. Qed.

Section files.
Context `{Web} `{JsonText} `{Paths} `{CredText}.

Lemma talks_flow {A} (m : ST (list WebRequest) FlowError A) : talks (on_flow m).
Proof. intros w. unfold on_flow. by destruct (m _). Qed.
Lemma talks_say s : talks (say s).
Proof. done. Qed.
Lemma talks_or_other {A} t (o : option A) : talks (or_other t o).
Proof. by destruct o. Qed.
Lemma talks_relogin {A} (m : ST CliWorld CliError A) : talks m -> talks (or_relogin m).
Proof. intros Hm w. pose proof (Hm w) as Hq. unfold or_relogin. by destruct (m w). Qed.

Lemma talks_poll fuel a b c d i : talks (poll_loop fuel a b c d i).
Proof.
  revert i. induction fuel as [|fuel IH]; intros i; cbn [poll_loop]; [apply talks_err|].
  apply talks_bind; [apply talks_get|]. intros now. destruct (Z.ltb _ _); [apply talks_err|].
  apply talks_bind; [done|]. intros _. apply talks_bind; [apply talks_flow|]. intros [sd|t]; [apply IH|apply talks_ret].
Qed.

Lemma talks_await a b c : talks (await_token a b c).
Proof. apply talks_bind; [apply talks_get|]. intros now. cbv zeta. destruct (Z.ltb _ _); [apply talks_err|apply talks_poll]. Qed.

Lemma credentials_path_quiet w w' : cw_env w' = cw_env w -> fst (credentials_path w') = fst (credentials_path w).
Proof. unfold credentials_path. intros ->. destruct (cw_env w "MOBULA_CONFIG_DIR"); [done|]. by destruct (cw_env w "HOME"). Qed.

Lemma credentials_path_pure w r w' : credentials_path w = (r, w') -> w' = w.
Proof. unfold credentials_path. destruct (cw_env w _); [by intros [= _ <-]|]. destruct (cw_env w _); by intros [= _ <-]. Qed.

(** The file at [path] after a write of [text]: what it was, empty, or the text under
    0600; the other files stay. *)
Definition written (path text : string) (w w' : CliWorld) : Prop :=
  cw_env w' = cw_env w /\ cw_unix w' = cw_unix w /\ (forall p, p <> path -> cw_files w' !! p = cw_files w !! p) /\
  (cw_files w' !! path = cw_files w !! path \/
   exists f, cw_files w' !! path = Some f /\ (fl_text f = EmptyString \/ fl_text f = text /\ fl_mode f = 384)).

Lemma save_credentials_writes creds w r w' path :
  fst (credentials_path w) = Ok path -> save_credentials creds w = (r, w') ->
  written path (creds_json creds) w w' /\
  (r = Ok tt -> cw_files w' !! path = Some {| fl_mode := 384; fl_text := creds_json creds |}).
Proof.
  intros Hp. unfold save_credentials. rewrite ST_bind_eq.
  destruct (credentials_path w) as [rp wp] eqn:Ep. cbn in Hp. subst rp. apply credentials_path_pure in Ep as ->.
  rewrite ST_bind_eq.
  assert (Hstart : forall w1, cw_env w1 = cw_env w -> cw_unix w1 = cw_unix w -> cw_files w1 = cw_files w ->
    forall r w', (mode ← st_get cw_default_mode; _ ← open_truncate path mode; _ ← set_mode path 384;
      append_text path (creds_json creds)) w1 = (r, w') ->
    written path (creds_json creds) w w' /\
    (r = Ok tt -> cw_files w' !! path = Some {| fl_mode := 384; fl_text := creds_json creds |})).
  { intros w1 He Hu Hf r1 w2. unfold open_truncate, set_mode, append_text, file_op, mbind, ST_bind, st_get.
    destruct (cw_io w1 _); [|intros [= <- <-]; split; [|done]; split_and!; [done|done|by intros; cbn; rewrite Hf|left; cbn; by rewrite Hf]].
    cbn. destruct (cw_io w1 _); cbn.
    2:{ intros [= <- <-]. split; [|done]. split_and!; [done|done|intros p Hne; cbn; by rewrite lookup_insert_ne, Hf|].
        right. cbn. rewrite lookup_insert_eq. eexists. split; [done|by left]. }
    destruct (cw_io w1 _); cbn; intros [= <- <-]; (split; [split_and!; [done|done|intros p Hne; cbn|right; cbn]|]).
    - by rewrite !lookup_alter_ne, lookup_insert_ne, Hf.
    - rewrite !lookup_alter_eq, lookup_insert_eq. eexists. split; [done|by right].
    - intros _. cbn. by rewrite !lookup_alter_eq, lookup_insert_eq.
    - by rewrite !lookup_alter_ne, lookup_insert_ne, Hf.
    - rewrite !lookup_alter_eq, lookup_insert_eq. eexists. split; [done|by left].
    - done. }
  destruct (path_parent path).
  - unfold file_op at 1. destruct (cw_io w _); [by apply Hstart|]. intros [= <- <-]. split; [|done].
    split_and!; [done|done|done|by left].
  - by apply Hstart.
Qed.

Lemma load_credentials_reads w path : fst (credentials_path w) = Ok path -> cw_io w (cw_ios w) = true ->
  load_credentials w = (match cw_files w !! path with
    | None => Err (Other "no stored credentials")
    | Some f => match creds_parse (fl_text f) with Some c => Ok c | None => Err BadFile end
    end, count_io w).
Proof.
  intros Hp Hio. unfold load_credentials. rewrite ST_bind_eq.
  destruct (credentials_path w) as [rp wp] eqn:Ep. cbn in Hp. subst rp. apply credentials_path_pure in Ep as ->.
  rewrite ST_bind_eq. unfold file_op. rewrite Hio. cbn. destruct (cw_files w !! path) as [f|]; cbn; [|done].
  by destruct (creds_parse _).
Qed.

(** ** Handing out tokens *)

(** What a refresh does: nothing to the files, or a save of what the provider gave. *)
Definition refreshed_creds (creds : Credentials) (t : TokenResponse) : Credentials := {|
  cr_access_token := tr_access_token t;
  cr_refresh_token := match tr_refresh_token t with Some r => Some r | None => cr_refresh_token creds end;
  cr_issuer := cr_issuer creds; cr_client_id := cr_client_id creds |}.

Definition prints (w w' : CliWorld) (l : list string) : Prop := cw_out w' = cw_out w ++ l.

Lemma flow_prints {A} (m : ST (list WebRequest) FlowError A) w : cw_out (snd (on_flow m w)) = cw_out w.
Proof. unfold on_flow. by destruct (m _). Qed.

Lemma save_prints creds w : cw_out (snd (save_credentials creds w)) = cw_out w.
Proof.
  unfold save_credentials. rewrite ST_bind_eq. destruct (credentials_path w) as [[path|e] w0] eqn:Ep;
    apply credentials_path_pure in Ep as ->; [|done].
  rewrite ST_bind_eq. unfold open_truncate, set_mode, append_text, file_op, mbind, ST_bind, st_get.
  destruct (path_parent path); cbn; repeat (destruct (cw_io w _); cbn); done.
Qed.

Lemma relogin_other {A} text (o : option A) w :
  or_relogin (or_other text o) w = (match o with Some x => Ok x | None => Err re_login end, w).
Proof. by destruct o. Qed.

(** Either it stops with the request to log in again, or the provider's token is saved and printed. *)
Lemma refresh_cases creds w r w' : refresh_stored_token creds w = (r, w') ->
  r = Err re_login /\ quiet w w' /\ cw_out w' = cw_out w \/
  exists t w1 sr w2, quiet w w1 /\ cw_out w1 = cw_out w /\
    save_credentials (refreshed_creds creds t) w1 = (sr, w2) /\
    (r, w') = match sr with Ok _ => (Ok tt, print (tr_access_token t) w2) | Err e => (Err e, w2) end.
Proof.
  unfold refresh_stored_token. destruct (cr_refresh_token creds) as [refresh|] eqn:Hrt; [|intros [= <- <-]; by left].
  rewrite ST_bind_eq. unfold or_relogin at 1.
  pose proof (talks_flow (discover_metadata (cr_issuer creds)) w) as Hq1.
  pose proof (flow_prints (discover_metadata (cr_issuer creds)) w) as Ho1.
  destruct (on_flow (discover_metadata (cr_issuer creds)) w) as [[meta|e] w1]; cbn [map_err snd] in *;
    [|intros [= <- <-]; by left].
  rewrite ST_bind_eq. unfold token_endpoint_of. rewrite relogin_other.
  destruct (md_token_endpoint meta) as [ep|]; [|intros [= <- <-]; by left].
  rewrite ST_bind_eq. unfold send_request.
  match goal with |- context [on_flow (web_send ?q) w1] =>
    pose proof (talks_flow (web_send q) w1) as Hq2; pose proof (flow_prints (web_send q) w1) as Ho2;
    destruct (on_flow (web_send q) w1) as [[res|e] w2] eqn:Es end; cbn [snd] in *.
  2:{ unfold on_flow, web_send in Es. cbn in Es. done. }
  assert (Hq : quiet w w2) by (by etrans). assert (Ho : cw_out w2 = cw_out w) by congruence.
  rewrite ST_bind_eq, relogin_other. destruct res as [resp|]; [|intros [= <- <-]; by left].
  destruct (is_success (ws_status resp)); cbn [negb]; [|intros [= <- <-]; by left].
  rewrite ST_bind_eq, relogin_other. destruct (ws_json resp ≫= token_of) as [t|]; [|intros [= <- <-]; by left].
  rewrite ST_bind_eq. intros Hr. right. exists t, w2.
  unfold refreshed_creds. rewrite Hrt. destruct (save_credentials _ w2) as [sr w3]. exists sr, w3. split_and!; [done|done|done|].
  by destruct sr as [[]|].
Qed.

(** [mobula token] without service credentials. It prints at most one line, and
    only when it succeeds; that line is the stored token while it has not expired,
    or the one the provider just gave, which is then the stored one, under 0600,
    with the old refresh token unless it was replaced. Asking the user to log in
    again never touches the stored credentials, and no other file ever changes. *)
Theorem token_command_spec `{!CredTextLaws} client_id client_secret scope path f creds w r w' :
  fst (credentials_path w) = Ok path -> cw_io w (cw_ios w) = true ->
  cw_files w !! path = Some f -> creds_parse (fl_text f) = Some creds ->
  token_command None client_id client_secret scope w = (r, w') ->
  (forall p, p <> path -> cw_files w' !! p = cw_files w !! p) /\
  (r = Err re_login -> cw_files w' = cw_files w) /\
  match r with
  | Err _ => cw_out w' = cw_out w
  | Ok _ =>
      stored_token_action creds (cw_unix w) = Valid /\ prints w w' [cr_access_token creds] /\ cw_files w' = cw_files w \/
      stored_token_action creds (cw_unix w) = Refresh /\ exists t, prints w w' [tr_access_token t] /\
        cw_files w' !! path = Some {| fl_mode := 384; fl_text := creds_json (refreshed_creds creds t) |} /\
        creds_parse (creds_json (refreshed_creds creds t)) = Some (refreshed_creds creds t)
  end.
Proof.
  intros Hp Hio Hf Hc. unfold token_command. rewrite ST_bind_eq, (load_credentials_reads w path Hp Hio), Hf, Hc.
  rewrite ST_bind_eq. cbn [st_get]. change (cw_unix (count_io w)) with (cw_unix w).
  destruct (stored_token_action creds (cw_unix w)) eqn:Ha.
  - intros [= <- <-]. split_and!; [done|done|]. left. by split_and!.
  - intros Hr. apply refresh_cases in Hr as [(-> & Hq & Ho)|(t & w1 & sr & w2 & Hq & Ho & Hs & Hr)].
    { destruct Hq as (Hfiles & _). split_and!; [by intros; rewrite Hfiles|by rewrite Hfiles|done]. }
    destruct Hq as (Hfiles & Henv & _). cbn in Hfiles, Henv, Ho.
    pose proof (save_prints (refreshed_creds creds t) w1) as Hout. rewrite Hs in Hout. cbn in Hout.
    destruct (save_credentials_writes (refreshed_creds creds t) w1 sr w2 path) as [(_ & _ & Hother & _) Hok];
      [by rewrite (credentials_path_quiet w w1)|done|].
    destruct sr as [[]|e]; injection Hr as -> ->.
    + split_and!; [intros p Hne; cbn; by rewrite Hother, Hfiles|done|]. right. split; [done|]. exists t.
      split_and!; [unfold prints; cbn; by rewrite Hout, Ho|by apply Hok|apply creds_round_trip].
    + split_and!; [intros p Hne; by rewrite Hother, Hfiles| |by rewrite Hout, Ho].
      intros [= ->]. exfalso. clear -Hs. revert Hs. unfold save_credentials. rewrite ST_bind_eq.
      destruct (credentials_path w1) as [[pp|e] w0] eqn:Ep.
      2:{ intros [= -> _]. revert Ep. unfold credentials_path. destruct (cw_env w1 _); [done|]. by destruct (cw_env w1 _). }
      rewrite ST_bind_eq. unfold open_truncate, set_mode, append_text, file_op, mbind, ST_bind, st_get.
      destruct (path_parent pp); cbn; repeat (destruct (cw_io w0 _); cbn); done.
  - intros [= <- <-]. split_and!; done.
Qed.
End files.

(** ** The first administrator *)

Section admin.
Context `{BcryptLaws} `{Paths}.
Abbreviation user_row w name := (m_local_users (lw_store w) !! (name : string)).

Lemma store_token_fails username label expires w e :
  fst (store_token username label expires w) = Err e -> exists m, e = LBackend m.
Proof.
  unfold store_token, mint_token_parts, hash_password, LocalAuth.now_unix, use_store, lstore, create_api_token.
  unfold mbind, ST_bind, st_get, st_put, st_err, mret, ST_ret. cbn.
  destruct (bcrypt_hash _ _); cbn; [|intros [= <-]; by eexists].
  destruct (m_api_tokens _ !! _); cbn; [intros [= <-]; by eexists|done].
Qed.

(** An enabled, unlocked user with the right password is not turned away. *)
Lemma login_not_refused ttl name password w u :
  user_row w name = Some u -> lu_disabled u = false -> lu_locked_until u = None ->
  bcrypt_verify password (lu_password_hash u) = Some true ->
  match fst (LocalAuth.login ttl name password w) with
  | Ok o => lo_identity o = identity_of u
  | Err e => exists m, e = LBackend m
  end.
Proof.
  intros Hu Hd Hl Hv. unfold LocalAuth.login. rewrite ST_bind_eq, get_user_eq, Hu, Hd.
  rewrite ST_bind_eq. cbn [LocalAuth.now_unix]. rewrite Hl. cbn [is_some_and]. rewrite ST_bind_eq. cbn [verify_password].
  rewrite Hv. cbn [default id negb]. rewrite ST_bind_eq. unfold record_login_success. erewrite set_lockout_eq by exact Hu.
  cbv beta iota zeta. rewrite ST_bind_eq. set (w1 := set_lw_store _ _).
  pose proof (store_token_fails name "login" (u64_add (lw_clock w (lw_reads w)) ttl) w1) as Hf.
  destruct (store_token _ _ _ w1) as [[tok|e] w2]; cbn; [done|by apply Hf].
Qed.

Definition admin_row (now : Z) (hash : string) : LocalUserRecord := {|
  lu_username := "admin"; lu_email := None; lu_password_hash := hash; lu_role := LAdmin; lu_disabled := false;
  lu_created_at := now; lu_failed_logins := 0; lu_locked_until := None |}.

Lemma no_users_list (s : InMemoryStore) :
  match fst (list_local_users s) with Ok [] => m_local_users s = ∅ | Ok (_ :: _) => m_local_users s <> ∅ | Err _ => False end.
Proof.
  unfold list_local_users, st_get. cbn. set (l := sort_stable _ _).
  assert (Hp : l ≡ₚ map_values (m_local_users s)) by apply sort_stable_perm.
  destruct l as [|u l].
  - apply Permutation_nil_l in Hp. unfold map_values in Hp. destruct (map_to_list (m_local_users s)) eqn:E; [|done].
    by apply map_to_list_empty_iff in E.
  - intros He. rewrite He in Hp. unfold map_values in Hp. rewrite map_to_list_empty in Hp. by apply Permutation_nil_r in Hp.
Qed.

(** The password file: its text is the password and a line break, its mode is 0600
    when the file is new and what it was when it is not. *)
Definition password_file (old : option File) (password : string) : File := {|
  fl_mode := match old with Some f => fl_mode f | None => 384 end; fl_text := password +:+ nl |}.

Lemma write_password path password w r w' :
  (_ ← on_cli (open_truncate path 384); _ ← on_cli (append_text path password); on_cli (append_text path nl)) w = (r, w') ->
  r = Ok tt -> bw_local w' = bw_local w /\ cw_out (bw_cli w') = cw_out (bw_cli w) /\
    cw_files (bw_cli w') !! path = Some (password_file (cw_files (bw_cli w) !! path) password).
Proof.
  unfold open_truncate, append_text, on_cli, file_op, mbind, ST_bind.
  destruct (cw_io (bw_cli w) _); cbn; [|by intros [= <- _]].
  destruct (cw_io (bw_cli w) _); cbn; [|by intros [= <- _]].
  destruct (cw_io (bw_cli w) _); cbn; [|by intros [= <- _]].
  intros [= <- <-] _. split_and!; [done|done|]. cbn. rewrite !lookup_alter_eq, lookup_insert_eq. cbn. done.
Qed.

Lemma on_local_run {A} (m : ST LocalWorld LocalAuthError A) w :
  on_local m w = (map_err LocalFailed (fst (m (bw_local w))), {| bw_local := snd (m (bw_local w)); bw_cli := bw_cli w |}).
Proof. unfold on_local. by destruct (m _). Qed.

Lemma list_users_run w :
  on_local (use_store list_local_users) w =
  (map_err (fun e => LocalFailed (LBackend (store_error_text e))) (fst (list_local_users (lw_store (bw_local w)))), w).
Proof. by destruct w as [[] ?]. Qed.

Lemma create_admin now hash w :
  m_local_users (lw_store (bw_local w)) = ∅ ->
  on_local (use_store (create_local_user now "admin" None hash LAdmin)) w =
  (Ok tt, {| bw_local := set_lw_store (set_local_users {["admin"%string := admin_row now hash]} (lw_store (bw_local w))) (bw_local w);
             bw_cli := bw_cli w |}).
Proof.
  intros He. unfold on_local, use_store, lstore, create_local_user, mbind, ST_bind, st_get, st_put. cbn.
  by rewrite He, lookup_empty.
Qed.

(** The bootstrap of local accounts. With users in the store it changes nothing;
    on an empty store, when it succeeds there is exactly one user, [admin], an
    administrator whose login with the bootstrap password is not turned away. That
    password is the one of the environment, or a random one the operator is shown,
    which is then also in the file beside the database. *)
Theorem bootstrap_admin_can_log_in ttl samples db w w' :
  bootstrap_local_admin samples db w = (Ok tt, w') ->
  (m_local_users (lw_store (bw_local w)) <> ∅ -> w' = w) /\
  (m_local_users (lw_store (bw_local w)) = ∅ -> exists password now hash,
     m_local_users (lw_store (bw_local w')) = {["admin"%string := admin_row now hash]} /\
     match fst (LocalAuth.login ttl "admin" password (bw_local w')) with
     | Ok o => id_roles (lo_identity o) = [Admin]
     | Err e => exists m, e = LBackend m
     end /\
     (cw_env (bw_cli w) "MOBULA_LOCAL_ADMIN_PASSWORD" = Some password /\ password <> EmptyString /\ bw_cli w' = bw_cli w \/
      password = random_password samples 20 /\
      cw_out (bw_cli w') = cw_out (bw_cli w) ++ ["local auth bootstrap — admin password (shown once): " +:+ password]%string /\
      forall d, db = Some d ->
        let path := path_join (default "." (path_parent d))%string "local-admin-password" in
        cw_files (bw_cli w') !! path = Some (password_file (cw_files (bw_cli w) !! path) password))).
Proof.
  intros Hb. unfold bootstrap_local_admin in Hb. rewrite ST_bind_eq in Hb.
  pose proof (no_users_list (lw_store (bw_local w))) as Hu.
  rewrite list_users_run in Hb. destruct (list_local_users (lw_store (bw_local w))) as [[users|e] s] eqn:El; [|done].
  cbn [fst map_err] in Hb, Hu.
  destruct users as [|u users]; [|injection Hb as <-; split; [done|by intros]]. split; [by intros|]. intros _.
  rewrite ST_bind_eq in Hb. cbn [st_get] in Hb. cbv zeta in Hb.
  set (given := match cw_env (bw_cli w) _ with Some p => _ | None => None end) in *.
  set (password := default (random_password samples 20) given) in *.
  rewrite ST_bind_eq, on_local_run in Hb. unfold hash_password in Hb.
  destruct (bcrypt_hash (lw_bcrypts (bw_local w)) password) as [hash|] eqn:Eh; [|done]. cbn [map_err fst snd] in Hb.
  rewrite ST_bind_eq, on_local_run in Hb. cbn [map_err LocalAuth.now_unix fst snd bw_local bw_cli] in Hb.
  rewrite ST_bind_eq, create_admin in Hb by done. cbn [bw_local bw_cli] in Hb.
  match type of Hb with context [Build_BootWorld ?l (bw_cli w)] => set (lw := l) in * end.
  set (now := lw_clock (bw_local w) (lw_reads (bw_local w))) in *.
  assert (Hrow : m_local_users (lw_store lw) = {["admin"%string := admin_row now hash]}) by done.
  assert (Hlogin : match fst (LocalAuth.login ttl "admin" password lw) with
     | Ok o => id_roles (lo_identity o) = [Admin] | Err e => exists m, e = LBackend m end).
  { pose proof (login_not_refused ttl "admin" password lw (admin_row now hash)) as Hn.
    specialize (Hn ltac:(by rewrite Hrow, lookup_singleton_eq) eq_refl eq_refl ltac:(by eapply bcrypt_verify_hash)).
    destruct (fst _) as [o|e]; [by rewrite Hn|done]. }
  exists password, now, hash. destruct given as [p|] eqn:Eg.
  - injection Hb as <-. split_and!; [done|done|]. left. subst password. cbn [default].
    unfold given in Eg. destruct (cw_env _ _) as [q|]; [|done]. destruct q; [done|]. by injection Eg as <-.
  - apply ST_bind_Ok in Hb as ([] & w1 & Hfile & Hsay). injection Hsay as <-. cbn [bw_local bw_cli].
    assert (Hf : bw_local w1 = lw /\ cw_out (bw_cli w1) = cw_out (bw_cli w) /\ forall d, db = Some d ->
      let path := path_join (default "." (path_parent d))%string "local-admin-password" in
      cw_files (bw_cli w1) !! path = Some (password_file (cw_files (bw_cli w) !! path) password)).
    { destruct db as [d|]; [|injection Hfile as <-; by split_and!].
      apply write_password in Hfile as (Hl & Ho & Hf); [|done]. cbn [bw_local bw_cli] in *.
      split_and!; [done|done|]. by intros d' [= <-]. }
    destruct Hf as (-> & Ho & Hf). split_and!; [done|done|]. right. split_and!; [done|by cbn; rewrite Ho|done].
Qed.
End admin.

Module CliRuns.
#[local] Instance paths : Paths := {| path_join := fun a b => a +:+ "/" +:+ b; path_parent := fun _ => Some "/data"%string |}.

(** A clock that lags a tenth of a second at every wait, and a home directory. *)
Definition start : CliWorld := {|
  cw_sent := []; cw_now := 0; cw_unix := 50; cw_lag := fun _ => 10 ^ 8; cw_waits := 0; cw_files := ∅;
  cw_io := fun _ => true; cw_ios := 0; cw_default_mode := 420;
  cw_env := fun v => if String.eqb v "HOME" then Some "/home/u"%string else None; cw_stdin := []; cw_out := [] |}.

(** *** The device grant *)

Definition grant (lifetime : Z) : DeviceAuthorization := {|
  da_device_code := "dc"; da_user_code := "AB-CD"; da_verification_uri := "https://idp/device";
  da_verification_uri_complete := None; da_expires_in := lifetime; da_interval := 5 |}.
Definition pending (error : string) : WebResponse := {| ws_status := 400; ws_json := Some (JObj [("error"%string, JStr error)]) |}.
Definition issued (token : string) : WebResponse := {| ws_status := 200; ws_json := Some (JObj [("access_token"%string, JStr token)]) |}.
(** Pending, too fast, a blip, then approved. *)
#[local] Instance patient : Web := fun sent _ =>
  match length sent with
  | O => Some (pending "authorization_pending") | 1%nat => Some (pending "slow_down")
  | 2%nat => None | _ => Some (issued "tok") end.

Lemma device_login_ends_witness :
  exists t w', await_token "ep" "cli" (grant 600) start = (Ok t, w') /\ tr_access_token t = "tok"%string /\
    Z.of_nat (length (cw_sent w')) <= 600 / 5 + 1.
Proof.
  pose proof (device_login_ends "ep" "cli" (grant 600) start ltac:(intros; cbn; lia) ltac:(cbn; lia)) as Hd.
  cbv zeta in Hd. destruct (await_token "ep" "cli" (grant 600) start) as [r w'] eqn:Hr.
  destruct Hd as (_ & _ & polls & Hs & _ & Hlen & _). destruct r as [t|e]; [|vm_compute in Hr; discriminate Hr].
  exists t, w'. split; [reflexivity|]. split; [vm_compute in Hr; by injection Hr as <- _|].
  rewrite Hs. cbn [start cw_sent app]. exact Hlen.
Defined.

(** A code said to live for 2^63 seconds ends the program. *)
Lemma endless_code_panics : fst (await_token "ep" "cli" (grant (2 ^ 63)) start) = Err InstantOverflow.
Proof. vm_compute. reflexivity. Qed.

(** *** Tokens *)

(** A plain encoding of the credentials file: every byte is marked, every field ends
    with a dot, an absent field is a dash. *)
Fixpoint put_field (l : list ascii) : list ascii :=
  match l with [] => ["."%char] | c :: l' => "x"%char :: c :: put_field l' end.
Fixpoint take_field (l : list ascii) : option (list ascii * list ascii) :=
  match l with
  | m :: l' =>
      if Ascii.eqb m "." then Some ([], l')
      else match l' with c :: l'' => '(a, r) ← take_field l''; Some (c :: a, r) | [] => None end
  | [] => None
  end.
Definition put_opt (o : option string) : list ascii :=
  match o with Some s => "+"%char :: put_field (bytes_of s) | None => ["-"%char] end.
Definition take_opt (l : list ascii) : option (option string * list ascii) :=
  match l with
  | t :: l' => if Ascii.eqb t "-" then Some (None, l') else '(a, r) ← take_field l'; Some (Some (str_of a), r)
  | [] => None
  end.
#[local] Instance cred_text : CredText := {|
  creds_json := fun c => str_of (put_field (bytes_of (cr_access_token c)) ++ put_opt (cr_refresh_token c)
    ++ put_field (bytes_of (cr_issuer c)) ++ put_opt (cr_client_id c));
  creds_parse := fun s =>
    '(token, r1) ← take_field (bytes_of s); '(refresh, r2) ← take_opt r1; '(issuer, r3) ← take_field r2;
    '(client, _) ← take_opt r3;
    Some {| cr_access_token := str_of token; cr_refresh_token := refresh; cr_issuer := str_of issuer; cr_client_id := client |} |}.
Lemma take_put l r : take_field (put_field l ++ r) = Some (l, r).
Proof. induction l as [|c l IH]; cbn; [done|]. by rewrite IH. Qed.
Lemma take_put_opt o r : take_opt (put_opt o ++ r) = Some (o, r).
Proof. destruct o as [s|]; cbn; [|done]. rewrite take_put. cbn. by rewrite str_of_bytes_of. Qed.
#[local] Instance cred_text_laws : CredTextLaws.
Proof.
  intros [token refresh issuer client]. cbn. rewrite bytes_of_str_of, take_put. cbn. rewrite take_put_opt. cbn.
  rewrite take_put. cbn. rewrite <- (app_nil_r (put_opt client)), take_put_opt. cbn. by rewrite !str_of_bytes_of.
Qed.
#[local] Instance no_json : JsonText := fun _ => None.

(** Without a check of the provider's metadata, a service's secret goes to whatever
    endpoint a cleartext issuer names. *)
Definition hostile : Web := fun sent _ =>
  match sent with
  | [] => Some {| ws_status := 200; ws_json := Some (JObj [("issuer", JStr "https://other"); ("jwks_uri", JStr "x");
            ("token_endpoint", JStr "http://evil/token")]%string) |}
  | _ => Some (issued "t") end.
Lemma secret_follows_metadata :
  let '(r, w') := @service_token hostile "http://idp" "svc" "secret" None start in
  r = Ok tt /\ exists q, last (cw_sent w') = Some q /\ wq_url (snd q) = "http://evil/token"%string /\
    ("client_secret", "secret")%string ∈ wq_form (snd q).
Proof.
  vm_compute. split; [done|]. eexists. split; [done|]. split; [done|]. right. right. left.
Qed.

(** An opaque token, stored by an earlier login. *)
Definition kept : Credentials := {|
  cr_access_token := "mob_abc"; cr_refresh_token := None; cr_issuer := "https://mobula"; cr_client_id := None |}.
Definition logged_in : CliWorld := snd (save_credentials kept start).

Lemma token_command_spec_witness :
  exists w', token_command None None None None logged_in = (Ok tt, w') /\ cw_out w' = ["mob_abc"%string].
Proof.
  destruct (token_command None None None None logged_in) as [r w'] eqn:Hr.
  assert (r = Ok tt) as -> by (vm_compute in Hr; by injection Hr as <- _).
  pose proof (@token_command_spec patient no_json paths cred_text cred_text_laws None None None "/home/u/.config/mobula/credentials.json"
    {| fl_mode := 384; fl_text := creds_json kept |} kept logged_in (Ok tt) w' ltac:(vm_compute; reflexivity)
    ltac:(vm_compute; reflexivity) ltac:(vm_compute; reflexivity) ltac:(vm_compute; reflexivity) Hr) as (_ & _ & Hcase).
  exists w'. split; [reflexivity|]. destruct Hcase as [(_ & Hp & _)|(Ha & _)]; [exact Hp|].
  vm_compute in Ha. discriminate Ha.
Defined.

(** *** The bootstrap *)

#[local] Existing Instance plain_bcrypt.
#[local] Existing Instance plain_bcrypt_laws.
Definition boot (files : gmap string File) (io : nat -> bool) : BootWorld := {|
  bw_local := {| lw_store := empty_store; lw_clock := fun n => 1000 + Z.of_nat n; lw_reads := 0;
    lw_rng := fun _ => demo_draw; lw_draws := 0; lw_bcrypts := 0 |};
  bw_cli := {| cw_sent := []; cw_now := 0; cw_unix := 50; cw_lag := fun _ => 0; cw_waits := 0; cw_files := files;
    cw_io := io; cw_ios := 0; cw_default_mode := 420; cw_env := fun _ => None; cw_stdin := []; cw_out := [] |} |}.
Definition draws (n : nat) : ascii := "k"%char.

Lemma bootstrap_admin_can_log_in_witness :
  exists w' password, bootstrap_local_admin draws (Some "/data/m.db"%string) (boot ∅ (fun _ => true)) = (Ok tt, w') /\
    match fst (LocalAuth.login 3600 "admin" password (bw_local w')) with
    | Ok o => id_roles (lo_identity o) = [Admin] | Err e => exists m, e = LBackend m end /\
    cw_files (bw_cli w') !! "/data/local-admin-password"%string = Some {| fl_mode := 384; fl_text := password +:+ nl |}.
Proof.
  destruct (bootstrap_local_admin draws (Some "/data/m.db"%string) (boot ∅ (fun _ => true))) as [[[]|e] w'] eqn:Hb;
    [|vm_compute in Hb; discriminate Hb].
  destruct (proj2 (bootstrap_admin_can_log_in 3600 draws (Some "/data/m.db"%string) (boot ∅ (fun _ => true)) w' Hb) eq_refl)
    as (password & now & hash & _ & Hl & [(He & _)|(_ & _ & Hf)]); [cbn in He; discriminate He|].
  exists w', password. split; [reflexivity|]. split; [exact Hl|]. exact (Hf _ eq_refl).
Defined.

(** A password file that is there already keeps its mode: the new password is in a
    file anyone can read. *)
Lemma existing_password_file_stays_readable :
  let w' := snd (bootstrap_local_admin draws (Some "/data/m.db"%string)
    (boot {["/data/local-admin-password"%string := {| fl_mode := 420; fl_text := "old" |}]} (fun _ => true))) in
  fl_mode <$> cw_files (bw_cli w') !! "/data/local-admin-password"%string = Some 420.
Proof. vm_compute. reflexivity. Qed.

(** When the file cannot be opened the account exists already: the start fails
    without a word about the password, and the next one does not bootstrap. *)
Lemma admin_password_is_lost :
  let '(r1, w1) := bootstrap_local_admin draws (Some "/data/m.db"%string) (boot ∅ (fun n => negb (Nat.eqb n 0))) in
  let '(r2, w2) := bootstrap_local_admin draws (Some "/data/m.db"%string) w1 in
  r1 = Err IoFailed /\ r2 = Ok tt /\ cw_out (bw_cli w2) = [] /\ cw_files (bw_cli w2) = ∅ /\
  is_Some (m_local_users (lw_store (bw_local w2)) !! "admin"%string).
Proof. vm_compute. split_and!; [done..|]. by eexists. Qed.
End CliRuns.
