(* ===== verification/Startup.v ===== *)
(** * Bringing the server up (mobula-cli main.rs, [Command::Serve]; mobula-api lib.rs, [serve])

    What [mobula serve] does, step by step, until it listens: the files it reads,
    the database it opens, the loops it starts. A run is the sequence of these
    steps; whether one works is the host's. What the steps themselves do is in
    [Schema] (opening a database), [Cli] (policy, registry, administrator),
    [Reconcile], [PoolReconcile], [Metering] and [JobHistory] (a pass of each loop). *)

From S2P Require Import Prelude Float64 Core Store Auth Oidc Registry Api AuthLayer Reconcile Gateway Serve Cli.
#[local] Open Scope Z_scope.

(** ** Steps *)

(** A loop runs its pass on every tick of its interval, in seconds. *)
Inductive Loop :=
| ReconcileLoop (limits : option (RateLimits Z)) (interval : Z)
| PoolLoop (interval : Z)
| MeteringLoop (kueue : bool) (interval : Z)
| RefreshLoop (interval : Z).

Inductive Act :=
| ReadPolicy (path : string)
| Discover (path : string) (allow_insecure : bool)
| LoadRegistry (path : string)
| Open (target : DbTarget)
| ReachRay (ns : string)
| ReachDask (ns : string)
| ReachKueue
| CheckRestore
| SeedJobs
| Spawn (l : Loop)
| Bootstrap (db_path : option string)
| Bind (addr : IpAddr)
| Listen.

(** Which steps work here, and what the files hold. *)
Class Host := {
  works : Act -> bool;
  policy_in : string -> PolicyConfig;
  issuer_in : string -> AuthConfig;
  registry_in : string -> ClusterRegistry;
}.

Inductive Failure := Failed (act : Act) | Refused (e : ServeError).
Abbreviation Run := (ST (list Act) Failure).

Definition note (act : Act) : Run unit := fun log => (Ok tt, log ++ [act]).

Section startup.
Context `{Host}.

Definition attempt (act : Act) : Run unit := fun log =>
  ((if works act then Ok tt else Err (Failed act)), log ++ [act]).

(** ** [serve] *)

Definition JOB_REFRESH_INTERVAL_SECS : Z := 30.

(** With the default limits there is no CA bundle to read. *)
Definition serve (addr : IpAddr) (opts : ServeOptions) : Run unit := fun log =>
  match serve_checks addr opts with
  | Err e => (Err (Refused e), log)
  | Ok _ =>
      (_ ← attempt (Bind addr);
       _ ← (if st_store (so_auth opts) then note (Spawn (RefreshLoop JOB_REFRESH_INTERVAL_SECS)) else mret tt);
       attempt Listen) log
  end.

(** ** The command *)

Record ServeArgs := {
  sa_bind : IpAddr;
  sa_registry : option string;
  sa_auth_config : option string;
  sa_dev_allow_unauthenticated : bool;
  sa_allow_insecure_transport : bool;
  sa_kuberay_namespace : option string;
  sa_db : option string;
  sa_reconcile_interval_secs : Z;
  sa_metering_interval_secs : Z;
  sa_local_auth : bool;
  sa_policy : option string;
  sa_demo : bool;
}.

Definition connect_store (db : option string) : Run unit := attempt (Open (db_target db)).

(** The stale-restore check quarantines; neither its answer nor its failure stops
    the start. *)
Definition start_lifecycle (ns : string) (reconcile_secs metering_secs : Z) : Run unit :=
  _ ← attempt (ReachRay ns);
  _ ← attempt (ReachDask ns);
  _ ← note CheckRestore;
  _ ← note (Spawn (ReconcileLoop (Some {| rl_capacity := 20; rl_refill_per_sec := 5 |}) reconcile_secs));
  _ ← attempt ReachKueue;
  _ ← note (Spawn (PoolLoop reconcile_secs));
  note (Spawn (MeteringLoop true metering_secs)).

Definition start_demo (metering_secs : Z) : Run unit :=
  _ ← note SeedJobs;
  _ ← note (Spawn (ReconcileLoop None 2));
  note (Spawn (MeteringLoop false metering_secs)).

Definition optional {A} (path : option string) (none : A) (act : string -> Act) (read : string -> A) : Run A :=
  match path with
  | Some p => _ ← attempt (act p); mret (read p)
  | None => mret none
  end.

(** The store, and whether a lifecycle backs it. *)
Definition bring_up (a : ServeArgs) : Run bool :=
  match sa_kuberay_namespace a with
  | Some ns =>
      _ ← connect_store (sa_db a);
      _ ← start_lifecycle ns (sa_reconcile_interval_secs a) (sa_metering_interval_secs a);
      mret true
  | None =>
      if sa_demo a then
        _ ← connect_store (sa_db a);
        _ ← start_demo (sa_metering_interval_secs a);
        mret true
      else mret false
  end.

(** The bootstrap password goes next to a database that is a file. *)
Definition db_path (a : ServeArgs) : option string :=
  d ← sa_db a;
  match db_target (Some d) with Sqlite _ => Some d | _ => None end.

Definition serve_command (a : ServeArgs) : Run unit :=
  policy ← optional (sa_policy a) default_policy ReadPolicy policy_in;
  validator ← optional (sa_auth_config a) None (fun p => Discover p (sa_allow_insecure_transport a))
                (fun p => Some (issuer_in p));
  registry ← optional (sa_registry a) [] LoadRegistry registry_in;
  started ← bring_up a;
  _ ← (if sa_local_auth a && negb started then connect_store (sa_db a) else mret tt);
  _ ← (if sa_local_auth a then attempt (Bootstrap (db_path a)) else mret tt);
  serve (sa_bind a) {|
    so_auth := {| st_validator := validator; st_local := sa_local_auth a; st_registry := registry;
                  st_store := started || sa_local_auth a |};
    so_allow_unauthenticated := sa_dev_allow_unauthenticated a;
    so_allow_insecure_transport := sa_allow_insecure_transport a;
    so_policy := policy; so_services := started; so_provisioner := started;
    so_limits := default_limits |}.

(** ** What a start may do, and when *)

(** What the command line asks for. *)
Definition to_start (a : ServeArgs) : bool := bool_decide (is_Some (sa_kuberay_namespace a)) || sa_demo a.
Definition options (a : ServeArgs) : ServeOptions :=
  let started := to_start a in {|
    so_auth := {| st_validator := issuer_in <$> sa_auth_config a; st_local := sa_local_auth a;
                  st_registry := default [] (registry_in <$> sa_registry a);
                  st_store := started || sa_local_auth a |};
    so_allow_unauthenticated := sa_dev_allow_unauthenticated a;
    so_allow_insecure_transport := sa_allow_insecure_transport a;
    so_policy := default default_policy (policy_in <$> sa_policy a);
    so_services := started; so_provisioner := started; so_limits := default_limits |}.

(** What must have happened before a step, [pre], and with which arguments it comes. *)
Definition allowed (a : ServeArgs) (pre : list Act) (act : Act) : Prop :=
  let opened := Open (db_target (sa_db a)) in
  match act with
  | Open t => t = db_target (sa_db a) /\ opened ∉ pre
  | Spawn (ReconcileLoop limits _) =>
      opened ∈ pre /\
      match sa_kuberay_namespace a with
      | Some ns => ReachRay ns ∈ pre /\ ReachDask ns ∈ pre /\ CheckRestore ∈ pre /\ is_Some limits
      | None => sa_demo a = true
      end
  | Spawn (PoolLoop _) => opened ∈ pre /\ ReachKueue ∈ pre
  | Spawn (MeteringLoop kueue _) => opened ∈ pre /\ (kueue = true <-> ReachKueue ∈ pre)
  | Spawn (RefreshLoop _) => opened ∈ pre /\ Bind (sa_bind a) ∈ pre
  | Bootstrap path => sa_local_auth a = true /\ opened ∈ pre /\ path = db_path a
  | Bind addr =>
      addr = sa_bind a /\ serve_checks addr (options a) = Ok tt /\
      (st_store (so_auth (options a)) = true -> opened ∈ pre) /\
      (sa_local_auth a = true -> Bootstrap (db_path a) ∈ pre)
  | Listen => Bind (sa_bind a) ∈ pre
  | _ => True
  end.

Definition in_order (a : ServeArgs) (log : list Act) : Prop :=
  forall pre act post, log = pre ++ act :: post -> allowed a pre act.

Lemma in_order_nil a : in_order a [].
Proof. intros pre act post Heq. by destruct pre. Qed.
Lemma in_order_snoc a log act : in_order a log -> allowed a log act -> in_order a (log ++ [act]).
Proof.
  intros Hlog Hact pre act' post Heq. destruct post as [|x post _] using rev_ind.
  - apply app_inj_tail in Heq as [-> ->]. done.
  - rewrite app_comm_cons, app_assoc in Heq. apply app_inj_tail in Heq as [-> _]. eauto.
Qed.

(** ** Every start is in order *)

(** From a log in order where [P] holds, [m] keeps the order and answers [Q]. *)
Definition ordered {A} (a : ServeArgs) (P : list Act -> Prop) (m : Run A) (Q : A -> list Act -> Prop) : Prop :=
  forall log, in_order a log -> P log ->
  let '(r, log') := m log in in_order a log' /\ match r with Ok x => Q x log' | Err _ => True end.

Lemma ordered_ret {A} a (P : list Act -> Prop) (x : A) (Q : A -> list Act -> Prop) :
  (forall log, P log -> Q x log) -> ordered a P (mret x) Q.
Proof. intros HQ log Hlog HP. split; [done|]. by apply HQ. Qed.
Lemma ordered_bind {A B} a P (m : Run A) R (k : A -> Run B) Q :
  ordered a P m R -> (forall x, ordered a (R x) (k x) Q) -> ordered a P (m ≫= k) Q.
Proof.
  intros Hm Hk log Hlog HP. rewrite ST_bind_eq. specialize (Hm log Hlog HP).
  destruct (m log) as [[x|e] log1]; [|done]. destruct Hm. by apply Hk.
Qed.
Lemma ordered_weaken {A} a (P P' : list Act -> Prop) (m : Run A) (Q : A -> list Act -> Prop) :
  (forall log, P log -> P' log) -> ordered a P' m Q -> ordered a P m Q.
Proof. intros HP Hm log Hlog Hp. apply Hm; auto. Qed.
Lemma ordered_pure {A} a (phi : Prop) (P : list Act -> Prop) (m : Run A) (Q : A -> list Act -> Prop) :
  (phi -> ordered a P m Q) -> ordered a (fun log => phi /\ P log) m Q.
Proof. intros Hm log Hlog [Hphi HP]. by apply Hm. Qed.
Lemma ordered_attempt a (P : list Act -> Prop) act (Q : unit -> list Act -> Prop) :
  (forall log, P log -> allowed a log act) -> (forall log, P log -> Q tt (log ++ [act])) ->
  ordered a P (attempt act) Q.
Proof. intros Ha HQ log Hlog HP. cbn. split; [by apply in_order_snoc; auto|]. destruct (works act); auto. Qed.
Lemma ordered_note a (P : list Act -> Prop) act (Q : unit -> list Act -> Prop) :
  (forall log, P log -> allowed a log act) -> (forall log, P log -> Q tt (log ++ [act])) ->
  ordered a P (note act) Q.
Proof. intros Ha HQ log Hlog HP. cbn. split; [by apply in_order_snoc; auto|]. auto. Qed.

(** The reading of files, which comes first. *)
Definition is_read (act : Act) : Prop :=
  match act with ReadPolicy _ | Discover _ _ | LoadRegistry _ => True | _ => False end.

Lemma ordered_optional {A} a path (none : A) act read (P : list Act -> Prop) :
  (forall p, is_read (act p)) -> (forall log p, P log -> P (log ++ [act p])) ->
  ordered a P (optional path none act read) (fun x log => x = default none (read <$> path) /\ P log).
Proof.
  intros Hread HP. destruct path as [p|]; cbn; [|apply ordered_ret; auto].
  eapply ordered_bind; [apply (ordered_attempt _ _ _ (fun _ log => P log)); [|auto]|].
  - intros log _. specialize (Hread p). by destruct (act p).
  - intros []. apply ordered_ret; auto.
Qed.

Lemma reads_only log act : Forall is_read log -> ~ is_read act -> act ∉ log.
Proof. rewrite Forall_forall. intros Hlog Hact Hin. by apply Hact, Hlog. Qed.

(** Peeling one step off a sequence. *)
Ltac peel R := eapply (ordered_bind _ _ _ (fun _ => R)); [first [apply ordered_attempt|apply ordered_note]|intros _].

Abbreviation opened a := (Open (db_target (sa_db a))).
Lemma bring_up_ordered a :
  ordered a (Forall is_read) (bring_up a) (fun started log =>
    started = to_start a /\ (if started then opened a ∈ log else Forall is_read log)).
Proof.
  assert (forall log, Forall is_read log -> allowed a log (opened a)) as Hopen.
  { intros log Hlog. split; [done|]. apply reads_only; [done|intros []]. }
  unfold bring_up, to_start, connect_store, start_lifecycle, start_demo.
  destruct (sa_kuberay_namespace a) as [ns|] eqn:Hns; [|destruct (sa_demo a) eqn:Hdemo].
  - peel (fun log : list Act => opened a ∈ log /\ ReachKueue ∉ log); [done| |].
    { intros log Hlog. split; [set_solver|]. rewrite not_elem_of_app. split; [apply reads_only; [done|intros []]|set_solver]. }
    eapply (ordered_bind _ _ _ (fun _ (log : list Act) => opened a ∈ log)); [|intros _; apply ordered_ret; auto].
    peel (fun log : list Act => opened a ∈ log /\ ReachRay ns ∈ log); [done|set_solver|].
    peel (fun log : list Act => opened a ∈ log /\ ReachRay ns ∈ log /\ ReachDask ns ∈ log); [done|set_solver|].
    peel (fun log : list Act => opened a ∈ log /\ ReachRay ns ∈ log /\ ReachDask ns ∈ log /\ CheckRestore ∈ log); [done|set_solver|].
    peel (fun log : list Act => opened a ∈ log).
    { intros log (? & ? & ? & ?). cbn. rewrite Hns. eauto 6. }
    { set_solver. }
    peel (fun log : list Act => opened a ∈ log /\ ReachKueue ∈ log); [done|set_solver|].
    peel (fun log : list Act => opened a ∈ log /\ ReachKueue ∈ log); [done|set_solver|].
    apply ordered_note; [|set_solver]. by intros log [? ?].
  - peel (fun log : list Act => opened a ∈ log /\ ReachKueue ∉ log); [done| |].
    { intros log Hlog. split; [set_solver|]. rewrite not_elem_of_app. split; [apply reads_only; [done|intros []]|set_solver]. }
    eapply (ordered_bind _ _ _ (fun _ (log : list Act) => opened a ∈ log)); [|intros _; apply ordered_ret; auto].
    peel (fun log : list Act => opened a ∈ log /\ ReachKueue ∉ log); [done|set_solver|].
    peel (fun log : list Act => opened a ∈ log /\ ReachKueue ∉ log); [|set_solver|].
    { intros log [? ?]. cbn. by rewrite Hns. }
    apply ordered_note; [|set_solver]. intros log [? ?]. split; [done|]. split; done.
  - apply ordered_ret; auto.
Qed.

Lemma ordered_read {A} a path (none : A) act read :
  (forall p, is_read (act p)) ->
  ordered a (Forall is_read) (optional path none act read)
    (fun x log => x = default none (read <$> path) /\ Forall is_read log).
Proof.
  intros Hread. apply ordered_optional; [done|]. intros log p Hlog. apply Forall_app. split; [done|].
  by constructor.
Qed.

Lemma serve_ordered a :
  ordered a (fun log => (st_store (so_auth (options a)) = true -> opened a ∈ log) /\
                      (sa_local_auth a = true -> Bootstrap (db_path a) ∈ log))
    (serve (sa_bind a) (options a)) (fun _ log => Listen ∈ log).
Proof.
  intros log Hlog HP. unfold serve. destruct (serve_checks (sa_bind a) (options a)) as [[]|e] eqn:Hc; [|done].
  revert log Hlog HP. change (ordered a (fun log => (st_store (so_auth (options a)) = true -> opened a ∈ log) /\
    (sa_local_auth a = true -> Bootstrap (db_path a) ∈ log))
    (_ ← attempt (Bind (sa_bind a));
     _ ← (if st_store (so_auth (options a)) then note (Spawn (RefreshLoop JOB_REFRESH_INTERVAL_SECS)) else mret tt);
     attempt Listen) (fun _ log => Listen ∈ log)).
  peel (fun log : list Act => (st_store (so_auth (options a)) = true -> opened a ∈ log) /\ Bind (sa_bind a) ∈ log).
  { intros log [Ho Hb]. cbn [allowed]. auto. }
  { set_solver. }
  eapply (ordered_bind _ _ _ (fun _ (log : list Act) => Bind (sa_bind a) ∈ log)).
  - destruct (st_store (so_auth (options a))); [apply ordered_note|apply ordered_ret]; [|set_solver|by intros log []].
    intros log [Ho Hb]. cbn. auto.
  - intros []. apply ordered_attempt; [done|set_solver].
Qed.

Lemma serve_command_ordered a :
  ordered a (fun log => log = []) (serve_command a) (fun _ log => Listen ∈ log).
Proof.
  unfold serve_command. eapply ordered_weaken with (P' := Forall is_read); [by intros log ->|].
  eapply ordered_bind; [by apply ordered_read|]. intros policy. apply ordered_pure. intros ->.
  eapply ordered_bind; [by apply ordered_read|]. intros validator. apply ordered_pure. intros ->.
  eapply ordered_bind; [by apply ordered_read|]. intros registry. apply ordered_pure. intros ->.
  eapply ordered_bind; [apply bring_up_ordered|]. intros started. apply ordered_pure. intros Hstarted.
  eapply (ordered_bind _ _ _ (fun _ (log : list Act) => started || sa_local_auth a = true -> opened a ∈ log)).
  { destruct (sa_local_auth a) eqn:Hl, started; cbn; [apply ordered_ret; auto| |apply ordered_ret; auto|by apply ordered_ret].
    apply ordered_attempt; [|set_solver]. intros log Hlog. split; [done|]. apply reads_only; [done|intros []]. }
  intros _. eapply (ordered_bind _ _ _ (fun _ (log : list Act) =>
    (started || sa_local_auth a = true -> opened a ∈ log) /\
    (sa_local_auth a = true -> Bootstrap (db_path a) ∈ log))).
  { destruct (sa_local_auth a) eqn:Hl; [apply ordered_attempt; [|set_solver]|by apply ordered_ret].
    intros log Hlog. cbn. split_and!; [done|apply Hlog; apply orb_true_r|done]. }
  intros _. subst started. assert (default None ((fun p => Some (issuer_in p)) <$> sa_auth_config a) = issuer_in <$> sa_auth_config a) as ->
    by (by destruct (sa_auth_config a)).
  apply serve_ordered.
Qed.

Lemma attempt_works act log : works act = true -> attempt act log = (Ok tt, log ++ [act]).
Proof. intros Hw. unfold attempt. by rewrite Hw. Qed.

Lemma serve_command_succeeds a log :
  (forall act, works act = true) -> serve_checks (sa_bind a) (options a) = Ok tt ->
  fst (serve_command a log) = Ok tt.
Proof.
  intros Hw Hc. unfold serve_command, optional, bring_up, connect_store, start_lifecycle, start_demo, serve.
  unfold options, to_start in Hc.
  destruct (sa_policy a), (sa_auth_config a), (sa_registry a), (sa_kuberay_namespace a), (sa_demo a), (sa_local_auth a);
    cbn in Hc; unfold mbind, ST_bind, mret, ST_ret, note, attempt; rewrite ?Hw; cbn; rewrite ?Hc; cbn;
    rewrite ?Hw; done.
Qed.

(** Whatever the arguments and whichever steps fail, a start is in order: one
    database is opened at most, the one [--db] names; no loop runs before it is
    open, and no cluster is actuated before both backends answered and the database
    was checked for a stale restore, nor without the rate limit; the server binds
    only what passes the checks of [serve], with the administrator in place when
    local auth is on; and it listens only once bound. If every step works and the
    checks pass it does listen. *)
Theorem startup_in_order a :
  let '(r, log) := serve_command a [] in
  in_order a log /\ (r = Ok tt -> Listen ∈ log) /\
  ((forall act, works act = true) -> serve_checks (sa_bind a) (options a) = Ok tt -> r = Ok tt).
Proof.
  pose proof (serve_command_ordered a [] (in_order_nil a) eq_refl) as Hkeeps.
  pose proof (serve_command_succeeds a []) as Hok.
  destruct (serve_command a []) as [r log]. destruct Hkeeps as [Hlog Hr]. split_and!; [done| |done].
  by intros ->.
Qed.
End startup.

(** ** A run

    A start against Kubernetes whose Kueue client cannot be built: the database is
    open, checked and being reconciled when the command gives up, before it binds. *)
Module StartupRuns.
#[local] Instance host : Host := {|
  works := fun act => match act with ReachKueue => false | _ => true end;
  policy_in := fun _ => default_policy;
  issuer_in := fun _ => demo_config;
  registry_in := fun _ => [] |}.

Definition args : ServeArgs := {|
  sa_bind := V4 [127; 0; 0; 1]; sa_registry := None; sa_auth_config := Some "auth.toml"%string;
  sa_dev_allow_unauthenticated := false; sa_allow_insecure_transport := false;
  sa_kuberay_namespace := Some "ray"%string; sa_db := Some "mobula.db"%string;
  sa_reconcile_interval_secs := 30; sa_metering_interval_secs := 60; sa_local_auth := false;
  sa_policy := None; sa_demo := false |}.

Example kueue_outage_stops_the_start :
  serve_command args [] =
  (Err (Failed ReachKueue),
   [Discover "auth.toml" false; Open (Sqlite "sqlite://mobula.db?mode=rwc"); ReachRay "ray"; ReachDask "ray";
    CheckRestore; Spawn (ReconcileLoop (Some {| rl_capacity := 20; rl_refill_per_sec := 5 |}) 30);
    ReachKueue]).
Proof. vm_compute. reflexivity. Qed.
End StartupRuns.
